(* ===== verification/_CoqProject ===== *)
-Q . S2P
Prelude.v
JsString.v
JsNumber.v
JsMap.v
JsValue.v
ReplayCache.v
ReplayCacheFacts.v
ReplayCacheTheorems.v
TaskControlStream.v
TaskData.v
TaskQueue.v
TaskQueueFacts.v
TaskQueueDurable.v
TaskQueueTheorems.v
TaskRetentionTheorems.v
JsLiveMap.v
SessionStore.v
SessionStoreTheorems.v
JsUri.v
AgentPort.v
JsDecimal.v
AgentPortTheorems.v
HttpRoutePath.v
HttpRoutePolicy.v
HttpRouteCompiler.v
HttpRouteFacts.v
HttpRouteTheorems.v
PolicyRepository.v
McpToolPolicy.v
PolicyCommands.v
PolicyTheorems.v
McpPolicyTheorems.v
HttpRouteProviders.v
NetworkContract.v
NetworkTheorems.v
ManifestContract.v
JsBytes.v
JsJson.v
CanonicalHash.v
CpuQuota.v
JsDouble.v
DoubleExact.v
RuntimePolicy.v
RuntimePolicyTheorems.v
DeclaredLimits.v
LimitResolution.v
ProfileMerge.v
ProfileTheorems.v
RequestHash.v
RequestHashTheorems.v
AgentReference.v
EnableDirective.v
DependencyGraph.v
SsoProvider.v
DependencyWaves.v
DependencyVisit.v
DependencyTraversal.v
DependencyCompleteness.v
DependencyTheorems.v
HardwareOutcome.v
HardwareOutcomeTheorems.v
HardwareAdmission.v
RuntimePolicyLayers.v
HardwareAdmissionTheorems.v
Availability.v
AvailabilitySearch.v
AvailabilityTheorems.v
AvailabilityTotality.v
RelayToken.v
RelayFrames.v
RelayFramesTheorems.v
RelayAuth.v
RelayTokenTheorems.v
RelayAuthTheorems.v
RequestTokens.v
RouterTokens.v
TokenTheorems.v
RelayWorker.v
RelayWorkerFacts.v
RelayWorkerTheorems.v
