(* ===== verification/Prelude.v ===== *)
(** * A verification of parts of the Ploinky router, agents and workspace

    Ploinky runs agents (programs with a manifest) in containers behind a
    router.  The router decides who may reach which HTTP path and call which
    tool; an agent runs the tool calls it receives as tasks of a queue; the
    command line resolves which agents a workspace starts, in which order and
    on which networks.  This library models the decision-making core of the
    three in Rocq, in the shape the JavaScript has: one definition per function,
    method or loop, and proves what makes it correct.  All theorems are proved
    without axioms.

    ** Shared files

    - [Prelude]: [result] (a function that may throw), [stateM] (a method that
      mutates its object and may throw; nothing is rolled back), Hoare triples
      and [preserves] with the hint database of that name, lists.
    - [JsString], [JsDecimal], [JsUri], [JsNumber], [JsMap], [JsLiveMap],
      [JsValue]: UTF-16 strings, decimal texts, URI components, numbers, [Map]
      (as an association list in insertion order, and with its live iterators),
      and the values of JSON and configuration data with their conversions.
    - [JsBytes]: bytes, UTF-8 and base64, each with its round trip.
    - [JsJson], [CanonicalHash]: the text of [JSON.stringify] and what it
      determines, digests of data with sorted keys.
    - [JsDouble], [DoubleExact]: real and double-precision numbers where a
      decision computes with them, and when that computation is exact.

    ** Components

    Each component is one file of definitions, followed by its facts and its
    theorems.

    - Replay caches, [src/Agent/lib/replayCache.mjs]: [ReplayCache] has the
      bounded and the partitioned cache of consumed token identifiers as
      [stateM] actions; [ReplayCacheFacts], [ReplayCacheTheorems].
    - Task control stream, [src/Agent/server/taskControlStream.mjs]:
      [TaskControlStream], a state machine on chunks of standard error, and
      its relation to the lines of the stream.
    - Task queue, [src/Agent/server/TaskQueue.mjs]: [TaskData] (tasks and their
      persisted form), [TaskQueue] (the class, and [queue_step], a step relation
      whose steps are the synchronous runs of the event loop: requests, timers,
      exits of processes, promises, writes); [TaskQueueFacts] and
      [TaskQueueDurable] hold the invariants by induction on reachability,
      [TaskQueueTheorems] and [TaskRetentionTheorems] the theorems and their
      instances.  The section [ToolError] of [TaskData] is the message of a
      failed subprocess, [src/Agent/lib/toolError.mjs].
    - Browser sessions, [src/cli/server/auth/sessionStore.js]: [SessionStore],
      over a [Map] with a persistent iterator; [SessionStoreTheorems].
    - Agent ports, [src/cli/server/agentPortConvention/] and
      [src/cli/server/internalAgentPath.js]: [AgentPort], [AgentPortTheorems].
    - HTTP route access, [src/cli/server/policy/]: [HttpRoutePath] (paths, access
      classes, public protocols), [HttpRoutePolicy] (entries and decisions),
      [HttpRouteCompiler] (partitions of a namespace), [HttpRouteProviders]
      (routes of manifests and who owns them); [HttpRouteFacts],
      [HttpRouteTheorems].
    - The policy document and tools, [src/cli/server/policy/]:
      [PolicyRepository] (an interface [PolicyStateStore] with its contract, the
      repository over it, the in-memory store), [McpToolPolicy] (callers and
      tool decisions), [PolicyCommands] (the commands, and an invocation in two
      phases: it is authorized, waits, and is executed);
      [PolicyTheorems], [McpPolicyTheorems].
    - Manifests: [NetworkContract] ([src/cli/sandbox/networkContract.js]) with
      [NetworkTheorems], [ManifestContract] ([src/cli/utils/manifestAuth.js],
      [src/cli/utils/runtime/manifestStartup.js]), [EnableDirective] (the
      dependency directives of [src/cli/utils/runtime/bootstrapManifest.js]).
    - Dependency graph, [src/cli/utils/workspaceDependencyGraph.js]:
      [DependencyGraph], a traversal in [stateM] that uses the manifest files
      above; [DependencyVisit] (the invariant of its state, the frame of a
      step and what it adds), [DependencyTraversal] (the
      specification of a visit), [DependencyCompleteness] (every entry is
      accounted for), [DependencyWaves] (theory of well-formed graphs),
      [DependencyTheorems].
    - Sign-on provider, [src/cli/utils/runtime/bootstrapManifest.js]:
      [SsoProvider], over the nodes of a graph.
    - Agent references, [src/cli/utils/agentRegistryResolver.js]:
      [AgentReference].
    - Hardware limits, [src/cli/sandbox/hardwareLimits/] and
      [src/cli/sandbox/docker/containerRuntimePolicy.js]: [CpuQuota] (decimal
      CPU counts, their quotas and their texts), [RuntimePolicy] (the policy of a container:
      validation, layers, arguments), [DeclaredLimits] (what a manifest or a
      profile declares), [LimitResolution] (percentages and stored overrides
      against the visible resources), [HardwareOutcome] (typed outcomes and
      their transport on errors), [HardwareAdmission] (requests, facts, refusals
      in order); [RuntimePolicyTheorems],
      [RuntimePolicyLayers], [HardwareOutcomeTheorems],
      [HardwareAdmissionTheorems].
    - Profiles, [src/cli/utils/runtime/profileService.js]: [ProfileMerge]
      (objects merged with spread syntax, the layers of a profile),
      [ProfileTheorems].
    - Availability, [src/cli/sandbox/hardwareLimits/outcomes.mjs]:
      [Availability] (which instances are refused, blocked or eligible over a
      dependency graph); [AvailabilitySearch], [AvailabilityTheorems],
      [AvailabilityTotality].

    - Request hashes, [src/Agent/lib/requestHash.mjs]: [RequestHash] (canonical
      texts of data and the hashes of tool calls, of requests over HTTP and of
      relayed ones), [RequestHashTheorems].
    - Request tokens: [RequestTokens] is the agent's side
      ([src/Agent/lib/requestSignedTokens.mjs], [invocationAuth.mjs],
      [agentAssertion.mjs], [invocation-auth.mjs]): what it accepts, what it
      signs and whom it sees as the caller.  [RouterTokens] is the router's
      ([src/cli/server/security/tokens/] and the identity header of
      [src/cli/server/routerHandlers.js]): the tokens of routed requests, the
      assertions of agents, the grants by which an agent acts for a user.
      [TokenTheorems] composes the two.
    - Relays: [RelayToken] ([src/Agent/lib/relayTokenVerify.mjs], tokens and the
      cache of the consumed ones), [RelayAuth]
      ([src/Agent/lib/relayRequestAuth.mjs], and what mints for it,
      [src/cli/server/runtimeRelay/relayRequestMinter.js]), [RelayFrames]
      ([src/Agent/lib/runtimeRelayProtocol.mjs], the frames and their decoder),
      [RelayWorker] (the [stdio] mode of
      [src/Agent/server/RuntimeHttpRelay.mjs]: a worker as a record, handlers in
      [stateM], what its connections do as the step relation [worker_step]);
      [RelayTokenTheorems], [RelayAuthTheorems], [RelayFramesTheorems],
      [RelayWorkerFacts], [RelayWorkerTheorems].

    The components interact as the modules do: the queue runs the control
    stream and describes its failures; the route policy reads the
    repository's entries; the compiler evaluates the policy; providers parse
    agent-port selectors; commands change the document through the repository;
    the dependency graph merges profiles, parses directives, canonicalizes
    networks, resolves authentication and ends in the alias preflight; declared
    limits are merged across profiles and become the layers of a container's
    policy, whose requests are admitted or refused, and the refusals are spread
    over the dependency graph; the tokens of both directions carry request
    hashes, relay sessions and requests are relay tokens, and the relay worker
    checks them on the frames it decodes.

    ** Theorems

    - Replay caches: a consumed identifier is refused until it expires, unless
      the cache is reset ([replay_refused]); the running total is the number of stored entries and
      the bounds hold ([accounting_exact]); the bounded cache refines a register
      of consumed identifiers ([bounded_refines_register]); callers do not
      affect each other ([callers_isolated]); what is admitted and why a refusal
      happens ([bounded_admits], [refusals_explained]).
    - Control stream: the outputs are those of the lines, however chunks are cut
      ([control_stream_lines]).
    - Task queue, in every reachable state: the limit on running tasks and the
      order of starts ([queue_scheduling]), the life cycle of a task
      ([tasks_move_forward], [executed_at_most_once]), what is left after a
      shutdown ([drained_shutdown]), retention ([append_log_bounded],
      [prune_keeps_newest], [surrogate_tail_exceeds_limit]) and cleanup of
      cancelled runs ([cleanup_needs_absence], [rejected_run_abandons_cleanup]).
    - Sessions: [sweep_finds_expired], [getSession_live],
      [pending_consumed_once].
    - Agent ports: [selector_canonical], [selector_roundtrip],
      [relay_policy_enforced], [internal_paths_detected].
    - Routes: the decision is the most restrictive of the matching entries
      ([evaluate_most_restrictive]); the partitions of a compiled namespace
      predict the decision of every request in it
      ([partitions_predict_decisions], with the exception
      [trailing_slash_not_partitioned]); [private_namespace_sound];
      [manifest_routes_owned].
    - Policy: [document_never_stale], [transactions_fail_closed],
      [tool_call_admitted], [bootstrap_keeps_policy]; the document changes only by
      authorized commands and bootstrapping, in every interleaving
      ([changes_are_authorized], but [removal_of_another_class]).
    - Hardware limits: what a container may be run with
      ([effective_policy_confined]), what its layers request
      ([requests_are_rendered]), exactly when an agent is admitted
      ([admission_exact]), stored limits and percentages
      ([stored_limits_bounded], [memory_percent_exact]), CPU decimals
      ([cpus_exact], [cpus_canonical_roundtrip]), outcomes ([outcomes_valid],
      [transport_keeps_outcome]).
    - Profiles: [profile_limits_merged], [profile_resolution_atomic].
    - Availability: [availability_decided], [only_requirements_block],
      [classification_returns].
    - Workspace: [resolved_graph_sound], [no_dependency_lost],
      [resolution_terminates], [start_tolerates_dependencies], [start_waves_ordered], [wait_modes_split],
      [preflight_exact], [resolver_matches_scan].
    - Request hashes: data have the same hash exactly when they are the same up
      to the order of their fields, unless SHA-256 collides
      ([request_hash_names_data]).
    - Request tokens: an agent accepts what was signed for it and for this
      request ([accepted_request_signed]), and accepts what the router sends
      ([routed_request_accepted]), from which it sees the user the router
      authenticated and no user for a guest ([routed_identity]); an assertion is
      good for one call and target ([assertion_exact]); a grant covers its
      source, targets and tools until it ends ([grant_exact]; with
      [user_prefix_dropped_twice] and [grant_of_nobody] for names that begin
      with a prefix).
    - Relays: a token is accepted once ([relay_token_accepted_once], with the
      interleaving of clock readings that replays it, [relay_token_replayed]);
      what is minted is accepted ([minted_request_accepted]); frames arrive as
      they were sent ([relay_frames_roundtrip]) however the stream is cut
      ([relay_chunks_irrelevant]); connections are granted
      ([relay_connections_granted], but [relay_opens_after_termination]); what is
      said of every request follows the protocol within its limits, and every
      refused frame is answered once ([relay_conversations], but
      [relay_refusal_names_live_request]).

    ** Parameters and hypotheses

    What belongs to the host or to a file system is an argument or a class:
    digests ([digestKey], [Sha256], [Sha256Url]), the JWT libraries of both
    sides ([TokenHost], [JwtSigner], [JwtLibrary]), the secrets that a master
    key gives agents ([SecretHost]), the sockets of a relay ([RelayHost]), the
    parser of its frames ([FrameParser]), [JSON.parse], [StringDecoder] ([Decoder]),
    dates ([Dates]), the executor and the processes of the queue ([QueueEnv]),
    [localeCompare] ([Collation]), the document store ([PolicyStateStore], with
    its documented contract: [StoreContract], and [ExactVersions] for the demand
    that a version identifies the document, which the file store does not meet for
    documents of one size within a tick of its clock), the agents on disk ([AgentCatalog],
    [BareAgents]), the check of the device tools on the host with the texts of
    the language's errors ([MpsTools]), the authorizer of shared routes.
    Clock readings and random identifiers are arguments, in the order the code
    makes them.  Hypotheses about them say what the host documents, and every
    theorem that has one is applied to a concrete instance by its witness.

    ** Fuel

    Structural recursion is used where the code allows it.  Elsewhere fuel is
    computed from the data and enough: the loop of [processQueue] removes a
    pending identifier in each turn; [gap_from] meets more names than are used;
    the waves take at least one node per turn ([wave_grouping]); the blocking
    set grows in each turn but the last ([blocking_iff]); directives nest less
    deeply than their value ([parse_directive_fuel]); a search of [Availability]
    visits a node once; a decimal under the smallest double has fewer leading
    zeros than [leading_zeros] strips, and 17 digits identify a double.  The
    traversal of the
    dependency graph takes its fuel as an argument: [resolution_terminates]
    gives a bound.  [OutOfFuel] is an error of the model alone.

    ** Limits of the model

    - Numbers are integers, the infinities and NaN: neither fractions (but as
      opaque texts in data) nor rounding above 2^53 are represented, except
      where a decision depends on them: there [JsDouble] computes.
    - Case mappings are those of ASCII and Latin-1.
    - Names that prototypes define ([toString] apart, where [String] reads it)
      are not looked up, nor are indices of strings and arrays as property names
      of configuration values.
    - An alias of a directive that is not a string is read as its text.
    - The theorems on relay tokens assume clock readings below 2^50
      milliseconds, those on frames that a frame respects the decoder's limit.
    - HALF_CLOSE of a relay acts on the socket alone.
    - The control stream is compared with its lines where these are shorter than
      4096 units, the partitions of a namespace with the policy where no path has a
      trailing slash or an empty segment.
    - Asynchronous methods that do what their synchronous twins do are not
      represented twice.
    - Texts of messages, console output and audit records are not represented.

    ** Not modelled

    What is left is input and output around the decisions above, or depends on
    services and programs that are not part of the repository: file-system
    stores and locks; HTTP and WebSocket handling, CSRF checks, OAuth and OIDC
    exchanges; container and namespace management
    ([src/cli/sandbox/docker/agentServiceManager.js],
    [src/cli/sandbox/edgeGeneration.js]), whose steps are calls of container
    runtimes; the box supervisor, the container monitor, terminal sessions, the
    dashboard, the command line and its help.  The caches of manifest files
    keyed on modification times are left out, and the authorizer of shared
    routes is an argument of the commands.

    Of the modelled components these parts are left out: the delegations that
    [buildRouteDelegations] adds to the identity header (an argument), the
    asynchronous [verify] of [AgentAssertionService.js] with its fallback to the
    target, the serve mode of the relay, which spawns workers behind a socket,
    and the router's side of its streams
    ([src/cli/server/runtimeRelay/RuntimeRelayManager.js]).  Decisions of the
    same kind outside them, which nothing here uses: the projection of outcomes
    for the router ([src/cli/server/hardwareAvailability.mjs]), the outer
    command line ([src/ploinky-box/command/parse.mjs]), the authentication
    definitions of HTTP routes ([src/cli/server/httpRouteAuth.js]) and the plan of
    edge routes ([src/cli/server/edgeRoutePlan.js]). *)

From stdpp Require Import prelude list sorting.

(** ** Results

    A JavaScript function that may throw is a function to [result E A]; the
    thrown value is a [E]. *)

Inductive result (E A : Type) : Type :=
  | Ok (a : A)
  | Err (e : E).

Arguments Ok {E A} a.
Arguments Err {E A} e.

#[export] Instance result_eq_dec `{EqDecision E, EqDecision A} : EqDecision (result E A).
Proof. solve_decision. Defined.

#[export] Instance result_ret {E} : MRet (result E) := fun A a => Ok a.

#[export] Instance result_bind {E} : MBind (result E) := fun A B f m =>
  match m with
  | Ok a => f a
  | Err e => Err e
  end.

#[export] Instance result_fmap {E} : FMap (result E) := fun A B f m =>
  match m with
  | Ok a => Ok (f a)
  | Err e => Err e
  end.

Definition is_ok {E A} (r : result E A) : bool :=
  match r with
  | Ok _ => true
  | Err _ => false
  end.

(** [try { ... } catch (_) { return d; }] *)
Definition or_else {E A} (r : result E A) (d : A) : A :=
  match r with
  | Ok a => a
  | Err _ => d
  end.

(** Run [f] on every element in order, stopping at the first throw. *)
Fixpoint mapM_result {E A B} (f : A -> result E B) (l : list A) : result E (list B) :=
  match l with
  | [] => Ok []
  | a :: l => b ← f a; bs ← mapM_result f l; Ok (b :: bs)
  end.

(** ** State with exceptions

    A method that mutates the object it belongs to and may throw.  The state
    reached before a throw is kept, as in JavaScript: nothing is rolled back. *)

Definition stateM (S E A : Type) : Type := S -> result E A * S.

#[export] Instance stateM_ret {S E} : MRet (stateM S E) := fun A a s => (Ok a, s).

#[export] Instance stateM_bind {S E} : MBind (stateM S E) := fun A B f m s =>
  match m s with
  | (Ok a, s') => f a s'
  | (Err e, s') => (Err e, s')
  end.

Definition throw {S E A} (e : E) : stateM S E A := fun s => (Err e, s).
Definition lift {S E A} (r : result E A) : stateM S E A := fun s => (r, s).
Definition gets {S E A} (f : S -> A) : stateM S E A := fun s => (Ok (f s), s).
Definition modify {S E} (f : S -> S) : stateM S E unit := fun s => (Ok tt, f s).
Definition skip {S E} : stateM S E unit := fun s => (Ok tt, s).

Lemma result_bind_Ok {E A B} (m : result E A) (f : A -> result E B) b :
  mbind f m = Ok b <-> exists a, m = Ok a /\ f a = Ok b.
Proof. destruct m as [a|e]; simpl; [|by split; [|intros (?&?&_)]]. split; [eauto|]. by intros (? & [= ->] & ?). Qed.

Lemma bind_run {S E A B} (m : stateM S E A) (f : A -> stateM S E B) s a s1 :
  m s = (Ok a, s1) -> mbind f m s = f a s1.
Proof. unfold mbind, stateM_bind. by intros ->. Qed.

Lemma bind_run_Err {S E A B} (m : stateM S E A) (f : A -> stateM S E B) s e s1 :
  m s = (Err e, s1) -> mbind f m s = (Err e, s1).
Proof. unfold mbind, stateM_bind. by intros ->. Qed.

Lemma bind_Ok {S E A B} (m : stateM S E A) (f : A -> stateM S E B) s b s' :
  mbind f m s = (Ok b, s') -> exists a s1, m s = (Ok a, s1) /\ f a s1 = (Ok b, s').
Proof. unfold mbind, stateM_bind. destruct (m s) as [[a|e] s1]; [eauto|done]. Qed.

Lemma bind_lift {S E A B} (r : result E A) (f : A -> stateM S E B) s :
  mbind f (lift r) s =
  match r with
  | Ok a => f a s
  | Err e => (Err e, s)
  end.
Proof. by destruct r. Qed.

Lemma lift_Ok {S E A} (r : result E A) (s s' : S) a : lift r s = (Ok a, s') <-> r = Ok a /\ s' = s.
Proof. unfold lift. split; [by intros [= -> <-]|by intros [-> ->]]. Qed.

Lemma bind_gets {S E A B} (g : S -> A) (f : A -> stateM S E B) s :
  mbind f (gets g) s = f (g s) s.
Proof. done. Qed.

Lemma bind_modify {S E B} (g : S -> S) (f : unit -> stateM S E B) s :
  mbind f (modify g) s = f tt (g s).
Proof. done. Qed.

Lemma skip_Ok {S E} (s s' : S) u : skip (E := E) s = (Ok u, s') -> s' = s.
Proof. by intros [= _ <-]. Qed.

(** ** Hoare triples over [stateM]

    [hoare P m Q]: from a state satisfying [P], [m] ends in a state [s'] with
    result [r] such that [Q r s'], whether it returned or threw. *)

Definition hoare {S E A} (P : S -> Prop) (m : stateM S E A)
    (Q : result E A -> S -> Prop) : Prop :=
  forall s, P s -> Q (fst (m s)) (snd (m s)).

(** A property of the state kept by [m] on every path. *)
Definition preserves {S E A} (I : S -> Prop) (m : stateM S E A) : Prop :=
  forall s, I s -> I (snd (m s)).

Section Hoare.
Context {S E : Type}.

Lemma preserves_ret {A} (I : S -> Prop) (a : A) :
  preserves (E := E) I (mret a).
Proof. by intros s Hs. Qed.

Lemma preserves_throw {A} (I : S -> Prop) (e : E) :
  preserves I (throw (A := A) e).
Proof. by intros s Hs. Qed.

Lemma preserves_lift {A} (I : S -> Prop) (r : result E A) :
  preserves I (lift r).
Proof. by intros s Hs. Qed.

Lemma preserves_gets {A} (I : S -> Prop) (f : S -> A) :
  preserves (E := E) I (gets f).
Proof. by intros s Hs. Qed.

Lemma preserves_skip (I : S -> Prop) : preserves (E := E) I skip.
Proof. by intros s Hs. Qed.

Lemma preserves_modify (I : S -> Prop) (f : S -> S) :
  (forall s, I s -> I (f s)) -> preserves (E := E) I (modify f).
Proof. intros Hf s Hs. by apply Hf. Qed.

Lemma preserves_bind {A B} (I : S -> Prop) (m : stateM S E A)
    (f : A -> stateM S E B) :
  preserves I m -> (forall a, preserves I (f a)) -> preserves I (mbind f m).
Proof.
  intros Hm Hf s Hs. unfold mbind, stateM_bind.
  specialize (Hm s Hs). destruct (m s) as [[a|e] s']; simpl in *; [|done].
  by apply Hf.
Qed.
End Hoare.

(** ** Automation *)

Create HintDb preserves.
#[export] Hint Resolve preserves_ret preserves_throw preserves_lift
  preserves_gets preserves_skip preserves_bind : preserves.

(** Split every [if] and [match] of the goal, keeping the equations. *)
Ltac split_cases := repeat case_match; simplify_eq/=; try done.

(** Turn the boolean tests of the context into propositions. *)
Ltac reflect_bools :=
  repeat match goal with
  | H : (_ && _) = true |- _ => apply andb_true_iff in H as [? ?]
  | H : (_ || _) = false |- _ => apply orb_false_iff in H as [? ?]
  | H : (_ && _) = false |- _ => apply andb_false_iff in H
  | H : (_ || _) = true |- _ => apply orb_true_iff in H
  | H : negb _ = true |- _ => apply negb_true_iff in H
  | H : negb _ = false |- _ => apply negb_false_iff in H
  | H : bool_decide _ = true |- _ => apply bool_decide_eq_true in H
  | H : bool_decide _ = false |- _ => apply bool_decide_eq_false in H
  end.

(** ** Lists *)

Section Lists.
Context {A : Type}.
Implicit Types (l : list A) (f : A -> bool).

(** [Array.prototype.find] *)
Fixpoint find_first f l : option A :=
  match l with
  | [] => None
  | x :: l => if f x then Some x else find_first f l
  end.

Lemma find_first_Some f l x :
  find_first f l = Some x -> x ∈ l /\ f x = true.
Proof.
  induction l as [|y l IH]; simpl; [done|].
  destruct (f y) eqn:Hy; intros ?; simplify_eq; [set_solver|].
  destruct IH; [done|]. set_solver.
Qed.

Lemma find_first_None f l :
  find_first f l = None <-> forall x, x ∈ l -> f x = false.
Proof.
  induction l as [|y l IH]; simpl; [set_solver|].
  destruct (f y) eqn:Hy.
  - split; [done|]. intros H. rewrite H in Hy; [done|set_solver].
  - rewrite IH. set_solver.
Qed.

(** Stdlib's [filter] on a boolean, kept apart from stdpp's. *)
Fixpoint bfilter f l : list A :=
  match l with
  | [] => []
  | x :: l => if f x then x :: bfilter f l else bfilter f l
  end.

Lemma elem_of_bfilter f l x : x ∈ bfilter f l <-> x ∈ l /\ f x = true.
Proof.
  induction l as [|y l IH]; simpl.
  - split; [by intros ?%not_elem_of_nil|]. by intros [?%not_elem_of_nil _].
  - destruct (f y) eqn:Hy; rewrite ?elem_of_cons, IH; split; intros; intuition (subst; auto).
    congruence.
Qed.

Lemma length_bfilter f l : length (bfilter f l) <= length l.
Proof. induction l as [|y l IH]; simpl; [lia|]. destruct (f y); simpl; lia. Qed.

Lemma NoDup_bfilter f l : NoDup l -> NoDup (bfilter f l).
Proof.
  induction 1 as [|y l Hy _ IH]; simpl; [constructor|].
  destruct (f y); [|done]. constructor; [|done].
  rewrite elem_of_bfilter. by intros [??].
Qed.

Lemma bfilter_all f l : (forall x, x ∈ l -> f x = true) -> bfilter f l = l.
Proof.
  induction l as [|y l IH]; simpl; [done|]. intros H.
  rewrite H by set_solver. f_equal. apply IH. set_solver.
Qed.

Lemma bfilter_app f l k : bfilter f (l ++ k) = bfilter f l ++ bfilter f k.
Proof. induction l as [|y l IH]; simpl; [done|]. destruct (f y); simpl; by rewrite IH. Qed.

(** [Array.prototype.sort] with a comparator [le x y]: [x] does not come after
    [y].  Elements that compare equal keep their order. *)
Fixpoint sort_insert (le : A -> A -> bool) (x : A) l : list A :=
  match l with
  | [] => [x]
  | y :: l => if le x y then x :: y :: l else y :: sort_insert le x l
  end.

Definition stable_sort (le : A -> A -> bool) l : list A := foldr (sort_insert le) [] l.

Lemma sort_insert_Permutation le x l : sort_insert le x l ≡ₚ x :: l.
Proof.
  induction l as [|y l IH]; simpl; [done|]. destruct (le x y); [done|].
  rewrite IH. constructor.
Qed.

Lemma stable_sort_Permutation le l : stable_sort le l ≡ₚ l.
Proof. induction l as [|x l IH]; simpl; [done|]. by rewrite sort_insert_Permutation, IH. Qed.

(** An element of greatest measure among those a test selects. *)
Lemma list_argmax (P : A -> bool) (f : A -> nat) l x :
  x ∈ l -> P x = true ->
  exists m, m ∈ l /\ P m = true /\ forall y, y ∈ l -> P y = true -> f y <= f m.
Proof.
  revert x. induction l as [|z l IH]; intros x Hx HP; [by apply not_elem_of_nil in Hx|].
  destruct (existsb P l) eqn:He.
  - apply existsb_exists in He as (w & Hw%list_elem_of_In & HPw).
    destruct (IH w Hw HPw) as (m & Hm & HPm & Hmax).
    destruct (P z && (f m <? f z)) eqn:Hz.
    + apply andb_true_iff in Hz as [Hz ?%Nat.ltb_lt]. exists z. split_and!; [set_solver|done|].
      intros y [->|Hy]%elem_of_cons HPy; [done|]. specialize (Hmax y Hy HPy). lia.
    + exists m. split_and!; [set_solver|done|].
      intros y [->|Hy]%elem_of_cons HPy; [|by apply Hmax].
      rewrite HPy in Hz. apply Nat.ltb_ge in Hz. lia.
  - exists z. assert (forall y, y ∈ l -> P y = true -> False) as Hno.
    { intros y Hy HPy. apply not_true_iff_false in He. apply He, existsb_exists.
      exists y. by split; [apply list_elem_of_In|]. }
    apply elem_of_cons in Hx as [->|Hx]; [|by destruct (Hno x)].
    split_and!; [set_solver|done|]. intros y [->|Hy]%elem_of_cons HPy; [done|by destruct (Hno y)].
Qed.
End Lists.

(** Sorting by a total preorder. *)
Section Sorting.
Context {A : Type} (le : A -> A -> bool).
Hypothesis le_total : forall x y, le x y = false -> le y x = true.
Hypothesis le_trans : forall x y z, le x y = true -> le y z = true -> le x z = true.

Notation sorted := (StronglySorted (fun x y => le x y = true)).

Lemma sort_insert_sorted x l : sorted l -> sorted (sort_insert le x l).
Proof.
  induction 1 as [|y l Hl IH Hy]; simpl; [by repeat constructor|].
  destruct (le x y) eqn:Hxy.
  - constructor; [by constructor|]. constructor; [done|].
    eapply Forall_impl; [exact Hy|]. intros z. by apply le_trans.
  - constructor; [done|]. rewrite sort_insert_Permutation. constructor; [by apply le_total|done].
Qed.

Lemma stable_sort_sorted l : sorted (stable_sort le l).
Proof. induction l; simpl; [constructor|by apply sort_insert_sorted]. Qed.

Lemma stable_sort_id l : sorted l -> stable_sort le l = l.
Proof.
  induction 1 as [|x l Hl IH Hx]; simpl; [done|]. rewrite IH.
  destruct l as [|y l]; [done|]. apply Forall_cons in Hx as [Hx _]. simpl. by rewrite Hx.
Qed.

(** The result does not depend on the order of elements the order tells apart. *)
Lemma stable_sort_unique l m :
  (forall x y, x ∈ l -> y ∈ l -> le x y = true -> le y x = true -> x = y) -> l ≡ₚ m ->
  stable_sort le l = stable_sort le m.
Proof.
  intros Hanti Hp. apply (StronglySorted_unique_strong (fun x y => le x y = true)); try apply stable_sort_sorted.
  - intros x y. rewrite !stable_sort_Permutation, <- Hp. apply Hanti.
  - by rewrite !stable_sort_Permutation.
Qed.
End Sorting.

(** Sorting commutes with a map that keeps the order. *)
Lemma stable_sort_fmap {A B} (le : A -> A -> bool) (le' : B -> B -> bool) (g : A -> B) l :
  (forall x y, le' (g x) (g y) = le x y) -> stable_sort le' (g <$> l) = g <$> stable_sort le l.
Proof.
  intros Hg. induction l as [|x l IH]; [done|]. cbn [fmap list_fmap stable_sort foldr].
  unfold stable_sort in IH. rewrite IH. generalize (foldr (sort_insert le) [] l). intros k.
  induction k as [|y k IHk]; [done|]. cbn [fmap list_fmap sort_insert]. rewrite Hg.
  destruct (le x y); [done|]. cbn [fmap list_fmap]. by rewrite IHk.
Qed.

(** A traversal succeeds with one result per element. *)
Lemma mapM_result_Forall2 {E A B} (f : A -> result E B) l bs :
  mapM_result f l = Ok bs <-> Forall2 (fun a b => f a = Ok b) l bs.
Proof.
  revert bs. induction l as [|a l IH]; intros bs; cbn [mapM_result].
  - split; [intros [= <-]; constructor|by inversion_clear 1].
  - rewrite result_bind_Ok. split.
    + intros (b & Hb & (ks & Hk & [= <-])%result_bind_Ok). constructor; [done|]. by apply IH.
    + intros (b & ks & Hb & Hk & ->)%Forall2_cons_inv_l. exists b. split; [done|].
      apply result_bind_Ok. exists ks. by split; [apply IH|].
Qed.
