(* ===== verification/JsString.v ===== *)
(** JavaScript strings: sequences of UTF-16 code units, with the operations of
    [String.prototype] and the URI component functions the modelled components
    use.  Literals are written between double quotes in [js_scope]. *)

From stdpp Require Import prelude.
From Stdlib Require Import NArith.
From Stdlib Require Strings.Byte.
From S2P Require Import Prelude.

Local Open Scope N_scope.

(** A code unit is an [N] below [2^16]. *)
Definition jstr : Type := list N.

Inductive literal : Type :=
  | LNil
  | LCons (c : N) (l : literal).

Fixpoint literal_of_bytes (l : list Byte.byte) : literal :=
  match l with
  | [] => LNil
  | b :: r => LCons (Byte.to_N b) (literal_of_bytes r)
  end.

Fixpoint literal_to_bytes (l : literal) : option (list Byte.byte) :=
  match l with
  | LNil => Some []
  | LCons c r =>
      match Byte.of_N c, literal_to_bytes r with
      | Some b, Some r => Some (b :: r)
      | _, _ => None
      end
  end.

Declare Scope js_scope.
Delimit Scope js_scope with js.
Bind Scope js_scope with jstr.
String Notation jstr literal_of_bytes literal_to_bytes
  (via literal mapping [[nil] => LNil, [cons] => LCons]) : js_scope.

#[export] Instance jstr_eq_dec : EqDecision jstr := _.
#[export] Instance jstr_countable : countable.Countable jstr := _.

(** [a === b] on strings. *)
Definition jeqb (a b : jstr) : bool := bool_decide (a = b).

Lemma jeqb_eq a b : jeqb a b = true <-> a = b.
Proof. apply bool_decide_eq_true. Qed.

Lemma jeqb_refl a : jeqb a a = true.
Proof. by apply jeqb_eq. Qed.

Lemma jeqb_neq a b : jeqb a b = false <-> a <> b.
Proof. apply bool_decide_eq_false. Qed.

(** [set.has(s)] for a constant set of strings. *)
Definition one_of (s : jstr) (l : list jstr) : bool := existsb (jeqb s) l.

Lemma one_of_elem s l : one_of s l = true <-> s ∈ l.
Proof.
  unfold one_of. rewrite existsb_exists. setoid_rewrite jeqb_eq.
  split; [intros (x & Hx & ->); by apply list_elem_of_In|].
  intros ?%list_elem_of_In. eauto.
Qed.

(** A non-empty string is truthy. *)
Definition truthy (s : jstr) : bool :=
  match s with
  | [] => false
  | _ => true
  end.

Lemma truthy_false s : truthy s = false <-> s = [].
Proof. by destruct s. Qed.

Lemma truthy_true s : truthy s = true <-> s <> [].
Proof. by destruct s. Qed.

(** [a || b] on strings. *)
Definition sor (a b : jstr) : jstr := if truthy a then a else b.

Definition js_length (s : jstr) : nat := length s.

Fixpoint starts_with (s p : jstr) {struct p} : bool :=
  match p, s with
  | [], _ => true
  | c :: p, d :: s => (c =? d) && starts_with s p
  | _ :: _, [] => false
  end.

Definition ends_with (s p : jstr) : bool := starts_with (rev s) (rev p).

(** [s.includes(p)] *)
Fixpoint includes (s p : jstr) : bool :=
  starts_with s p ||
  match s with
  | [] => false
  | _ :: s => includes s p
  end.

(** [s.includes(c)] for a single code unit. *)
Definition has_unit (c : N) (s : jstr) : bool := existsb (N.eqb c) s.

(** [s.indexOf(c)] for a single code unit; [None] is [-1]. *)
Fixpoint index_of (c : N) (s : jstr) : option nat :=
  match s with
  | [] => None
  | d :: s => if d =? c then Some 0%nat else S <$> index_of c s
  end.

(** [s.split(c)] for a single code unit: never empty. *)
Fixpoint split_on (c : N) (s : jstr) : list jstr :=
  match s with
  | [] => [[]]
  | d :: s =>
      if d =? c then [] :: split_on c s
      else match split_on c s with
           | [] => [[d]]
           | w :: ws => (d :: w) :: ws
           end
  end.

(** [words.join(sep)] *)
Fixpoint join (sep : jstr) (ws : list jstr) : jstr :=
  match ws with
  | [] => []
  | [w] => w
  | w :: ws => w ++ sep ++ join sep ws
  end.

(** [s.slice(a, b)] for [0 <= a, b]. *)
Definition slice (a b : nat) (s : jstr) : jstr := take (b - a) (drop a s).

(** [s.slice(0, -n)] *)
Definition drop_last (n : nat) (s : jstr) : jstr := take (length s - n) s.

(** ** White space and case *)

(** The units [trim] removes: WhiteSpace and LineTerminator of ECMA-262. *)
Definition is_space (c : N) : bool :=
  ((9 <=? c) && (c <=? 13)) || (c =? 32) || (c =? 160) || (c =? 5760) ||
  ((8192 <=? c) && (c <=? 8202)) || (c =? 8232) || (c =? 8233) ||
  (c =? 8239) || (c =? 8287) || (c =? 12288) || (c =? 65279).

Fixpoint trim_start (s : jstr) : jstr :=
  match s with
  | c :: r => if is_space c then trim_start r else s
  | [] => []
  end.

Definition trim_end (s : jstr) : jstr := rev (trim_start (rev s)).
Definition trim (s : jstr) : jstr := trim_end (trim_start s).

(** Case mappings of the units that have an ASCII or Latin-1 image; any other
    unit is left as it is. *)
Definition lower_unit (c : N) : jstr :=
  if (65 <=? c) && (c <=? 90) then [c + 32]
  else if (192 <=? c) && (c <=? 222) && negb (c =? 215) then [c + 32]
  else if c =? 304 then [105; 775]
  else if c =? 8490 then [107]
  else if c =? 8491 then [229]
  else [c].

Definition upper_unit (c : N) : jstr :=
  if (97 <=? c) && (c <=? 122) then [c - 32]
  else if (224 <=? c) && (c <=? 254) && negb (c =? 247) then [c - 32]
  else if c =? 223 then [83; 83]
  else if c =? 255 then [376]
  else if c =? 181 then [924]
  else if c =? 305 then [73]
  else if c =? 383 then [83]
  else [c].

Definition to_lower (s : jstr) : jstr := s ≫= lower_unit.
Definition to_upper (s : jstr) : jstr := s ≫= upper_unit.

(** ** Character classes *)

Definition is_digit (c : N) : bool := (48 <=? c) && (c <=? 57).
Definition is_lower (c : N) : bool := (97 <=? c) && (c <=? 122).
Definition is_upper (c : N) : bool := (65 <=? c) && (c <=? 90).
Definition is_alpha (c : N) : bool := is_lower c || is_upper c.
Definition is_alnum (c : N) : bool := is_alpha c || is_digit c.

(** ** Decimal numbers *)

Definition digit_value (c : N) : Z := Z.of_N c - 48.

(** [Number(s)] for a string of decimal digits. *)
Definition decimal_value (s : jstr) : Z :=
  fold_left (fun acc c => acc * 10 + digit_value c)%Z s 0%Z.

Definition is_decimal (s : jstr) : bool := truthy s && forallb is_digit s.

Fixpoint decimal_digits (fuel : nat) (n : N) (acc : jstr) : jstr :=
  match fuel with
  | O => acc
  | S fuel =>
      let acc := (48 + n mod 10) :: acc in
      if n <? 10 then acc else decimal_digits fuel (n / 10) acc
  end.

(** [String(n)] for a natural number; [n] has at most [N.size_nat n] digits. *)
Definition string_of_N (n : N) : jstr := decimal_digits (S (N.size_nat n)) n [].

Definition string_of_Z (z : Z) : jstr :=
  match z with
  | Zneg p => 45 :: string_of_N (Npos p)
  | _ => string_of_N (Z.to_N z)
  end.

(** ** Lemmas *)

Lemma starts_with_spec s p : starts_with s p = true <-> exists r, s = p ++ r.
Proof.
  revert s. induction p as [|c p IH]; intros s; simpl.
  - split; [by exists s|by destruct s].
  - destruct s as [|d s]; simpl.
    + split; [done|]. by intros [??].
    + rewrite andb_true_iff, N.eqb_eq, IH. split.
      * by intros [-> [r ->]]; exists r.
      * intros [r ?]; simplify_eq. eauto.
Qed.

Lemma starts_with_app s p r : starts_with s p = true -> starts_with (s ++ r) p = true.
Proof. rewrite !starts_with_spec. intros [t ->]. exists (t ++ r). by rewrite <-app_assoc. Qed.

Lemma index_of_Some c s i :
  index_of c s = Some i ->
  s = take i s ++ c :: drop (S i) s /\ c ∉ take i s /\ (i < length s)%nat.
Proof.
  revert i. induction s as [|d s IH]; intros i; simpl; [done|].
  destruct (N.eqb_spec d c); intros; simplify_eq/=.
  - split_and!; [done|apply not_elem_of_nil|lia].
  - destruct (index_of c s) as [j|] eqn:Hj; simplify_eq/=.
    destruct (IH j eq_refl) as (Hs & Hn & Hl). split_and!; [by f_equal| |lia].
    apply not_elem_of_cons. split; [by apply not_eq_sym|done].
Qed.

Lemma index_of_None c s : index_of c s = None <-> c ∉ s.
Proof.
  induction s as [|d s IH]; simpl.
  - split; [intros _; apply not_elem_of_nil|done].
  - rewrite not_elem_of_cons, <-IH. destruct (N.eqb_spec d c); subst.
    + split; [done|by intros []].
    + destruct (index_of c s); simpl; split; try done; by intros [??].
Qed.

Lemma index_of_app_Some c s r i :
  index_of c s = Some i -> index_of c (s ++ r) = Some i.
Proof.
  revert i. induction s as [|d s IH]; intros i; simpl; [done|].
  destruct (d =? c); [done|]. destruct (index_of c s); [|done].
  intros; simplify_eq/=. by rewrite (IH _ eq_refl).
Qed.

Lemma index_of_app_None c s r :
  index_of c s = None ->
  index_of c (s ++ r) = (fun i => (length s + i)%nat) <$> index_of c r.
Proof.
  induction s as [|d s IH]; simpl.
  - intros _. by destruct (index_of c r).
  - destruct (d =? c); [done|]. destruct (index_of c s); [done|]. intros _.
    rewrite IH by done. by destruct (index_of c r).
Qed.

Lemma split_on_Some c s i :
  index_of c s = Some i -> split_on c s = take i s :: split_on c (drop (S i) s).
Proof.
  revert i. induction s as [|d s IH]; intros i; simpl; [done|].
  destruct (d =? c); [by intros; simplify_eq/=|].
  destruct (index_of c s) as [j|]; simpl; intros; simplify_eq/=.
  by rewrite (IH j eq_refl).
Qed.

Lemma split_on_None c s : index_of c s = None -> split_on c s = [s].
Proof.
  induction s as [|d s IH]; simpl; [done|].
  destruct (d =? c); [done|]. destruct (index_of c s); [done|]. intros _.
  by rewrite IH.
Qed.

Lemma split_on_nonempty c s : split_on c s <> [].
Proof. destruct s as [|d s]; simpl; [done|]. destruct (d =? c); [done|]. by destruct (split_on c s). Qed.

Lemma index_of_lookup c (s : list N) i : index_of c s = Some i -> s !! i = Some c.
Proof.
  revert i. induction s as [|d s IH]; intros i; simpl; [done|].
  destruct (N.eqb_spec d c); intros; simplify_eq/=; [done|].
  destruct (index_of c s) as [j|]; simplify_eq/=. by apply IH.
Qed.

(** ** UTF-8 size *)

Definition is_high_surrogate (c : N) : bool := (55296 <=? c) && (c <=? 56319).
Definition is_low_surrogate (c : N) : bool := (56320 <=? c) && (c <=? 57343).

(** [Buffer.byteLength(s, 'utf8')]: a surrogate pair takes four bytes, a lone
    surrogate is written as U+FFFD. *)
Fixpoint byte_length (s : jstr) : nat :=
  match s with
  | [] => 0%nat
  | c :: r =>
      if c <? 128 then S (byte_length r)
      else if c <? 2048 then (2 + byte_length r)%nat
      else
        match r with
        | d :: r' =>
            if is_high_surrogate c && is_low_surrogate d then (4 + byte_length r')%nat
            else (3 + byte_length r)%nat
        | [] => 3%nat
        end
  end.

(** [s.replace(/\s+/g, ' ')] *)
Fixpoint collapse_spaces (s : jstr) : jstr :=
  match s with
  | [] => []
  | c :: r =>
      if is_space c then
        match r with
        | d :: _ => if is_space d then collapse_spaces r else 32 :: collapse_spaces r
        | [] => [32]
        end
      else c :: collapse_spaces r
  end.
