(* ===== verification/JsNumber.v ===== *)
(** Numbers as the modelled components use them: integers (milliseconds,
    counts, ports), the infinities and NaN, with JavaScript's arithmetic and
    comparisons.  Fractions and rounding above [2^53] are not represented. *)

From stdpp Require Import prelude.

Local Open Scope Z_scope.

Inductive jnum : Type :=
  | NaN
  | NegInf
  | Fin (z : Z)
  | PosInf.

#[export] Instance jnum_eq_dec : EqDecision jnum.
Proof. solve_decision. Defined.

Declare Scope jnum_scope.
Delimit Scope jnum_scope with jnum.
Bind Scope jnum_scope with jnum.

(** [a < b], [a <= b]: false as soon as one side is NaN. *)
Definition jlt (a b : jnum) : bool :=
  match a, b with
  | NaN, _ | _, NaN => false
  | NegInf, NegInf => false
  | NegInf, _ => true
  | _, NegInf => false
  | Fin x, Fin y => x <? y
  | Fin _, PosInf => true
  | PosInf, _ => false
  end.

Definition jle (a b : jnum) : bool :=
  match a, b with
  | NaN, _ | _, NaN => false
  | NegInf, _ => true
  | _, NegInf => false
  | Fin x, Fin y => x <=? y
  | _, PosInf => true
  | PosInf, _ => false
  end.

Definition jadd (a b : jnum) : jnum :=
  match a, b with
  | NaN, _ | _, NaN => NaN
  | PosInf, NegInf | NegInf, PosInf => NaN
  | PosInf, _ | _, PosInf => PosInf
  | NegInf, _ | _, NegInf => NegInf
  | Fin x, Fin y => Fin (x + y)
  end.

Definition jneg (a : jnum) : jnum :=
  match a with
  | NaN => NaN
  | NegInf => PosInf
  | PosInf => NegInf
  | Fin x => Fin (- x)
  end.

Definition jsub (a b : jnum) : jnum := jadd a (jneg b).

(** [Math.max(a, b)]: NaN as soon as one side is. *)
Definition jmax (a b : jnum) : jnum :=
  match a, b with
  | NaN, _ | _, NaN => NaN
  | _, _ => if jlt a b then b else a
  end.

(** [a || d] for a number: zero and NaN are falsy. *)
Definition jor (a d : jnum) : jnum :=
  match a with
  | NaN => d
  | Fin 0 => d
  | _ => a
  end.

Definition is_finite (a : jnum) : bool :=
  match a with
  | Fin _ => true
  | _ => false
  end.

Definition max_safe_integer : Z := 9007199254740991.

(** [Number.isSafeInteger] *)
Definition is_safe_integer (a : jnum) : bool :=
  match a with
  | Fin z => (Z.abs z <=? max_safe_integer)
  | _ => false
  end.

Infix "<?" := jlt : jnum_scope.
Infix "<=?" := jle : jnum_scope.
Infix "+" := jadd : jnum_scope.
Infix "-" := jsub : jnum_scope.

(** A number that is not NaN is compared totally. *)
Definition ordered (a : jnum) : Prop := a <> NaN.

Ltac jnum_cases :=
  repeat match goal with
  | a : jnum |- _ => destruct a
  end; simpl in *; try done.

Lemma jlt_jle_neg a b : ordered a -> ordered b -> jlt a b = negb (jle b a).
Proof.
  unfold ordered. intros Ha Hb. destruct a, b; simpl; try done.
  by rewrite Z.ltb_antisym.
Qed.

Lemma jlt_trans a b c : jlt a b = true -> jlt b c = true -> jlt a c = true.
Proof. jnum_cases. rewrite !Z.ltb_lt. lia. Qed.

Lemma jle_lt_trans a b c : jle a b = true -> jlt b c = true -> jlt a c = true.
Proof. jnum_cases. rewrite Z.leb_le, !Z.ltb_lt. lia. Qed.

Lemma jlt_le_trans a b c : jlt a b = true -> jle b c = true -> jlt a c = true.
Proof. jnum_cases. rewrite Z.leb_le, !Z.ltb_lt. lia. Qed.

Lemma jle_trans a b c : jle a b = true -> jle b c = true -> jle a c = true.
Proof. jnum_cases. rewrite !Z.leb_le. lia. Qed.

Lemma jlt_irrefl a : jlt a a = false.
Proof. destruct a; simpl; auto. apply Z.ltb_irrefl. Qed.

Lemma jle_refl a : ordered a -> jle a a = true.
Proof. destruct a; simpl; try done. intros _. apply Z.leb_refl. Qed.

Lemma jmax_ordered a b : ordered a -> ordered b -> ordered (jmax a b).
Proof. unfold ordered. destruct a, b; simpl; try done; by case_match. Qed.

Lemma jmax_ge_r a b : ordered a -> ordered b -> jle b (jmax a b) = true.
Proof.
  unfold ordered. intros Ha Hb.
  destruct a as [| |x|], b as [| |y|]; simpl; try done.
  - apply Z.leb_refl.
  - destruct (Z.ltb_spec x y); simpl; apply Z.leb_le; lia.
Qed.

Lemma jmax_ge_l a b : ordered a -> ordered b -> jle a (jmax a b) = true.
Proof.
  unfold ordered. intros Ha Hb.
  destruct a as [| |x|], b as [| |y|]; simpl; try done.
  - apply Z.leb_refl.
  - destruct (Z.ltb_spec x y); simpl; apply Z.leb_le; lia.
Qed.

#[global] Arguments jlt : simpl never.
#[global] Arguments jle : simpl never.
#[global] Arguments jadd : simpl never.
#[global] Arguments jsub : simpl never.
#[global] Arguments jmax : simpl never.
