(* ===== verification/JsMap.v ===== *)
(** The JavaScript [Map]: an association list in insertion order with distinct
    keys.  [map_set] of a present key keeps its position, [map_set] of a new
    key appends, and iteration follows the list.  [to_gmap] forgets the order. *)

From stdpp Require Import prelude gmap.
From S2P Require Import Prelude.

Definition jmap (K V : Type) : Type := list (K * V).

Section JsMap.
Context `{EqDecision K} {V : Type}.
Implicit Types (m : jmap K V) (k : K) (v : V).

Fixpoint map_get k m : option V :=
  match m with
  | [] => None
  | (k', v) :: m => if bool_decide (k' = k) then Some v else map_get k m
  end.

Definition map_has k m : bool :=
  match map_get k m with
  | Some _ => true
  | None => false
  end.

Definition map_delete k m : jmap K V :=
  bfilter (fun e => negb (bool_decide (e.1 = k))) m.

(** Update in place when the key is present, append otherwise. *)
Fixpoint map_set k v m : jmap K V :=
  match m with
  | [] => [(k, v)]
  | (k', v') :: m =>
      if bool_decide (k' = k) then (k', v) :: m else (k', v') :: map_set k v m
  end.

Definition map_keys m : list K := m.*1.
Definition map_values m : list V := m.*2.
Definition map_size m : nat := length m.

(** Every key occurs once: what a [Map] guarantees. *)
Definition map_wf m : Prop := NoDup m.*1.

Lemma map_wf_nil : map_wf [].
Proof. constructor. Qed.

Lemma map_get_None k m : map_get k m = None <-> k ∉ m.*1.
Proof.
  induction m as [|[k' v'] m IH]; csimpl.
  - split; [intros _; apply not_elem_of_nil|done].
  - rewrite not_elem_of_cons. case_bool_decide; subst.
    + split; [done|]. by intros [? _].
    + rewrite IH. split; [|by intros [_ ?]]. by split; [apply not_eq_sym|].
Qed.

Lemma map_get_Some_in k v m : map_get k m = Some v -> (k, v) ∈ m.
Proof.
  induction m as [|[k' v'] m IH]; csimpl; [done|].
  case_bool_decide; intros; simplify_eq; apply elem_of_cons; [by left|].
  right. auto.
Qed.

Lemma map_get_in k v m : map_wf m -> (k, v) ∈ m -> map_get k m = Some v.
Proof.
  unfold map_wf. induction m as [|[k' v'] m IH]; csimpl.
  - by intros _ ?%not_elem_of_nil.
  - rewrite NoDup_cons, elem_of_cons. intros [Hk Hm] [?|Hin]; simplify_eq.
    + by rewrite bool_decide_true.
    + rewrite bool_decide_false; [by apply IH|]. intros ->. apply Hk.
      apply list_elem_of_fmap. by exists (k, v).
Qed.

Lemma map_get_Some_key k v m : map_get k m = Some v -> k ∈ m.*1.
Proof.
  intros H. apply dec_stable. intros Hn%map_get_None. congruence.
Qed.

Lemma map_delete_cons k k' v m :
  map_delete k ((k', v) :: m) =
  if bool_decide (k' = k) then map_delete k m else (k', v) :: map_delete k m.
Proof. unfold map_delete. simpl. by case_bool_decide. Qed.

Lemma map_get_delete_eq k m : map_get k (map_delete k m) = None.
Proof.
  induction m as [|[k' v'] m IH]; csimpl; [done|].
  rewrite map_delete_cons. case_bool_decide; simpl; [done|].
  by rewrite bool_decide_false.
Qed.

Lemma map_get_delete_ne k k' m :
  k <> k' -> map_get k (map_delete k' m) = map_get k m.
Proof.
  intros Hne. induction m as [|[j v] m IH]; csimpl; [done|].
  rewrite map_delete_cons. case_bool_decide; subst; csimpl.
  - by rewrite bool_decide_false.
  - by rewrite IH.
Qed.

Lemma map_get_delete k k' m :
  map_get k (map_delete k' m) = if decide (k = k') then None else map_get k m.
Proof.
  case_decide; subst; [apply map_get_delete_eq|by apply map_get_delete_ne].
Qed.

Lemma map_get_set_eq k v m : map_get k (map_set k v m) = Some v.
Proof.
  induction m as [|[k' v'] m IH]; csimpl.
  - by rewrite bool_decide_true.
  - case_bool_decide as H; simpl; [by rewrite bool_decide_true|].
    by rewrite bool_decide_false.
Qed.

Lemma map_get_set_ne k k' v m :
  k <> k' -> map_get k (map_set k' v m) = map_get k m.
Proof.
  intros Hne. induction m as [|[j v'] m IH]; csimpl.
  - by rewrite bool_decide_false.
  - case_bool_decide; subst; csimpl; [by rewrite !bool_decide_false|].
    by rewrite IH.
Qed.

Lemma map_get_set k k' v m :
  map_get k (map_set k' v m) = if decide (k = k') then Some v else map_get k m.
Proof.
  case_decide; subst; [apply map_get_set_eq|by apply map_get_set_ne].
Qed.

Lemma map_delete_absent k m : map_get k m = None -> map_delete k m = m.
Proof.
  rewrite map_get_None. intros Hk. apply bfilter_all. intros [k' v'] Hin; simpl.
  apply negb_true_iff, bool_decide_eq_false. intros ->. apply Hk.
  apply list_elem_of_fmap. by exists (k, v').
Qed.

Lemma map_set_absent k v m : map_get k m = None -> map_set k v m = m ++ [(k, v)].
Proof.
  induction m as [|[k' v'] m IH]; csimpl; [done|].
  case_bool_decide; [done|]. intros ?. by rewrite IH.
Qed.

Lemma map_delete_sub k m e : e ∈ map_delete k m -> e ∈ m.
Proof. unfold map_delete. rewrite elem_of_bfilter. tauto. Qed.

Lemma map_keys_delete k m : (map_delete k m).*1 = bfilter (fun j => negb (bool_decide (j = k))) m.*1.
Proof.
  induction m as [|[k' v'] m IH]; csimpl; [done|].
  rewrite map_delete_cons. case_bool_decide; csimpl; [done|]. by rewrite IH.
Qed.

Lemma map_wf_delete k m : map_wf m -> map_wf (map_delete k m).
Proof. unfold map_wf. rewrite map_keys_delete. apply NoDup_bfilter. Qed.

Lemma map_keys_set_present k v m : k ∈ m.*1 -> (map_set k v m).*1 = m.*1.
Proof.
  induction m as [|[k' v'] m IH]; csimpl; [by intros ?%not_elem_of_nil|].
  intros Hin. case_bool_decide; subst; csimpl; [done|].
  rewrite IH; [done|]. apply elem_of_cons in Hin as [->|]; done.
Qed.

Lemma map_wf_set k v m : map_wf m -> map_wf (map_set k v m).
Proof.
  unfold map_wf. intros Hm. destruct (decide (k ∈ m.*1)) as [Hin|Hin].
  - by rewrite map_keys_set_present.
  - rewrite map_set_absent by by apply map_get_None.
    rewrite fmap_app. apply NoDup_app. repeat split; [done| |apply NoDup_singleton].
    intros x Hx Hx2. cbn in Hx2. apply list_elem_of_singleton in Hx2 as ->. done.
Qed.

Lemma map_wf_filter f m : map_wf m -> map_wf (bfilter f m).
Proof.
  unfold map_wf. induction m as [|[k v] m IH]; csimpl; [done|].
  rewrite NoDup_cons. intros [Hk Hm]. destruct (f (k, v)); simpl; [|by apply IH].
  constructor; [|by apply IH]. intros Hin. apply Hk.
  apply list_elem_of_fmap in Hin as ([k' v'] & -> & Hin).
  apply elem_of_bfilter in Hin as [? _]. apply list_elem_of_fmap. by exists (k', v').
Qed.

Lemma map_size_delete_le k m : map_size (map_delete k m) <= map_size m.
Proof. apply length_bfilter. Qed.

Lemma map_size_delete k v m :
  map_wf m -> map_get k m = Some v -> S (map_size (map_delete k m)) = map_size m.
Proof.
  unfold map_wf, map_size. induction m as [|[k' v'] m IH]; csimpl; [done|].
  rewrite NoDup_cons, map_delete_cons. intros [Hk Hm].
  case_bool_decide; subst; csimpl; intros Hg.
  - f_equal. rewrite map_delete_absent; [done|]. by apply map_get_None.
  - f_equal. by apply IH.
Qed.

Lemma map_size_set_absent k v m :
  map_get k m = None -> map_size (map_set k v m) = S (map_size m).
Proof. intros H. rewrite map_set_absent by done. unfold map_size. rewrite length_app. simpl. lia. Qed.

Lemma map_size_set_present k v m :
  k ∈ m.*1 -> map_size (map_set k v m) = map_size m.
Proof.
  intros H. unfold map_size. rewrite <- (length_fmap fst (map_set k v m)).
  rewrite <- (length_fmap fst m). by rewrite map_keys_set_present.
Qed.

Lemma map_get_filter f k m :
  map_wf m ->
  map_get k (bfilter f m) = (v ← map_get k m; if f (k, v) then Some v else None).
Proof.
  unfold map_wf. induction m as [|[k' v'] m IH]; csimpl; [done|].
  rewrite NoDup_cons. intros [Hk Hm]. destruct (f (k', v')) eqn:Hf; simpl.
  - case_bool_decide; subst; csimpl; [by rewrite Hf|by apply IH].
  - rewrite IH by done. case_bool_decide; subst; csimpl; [|done].
    rewrite Hf. apply map_get_None in Hk. by rewrite Hk.
Qed.
End JsMap.

(** Every value replaced, the keys kept. *)
Section MapValues.
Context `{EqDecision K} {V : Type}.
Implicit Types (m : jmap K V) (k : K).

Definition map_fmap {W} (f : V -> W) (m : list (K * V)) : jmap K W :=
  List.map (fun e => (e.1, f e.2)) m.

Lemma map_get_fmap {W} (f : V -> W) k m :
  map_get k (map_fmap f m) = f <$> map_get k m.
Proof.
  induction m as [|[k' v] m IH]; csimpl; [done|]. by case_bool_decide.
Qed.

Lemma map_wf_fmap {W} (f : V -> W) m : map_wf m -> NoDup (map_fmap f m).*1.
Proof.
  unfold map_wf. assert ((map_fmap f m).*1 = m.*1) as ->; [|done].
  induction m as [|e m IH]; csimpl; [done|]. by rewrite IH.
Qed.
End MapValues.

Create HintDb jsmap.
#[export] Hint Resolve map_wf_nil map_wf_delete map_wf_set map_wf_filter : jsmap.
#[export] Hint Rewrite @map_get_set_eq @map_get_delete_eq : jsmap.

(** The finite map a [Map] denotes. *)
Definition to_gmap `{Countable K} {V} (m : jmap K V) : gmap K V := list_to_map m.

Section ToGmap.
Context `{Countable K} {V : Type}.
Implicit Types (m : jmap K V).

Lemma lookup_to_gmap m k : to_gmap m !! k = map_get k m.
Proof.
  unfold to_gmap. induction m as [|[k' v'] m IH]; csimpl; [apply lookup_empty|].
  rewrite lookup_insert. case_bool_decide; case_decide; done.
Qed.

Lemma to_gmap_set m k v : to_gmap (map_set k v m) = <[k := v]> (to_gmap m).
Proof.
  apply map_eq. intros j. rewrite lookup_to_gmap, map_get_set, lookup_insert.
  rewrite lookup_to_gmap. repeat case_decide; congruence.
Qed.

Lemma to_gmap_delete m k : to_gmap (map_delete k m) = delete k (to_gmap m).
Proof.
  apply map_eq. intros j. rewrite lookup_to_gmap, map_get_delete, lookup_delete.
  rewrite lookup_to_gmap. repeat case_decide; congruence.
Qed.
End ToGmap.
