(* ===== verification/JsValue.v ===== *)
(** JavaScript values as JSON and configuration data hold them, with the
    language's conversions: truthiness, [String(v)], [Number.parseInt(v, 10)]
    and the reading of own properties. *)

From stdpp Require Import prelude.
From Stdlib Require Import NArith.
From S2P Require Import Prelude JsString JsNumber JsMap.

Local Open Scope js_scope.

(** The errors the language itself throws. *)
Inductive js_error : Type :=
  | TypeError
  | SyntaxError
  | URIError
  | RangeError.

#[export] Instance js_error_eq_dec : EqDecision js_error.
Proof. solve_decision. Defined.

(** [Frac s] is a finite number that is no integer, [s] its decimal text.  An
    object lists its own enumerable properties in order, its keys distinct. *)
Inductive js : Type :=
  | Undefined
  | Null
  | Bool (b : bool)
  | Num (n : jnum)
  | Frac (text : jstr)
  | Str (s : jstr)
  | Arr (l : list js)
  | Obj (l : list (jstr * js)).

#[export] Instance js_inhabited : Inhabited js := populate Undefined.

(** [Boolean(v)] *)
Definition js_truthy (v : js) : bool :=
  match v with
  | Undefined | Null => false
  | Bool b => b
  | Num (Fin 0) | Num NaN => false
  | Num _ | Frac _ => true
  | Str s => truthy s
  | Arr _ | Obj _ => true
  end.

(** [a || b] *)
Definition js_or (a b : js) : js := if js_truthy a then a else b.

(** [a ?? b] *)
Definition js_nullish (a b : js) : js :=
  match a with
  | Undefined | Null => b
  | _ => a
  end.

(** [typeof v === 'object'], [Array.isArray(v)] *)
Definition is_object (v : js) : bool :=
  match v with
  | Null | Arr _ | Obj _ => true
  | _ => false
  end.

Definition is_array (v : js) : bool :=
  match v with
  | Arr _ => true
  | _ => false
  end.

(** [v && typeof v === 'object' && !Array.isArray(v)] *)
Definition is_plain (v : js) : bool :=
  match v with
  | Obj _ => true
  | _ => false
  end.

(** An object or array: [v && typeof v === 'object']. *)
Definition is_truthy_object (v : js) : bool := js_truthy v && is_object v.

(** [v === s], [v === z], [v === b] *)
Definition is_str (v : js) (s : jstr) : bool :=
  match v with
  | Str t => jeqb t s
  | _ => false
  end.

Definition is_num (v : js) (z : Z) : bool :=
  match v with
  | Num (Fin y) => (y =? z)%Z
  | _ => false
  end.

Definition is_bool (v : js) (b : bool) : bool :=
  match v with
  | Bool c => Bool.eqb b c
  | _ => false
  end.

(** [v.k] on a value that is neither [undefined] nor [null], for a name that
    no prototype defines. *)
Definition prop (k : jstr) (v : js) : js :=
  match v with
  | Obj l => default Undefined (map_get k l)
  | _ => Undefined
  end.

(** [v.k], throwing on [undefined] and [null]. *)
Definition member (k : jstr) (v : js) : result js_error js :=
  match v with
  | Undefined | Null => Err TypeError
  | _ => Ok (prop k v)
  end.

(** [v?.k] *)
Definition optional (k : jstr) (v : js) : js :=
  match v with
  | Undefined | Null => Undefined
  | _ => prop k v
  end.

(** [Object.hasOwn(v, k)] for an object. *)
Definition has_own (k : jstr) (v : js) : bool :=
  match v with
  | Obj l => map_has k l
  | _ => false
  end.

(** [typeof v === 'string' ? v : d] *)
Definition str_or (v : js) (d : jstr) : jstr :=
  match v with
  | Str s => s
  | _ => d
  end.

Definition string_of_jnum (n : jnum) : jstr :=
  match n with
  | NaN => "NaN"
  | NegInf => "-Infinity"
  | Fin z => string_of_Z z
  | PosInf => "Infinity"
  end.

(** [String(v)].  Data holds no functions, so an object with an own [toString]
    has no primitive value, and an array with one cannot be written. *)
Fixpoint to_string (v : js) : result js_error jstr :=
  match v with
  | Undefined => Ok "undefined"
  | Null => Ok "null"
  | Bool b => Ok (if b then "true" else "false")
  | Num n => Ok (string_of_jnum n)
  | Frac s => Ok s
  | Str s => Ok s
  | Arr l =>
      ws ← (fix texts (l : list js) : result js_error (list jstr) :=
              match l with
              | [] => Ok []
              | x :: r =>
                  w ← match x with
                      | Undefined | Null => Ok []
                      | _ => to_string x
                      end;
                  ws ← texts r;
                  Ok (w :: ws)
              end) l;
      Ok (join "," ws)
  | Obj l => if map_has "toString" l then Err TypeError else Ok "[object Object]"
  end.

(** [String(v || '').trim()] *)
Definition trimmed_text (v : js) : result js_error jstr :=
  s ← to_string (js_or v (Str [])); Ok (trim s).

(** [String(v ?? '').trim()] *)
Definition trimmed_nullish (v : js) : result js_error jstr :=
  s ← to_string (js_nullish v (Str [])); Ok (trim s).

(** [Number.parseInt(s, 10)]: white space, a sign and the longest run of
    digits; NaN when there is none. *)
Fixpoint take_digits (s : jstr) : jstr :=
  match s with
  | c :: r => if is_digit c then c :: take_digits r else []
  | [] => []
  end.

Definition parse_int (s : jstr) : jnum :=
  let '(neg, s) :=
    match trim_start s with
    | 45%N :: r => (true, r)
    | 43%N :: r => (false, r)
    | r => (false, r)
    end in
  match take_digits s with
  | [] => NaN
  | ds => let z := decimal_value ds in Fin (if neg then - z else z)%Z
  end.

(** [Number.parseInt(v, 10)] *)
Definition parse_int_js (v : js) : result js_error jnum :=
  s ← to_string v; Ok (parse_int s).

Lemma js_or_truthy a b : js_truthy a = true -> js_or a b = a.
Proof. unfold js_or. by intros ->. Qed.

Lemma js_or_falsy a b : js_truthy a = false -> js_or a b = b.
Proof. unfold js_or. by intros ->. Qed.

Lemma is_str_eq v s : is_str v s = true <-> v = Str s.
Proof.
  split.
  - destruct v; simpl; try done. by intros ->%jeqb_eq.
  - intros ->. apply jeqb_refl.
Qed.

Lemma is_num_eq v z : is_num v z = true <-> v = Num (Fin z).
Proof.
  split.
  - destruct v; simpl; try done. destruct n; try done. by intros ->%Z.eqb_eq.
  - intros ->. simpl. apply Z.eqb_refl.
Qed.

Lemma is_bool_eq v b : is_bool v b = true <-> v = Bool b.
Proof. split; [destruct v as [| |c| | | | |]; simpl; try done; by destruct b, c|intros ->; by destruct b]. Qed.
