(* ===== verification/ReplayCache.v ===== *)
(** The fail-closed JWT replay caches of [src/Agent/lib/replayCache.mjs].

    [entry_set] is one insertion-ordered [jti -> expiresAt] map with the time of
    its last full sweep; [bounded] is [createBoundedReplayCache] over one entry
    set; [partitioned] is [createPartitionedReplayCache], a map of entry sets
    keyed by caller with a running [total].  Every method is a [stateM] action,
    so the sweeps made before a refusal are kept, as in the code.

    The clock is an argument: each call receives the number its [now()] returns.
    The SHA-256 digest of [node:crypto] is the parameter [digest].  A caller
    supplied [jti] or key is an [option jstr]; [None] is any value that is not
    a string. *)

From stdpp Require Import prelude gmap.
From S2P Require Import Prelude JsString JsNumber JsMap.

Local Open Scope Z_scope.

Definition REPLAY_CACHE_EXHAUSTED_CODE : jstr := "JWT_REPLAY_CACHE_EXHAUSTED".
Definition REPLAY_QUOTA_EXHAUSTED_CODE : jstr := "PLOINKY_REPLAY_QUOTA_EXHAUSTED".
Definition REPLAY_PARTITION_REQUIRED_CODE : jstr := "PLOINKY_REPLAY_PARTITION_REQUIRED".
Definition REPLAY_PARTITION_INVALID_CODE : jstr := "PLOINKY_REPLAY_PARTITION_INVALID".
Definition REPLAY_CLOCK_INVALID_CODE : jstr := "PLOINKY_REPLAY_CLOCK_INVALID".
Definition REPLAY_JTI_INVALID_CODE : jstr := "PLOINKY_REPLAY_JTI_INVALID".
Definition MAX_JTI_LENGTH : Z := 128.
Definition SWEEP_INTERVAL_MS : jnum := Fin 1000.
Definition MAX_PARTITION_KEY_LENGTH : Z := 512.

(** A thrown error; a [TypeError] of an option check has an empty code. *)
Record replay_error := ReplayError {
  re_code : jstr;
  re_status : option Z
}.

#[export] Instance replay_error_eq_dec : EqDecision replay_error.
Proof. solve_decision. Defined.

Definition capacityExhausted : replay_error :=
  ReplayError REPLAY_CACHE_EXHAUSTED_CODE (Some 503).

Definition quotaExhausted : replay_error :=
  ReplayError REPLAY_QUOTA_EXHAUSTED_CODE (Some 429).

Definition typeError : replay_error := ReplayError [] None.

Definition positiveInteger (value : jnum) : result replay_error Z :=
  match value with
  | Fin z => if is_safe_integer value && (0 <? z) then Ok z else Err typeError
  | _ => Err typeError
  end.

Definition nonNegativeNumber (value : jnum) : result replay_error Z :=
  match value with
  | Fin z => if z <? 0 then Err typeError else Ok z
  | _ => Err typeError
  end.

Definition clockInvalid : replay_error :=
  ReplayError REPLAY_CLOCK_INVALID_CODE (Some 503).

(** The reader [finiteClock] builds, applied to what [now()] returned. *)
Definition finiteClock (reading : jnum) : result replay_error Z :=
  match reading with
  | Fin z => Ok z
  | _ => Err clockInvalid
  end.

Definition assertJti (jti : option jstr) : result replay_error jstr :=
  match jti with
  | Some s =>
      if Z.of_nat (js_length s) <=? MAX_JTI_LENGTH then Ok s
      else Err (ReplayError REPLAY_JTI_INVALID_CODE None)
  | None => Err (ReplayError REPLAY_JTI_INVALID_CODE None)
  end.

(** [Math.max(1, Number(ttlMs) || 1)] *)
Definition retentionMs (ttlMs : jnum) : jnum := jmax (Fin 1) (jor ttlMs (Fin 1)).

Definition legacyMinRetentionMs (maxTtlSeconds clockSkewSeconds marginMs : jnum)
    : result replay_error Z :=
  ttl ← nonNegativeNumber maxTtlSeconds;
  skew ← nonNegativeNumber clockSkewSeconds;
  margin ← nonNegativeNumber marginMs;
  Ok ((ttl + 2 * skew) * 1000 + margin).

Definition replayRefusalStatus (code : jstr) : option Z :=
  if jeqb code REPLAY_QUOTA_EXHAUSTED_CODE then Some 429
  else if jeqb code REPLAY_CACHE_EXHAUSTED_CODE
    || jeqb code REPLAY_CLOCK_INVALID_CODE then Some 503
  else None.

(** ** One entry set *)

Record entry_set := EntrySet {
  entries : jmap jstr jnum;
  lastFullSweepAt : jnum
}.

Definition createEntrySet : entry_set := EntrySet [] NegInf.

Definition isLive (set : option entry_set) (jti : jstr) (currentTime : Z) : bool :=
  match set with
  | None => false
  | Some set =>
      match map_get jti (entries set) with
      | None => false
      | Some expiresAt => jlt (Fin currentTime) expiresAt
      end
  end.

(** The entries left after the expired prefix, and how many were deleted. *)
Fixpoint sweepPrefix (l : jmap jstr jnum) (currentTime : Z) : jmap jstr jnum * Z :=
  match l with
  | [] => ([], 0)
  | (jti, expiresAt) :: r =>
      if jlt (Fin currentTime) expiresAt then (l, 0)
      else let '(r, removed) := sweepPrefix r currentTime in (r, removed + 1)
  end.

Definition sweepExpiredPrefix (set : entry_set) (currentTime : Z) : entry_set * Z :=
  let '(l, removed) := sweepPrefix (entries set) currentTime in
  (EntrySet l (lastFullSweepAt set), removed).

Fixpoint sweepAll (l : jmap jstr jnum) (currentTime : Z) : jmap jstr jnum * Z :=
  match l with
  | [] => ([], 0)
  | (jti, expiresAt) :: r =>
      let '(r, removed) := sweepAll r currentTime in
      if jle expiresAt (Fin currentTime) then (r, removed + 1)
      else ((jti, expiresAt) :: r, removed)
  end.

Definition sweepAllExpired (set : entry_set) (currentTime : Z) : entry_set * Z :=
  let '(l, removed) := sweepAll (entries set) currentTime in
  (EntrySet l (lastFullSweepAt set), removed).

Definition throttledSweep (set : entry_set) (currentTime : Z) : entry_set * Z :=
  if jlt (jsub (Fin currentTime) (lastFullSweepAt set)) SWEEP_INTERVAL_MS
  then (set, 0)
  else sweepAllExpired (EntrySet (entries set) (Fin currentTime)) currentTime.

(** The set with [jti] re-inserted at the end, and 1 when it was absent. *)
Definition storeEntry (set : entry_set) (jti : jstr) (ttlMs : jnum) (currentTime : Z)
    : entry_set * Z :=
  let existing := map_get jti (entries set) in
  let requested := jadd (Fin currentTime) (retentionMs ttlMs) in
  let expiresAt :=
    match existing with
    | Some e => if jlt (Fin currentTime) e then jmax e requested else requested
    | None => requested
    end in
  (EntrySet (map_set jti expiresAt (map_delete jti (entries set))) (lastFullSweepAt set),
   match existing with
   | None => 1
   | Some _ => 0
   end).

Definition set_size (set : entry_set) : Z := Z.of_nat (map_size (entries set)).

(** ** The single bounded cache *)

(** [digestKey value] stands for
    [crypto.createHash('sha256').update(value).digest('base64url')]. *)
Definition entryKey (digestKey : jstr -> jstr) (jti : option jstr) : result replay_error jstr :=
  s ← assertJti jti; Ok (digestKey s).

Record bounded_config := BoundedConfig {
  capacity : Z;
  bounded_floorMs : Z
}.

(** The options [createBoundedReplayCache] accepts. *)
Definition createBoundedReplayCache (maxSize legacyFloorMs : jnum)
    : result replay_error (bounded_config * entry_set) :=
  capacity ← positiveInteger maxSize;
  floorMs ← nonNegativeNumber legacyFloorMs;
  Ok (BoundedConfig capacity floorMs, createEntrySet).

Notation boundedM := (stateM entry_set replay_error).

Definition startCall (reading : jnum) : boundedM Z :=
  currentTime ← lift (finiteClock reading);
  modify (fun set => (sweepExpiredPrefix set currentTime).1);;
  mret currentTime.

Definition set_delete (jti : jstr) (set : entry_set) : entry_set :=
  EntrySet (map_delete jti (entries set)) (lastFullSweepAt set).

Definition bounded_admit (cfg : bounded_config) (jti : jstr) (currentTime : Z) : boundedM unit :=
  live ← gets (fun set => isLive (Some set) jti currentTime);
  if live : bool then skip
  else
    modify (set_delete jti);;
    full ← gets (fun set => capacity cfg <=? set_size set);
    if full : bool then
      modify (fun set => (throttledSweep set currentTime).1);;
      still ← gets (fun set => capacity cfg <=? set_size set);
      if still : bool then throw capacityExhausted else skip
    else skip.

Definition bounded_record (cfg : bounded_config) (jti : jstr) (ttlMs : jnum)
    (currentTime : Z) : boundedM unit :=
  bounded_admit cfg jti currentTime;;
  modify (fun set => (storeEntry set jti ttlMs currentTime).1).

Definition bounded_consume (digestKey : jstr -> jstr) (cfg : bounded_config) (jti : option jstr) (ttlMs reading : jnum)
    : boundedM bool :=
  key ← lift (entryKey digestKey jti);
  currentTime ← startCall reading;
  live ← gets (fun set => isLive (Some set) key currentTime);
  if live : bool then mret false
  else bounded_record cfg key ttlMs currentTime;; mret true.

Definition bounded_seen (digestKey : jstr -> jstr) (jti : option jstr) (reading : jnum) : boundedM bool :=
  key ← lift (entryKey digestKey jti);
  currentTime ← startCall reading;
  gets (fun set => isLive (Some set) key currentTime).

Definition bounded_remember (digestKey : jstr -> jstr) (cfg : bounded_config) (jti : option jstr) (ttlMs reading : jnum)
    : boundedM unit :=
  key ← lift (entryKey digestKey jti);
  currentTime ← startCall reading;
  bounded_record cfg key (jmax (retentionMs ttlMs) (Fin (bounded_floorMs cfg))) currentTime.

Definition bounded_reset : boundedM unit := modify (fun _ => createEntrySet).

Definition bounded_size (reading : jnum) : boundedM Z :=
  startCall reading;; gets set_size.

(** ** The partitioned cache *)

Record partitioned_config := PartitionedConfig {
  globalCapacity : Z;
  quota : Z;
  partitionCapacity : Z;
  floorMs : Z
}.

Record partitioned := Partitioned {
  partitions : jmap jstr entry_set;
  total : Z;
  lastGlobalSweepAt : jnum
}.

Definition emptyPartitioned : partitioned := Partitioned [] 0 NegInf.

Definition createPartitionedReplayCache
    (perCallerMaxSize maxSize maxPartitions legacyFloorMs : jnum)
    : result replay_error (partitioned_config * partitioned) :=
  globalCapacity ← positiveInteger maxSize;
  perCaller ← positiveInteger perCallerMaxSize;
  partitionCapacity ← positiveInteger maxPartitions;
  floorMs ← nonNegativeNumber legacyFloorMs;
  Ok (PartitionedConfig globalCapacity (Z.min perCaller globalCapacity)
        partitionCapacity floorMs,
      emptyPartitioned).

Notation partM := (stateM partitioned replay_error).

Definition with_partitions (f : jmap jstr entry_set -> jmap jstr entry_set)
    (s : partitioned) : partitioned :=
  Partitioned (f (partitions s)) (total s) (lastGlobalSweepAt s).

Definition add_total (n : Z) (s : partitioned) : partitioned :=
  Partitioned (partitions s) (total s + n) (lastGlobalSweepAt s).

Definition is_empty_set (set : entry_set) : bool := set_size set =? 0.

(** [deleteIfEmpty(key, set)]: every call passes the set stored under [key]. *)
Definition deleteIfEmpty (key : jstr) : partM unit :=
  modify (with_partitions (fun ps =>
    match map_get key ps with
    | Some set => if is_empty_set set then map_delete key ps else ps
    | None => ps
    end)).

Definition pruneEmptyPartitions : partM unit :=
  modify (with_partitions (bfilter (fun e => negb (is_empty_set e.2)))).

(** The loop of [throttledGlobalSweep]: the partitions left and the number of
    deleted entries. *)
Fixpoint sweepPartitions (ps : jmap jstr entry_set) (currentTime : Z)
    : jmap jstr entry_set * Z :=
  match ps with
  | [] => ([], 0)
  | (key, set) :: ps =>
      let '(set, removed) := sweepAllExpired set currentTime in
      let '(ps, others) := sweepPartitions ps currentTime in
      (if is_empty_set set then ps else (key, set) :: ps, removed + others)
  end.

Definition throttledGlobalSweep (currentTime : Z) : partM unit :=
  modify (fun s =>
    if jlt (jsub (Fin currentTime) (lastGlobalSweepAt s)) SWEEP_INTERVAL_MS then s
    else
      let '(ps, removed) := sweepPartitions (partitions s) currentTime in
      Partitioned ps (total s - removed) (Fin currentTime)).

(** Run [f] on the set under [key] and subtract what it removed. *)
Definition sweep_partition (key : jstr) (f : entry_set -> entry_set * Z) : partM unit :=
  modify (fun s =>
    match map_get key (partitions s) with
    | None => s
    | Some set =>
        let '(set, removed) := f set in
        add_total (- removed) (with_partitions (map_set key set) s)
    end).

Definition partition_of (key : jstr) : partM (option entry_set) :=
  gets (fun s => map_get key (partitions s)).

Definition currentPartition (key : jstr) (currentTime : Z) : partM (option entry_set) :=
  set ← partition_of key;
  match set with
  | None => mret None
  | Some _ =>
      sweep_partition key (fun set => sweepExpiredPrefix set currentTime);;
      deleteIfEmpty key;;
      partition_of key
  end.

Definition table_full (cfg : partitioned_config) (key : jstr) (s : partitioned) : bool :=
  negb (map_has key (partitions s)) &&
  (partitionCapacity cfg <=? Z.of_nat (map_size (partitions s))).

Definition quota_full (cfg : partitioned_config) (key : jstr) (s : partitioned) : bool :=
  match map_get key (partitions s) with
  | None => false
  | Some set => quota cfg <=? set_size set
  end.

(** The three refusals of [admitNewEntry], each after the sweeps that may make
    room. *)
Definition admit_table (cfg : partitioned_config) (key : jstr) (currentTime : Z) : partM unit :=
  noRoom ← gets (table_full cfg key);
  if noRoom : bool then
    pruneEmptyPartitions;;
    throttledGlobalSweep currentTime;;
    still ← gets (table_full cfg key);
    if still : bool then throw capacityExhausted else skip
  else skip.

Definition admit_quota (cfg : partitioned_config) (key : jstr) (currentTime : Z) : partM unit :=
  overQuota ← gets (quota_full cfg key);
  if overQuota : bool then
    sweep_partition key (fun set => throttledSweep set currentTime);;
    still ← gets (quota_full cfg key);
    if still : bool then throw quotaExhausted else deleteIfEmpty key
  else skip.

Definition admit_total (cfg : partitioned_config) (currentTime : Z) : partM unit :=
  full ← gets (fun s => globalCapacity cfg <=? total s);
  if full : bool then
    throttledGlobalSweep currentTime;;
    still ← gets (fun s => globalCapacity cfg <=? total s);
    if still : bool then throw capacityExhausted else skip
  else skip.

Definition admitNewEntry (cfg : partitioned_config) (key : jstr) (currentTime : Z) : partM unit :=
  admit_table cfg key currentTime;;
  admit_quota cfg key currentTime;;
  admit_total cfg currentTime.

Definition store (key jti : jstr) (ttlMs : jnum) (currentTime : Z) : partM unit :=
  modify (fun s =>
    match map_get key (partitions s) with
    | None => s
    | Some set =>
        let '(set, added) := storeEntry set jti ttlMs currentTime in
        add_total added (with_partitions (map_set key set) s)
    end).

Definition ensurePartition (key : jstr) : partM unit :=
  modify (with_partitions (fun ps =>
    if map_has key ps then ps else map_set key createEntrySet ps)).

(** [existing.entries.delete(jti)] with its bookkeeping. *)
Definition drop_stale (key jti : jstr) : partM unit :=
  set ← partition_of key;
  match set with
  | Some set =>
      if map_has jti (entries set) then
        modify (with_partitions (map_set key (set_delete jti set)));;
        modify (add_total (-1));;
        deleteIfEmpty key
      else skip
  | None => skip
  end.

Definition record (cfg : partitioned_config) (key jti : jstr) (ttlMs : jnum)
    (currentTime : Z) : partM unit :=
  existing ← currentPartition key currentTime;
  if isLive existing jti currentTime then store key jti ttlMs currentTime
  else
    drop_stale key jti;;
    admitNewEntry cfg key currentTime;;
    ensurePartition key;;
    store key jti ttlMs currentTime.

Definition partitionInvalid : replay_error :=
  ReplayError REPLAY_PARTITION_INVALID_CODE None.

Definition assertPartitionKey (key : option jstr) : result replay_error jstr :=
  match key with
  | Some s =>
      if negb (truthy s) || (MAX_PARTITION_KEY_LENGTH <? Z.of_nat (js_length s))
      then Err partitionInvalid else Ok s
  | None => Err partitionInvalid
  end.

(** [forCaller(callerKey)]: the key the returned view keeps. *)
Definition forCaller (digestKey : jstr -> jstr) (callerKey : option jstr) : result replay_error jstr :=
  s ← assertPartitionKey callerKey; Ok (digestKey s).

Definition view_consume (digestKey : jstr -> jstr) (cfg : partitioned_config) (key : jstr) (jti : option jstr)
    (ttlMs reading : jnum) : partM bool :=
  entry ← lift (entryKey digestKey jti);
  currentTime ← lift (finiteClock reading);
  set ← currentPartition key currentTime;
  if isLive set entry currentTime then mret false
  else record cfg key entry ttlMs currentTime;; mret true.

Definition view_seen (digestKey : jstr -> jstr) (key : jstr) (jti : option jstr) (reading : jnum) : partM bool :=
  entry ← lift (entryKey digestKey jti);
  currentTime ← lift (finiteClock reading);
  set ← currentPartition key currentTime;
  mret (isLive set entry currentTime).

Definition view_remember (digestKey : jstr -> jstr) (cfg : partitioned_config) (key : jstr) (jti : option jstr)
    (ttlMs reading : jnum) : partM unit :=
  entry ← lift (entryKey digestKey jti);
  currentTime ← lift (finiteClock reading);
  record cfg key entry (jmax (retentionMs ttlMs) (Fin (floorMs cfg))) currentTime.

(** The root [consume], [seen] and [remember]. *)
Definition partitionRequired {A} : partM A :=
  throw (ReplayError REPLAY_PARTITION_REQUIRED_CODE (Some 503)).

Definition partitioned_reset : partM unit := modify (fun _ => emptyPartitioned).

Definition stats : partM (Z * Z) :=
  gets (fun s => (Z.of_nat (map_size (partitions s)), total s)).
