(* ===== verification/ReplayCacheFacts.v ===== *)
(** Lemmas on the replay caches: sweeps drop expired entries only, and the
    bookkeeping of the partitioned cache follows every sweep and store. *)

From stdpp Require Import prelude gmap.
From S2P Require Import Prelude JsString JsNumber JsMap ReplayCache.

Local Open Scope Z_scope.
#[local] Arguments set_size : simpl never.
#[local] Arguments storeEntry : simpl never.

(** ** Sweeps of one entry set *)

(** [swept t set set' n]: [set'] is [set] without [n] entries, none of which
    was live at [t]. *)
Record swept (t : Z) (set set' : entry_set) (removed : Z) : Prop := {
  swept_sub : forall k e, map_get k (entries set') = Some e -> map_get k (entries set) = Some e;
  swept_live : forall k e, map_get k (entries set) = Some e -> jlt (Fin t) e = true ->
    map_get k (entries set') = Some e;
  swept_wf : map_wf (entries set) -> map_wf (entries set');
  swept_size : set_size set = set_size set' + removed;
  swept_pos : 0 <= removed
}.

Lemma swept_refl t set : swept t set set 0.
Proof. split; auto; lia. Qed.

Lemma swept_stamp t l at1 at2 : swept t (EntrySet l at1) (EntrySet l at2) 0.
Proof. split; auto; unfold set_size; simpl; lia. Qed.

Lemma swept_trans t a b c n m : swept t a b n -> swept t b c m -> swept t a c (n + m).
Proof.
  intros [A1 A2 A3 A4 A5] [B1 B2 B3 B4 B5].
  split; eauto; lia.
Qed.

Lemma jle_not_lt a t : jle a (Fin t) = true -> jlt (Fin t) a = false.
Proof.
  destruct a as [| |z|]; simpl; try done. intros H%Z.leb_le. apply Z.ltb_ge. lia.
Qed.

Lemma sweepPrefix_suffix l t l' n :
  sweepPrefix l t = (l', n) ->
  exists d, l = d ++ l' /\ n = Z.of_nat (length d) /\
    Forall (fun e => jlt (Fin t) e.2 = false) d.
Proof.
  revert l' n. induction l as [|[k e] l IH]; simpl; intros l' n H; simplify_eq.
  - exists []. split_and!; [done|done|constructor].
  - destruct (jlt (Fin t) e) eqn:He; simplify_eq.
    + exists []. split_and!; [done|done|constructor].
    + destruct (sweepPrefix l t) as [r m]; simplify_eq.
      destruct (IH l' m eq_refl) as (d & -> & -> & Hd).
      exists ((k, e) :: d). simpl. split_and!; [done|lia|by constructor].
Qed.

Lemma map_get_app_r {V} (d l : jmap jstr V) k :
  map_wf (d ++ l) -> k ∈ l.*1 -> map_get k (d ++ l) = map_get k l.
Proof.
  unfold map_wf. rewrite fmap_app, NoDup_app. intros (_ & Hd & _) Hk.
  induction d as [|[j v] d IH]; [done|]. csimpl.
  rewrite bool_decide_false.
  - apply IH. intros x Hx. apply Hd. csimpl. by apply elem_of_cons; right.
  - intros ->. apply (Hd k); [|done]. csimpl. by apply elem_of_cons; left.
Qed.

Lemma map_get_app_l {V} (d l : jmap jstr V) k :
  k ∉ d.*1 -> map_get k (d ++ l) = map_get k l.
Proof.
  induction d as [|[j v] d IH]; csimpl; [done|].
  rewrite not_elem_of_cons. intros [Hj Hd]. rewrite bool_decide_false by congruence.
  by apply IH.
Qed.

Lemma sweepExpiredPrefix_swept set t :
  map_wf (entries set) ->
  swept t set (sweepExpiredPrefix set t).1 (sweepExpiredPrefix set t).2.
Proof.
  intros Hwf. unfold sweepExpiredPrefix.
  destruct (sweepPrefix (entries set) t) as [l n] eqn:Hs; simpl.
  apply sweepPrefix_suffix in Hs as (d & Hl & -> & Hd).
  destruct set as [l0 at0]; simpl in *; subst l0. split; simpl.
  - intros k e Hk. rewrite map_get_app_r; [done|done|by eapply map_get_Some_key].
  - intros k e Hk Hlt. destruct (decide (k ∈ d.*1)) as [Hin|Hin].
    + apply map_get_Some_in, elem_of_app in Hk as [Hk|Hk].
      * rewrite Forall_forall in Hd. apply Hd in Hk. simpl in Hk. congruence.
      * apply map_get_in; [|done]. unfold map_wf in *.
        rewrite fmap_app, NoDup_app in Hwf. tauto.
    + by rewrite map_get_app_l in Hk.
  - unfold map_wf. rewrite fmap_app, NoDup_app. tauto.
  - unfold set_size, map_size. simpl. rewrite length_app. lia.
  - lia.
Qed.

Lemma sweepAll_filter l t :
  (sweepAll l t).1 = bfilter (fun e => negb (jle e.2 (Fin t))) l /\
  Z.of_nat (length l) = Z.of_nat (length (sweepAll l t).1) + (sweepAll l t).2 /\
  0 <= (sweepAll l t).2.
Proof.
  induction l as [|[k e] l (IH1 & IH2 & IH3)]; simpl; [split_and!; [done|lia|lia]|].
  destruct (sweepAll l t) as [r n]; simpl in *.
  destruct (jle e (Fin t)); simpl; split_and!; try lia; congruence.
Qed.

Lemma sweepAllExpired_swept set t :
  map_wf (entries set) ->
  swept t set (sweepAllExpired set t).1 (sweepAllExpired set t).2.
Proof.
  intros Hwf. unfold sweepAllExpired.
  destruct (sweepAll_filter (entries set) t) as (H1 & H2 & H3).
  destruct (sweepAll (entries set) t) as [l n]; simpl in *; subst l.
  split; simpl.
  - intros k e. rewrite map_get_filter by done.
    destruct (map_get k (entries set)); simpl; [|done]. by case_match.
  - intros k e Hk Hlt. rewrite map_get_filter, Hk by done. simpl.
    destruct (jle e (Fin t)) eqn:He; [|done].
    apply jle_not_lt in He. congruence.
  - intros. by apply map_wf_filter.
  - unfold set_size, map_size. simpl. lia.
  - done.
Qed.

Lemma throttledSweep_swept set t :
  map_wf (entries set) ->
  swept t set (throttledSweep set t).1 (throttledSweep set t).2.
Proof.
  intros Hwf. unfold throttledSweep. case_match; [apply swept_refl|].
  destruct set as [l at0]; simpl in *.
  apply (swept_trans t _ (EntrySet l (Fin t)) _ 0); [apply swept_stamp|].
  by apply sweepAllExpired_swept.
Qed.

Lemma set_delete_swept set t jti :
  map_wf (entries set) -> isLive (Some set) jti t = false ->
  swept t set (set_delete jti set)
    (if map_has jti (entries set) then 1 else 0).
Proof.
  intros Hwf Hlive. unfold set_delete, map_has. simpl in Hlive. split; simpl.
  - intros k e. rewrite map_get_delete. by case_decide.
  - intros k e Hk Hlt. rewrite map_get_delete. case_decide; subst; [|done].
    rewrite Hk in Hlive. congruence.
  - apply map_wf_delete.
  - unfold set_size. simpl. destruct (map_get jti (entries set)) eqn:Hg.
    + apply (map_size_delete jti) in Hg; [lia|done].
    + rewrite map_delete_absent by done. lia.
  - case_match; lia.
Qed.

(** ** Stores *)

Lemma retentionMs_ordered ttlMs : ordered (retentionMs ttlMs).
Proof. apply jmax_ordered; [done|]. by destruct ttlMs as [| |[]|]. Qed.

Lemma requested_ordered t ttlMs : ordered (jadd (Fin t) (retentionMs ttlMs)).
Proof.
  pose proof (retentionMs_ordered ttlMs) as H.
  by destruct (retentionMs ttlMs).
Qed.

(** The expiry [storeEntry] writes: at least the requested one, and at least a
    live one already stored. *)
Lemma storeEntry_get set jti ttlMs t :
  exists e, map_get jti (entries (storeEntry set jti ttlMs t).1) = Some e /\
    jle (jadd (Fin t) (retentionMs ttlMs)) e = true /\
    (forall e0, map_get jti (entries set) = Some e0 -> jlt (Fin t) e0 = true -> jle e0 e = true).
Proof.
  unfold storeEntry; cbn -[jlt jmax jadd]. rewrite map_get_set_eq. eexists. split; [done|].
  pose proof (requested_ordered t ttlMs) as Ho. split.
  - destruct (map_get jti (entries set)) as [e0|]; [|by apply jle_refl].
    destruct (jlt (Fin t) e0) eqn:Hl; [|by apply jle_refl].
    apply jmax_ge_r; [|done]. by destruct e0.
  - intros e0 -> Hl. rewrite Hl. apply jmax_ge_l; [|done]. by destruct e0.
Qed.

Lemma storeEntry_get_ne set jti jti' ttlMs t :
  jti' <> jti ->
  map_get jti' (entries (storeEntry set jti ttlMs t).1) = map_get jti' (entries set).
Proof.
  intros. unfold storeEntry; cbn -[jlt jmax jadd].
  by rewrite map_get_set_ne, map_get_delete_ne.
Qed.

Lemma storeEntry_wf set jti ttlMs t :
  map_wf (entries set) -> map_wf (entries (storeEntry set jti ttlMs t).1).
Proof. intros. unfold storeEntry; cbn -[jlt jmax jadd]. auto with jsmap. Qed.

Lemma storeEntry_size set jti ttlMs t :
  map_wf (entries set) ->
  set_size (storeEntry set jti ttlMs t).1 = set_size set + (storeEntry set jti ttlMs t).2 /\
  (storeEntry set jti ttlMs t).2 =
    (if map_has jti (entries set) then 0 else 1).
Proof.
  intros Hwf. unfold storeEntry, set_size, map_has; simpl.
  rewrite map_size_set_absent by apply map_get_delete_eq.
  destruct (map_get jti (entries set)) eqn:Hg; (split; [|done]).
  - apply (map_size_delete jti) in Hg; [|done]. lia.
  - rewrite map_delete_absent by done. lia.
Qed.

(** ** The partition table *)

Fixpoint sum_sizes (ps : jmap jstr entry_set) : Z :=
  match ps with
  | [] => 0
  | (_, set) :: ps => set_size set + sum_sizes ps
  end.

Lemma set_size_nonneg set : 0 <= set_size set.
Proof. unfold set_size. lia. Qed.

Lemma sum_sizes_app ps qs : sum_sizes (ps ++ qs) = sum_sizes ps + sum_sizes qs.
Proof. induction ps as [|[k s] ps IH]; simpl; [done|]. lia. Qed.

Lemma sum_sizes_delete key set ps :
  map_wf ps -> map_get key ps = Some set ->
  sum_sizes (map_delete key ps) = sum_sizes ps - set_size set.
Proof.
  unfold map_wf. induction ps as [|[k s] ps IH]; csimpl; [done|].
  rewrite NoDup_cons, map_delete_cons. intros [Hk Hps].
  case_bool_decide; subst; intros Hg; simplify_eq.
  - rewrite map_delete_absent by by apply map_get_None. lia.
  - simpl. rewrite IH by done. lia.
Qed.

Lemma sum_sizes_set key set set' ps :
  map_wf ps -> map_get key ps = Some set ->
  sum_sizes (map_set key set' ps) = sum_sizes ps - set_size set + set_size set'.
Proof.
  unfold map_wf. induction ps as [|[k s] ps IH]; csimpl; [done|].
  rewrite NoDup_cons. intros [Hk Hps].
  case_bool_decide; subst; intros Hg; simplify_eq; simpl; [lia|].
  rewrite IH by done. lia.
Qed.

Lemma sum_sizes_filter_empty ps :
  sum_sizes (bfilter (fun e => negb (is_empty_set e.2)) ps) = sum_sizes ps.
Proof.
  unfold is_empty_set. induction ps as [|[k s] ps IH]; simpl; [done|].
  destruct (Z.eqb_spec (set_size s) 0) as [->|]; simpl; lia.
Qed.

(** The expiry stored for [jti] in the partition of [key]. *)
Definition pget (s : partitioned) (key jti : jstr) : option jnum :=
  set ← map_get key (partitions s); map_get jti (entries set).

Definition pwf (s : partitioned) : Prop :=
  map_wf (partitions s) /\
  forall key set, map_get key (partitions s) = Some set -> map_wf (entries set).

(** What any sequence of sweeps made at time [t] does to the table: nothing
    live is lost, nothing is added, no partition grows, and [total] moves with
    the number of stored entries. *)
Record pswept (t : Z) (s s' : partitioned) : Prop := {
  ps_sub : forall key jti e, pget s' key jti = Some e -> pget s key jti = Some e;
  ps_live : forall key jti e, pget s key jti = Some e -> jlt (Fin t) e = true ->
    pget s' key jti = Some e;
  ps_shrink : forall key set', map_get key (partitions s') = Some set' ->
    exists set, map_get key (partitions s) = Some set /\ set_size set' <= set_size set;
  ps_acct : total s' - sum_sizes (partitions s') = total s - sum_sizes (partitions s);
  ps_total : total s' <= total s;
  ps_wf : pwf s'
}.

Lemma pswept_refl t s : pwf s -> pswept t s s.
Proof.
  intros. split; eauto; try lia. intros key set Hg. exists set. split; [done|lia].
Qed.

Lemma pswept_trans t a b c : pswept t a b -> pswept t b c -> pswept t a c.
Proof.
  intros [A1 A2 A3 A4 A5 A6] [B1 B2 B3 B4 B5 B6].
  split; eauto; try lia.
  intros key set' H. apply B3 in H as (set & H & ?).
  apply A3 in H as (set0 & ? & ?). exists set0. split; [done|lia].
Qed.

Definition sweeping {A} (t : Z) (m : partM A) : Prop :=
  forall s, pwf s -> pswept t s (m s).2.

Section Sweeping.
Context (t : Z).

Lemma sweeping_pure {A} (f : partitioned -> result replay_error A) :
  sweeping t (fun s => (f s, s)).
Proof. intros s Hs. by apply pswept_refl. Qed.

Lemma sweeping_bind {A B} (m : partM A) (f : A -> partM B) :
  sweeping t m -> (forall a, sweeping t (f a)) -> sweeping t (mbind f m).
Proof.
  intros Hm Hf s Hs. specialize (Hm s Hs). unfold mbind, stateM_bind.
  destruct (m s) as [[a|e] s']; simpl in *; [|done].
  eapply pswept_trans; [done|]. apply Hf. apply Hm.
Qed.

Lemma pget_set_eq s key set jti :
  pget (with_partitions (map_set key set) s) key jti = map_get jti (entries set).
Proof. unfold pget; simpl. by rewrite map_get_set_eq. Qed.

Lemma pget_set_ne s key key' set jti :
  key' <> key -> pget (with_partitions (map_set key set) s) key' jti = pget s key' jti.
Proof. intros. unfold pget; simpl. by rewrite map_get_set_ne. Qed.

Lemma pwf_set s key set :
  pwf s -> map_wf (entries set) -> pwf (with_partitions (map_set key set) s).
Proof.
  intros [H1 H2] Hset. split; simpl; [by apply map_wf_set|].
  intros key' set'. rewrite map_get_set. case_decide; intros; simplify_eq; eauto.
Qed.

(** Replacing the set under [key] by a swept one. *)
Lemma pswept_replace s key set set' n :
  pwf s -> map_get key (partitions s) = Some set -> swept t set set' n ->
  pswept t s (add_total (- n) (with_partitions (map_set key set') s)).
Proof.
  intros [H1 H2] Hg [S1 S2 S3 S4 S5]. split; simpl.
  - intros key' jti e. unfold pget; simpl. rewrite map_get_set.
    case_decide; subst; simpl; [|done]. rewrite Hg. simpl. apply S1.
  - intros key' jti e. unfold pget; simpl. rewrite map_get_set.
    case_decide; subst; simpl; [|done]. rewrite Hg. simpl. apply S2.
  - intros key' set0. rewrite map_get_set. case_decide; intros; simplify_eq.
    + exists set. split; [done|lia].
    + exists set0. split; [done|lia].
  - rewrite (sum_sizes_set _ set) by done. lia.
  - lia.
  - apply pwf_set; [by split|]. eauto.
Qed.

Lemma pswept_drop_empty s key :
  pwf s -> pswept t s (deleteIfEmpty key s).2.
Proof.
  intros [H1 H2]. unfold deleteIfEmpty, modify; simpl.
  unfold with_partitions at 1.
  destruct (map_get key (partitions s)) as [set|] eqn:Hg;
    [|destruct s; by apply pswept_refl].
  destruct (is_empty_set set) eqn:He; [|destruct s; by apply pswept_refl].
  unfold is_empty_set in He. apply Z.eqb_eq in He. split; simpl.
  - intros key' jti e. unfold pget; simpl. rewrite map_get_delete. by case_decide.
  - intros key' jti e. unfold pget; simpl. rewrite map_get_delete.
    case_decide; subst; simpl; [|done]. rewrite Hg. simpl.
    unfold set_size in He. destruct (entries set); [done|].
    unfold map_size in He; simpl in He. lia.
  - intros key' set'. rewrite map_get_delete. case_decide; [done|]. intros.
    exists set'. split; [done|lia].
  - rewrite (sum_sizes_delete _ set) by done. lia.
  - lia.
  - split; simpl; [by apply map_wf_delete|].
    intros key' set'. rewrite map_get_delete. case_decide; [done|]. apply H2.
Qed.

Lemma sweeping_deleteIfEmpty key : sweeping t (deleteIfEmpty key).
Proof. intros s Hs. by apply pswept_drop_empty. Qed.

Lemma sweeping_partition_of key : sweeping t (partition_of key).
Proof. apply sweeping_pure. Qed.

Lemma sweeping_sweep_partition key f :
  (forall set, map_wf (entries set) -> swept t set (f set).1 (f set).2) ->
  sweeping t (sweep_partition key f).
Proof.
  intros Hf s Hs. unfold sweep_partition, modify; simpl.
  destruct (map_get key (partitions s)) as [set|] eqn:Hg; [|by apply pswept_refl].
  specialize (Hf set). destruct (f set) as [set' n]; simpl in *.
  eapply pswept_replace; [done|done|]. apply Hf. by apply (proj2 Hs key).
Qed.

Lemma sweeping_pruneEmptyPartitions : sweeping t pruneEmptyPartitions.
Proof.
  intros s [H1 H2]. unfold pruneEmptyPartitions, modify; simpl. split; simpl.
  - intros key jti e. unfold pget; simpl. rewrite map_get_filter by done.
    destruct (map_get key (partitions s)) as [set|]; simpl; [|done]. by case_match.
  - intros key jti e. unfold pget; simpl. rewrite map_get_filter by done.
    destruct (map_get key (partitions s)) as [set|]; simpl; [|done].
    destruct (is_empty_set set) eqn:He; simpl; [|done].
    unfold is_empty_set, set_size, map_size in He. apply Z.eqb_eq in He.
    destruct (entries set); simpl in *; [done|lia].
  - intros key set'. rewrite map_get_filter by done.
    destruct (map_get key (partitions s)) as [set|]; simpl; [|done].
    case_match; intros; simplify_eq. exists set'. split; [done|lia].
  - rewrite sum_sizes_filter_empty. lia.
  - lia.
  - split; simpl; [by apply map_wf_filter|]. intros key set'.
    rewrite map_get_filter by done.
    destruct (map_get key (partitions s)) as [set|] eqn:Hg; simpl; [|done].
    case_match; intros; simplify_eq. eauto.
Qed.
End Sweeping.

Lemma sweepPartitions_spec ps t :
  (forall key set, map_get key ps = Some set -> map_wf (entries set)) -> map_wf ps ->
  sum_sizes (sweepPartitions ps t).1 = sum_sizes ps - (sweepPartitions ps t).2 /\
  0 <= (sweepPartitions ps t).2 /\
  (forall key, map_get key (sweepPartitions ps t).1 =
    set ← map_get key ps;
    let set' := (sweepAllExpired set t).1 in
    if is_empty_set set' then None else Some set') /\
  (forall key, key ∈ (sweepPartitions ps t).1.*1 -> key ∈ ps.*1) /\
  map_wf (sweepPartitions ps t).1.
Proof.
  induction ps as [|[k s] ps IH]; intros Hall Hwf; csimpl.
  { split_and!; [lia|lia|done|done|constructor]. }
  unfold map_wf in Hwf. apply NoDup_cons in Hwf as [Hk Hwf]. csimpl in *.
  destruct IH as (I1 & I2 & I3 & I4 & I5); [|done|].
  { intros key set Hg. apply (Hall key). simpl. rewrite bool_decide_false; [done|].
    intros ->. apply Hk. by eapply map_get_Some_key. }
  assert (map_wf (entries s)) as Hs.
  { apply (Hall k). simpl. by rewrite bool_decide_true. }
  pose proof (sweepAllExpired_swept s t Hs) as [_ _ _ S4 S5].
  destruct (sweepAllExpired s t) as [s' n] eqn:Hsw; simpl in *.
  destruct (sweepPartitions ps t) as [ps' m]; simpl in *.
  assert (map_get k ps' = None) as Hkn.
  { rewrite I3. by apply map_get_None in Hk as ->. }
  destruct (is_empty_set s') eqn:He; unfold is_empty_set in He; csimpl;
    [apply Z.eqb_eq in He|]; split_and!; try lia.
  - intros key. case_bool_decide as Hd; subst; csimpl.
    + rewrite Hsw. simpl. unfold is_empty_set. by rewrite He.
    + by rewrite I3.
  - intros key Hin. apply elem_of_cons. right. auto.
  - done.
  - intros key. case_bool_decide as Hd; subst; csimpl.
    + rewrite Hsw. simpl. unfold is_empty_set. by rewrite He.
    + by rewrite I3.
  - intros key. rewrite !elem_of_cons. naive_solver.
  - constructor; [by apply map_get_None|done].
Qed.

Lemma sweeping_throttledGlobalSweep t : sweeping t (throttledGlobalSweep t).
Proof.
  intros s [H1 H2]. unfold throttledGlobalSweep, modify; simpl.
  destruct (jlt _ _); [by apply pswept_refl|].
  pose proof (sweepPartitions_spec (partitions s) t H2 H1) as (I1 & I2 & I3 & I4 & I5).
  destruct (sweepPartitions (partitions s) t) as [ps n]; simpl in *.
  assert (forall key set', map_get key ps = Some set' -> exists set,
    map_get key (partitions s) = Some set /\ set' = (sweepAllExpired set t).1) as Hfrom.
  { intros key set'. rewrite I3. destruct (map_get key (partitions s)) as [set|]; simpl; [|done].
    case_match; intros; simplify_eq. eauto. }
  split; simpl.
  - intros key jti e. unfold pget; simpl.
    destruct (map_get key ps) as [set'|] eqn:Hg; simpl; [|done].
    apply Hfrom in Hg as (set & Hg & ->). rewrite Hg. simpl.
    apply (swept_sub t _ _ _ (sweepAllExpired_swept set t (H2 _ _ Hg))).
  - intros key jti e. unfold pget; simpl. rewrite I3.
    destruct (map_get key (partitions s)) as [set|] eqn:Hg; simpl; [|done].
    intros He Hl.
    pose proof (swept_live t _ _ _ (sweepAllExpired_swept set t (H2 _ _ Hg)) _ _ He Hl) as Hs.
    destruct (is_empty_set (sweepAllExpired set t).1) eqn:Hem; simpl; [|done].
    unfold is_empty_set, set_size, map_size in Hem. apply Z.eqb_eq in Hem.
    destruct (entries (sweepAllExpired set t).1); simpl in *; [done|lia].
  - intros key set' Hg. apply Hfrom in Hg as (set & Hg & ->). exists set. split; [done|].
    destruct (sweepAllExpired_swept set t (H2 _ _ Hg)). lia.
  - lia.
  - lia.
  - split; [done|]. simpl. intros key set' Hg. apply Hfrom in Hg as (set & Hg & ->).
    apply (swept_wf t _ _ _ (sweepAllExpired_swept set t (H2 _ _ Hg))). eauto.
Qed.

Create HintDb sweeping.
#[export] Hint Resolve sweeping_bind sweeping_deleteIfEmpty sweeping_partition_of
  sweeping_sweep_partition sweeping_pruneEmptyPartitions
  sweeping_throttledGlobalSweep sweepExpiredPrefix_swept throttledSweep_swept : sweeping.
#[export] Hint Extern 1 (sweeping _ (gets _)) => apply sweeping_pure : sweeping.
#[export] Hint Extern 1 (sweeping _ skip) => apply sweeping_pure : sweeping.
#[export] Hint Extern 1 (sweeping _ (throw _)) => apply sweeping_pure : sweeping.
#[export] Hint Extern 1 (sweeping _ (mret _)) => apply sweeping_pure : sweeping.
#[export] Hint Extern 1 (sweeping _ (lift _)) => apply sweeping_pure : sweeping.

(** Follow the structure of an action, one bind at a time. *)
Ltac solve_sweeping :=
  repeat first
    [ progress intros
    | apply sweeping_bind
    | match goal with
      | |- sweeping _ (match ?x with _ => _ end) => destruct x
      end
    | solve [eauto with sweeping nocore] ].

Lemma sweeping_currentPartition t key : sweeping t (currentPartition key t).
Proof. unfold currentPartition. solve_sweeping. Qed.

Lemma sweeping_admit_table t cfg key : sweeping t (admit_table cfg key t).
Proof. unfold admit_table. solve_sweeping. Qed.

Lemma sweeping_admit_quota t cfg key : sweeping t (admit_quota cfg key t).
Proof. unfold admit_quota. solve_sweeping. Qed.

Lemma sweeping_admit_total t cfg : sweeping t (admit_total cfg t).
Proof. unfold admit_total. solve_sweeping. Qed.

#[export] Hint Resolve sweeping_admit_table sweeping_admit_quota sweeping_admit_total : sweeping.

Lemma sweeping_admitNewEntry t cfg key : sweeping t (admitNewEntry cfg key t).
Proof. unfold admitNewEntry. eauto with sweeping nocore. Qed.

#[export] Hint Resolve sweeping_currentPartition sweeping_admitNewEntry : sweeping.

(** [drop_stale] removes an entry that is not live. *)
Lemma drop_stale_pswept t key jti s :
  pwf s -> isLive (map_get key (partitions s)) jti t = false ->
  pswept t s (drop_stale key jti s).2.
Proof.
  intros Hs Hl. unfold drop_stale, partition_of, gets, mbind, stateM_bind; simpl.
  destruct (map_get key (partitions s)) as [set|] eqn:Hg; [|by apply pswept_refl].
  destruct (map_has jti (entries set)) eqn:Hh; [|by apply pswept_refl].
  pose proof (set_delete_swept set t jti (proj2 Hs _ _ Hg) Hl) as Hsw.
  rewrite Hh in Hsw. unfold modify.
  eapply pswept_trans; [by apply (pswept_replace t s key set (set_delete jti set) 1)|].
  apply pswept_drop_empty. eapply ps_wf. by apply (pswept_replace t s key set _ 1).
Qed.

(** ** Admission *)

Definition table_size (s : partitioned) : Z := Z.of_nat (map_size (partitions s)).

Lemma map_has_true {V} (k : jstr) (m : jmap jstr V) : map_has k m = true <-> k ∈ m.*1.
Proof.
  unfold map_has. destruct (map_get k m) eqn:Hg.
  - split; [|done]. intros _. by eapply map_get_Some_key.
  - split; [done|]. intros Hin. by apply map_get_None in Hg.
Qed.

Lemma keys_subset_length {V W} (m : jmap jstr V) (m' : jmap jstr W) (extra : list jstr) :
  map_wf m' -> (forall k, k ∈ m'.*1 -> k ∈ m.*1) ->
  (forall k, k ∈ extra -> k ∈ m.*1 /\ k ∉ m'.*1) -> NoDup extra ->
  (length extra + map_size m' <= map_size m)%nat.
Proof.
  intros Hwf Hsub Hex Hnd. unfold map_size.
  rewrite <- (length_fmap fst m), <- (length_fmap fst m'), <- length_app.
  apply submseteq_length, NoDup_submseteq.
  - apply NoDup_app. split_and!; [done|set_solver|done].
  - intros k [?|?]%elem_of_app; [by apply Hex|by apply Hsub].
Qed.

Section Monotone.
Context (t : Z) (s s' : partitioned) (Hs : pswept t s s').

Lemma pswept_keys key : key ∈ (partitions s').*1 -> key ∈ (partitions s).*1.
Proof.
  intros Hin%map_has_true. unfold map_has in Hin.
  destruct (map_get key (partitions s')) eqn:Hg; [|done].
  apply (ps_shrink _ _ _ Hs) in Hg as (set & Hg & _). by eapply map_get_Some_key.
Qed.

Lemma pswept_size : table_size s' <= table_size s.
Proof.
  unfold table_size.
  pose proof (keys_subset_length (partitions s) (partitions s') []) as H.
  simpl in H. enough (map_size (partitions s') <= map_size (partitions s))%nat by lia.
  apply H; [apply (ps_wf _ _ _ Hs)|apply pswept_keys|by intros k ?%not_elem_of_nil|constructor].
Qed.

Lemma table_full_mono cfg key :
  table_size s <= partitionCapacity cfg ->
  table_full cfg key s = false -> table_full cfg key s' = false.
Proof.
  unfold table_full. intros Hle Hf. fold (table_size s) in Hf. fold (table_size s').
  destruct (map_has key (partitions s')) eqn:Hh'; [done|]. simpl.
  apply Z.leb_gt. destruct (map_has key (partitions s)) eqn:Hh; simpl in Hf.
  - pose proof (keys_subset_length (partitions s) (partitions s') [key]) as H.
    simpl in H. unfold table_size in *.
    enough (S (map_size (partitions s')) <= map_size (partitions s))%nat by lia.
    apply H; [apply (ps_wf _ _ _ Hs)|apply pswept_keys| |apply NoDup_singleton].
    intros k ->%list_elem_of_singleton. split; [by apply map_has_true|].
    rewrite <- map_has_true. congruence.
  - apply Z.leb_gt in Hf. pose proof pswept_size. lia.
Qed.

Lemma quota_full_mono cfg key :
  quota_full cfg key s = false -> quota_full cfg key s' = false.
Proof.
  unfold quota_full. destruct (map_get key (partitions s')) as [set'|] eqn:Hg; [|done].
  apply (ps_shrink _ _ _ Hs) in Hg as (set & -> & Hle). rewrite !Z.leb_gt. lia.
Qed.
End Monotone.

(** What a successful admission guarantees. *)
Record room (cfg : partitioned_config) (key : jstr) (s : partitioned) : Prop := {
  room_table : table_full cfg key s = false;
  room_quota : quota_full cfg key s = false;
  room_total : total s < globalCapacity cfg
}.

(** A guard that is repaired and tested again holds no more on success. *)
Lemma guard_false (b : partitioned -> bool) (repair done_ : partM unit) e s a s' :
  (forall s1 s2 u, b s1 = false -> done_ s1 = (Ok u, s2) -> b s2 = false) ->
  (full ← gets b;
   if full : bool then
     repair;; still ← gets b; if still : bool then throw e else done_
   else skip) s = (Ok a, s') -> b s' = false.
Proof.
  intros Hd. unfold gets, mbind, stateM_bind; simpl.
  destruct (b s) eqn:Hb; [|by intros [= _ <-]].
  destruct (repair s) as [[?|?] s1]; [|done].
  destruct (b s1) eqn:Hb1; [done|]. eauto.
Qed.

Lemma admit_table_post cfg key t s a s' :
  admit_table cfg key t s = (Ok a, s') -> table_full cfg key s' = false.
Proof.
  unfold admit_table. intros (b & s0 & [= <- <-] & H)%bind_Ok.
  destruct (table_full cfg key s) eqn:Hb; [|by apply skip_Ok in H as ->].
  apply bind_Ok in H as (? & s1 & _ & H). apply bind_Ok in H as (? & s2 & _ & H).
  apply bind_Ok in H as (b & s3 & [= <- <-] & H).
  destruct (table_full cfg key s2) eqn:Hb2; [done|]. by apply skip_Ok in H as ->.
Qed.

Lemma admit_quota_post cfg key t s a s' :
  pwf s -> admit_quota cfg key t s = (Ok a, s') -> quota_full cfg key s' = false.
Proof.
  intros Hs. unfold admit_quota. intros H. eapply guard_false in H; [done|].
  intros s1 s2 u Hq. unfold deleteIfEmpty, modify. intros [= _ <-].
  unfold quota_full, with_partitions in *; simpl.
  destruct (map_get key (partitions s1)) as [set|] eqn:Hg; [|by rewrite Hg].
  destruct (is_empty_set set); [by rewrite map_get_delete_eq|by rewrite Hg].
Qed.

Lemma admit_total_post cfg t s a s' :
  admit_total cfg t s = (Ok a, s') -> total s' < globalCapacity cfg.
Proof.
  intros H. apply Z.leb_gt. unfold admit_total in H.
  eapply (guard_false (fun s => globalCapacity cfg <=? total s)) in H; [done|].
  by intros s1 s2 u Hf ->%skip_Ok.
Qed.

Lemma sweeping_run {A} t (m : partM A) s r s' :
  sweeping t m -> pwf s -> m s = (r, s') -> pswept t s s'.
Proof. intros Hm Hs E. specialize (Hm s Hs). by rewrite E in Hm. Qed.

Lemma admitNewEntry_room cfg key t s a s' :
  pwf s -> table_size s <= partitionCapacity cfg ->
  admitNewEntry cfg key t s = (Ok a, s') -> room cfg key s'.
Proof.
  intros Hs Hsize H. unfold admitNewEntry in H.
  apply bind_Ok in H as (? & s1 & E1 & H). apply bind_Ok in H as (? & s2 & E2 & E3).
  pose proof (sweeping_run t _ _ _ _ (sweeping_admit_table t cfg key) Hs E1) as P1.
  pose proof (sweeping_run t _ _ _ _ (sweeping_admit_quota t cfg key) (ps_wf _ _ _ P1) E2) as P2.
  pose proof (sweeping_run t _ _ _ _ (sweeping_admit_total t cfg) (ps_wf _ _ _ P2) E3) as P3.
  apply admit_table_post in E1. apply admit_quota_post in E2; [|apply P1].
  apply admit_total_post in E3.
  split; [|by eapply quota_full_mono|done].
  eapply table_full_mono; [exact (pswept_trans _ _ _ _ P2 P3)| |done].
  etrans; [by eapply pswept_size|done].
Qed.

(** ** Recording *)

Definition store_into (key jti : jstr) (ttlMs : jnum) (t : Z) (s : partitioned) : partitioned :=
  let set := default createEntrySet (map_get key (partitions s)) in
  add_total (storeEntry set jti ttlMs t).2
    (with_partitions (map_set key (storeEntry set jti ttlMs t).1) s).

Lemma map_set_set `{EqDecision K} {V} (k : K) (v w : V) m :
  map_set k v (map_set k w m) = map_set k v m.
Proof.
  induction m as [|[j u] m IH]; csimpl; [by rewrite bool_decide_true|].
  case_bool_decide; csimpl; [by rewrite bool_decide_true|].
  by rewrite bool_decide_false, IH.
Qed.

Lemma store_present key jti ttlMs t s :
  map_has key (partitions s) = true ->
  store key jti ttlMs t s = (Ok tt, store_into key jti ttlMs t s).
Proof.
  unfold map_has, store, modify, store_into.
  destruct (map_get key (partitions s)) as [set|]; [|done]. intros _. simpl.
  by destruct (storeEntry set jti ttlMs t).
Qed.

Lemma ensure_store key jti ttlMs t s :
  (ensurePartition key;; store key jti ttlMs t) s = (Ok tt, store_into key jti ttlMs t s).
Proof.
  unfold ensurePartition, mbind, stateM_bind, modify; simpl.
  destruct (map_has key (partitions s)) eqn:Hh.
  - rewrite <- (store_present key jti ttlMs t s Hh). unfold with_partitions.
    rewrite Hh. by destruct s.
  - rewrite store_present.
    + unfold store_into. simpl. rewrite Hh, map_get_set_eq. simpl.
      unfold with_partitions, add_total; simpl. rewrite Hh, map_set_set.
      unfold map_has in Hh. by destruct (map_get key (partitions s)).
    + simpl. rewrite Hh. unfold map_has. by rewrite map_get_set_eq.
Qed.

Lemma currentPartition_run key t s :
  pwf s -> exists s', pswept t s s' /\
    currentPartition key t s = (Ok (map_get key (partitions s')), s').
Proof.
  intros Hs. pose proof (sweeping_currentPartition t key s Hs) as Hsw.
  unfold currentPartition, partition_of, gets, mbind, stateM_bind in *; simpl in *.
  destruct (map_get key (partitions s)) eqn:Hg; simpl in *; [eauto|].
  exists s. split; [done|]. unfold mret, stateM_ret. by rewrite Hg.
Qed.

Lemma drop_stale_run key jti s : exists s', drop_stale key jti s = (Ok tt, s').
Proof.
  unfold drop_stale, partition_of, gets, mbind, stateM_bind; simpl.
  destruct (map_get key (partitions s)); [|by eexists].
  case_match; by eexists.
Qed.

Lemma record_cases cfg key jti ttlMs t s :
  pwf s -> table_size s <= partitionCapacity cfg ->
  exists s1, pswept t s s1 /\
    ((exists e, record cfg key jti ttlMs t s = (Err e, s1)) \/
     (record cfg key jti ttlMs t s = (Ok tt, store_into key jti ttlMs t s1) /\
      (isLive (map_get key (partitions s1)) jti t = true \/ room cfg key s1))).
Proof.
  intros Hs Hsize. unfold record.
  destruct (currentPartition_run key t s Hs) as (s0 & P0 & E0).
  rewrite !(bind_run _ _ _ _ _ E0).
  destruct (isLive (map_get key (partitions s0)) jti t) eqn:Hl.
  { exists s0. split; [done|]. right. split; [|by left]. apply store_present.
    unfold map_has. by destruct (map_get key (partitions s0)). }
  pose proof (drop_stale_pswept t key jti s0 (ps_wf _ _ _ P0) Hl) as P1.
  destruct (drop_stale_run key jti s0) as [s1 E1]. rewrite E1 in P1. simpl in P1.
  rewrite !(bind_run _ _ _ _ _ E1).
  pose proof (sweeping_admitNewEntry t cfg key s1 (ps_wf _ _ _ P1)) as P2.
  destruct (admitNewEntry cfg key t s1) as [[[]|e] s2] eqn:E2; simpl in P2.
  - exists s2. split; [by do 2 (eapply pswept_trans; [done|])|]. right.
    rewrite !(bind_run _ _ _ _ _ E2), ensure_store. split; [done|]. right.
    eapply admitNewEntry_room; [apply P1| |done].
    etrans; [eapply pswept_size; exact P1|]. etrans; [eapply pswept_size; exact P0|done].
  - exists s2. split; [by do 2 (eapply pswept_trans; [done|])|]. left. exists e.
    by rewrite (bind_run_Err _ _ _ _ _ E2).
Qed.

Lemma store_into_pget_eq key jti ttlMs t s :
  exists e, pget (store_into key jti ttlMs t s) key jti = Some e /\
    jle (jadd (Fin t) (retentionMs ttlMs)) e = true /\
    (forall e0, pget s key jti = Some e0 -> jlt (Fin t) e0 = true -> jle e0 e = true).
Proof.
  unfold store_into, pget; cbn [partitions add_total with_partitions].
  rewrite map_get_set_eq. cbn [mbind option_bind].
  destruct (map_get key (partitions s)) as [set|]; [apply storeEntry_get|].
  destruct (storeEntry_get createEntrySet jti ttlMs t) as (e & H1 & H2 & _).
  exists e. split_and!; [done|done|done].
Qed.

Lemma store_into_pget_ne key jti ttlMs t s key' jti' :
  (key', jti') <> (key, jti) ->
  pget (store_into key jti ttlMs t s) key' jti' = pget s key' jti'.
Proof.
  intros Hne. unfold store_into, pget; cbn [partitions add_total with_partitions]. rewrite map_get_set. case_decide; [|done].
  subst key'. cbn [mbind option_bind]. rewrite storeEntry_get_ne by congruence.
  by destruct (map_get key (partitions s)).
Qed.

Lemma store_into_pwf key jti ttlMs t s : pwf s -> pwf (store_into key jti ttlMs t s).
Proof.
  intros Hs. unfold store_into.
  apply (pwf_set s key) with (set := (storeEntry (default createEntrySet (map_get key (partitions s))) jti ttlMs t).1) in Hs as Hs'; [done|].
  apply storeEntry_wf. destruct (map_get key (partitions s)) eqn:Hg; simpl.
  - by apply (proj2 Hs key).
  - apply map_wf_nil.
Qed.
