(* ===== verification/ReplayCacheTheorems.v ===== *)
(** Correctness of the replay caches: no replay, exact accounting and bounds,
    isolation of callers, refinement of an abstract register of consumed
    identifiers, and fail-closed refusals. *)

From stdpp Require Import prelude gmap.
From S2P Require Import Prelude JsString JsNumber JsMap ReplayCache ReplayCacheFacts.

Local Open Scope Z_scope.
#[local] Arguments storeEntry : simpl never.

(** ** Calls on the partitioned cache *)

(** Every method of the cache: those of a [forCaller] view, and [stats()],
    [reset()] and the three methods of the root, which refuse.  [reading] is what
    the call's [now()] returns. *)
Inductive call : Type :=
  | CConsume (caller jti : option jstr) (ttlMs reading : jnum)
  | CSeen (caller jti : option jstr) (reading : jnum)
  | CRemember (caller jti : option jstr) (ttlMs reading : jnum)
  | CStats
  | CRoot
  | CReset.

Definition call_caller (c : call) : option jstr :=
  match c with
  | CConsume caller _ _ _ | CSeen caller _ _ | CRemember caller _ _ _ => caller
  | CStats | CRoot | CReset => None
  end.

(** The clock reading of a call; the methods of the root read no clock. *)
Definition call_reading (c : call) : jnum :=
  match c with
  | CConsume _ _ _ r | CSeen _ _ r | CRemember _ _ _ r => r
  | CStats | CRoot | CReset => NegInf
  end.

Section Calls.
Context (digestKey : jstr -> jstr) (cfg : partitioned_config).

Definition consume (caller jti : option jstr) (ttlMs reading : jnum) : partM bool :=
  key ← lift (forCaller digestKey caller);
  view_consume digestKey cfg key jti ttlMs reading.

Definition run_call (c : call) : partM unit :=
  match c with
  | CConsume caller jti ttlMs reading => consume caller jti ttlMs reading;; skip
  | CSeen caller jti reading =>
      key ← lift (forCaller digestKey caller);
      view_seen digestKey key jti reading;; skip
  | CRemember caller jti ttlMs reading =>
      key ← lift (forCaller digestKey caller);
      view_remember digestKey cfg key jti ttlMs reading
  | CStats => stats;; skip
  | CRoot => partitionRequired
  | CReset => partitioned_reset
  end.

(** Independent requests: a refusal of one does not stop the next. *)
Definition run_calls (cs : list call) (s : partitioned) : partitioned :=
  fold_left (fun s c => (run_call c s).2) cs s.
End Calls.

(** ** The effect of one call on the table *)

Inductive effect (cfg : partitioned_config) (key : jstr) (t : Z)
    : partitioned -> partitioned -> Prop :=
  | effect_sweep s s1 : pswept t s s1 -> effect cfg key t s s1
  | effect_store s s1 jti ttlMs :
      pswept t s s1 ->
      isLive (map_get key (partitions s1)) jti t = true \/ room cfg key s1 ->
      effect cfg key t s (store_into key jti ttlMs t s1).

Lemma record_effect cfg key jti ttlMs t s :
  pwf s -> table_size s <= partitionCapacity cfg ->
  effect cfg key t s (record cfg key jti ttlMs t s).2.
Proof.
  intros Hs Hsize.
  destruct (record_cases cfg key jti ttlMs t s Hs Hsize) as (s1 & P & [(e & ->)|(-> & Hr)]);
    simpl; by constructor.
Qed.

Lemma effect_before cfg key t s s1 s2 :
  pswept t s s1 -> effect cfg key t s1 s2 -> effect cfg key t s s2.
Proof.
  intros P. destruct 1; constructor; try done; by eapply pswept_trans.
Qed.

Lemma view_consume_effect digestKey cfg key jti ttlMs reading s :
  pwf s -> table_size s <= partitionCapacity cfg ->
  (view_consume digestKey cfg key jti ttlMs reading s).2 = s \/
  exists t, reading = Fin t /\
    effect cfg key t s (view_consume digestKey cfg key jti ttlMs reading s).2.
Proof.
  intros Hs Hsize. unfold view_consume. rewrite bind_lift.
  destruct (entryKey digestKey jti) as [entry|e]; [|by left].
  cbv beta. rewrite bind_lift. destruct reading as [| |t|]; simpl; try by left.
  right. exists t. split; [done|].
  destruct (currentPartition_run key t s Hs) as (s1 & P & E).
  rewrite (bind_run _ _ _ _ _ E).
  destruct (isLive _ entry t); [by constructor|].
  eapply effect_before; [done|].
  assert (((record cfg key entry ttlMs t;; (mret true : partM bool)) s1).2
    = (record cfg key entry ttlMs t s1).2) as ->.
  { unfold mbind, stateM_bind. by destruct (record cfg key entry ttlMs t s1) as [[]]. }
  apply record_effect; [apply P|].
  etrans; [by eapply pswept_size|done].
Qed.

Lemma view_seen_effect digestKey cfg key jti reading s :
  pwf s ->
  (view_seen digestKey key jti reading s).2 = s \/
  exists t, reading = Fin t /\ effect cfg key t s (view_seen digestKey key jti reading s).2.
Proof.
  intros Hs. unfold view_seen. rewrite bind_lift.
  destruct (entryKey digestKey jti) as [entry|e]; [|by left].
  cbv beta. rewrite bind_lift. destruct reading as [| |t|]; simpl; try by left.
  right. exists t. split; [done|].
  destruct (currentPartition_run key t s Hs) as (s1 & P & E).
  rewrite (bind_run _ _ _ _ _ E). by constructor.
Qed.

Lemma view_remember_effect digestKey cfg key jti ttlMs reading s :
  pwf s -> table_size s <= partitionCapacity cfg ->
  (view_remember digestKey cfg key jti ttlMs reading s).2 = s \/
  exists t, reading = Fin t /\
    effect cfg key t s (view_remember digestKey cfg key jti ttlMs reading s).2.
Proof.
  intros Hs Hsize. unfold view_remember. rewrite bind_lift.
  destruct (entryKey digestKey jti) as [entry|e]; [|by left].
  cbv beta. rewrite bind_lift. destruct reading as [| |t|]; simpl; try by left.
  right. exists t. split; [done|]. by apply record_effect.
Qed.

Lemma snd_bind_skip {A} (m : partM A) s : ((m;; skip) s).2 = (m s).2.
Proof. unfold mbind, stateM_bind. by destruct (m s) as [[]]. Qed.

Lemma call_effect digestKey cfg c s :
  c <> CReset -> pwf s -> table_size s <= partitionCapacity cfg ->
  (run_call digestKey cfg c s).2 = s \/
  exists t key, call_reading c = Fin t /\ forCaller digestKey (call_caller c) = Ok key /\
    effect cfg key t s (run_call digestKey cfg c s).2.
Proof.
  intros Hreset Hs Hsize. destruct c as [caller jti ttlMs r|caller jti r|caller jti ttlMs r| | |];
    simpl; [| | |by left|by left|done].
  - rewrite snd_bind_skip. unfold consume. rewrite bind_lift.
    destruct (forCaller digestKey caller) as [key|e] eqn:Hk; [|by left].
    destruct (view_consume_effect digestKey cfg key jti ttlMs r s Hs Hsize) as [|(t & ? & ?)];
      [by left|]. right. by exists t, key.
  - rewrite bind_lift. destruct (forCaller digestKey caller) as [key|e] eqn:Hk; [|by left].
    cbv beta. rewrite snd_bind_skip.
    destruct (view_seen_effect digestKey cfg key jti r s Hs) as [|(t & ? & ?)];
      [by left|]. right. by exists t, key.
  - rewrite bind_lift. destruct (forCaller digestKey caller) as [key|e] eqn:Hk; [|by left].
    destruct (view_remember_effect digestKey cfg key jti ttlMs r s Hs Hsize) as [|(t & ? & ?)];
      [by left|]. right. by exists t, key.
Qed.

(** ** The invariant *)

Record cfg_ok (cfg : partitioned_config) : Prop := {
  ok_quota : 0 < quota cfg <= globalCapacity cfg;
  ok_table : 0 < partitionCapacity cfg
}.

(** [total] is the number of stored entries, and every ceiling holds. *)
Record pinv (cfg : partitioned_config) (s : partitioned) : Prop := {
  inv_wf : pwf s;
  inv_total : total s = sum_sizes (partitions s);
  inv_table : table_size s <= partitionCapacity cfg;
  inv_quota : forall key set, map_get key (partitions s) = Some set -> set_size set <= quota cfg;
  inv_global : total s <= globalCapacity cfg
}.

Lemma pinv_empty cfg : cfg_ok cfg -> pinv cfg emptyPartitioned.
Proof.
  intros [? ?]. split; simpl; try done; try lia.
  - split; [apply map_wf_nil|done].
  - unfold table_size, map_size; simpl. lia.
Qed.

Lemma pinv_pswept cfg t s s' : pswept t s s' -> pinv cfg s -> pinv cfg s'.
Proof.
  intros P [I1 I2 I3 I4 I5]. split.
  - apply P.
  - pose proof (ps_acct _ _ _ P). lia.
  - etrans; [by eapply pswept_size|done].
  - intros key set' Hg. apply (ps_shrink _ _ _ P) in Hg as (set & Hg & ?).
    apply I4 in Hg. lia.
  - pose proof (ps_total _ _ _ P). lia.
Qed.

Lemma isLive_pget s key jti t :
  isLive (map_get key (partitions s)) jti t = true <->
  exists e, pget s key jti = Some e /\ jlt (Fin t) e = true.
Proof.
  unfold isLive, pget. destruct (map_get key (partitions s)) as [set|]; simpl.
  - destruct (map_get jti (entries set)) as [e|]; simpl; naive_solver.
  - naive_solver.
Qed.

Lemma pinv_store cfg key jti ttlMs t s :
  cfg_ok cfg -> pinv cfg s ->
  isLive (map_get key (partitions s)) jti t = true \/ room cfg key s ->
  pinv cfg (store_into key jti ttlMs t s).
Proof.
  intros [Hq Hc] [I1 I2 I3 I4 I5] Hroom.
  set (set0 := default createEntrySet (map_get key (partitions s))).
  assert (map_wf (entries set0)) as Hwf0.
  { subst set0. destruct (map_get key (partitions s)) eqn:Hg; simpl;
      [by apply (proj2 I1 key)|apply map_wf_nil]. }
  destruct (storeEntry_size set0 jti ttlMs t Hwf0) as [Hsz Hadd].
  assert (sum_sizes (partitions (store_into key jti ttlMs t s)) =
    sum_sizes (partitions s) + (storeEntry set0 jti ttlMs t).2) as Hsum.
  { unfold store_into; cbn [partitions add_total with_partitions]. fold set0.
    destruct (map_get key (partitions s)) as [set|] eqn:Hg; subst set0; simpl default in *.
    - rewrite (sum_sizes_set _ set) by (done || apply I1). lia.
    - rewrite map_set_absent, sum_sizes_app by done.
      cbn [sum_sizes]. change (set_size createEntrySet) with 0 in Hsz. lia. }
  assert (0 <= (storeEntry set0 jti ttlMs t).2 <= 1) as Hb by (rewrite Hadd; case_match; lia).
  assert ((storeEntry set0 jti ttlMs t).2 = 0 \/ room cfg key s) as Hcase.
  { destruct Hroom as [Hl|]; [|by right]. left. rewrite Hadd.
    subst set0. destruct (map_get key (partitions s)) as [set|]; [|done].
    simpl in *. unfold map_has. by destruct (map_get jti (entries set)). }
  assert ((storeEntry set0 jti ttlMs t).2 = 0 -> map_has key (partitions s) = true) as Hpres.
  { rewrite Hadd. subst set0. unfold map_has.
    by destruct (map_get key (partitions s)). }
  split.
  - by apply store_into_pwf.
  - unfold store_into in *; cbn [total partitions add_total with_partitions] in *.
    fold set0 in Hsum |- *. lia.
  - unfold table_size, store_into; cbn [partitions add_total with_partitions].
    destruct (map_has key (partitions s)) eqn:Hh.
    + rewrite map_size_set_present by by apply map_has_true. done.
    + rewrite map_size_set_absent by (unfold map_has in Hh; by destruct (map_get key (partitions s))).
      destruct Hcase as [H0|[Ht _ _]]; [by apply Hpres in H0|].
      unfold table_full in Ht. rewrite Hh in Ht. simpl in Ht. apply Z.leb_gt in Ht. lia.
  - intros key' set'. unfold store_into; cbn [partitions add_total with_partitions].
    fold set0. rewrite map_get_set. case_decide; [|apply I4]. intros [= <-].
    change (set_size (storeEntry set0 jti ttlMs t).1 <= quota cfg). rewrite Hsz. subst set0 key'. destruct (map_get key (partitions s)) as [set|] eqn:Hg.
    + simpl default in *. pose proof (I4 _ _ Hg). destruct Hcase as [->|[_ Hr _]]; [lia|].
      unfold quota_full in Hr. rewrite Hg in Hr. apply Z.leb_gt in Hr. lia.
    + simpl default in *. unfold set_size. simpl. lia.
  - unfold store_into; cbn [total add_total with_partitions]. fold set0.
    destruct Hcase as [->|[_ _ ?]]; lia.
Qed.

Lemma pinv_effect cfg key t s s' :
  cfg_ok cfg -> effect cfg key t s s' -> pinv cfg s -> pinv cfg s'.
Proof.
  intros Hc [s1 s2 P|s1 s2 jti ttlMs P Hr] Hs.
  - by eapply pinv_pswept.
  - apply pinv_store; [done| |done]. by eapply pinv_pswept.
Qed.

Lemma pinv_call digestKey cfg c s :
  cfg_ok cfg -> pinv cfg s -> pinv cfg (run_call digestKey cfg c s).2.
Proof.
  intros Hc Hs. assert (c = CReset \/ c <> CReset) as [-> | Hr] by (destruct c; auto).
  { by apply pinv_empty. }
  destruct (call_effect digestKey cfg c s) as [->|(t & key & _ & _ & E)];
    [done|apply Hs|apply Hs|done|]. by eapply pinv_effect.
Qed.

Lemma pinv_calls digestKey cfg cs s :
  cfg_ok cfg -> pinv cfg s -> pinv cfg (run_calls digestKey cfg cs s).
Proof.
  intros Hc. revert s. induction cs as [|c cs IH]; simpl; [done|].
  intros s Hs. by apply IH, pinv_call.
Qed.

Lemma created_ok a b c d cfg s0 :
  createPartitionedReplayCache a b c d = Ok (cfg, s0) -> cfg_ok cfg /\ pinv cfg s0.
Proof.
  unfold createPartitionedReplayCache, positiveInteger, nonNegativeNumber.
  intros H. unfold mbind, result_bind in H.
  repeat (case_match; try discriminate); simplify_eq/=; reflect_bools.
  repeat match goal with H : _ && _ = true |- _ => apply andb_true_iff in H as [? ?] end.
  rewrite ?Z.ltb_lt in *.
  match goal with |- cfg_ok ?c /\ _ => assert (cfg_ok c) by (split; simpl; lia) end.
  split; [done|]. by apply pinv_empty.
Qed.

(** ** No replay *)

(** The entry [(key, jti)] is stored with an expiry of at least [e]. *)
Definition held (e : jnum) (key jti : jstr) (s : partitioned) : Prop :=
  exists e', pget s key jti = Some e' /\ jle e e' = true.

Lemma held_effect cfg key' t e key jti s s' :
  jlt (Fin t) e = true -> effect cfg key' t s s' -> held e key jti s -> held e key jti s'.
Proof.
  intros Ht Heff (e' & Hg & He).
  assert (jlt (Fin t) e' = true) as Hl by by eapply jlt_le_trans.
  assert (forall s1, pswept t s s1 -> pget s1 key jti = Some e') as Hkeep.
  { intros s1 P. by apply (ps_live _ _ _ P). }
  destruct Heff as [s s1 P|s s1 jti' ttlMs P Hr]; [exists e'; auto|].
  destruct (decide ((key, jti) = (key', jti'))) as [[= -> ->]|Hne].
  - destruct (store_into_pget_eq key' jti' ttlMs t s1) as (e2 & H1 & _ & H3).
    exists e2. split; [done|]. eapply jle_trans; [done|]. apply H3; auto.
  - exists e'. by rewrite store_into_pget_ne, Hkeep.
Qed.

(** A call that reads no time at or past [e] and does not empty the cache. *)
Definition before (e : jnum) (c : call) : Prop :=
  c <> CReset /\ forall t, call_reading c = Fin t -> jlt (Fin t) e = true.

Lemma held_calls digestKey cfg e key jti cs s :
  cfg_ok cfg -> pinv cfg s -> Forall (before e) cs -> held e key jti s ->
  held e key jti (run_calls digestKey cfg cs s).
Proof.
  intros Hc. revert s. induction cs as [|c cs IH]; intros s Hs Hcs Hh; [done|].
  apply Forall_cons in Hcs as [Hb Hcs]. simpl. apply IH; [by apply pinv_call|done|].
  destruct Hb as [Hreset Hb].
  destruct (call_effect digestKey cfg c s) as [->|(t & key' & Hr & _ & E)];
    [done|apply Hs|apply Hs|done|].
  eapply held_effect; [by apply Hb|done|done].
Qed.

Lemma consume_true_held digestKey cfg caller jti ttlMs t s s1 :
  pinv cfg s -> consume digestKey cfg caller jti ttlMs (Fin t) s = (Ok true, s1) ->
  exists key entry, forCaller digestKey caller = Ok key /\ entryKey digestKey jti = Ok entry /\
    held (jadd (Fin t) (retentionMs ttlMs)) key entry s1.
Proof.
  intros Hs. unfold consume. rewrite bind_lift.
  destruct (forCaller digestKey caller) as [key|]; [|done]. cbv beta.
  unfold view_consume. rewrite bind_lift.
  destruct (entryKey digestKey jti) as [entry|]; [|done]. cbv beta. rewrite bind_lift. simpl.
  destruct (currentPartition_run key t s (inv_wf _ _ Hs)) as (s0 & P & E).
  rewrite (bind_run _ _ _ _ _ E). destruct (isLive _ entry t); [done|].
  intros (u & s2 & Hrec & [= ->])%bind_Ok. exists key, entry. split_and!; [done|done|].
  destruct (record_cases cfg key entry ttlMs t s0) as (s3 & P3 & [(e & Hr)|(Hr & _)]).
  - apply P.
  - etrans; [by eapply pswept_size|apply Hs].
  - by rewrite Hr in Hrec.
  - rewrite Hr in Hrec. injection Hrec as _ <-.
    destruct (store_into_pget_eq key entry ttlMs t s3) as (e & H1 & H2 & _).
    by exists e.
Qed.

(** C1. A consumed identifier is refused for its whole acceptance interval: when
    [consume] admitted [jti] for a caller at time [t], then after any further
    calls of any methods by any callers, whatever they return, [consume] of the
    same [jti] by the same caller answers [false] at every time before [t] plus
    the retention of the token, provided that none of these calls is [reset()],
    which forgets everything, and none read the clock at or after that time. *)
Theorem replay_refused digestKey maxCaller maxSize maxParts floor cfg s0 cs0
    caller jti ttlMs t s1 cs ttlMs' t' :
  createPartitionedReplayCache maxCaller maxSize maxParts floor = Ok (cfg, s0) ->
  consume digestKey cfg caller jti ttlMs (Fin t) (run_calls digestKey cfg cs0 s0)
    = (Ok true, s1) ->
  Forall (before (jadd (Fin t) (retentionMs ttlMs))) cs ->
  jlt (Fin t') (jadd (Fin t) (retentionMs ttlMs)) = true ->
  (consume digestKey cfg caller jti ttlMs' (Fin t')
    (run_calls digestKey cfg cs s1)).1 = Ok false.
Proof.
  intros [Hc Hi]%created_ok Htrue Hcs Ht'.
  set (s := run_calls digestKey cfg cs0 s0) in *.
  assert (pinv cfg s) as Hs by by apply pinv_calls.
  destruct (consume_true_held _ _ _ _ _ _ _ _ Hs Htrue) as (key & entry & Hk & He & Hh).
  assert (pinv cfg s1) as Hs1.
  { pose proof (pinv_call digestKey cfg (CConsume caller jti ttlMs (Fin t)) s Hc Hs) as H.
    simpl in H. by rewrite snd_bind_skip, Htrue in H. }
  pose proof (held_calls digestKey cfg _ _ _ cs s1 Hc Hs1 Hcs Hh) as (e' & Hg & Hle).
  pose proof (pinv_calls digestKey cfg cs s1 Hc Hs1) as Hs2.
  set (s2 := run_calls digestKey cfg cs s1) in *.
  unfold consume. rewrite bind_lift, Hk. cbv beta.
  unfold view_consume. rewrite bind_lift, He. cbv beta. rewrite bind_lift. simpl.
  destruct (currentPartition_run key t' s2 (inv_wf _ _ Hs2)) as (s3 & P & E).
  rewrite (bind_run _ _ _ _ _ E).
  assert (isLive (map_get key (partitions s3)) entry t' = true) as ->; [|done].
  apply isLive_pget. exists e'. split; [|by eapply jlt_le_trans].
  apply (ps_live _ _ _ P); [done|by eapply jlt_le_trans].
Qed.

(** C2. After any calls of any methods of a created cache, [reset()] and the
    refusing methods of the root included, [total] is the number of stored
    entries over all partitions, as [stats] reports it, no caller holds more than
    its quota, and neither the partition table nor the whole cache exceeds its
    ceiling. *)
Theorem accounting_exact digestKey maxCaller maxSize maxParts floor cfg s0 cs :
  createPartitionedReplayCache maxCaller maxSize maxParts floor = Ok (cfg, s0) ->
  let s := run_calls digestKey cfg cs s0 in
  (stats s).1 = Ok (table_size s, sum_sizes (partitions s)) /\
  (forall key set, map_get key (partitions s) = Some set -> set_size set <= quota cfg) /\
  table_size s <= partitionCapacity cfg /\
  sum_sizes (partitions s) <= globalCapacity cfg.
Proof.
  intros [Hc Hi]%created_ok s.
  destruct (pinv_calls digestKey cfg cs s0 Hc Hi) as [_ I2 I3 I4 I5].
  fold s in I2, I3, I4, I5. split_and!; [|done|done|lia].
  unfold stats, gets; simpl. by rewrite I2.
Qed.

(** Callers are isolated: whatever a call of one caller does, sweeps and
    refusals included, an entry of another caller is live after it at any time
    from the call's clock reading on exactly when it was live before. *)
Theorem callers_isolated digestKey maxCaller maxSize maxParts floor cfg s0 cs c t key key' jti t' :
  createPartitionedReplayCache maxCaller maxSize maxParts floor = Ok (cfg, s0) ->
  call_reading c = Fin t -> forCaller digestKey (call_caller c) = Ok key -> key' <> key ->
  t <= t' ->
  let s := run_calls digestKey cfg cs s0 in
  isLive (map_get key' (partitions (run_call digestKey cfg c s).2)) jti t' =
  isLive (map_get key' (partitions s)) jti t'.
Proof.
  intros [Hc Hi]%created_ok Hr Hk Hne Hle s.
  assert (pinv cfg s) as Hs by by apply pinv_calls.
  destruct (call_effect digestKey cfg c s) as [->|(t2 & key2 & Hr2 & Hk2 & E)];
    [by intros ->|apply Hs|apply Hs|done|].
  assert (t2 = t) as -> by congruence. assert (key2 = key) as -> by congruence.
  assert (forall e, jlt (Fin t') e = true -> jlt (Fin t) e = true) as Hmono.
  { intros e. apply jle_lt_trans. unfold jle. by apply Z.leb_le. }
  apply eq_true_iff_eq. rewrite !isLive_pget. split.
  - intros (e & Hg & He). exists e. split; [|done].
    destruct E as [s s1 P|s s1 jti2 ttlMs P _]; [by apply (ps_sub _ _ _ P)|].
    rewrite store_into_pget_ne in Hg by congruence. by apply (ps_sub _ _ _ P).
  - intros (e & Hg & He). exists e. split; [|done].
    destruct E as [s s1 P|s s1 jti2 ttlMs P _]; [by apply (ps_live _ _ _ P); auto|].
    rewrite store_into_pget_ne by congruence. by apply (ps_live _ _ _ P); auto.
Qed.

(** ** The bounded cache against an abstract register *)

(** The contract of a replay cache: a register of identifiers with the time
    until which each one must be refused. *)
Module Register.
Notation state := (gmap jstr jnum).

Definition live (m : state) (k : jstr) (t : Z) : bool :=
  match m !! k with
  | Some e => jlt (Fin t) e
  | None => false
  end.

Definition consume (m : state) (k : jstr) (retention : jnum) (t : Z) : bool * state :=
  if live m k t then (false, m) else (true, <[k := jadd (Fin t) retention]> m).
End Register.

(** The cache and the register agree on every entry live at [t]. *)
Definition agrees (t : Z) (set : entry_set) (m : Register.state) : Prop :=
  forall k e, jlt (Fin t) e = true -> map_get k (entries set) = Some e <-> m !! k = Some e.

Lemma agrees_later t t' set m : t <= t' -> agrees t set m -> agrees t' set m.
Proof.
  intros Hle H k e He. apply H. eapply jle_lt_trans; [|done]. unfold jle. by apply Z.leb_le.
Qed.

Lemma agrees_swept t set set' n m : swept t set set' n -> agrees t set m -> agrees t set' m.
Proof.
  intros Hs H k e He. rewrite <- (H k e He). split.
  - apply (swept_sub _ _ _ _ Hs).
  - intros. by apply (swept_live _ _ _ _ Hs).
Qed.

Lemma agrees_live t set m k : agrees t set m -> isLive (Some set) k t = Register.live m k t.
Proof.
  intros H. unfold isLive, Register.live. apply eq_true_iff_eq. split.
  - destruct (map_get k (entries set)) as [e|] eqn:Hg; [|done]. intros He.
    apply H in Hg; [|done]. by rewrite Hg.
  - destruct (m !! k) as [e|] eqn:Hg; [|done]. intros He.
    apply H in Hg; [|done]. by rewrite Hg.
Qed.

Lemma startCall_run t set :
  map_wf (entries set) -> exists set' n, swept t set set' n /\
    startCall (Fin t) set = (Ok t, set').
Proof.
  intros Hwf. eexists _, _. split; [by apply sweepExpiredPrefix_swept|done].
Qed.

(** [bounded_admit] removes entries that are not live only. *)
Lemma bounded_admit_swept cfg k t set :
  map_wf (entries set) -> exists n, swept t set (bounded_admit cfg k t set).2 n.
Proof.
  intros Hwf. unfold bounded_admit. rewrite bind_gets. cbv beta.
  destruct (isLive (Some set) k t) eqn:Hl; [exists 0; apply swept_refl|].
  rewrite bind_modify, bind_gets. cbv beta.
  pose proof (set_delete_swept set t k Hwf Hl) as H1.
  destruct (capacity cfg <=? set_size (set_delete k set)); [|by eexists].
  rewrite bind_modify, bind_gets. cbv beta.
  pose proof (throttledSweep_swept (set_delete k set) t (swept_wf _ _ _ _ H1 Hwf)) as H2.
  pose proof (swept_trans _ _ _ _ _ _ H1 H2) as H3.
  destruct (capacity cfg <=? _); eexists; exact H3.
Qed.

Lemma bounded_admit_err cfg k t set e set' :
  bounded_admit cfg k t set = (Err e, set') ->
  e = capacityExhausted /\ capacity cfg <= set_size set' /\
  set' = (throttledSweep (set_delete k set) t).1.
Proof.
  unfold bounded_admit. rewrite bind_gets. cbv beta.
  destruct (isLive (Some set) k t); [done|].
  rewrite bind_modify, bind_gets. cbv beta.
  destruct (capacity cfg <=? set_size (set_delete k set)); [|done].
  rewrite bind_modify, bind_gets. cbv beta.
  destruct (capacity cfg <=? set_size (throttledSweep (set_delete k set) t).1) eqn:Hc; [|done].
  intros [= <- <-]. split_and!; [done|by apply Z.leb_le|done].
Qed.

Lemma agrees_store t set m k ttlMs :
  agrees t set m -> isLive (Some set) k t = false ->
  agrees t (storeEntry set k ttlMs t).1 (<[k := jadd (Fin t) (retentionMs ttlMs)]> m).
Proof.
  intros H Hl k' e He. destruct (decide (k' = k)) as [->|Hne].
  - rewrite lookup_insert_eq. unfold storeEntry; cbn -[jlt jmax jadd].
    rewrite map_get_set_eq. unfold isLive in Hl.
    destruct (map_get k (entries set)); [rewrite Hl|]; done.
  - rewrite lookup_insert_ne, storeEntry_get_ne by congruence. by apply H.
Qed.

Lemma isLive_swept t set set' n k :
  swept t set set' n -> isLive (Some set) k t = false -> isLive (Some set') k t = false.
Proof.
  intros Hs. unfold isLive. destruct (map_get k (entries set')) as [e|] eqn:Hg; [|done].
  by rewrite (swept_sub _ _ _ _ Hs _ _ Hg).
Qed.

(** C30. The bounded cache implements the register: with a clock that does not go
    back, a [consume] that answers, answers what the register answers and the two
    still agree; one that refuses does so with the capacity error, for an
    identifier that is not live, and leaves the register's live entries as they
    were. *)
Theorem bounded_refines_register digestKey cfg jti k ttlMs t0 t set m :
  map_wf (entries set) -> agrees t0 set m -> t0 <= t -> entryKey digestKey jti = Ok k ->
  match bounded_consume digestKey cfg jti ttlMs (Fin t) set with
  | (Ok b, set') =>
      b = (Register.consume m k (retentionMs ttlMs) t).1 /\
      agrees t set' (Register.consume m k (retentionMs ttlMs) t).2 /\
      map_wf (entries set')
  | (Err e, set') =>
      e = capacityExhausted /\ Register.live m k t = false /\ agrees t set' m /\
      map_wf (entries set')
  end.
Proof.
  intros Hwf Hag Hle Hk. apply (agrees_later _ t) in Hag; [|done].
  unfold bounded_consume. rewrite bind_lift, Hk. cbv beta.
  destruct (startCall_run t set Hwf) as (set1 & n & Hs1 & E).
  rewrite (bind_run _ _ _ _ _ E), bind_gets. cbv beta.
  pose proof (agrees_swept _ _ _ _ _ Hs1 Hag) as Hag1.
  pose proof (swept_wf _ _ _ _ Hs1 Hwf) as Hwf1.
  pose proof (agrees_live _ _ _ k Hag1) as Hlive. unfold Register.consume.
  rewrite Hlive. destruct (Register.live m k t) eqn:Hl; [done|].
  destruct (bounded_admit_swept cfg k t set1 Hwf1) as [n2 Hs2].
  unfold bounded_record.
  destruct (bounded_admit cfg k t set1) as [[[]|e] set2] eqn:Ea; simpl in Hs2.
  - rewrite (bind_run _ _ _ _ _ (bind_run _ _ _ _ _ Ea)).
    cbv [mret stateM_ret]. simpl. split_and!; [done| |].
    + apply agrees_store; [by eapply agrees_swept|]. by eapply isLive_swept.
    + apply storeEntry_wf. by apply (swept_wf _ _ _ _ Hs2).
  - rewrite (bind_run_Err _ _ _ _ _ (bind_run_Err _ _ _ _ _ Ea)).
    apply bounded_admit_err in Ea as (-> & _ & _).
    split_and!; [done|done|by eapply agrees_swept|by apply (swept_wf _ _ _ _ Hs2)].
Qed.

(** ** Calls on the bounded cache *)

Inductive bounded_call : Type :=
  | BConsume (jti : option jstr) (ttlMs reading : jnum)
  | BSeen (jti : option jstr) (reading : jnum)
  | BRemember (jti : option jstr) (ttlMs reading : jnum)
  | BSize (reading : jnum)
  | BReset.

Section BoundedCalls.
Context (digestKey : jstr -> jstr) (cfg : bounded_config).

Definition run_bounded_call (c : bounded_call) : boundedM unit :=
  match c with
  | BConsume jti ttlMs reading => bounded_consume digestKey cfg jti ttlMs reading;; skip
  | BSeen jti reading => bounded_seen digestKey jti reading;; skip
  | BRemember jti ttlMs reading => bounded_remember digestKey cfg jti ttlMs reading
  | BSize reading => bounded_size reading;; skip
  | BReset => bounded_reset
  end.

Definition run_bounded_calls (cs : list bounded_call) (set : entry_set) : entry_set :=
  fold_left (fun set c => (run_bounded_call c set).2) cs set.
End BoundedCalls.

Record binv (cfg : bounded_config) (set : entry_set) : Prop := {
  binv_wf : map_wf (entries set);
  binv_ordered : forall k e, map_get k (entries set) = Some e -> ordered e;
  binv_size : set_size set <= capacity cfg
}.

Lemma binv_empty cfg : 0 < capacity cfg -> binv cfg createEntrySet.
Proof.
  intros. split; [apply map_wf_nil|done|]. unfold set_size; simpl. lia.
Qed.

Lemma binv_swept cfg t set set' n : swept t set set' n -> binv cfg set -> binv cfg set'.
Proof.
  intros [S1 S2 S3 S4 S5] [I1 I2 I3]. split; [auto|eauto|lia].
Qed.

Lemma storeEntry_ordered set jti ttlMs t k e :
  (forall k e, map_get k (entries set) = Some e -> ordered e) ->
  map_get k (entries (storeEntry set jti ttlMs t).1) = Some e -> ordered e.
Proof.
  intros Ho. destruct (decide (k = jti)) as [->|Hne];
    [|rewrite storeEntry_get_ne by done; apply Ho].
  unfold storeEntry; cbn -[jlt jmax jadd]. rewrite map_get_set_eq. intros [= <-].
  pose proof (requested_ordered t ttlMs).
  destruct (map_get jti (entries set)) eqn:Hg; [|done].
  case_match; [|done]. apply jmax_ordered; eauto.
Qed.

Lemma binv_record cfg k ttlMs t set :
  binv cfg set -> binv cfg (bounded_record cfg k ttlMs t set).2.
Proof.
  intros Hi. unfold bounded_record.
  destruct (bounded_admit_swept cfg k t set (binv_wf _ _ Hi)) as [n Hs].
  assert (forall set', bounded_admit cfg k t set = (Ok tt, set') ->
    isLive (Some set') k t = true \/ set_size set' < capacity cfg) as Hroom.
  { intros set'. unfold bounded_admit. rewrite bind_gets. cbv beta.
    destruct (isLive (Some set) k t) eqn:Hl; [intros [= <-]; by left|].
    rewrite bind_modify, bind_gets. cbv beta.
    destruct (Z.leb_spec (capacity cfg) (set_size (set_delete k set)));
      [|intros [= <-]; by right].
    rewrite bind_modify, bind_gets. cbv beta.
    destruct (Z.leb_spec (capacity cfg) (set_size (throttledSweep (set_delete k set) t).1));
      [done|intros [= <-]; by right]. }
  destruct (bounded_admit cfg k t set) as [[[]|e] set'] eqn:Ea; simpl in Hs.
  - rewrite (bind_run _ _ _ _ _ Ea). cbn [modify snd].
    pose proof (binv_swept _ _ _ _ _ Hs Hi) as [I1 I2 I3].
    destruct (storeEntry_size set' k ttlMs t I1) as [Hsz Hadd]. split.
    + by apply storeEntry_wf.
    + intros k' e. by apply storeEntry_ordered.
    + rewrite Hsz, Hadd. unfold map_has.
      destruct (Hroom set' eq_refl) as [Hl|Hlt];
        [|destruct (map_get k (entries set')); lia].
      unfold isLive in Hl. destruct (map_get k (entries set')); [lia|done].
  - rewrite (bind_run_Err _ _ _ _ _ Ea). by eapply binv_swept.
Qed.

Lemma binv_startCall cfg r set : binv cfg set -> binv cfg (startCall r set).2.
Proof.
  intros Hi. destruct r as [| |t|]; try done.
  destruct (startCall_run t set (binv_wf _ _ Hi)) as (set' & n & Hs & ->).
  by eapply binv_swept.
Qed.

Lemma binv_call digestKey cfg c set :
  0 < capacity cfg -> binv cfg set -> binv cfg (run_bounded_call digestKey cfg c set).2.
Proof.
  intros Hcap Hi.
  assert (preserves (binv cfg) (run_bounded_call digestKey cfg c)) as H; [|by apply H].
  assert (forall r, preserves (binv cfg) (startCall r)) as Hstart.
  { intros r s. apply binv_startCall. }
  assert (forall k ttl t, preserves (binv cfg) (bounded_record cfg k ttl t)) as Hrec.
  { intros k ttl t s. apply binv_record. }
  destruct c; simpl; unfold bounded_consume, bounded_seen, bounded_remember, bounded_size;
    repeat first
      [ apply Hstart | apply Hrec | apply preserves_bind | progress intros
      | match goal with |- preserves _ (if ?b then _ else _) => destruct b end
      | apply preserves_ret | apply preserves_lift | apply preserves_gets
      | apply preserves_skip ].
  intros s _. by apply binv_empty.
Qed.

Lemma binv_calls digestKey cfg cs set :
  0 < capacity cfg -> binv cfg set -> binv cfg (run_bounded_calls digestKey cfg cs set).
Proof.
  intros Hcap. revert set. induction cs as [|c cs IH]; simpl; [done|].
  intros set Hi. by apply IH, binv_call.
Qed.

(** The number of entries live at [t]. *)
Definition live_count (set : entry_set) (t : Z) : Z :=
  Z.of_nat (map_size (bfilter (fun e => jlt (Fin t) e.2) (entries set))).

Lemma live_count_swept t set set' n :
  map_wf (entries set) -> swept t set set' n -> live_count set' t <= live_count set t.
Proof.
  intros Hwf [S1 _ S3 _ _]. unfold live_count.
  pose proof (keys_subset_length (bfilter (fun e => jlt (Fin t) e.2) (entries set))
    (bfilter (fun e => jlt (Fin t) e.2) (entries set')) []) as H. simpl in H.
  apply inj_le, H; [by apply map_wf_filter, S3| |by intros k ?%not_elem_of_nil|constructor].
  intros k. rewrite <- !map_has_true. unfold map_has. rewrite !map_get_filter by auto.
  destruct (map_get k (entries set')) as [e|] eqn:Hg; simpl; [|done].
  by rewrite (S1 _ _ Hg).
Qed.

Lemma sweepAllExpired_live set t :
  (forall k e, map_get k (entries set) = Some e -> ordered e) -> map_wf (entries set) ->
  set_size (sweepAllExpired set t).1 <= live_count set t.
Proof.
  intros Ho Hwf. unfold sweepAllExpired, live_count, set_size.
  destruct (sweepAll_filter (entries set) t) as (H1 & _ & _).
  destruct (sweepAll (entries set) t) as [l n]; simpl in *. subst l.
  apply inj_le. apply Nat.eq_le_incl. f_equal.
  assert (forall e, e ∈ entries set -> negb (jle e.2 (Fin t)) = jlt (Fin t) e.2) as Heq.
  { intros [k e] Hin. simpl. symmetry. apply jlt_jle_neg; [done|].
    apply (Ho k). by apply map_get_in. }
  clear Ho Hwf. induction (entries set) as [|e l IH]; [done|]. simpl.
  rewrite Heq by (apply elem_of_cons; by left). rewrite IH; [done|].
  intros e' He'. apply Heq. apply elem_of_cons. by right.
Qed.

(** The bounded cache never stores more than its capacity, and it refuses a
    well-formed [consume] only when it is full of live entries or swept less than
    a second ago: once the last full sweep is at least [SWEEP_INTERVAL_MS] old
    and fewer than [capacity] entries are live, the call answers, [true] exactly
    when the identifier is not live. *)
Theorem bounded_admits digestKey maxSize floor cfg set0 cs jti k ttlMs t :
  createBoundedReplayCache maxSize floor = Ok (cfg, set0) ->
  let set := run_bounded_calls digestKey cfg cs set0 in
  set_size set <= capacity cfg /\
  (entryKey digestKey jti = Ok k ->
   jle SWEEP_INTERVAL_MS (jsub (Fin t) (lastFullSweepAt set)) = true ->
   live_count set t < capacity cfg ->
   (bounded_consume digestKey cfg jti ttlMs (Fin t) set).1 =
     Ok (negb (isLive (Some set) k t))).
Proof.
  intros Hcr set.
  assert (0 < capacity cfg /\ set0 = createEntrySet) as [Hcap ->].
  { unfold createBoundedReplayCache, positiveInteger, nonNegativeNumber in Hcr.
    unfold mbind, result_bind in Hcr.
    repeat (case_match; try discriminate); simplify_eq/=. split; [|done].
    repeat match goal with H : _ && _ = true |- _ => apply andb_true_iff in H as [? ?] end.
    by apply Z.ltb_lt. }
  pose proof (binv_calls digestKey cfg cs _ Hcap (binv_empty _ Hcap)) as Hi. fold set in Hi.
  split; [apply Hi|]. intros Hk Hold Hlive.
  unfold bounded_consume. rewrite bind_lift, Hk. cbv beta.
  pose proof (startCall_run t set (binv_wf _ _ Hi)) as (set1 & n & Hs1 & E).
  assert (lastFullSweepAt set1 = lastFullSweepAt set) as Hlast.
  { unfold startCall in E. injection E as <-. unfold sweepExpiredPrefix. by case_match. }
  rewrite (bind_run _ _ _ _ _ E), bind_gets. cbv beta.
  assert (isLive (Some set1) k t = isLive (Some set) k t) as Hsame.
  { unfold isLive. apply eq_true_iff_eq. split; intros H.
    - destruct (map_get k (entries set1)) eqn:Hg; [|done].
      by rewrite (swept_sub _ _ _ _ Hs1 _ _ Hg).
    - destruct (map_get k (entries set)) eqn:Hg; [|done].
      by rewrite (swept_live _ _ _ _ Hs1 _ _ Hg H). }
  rewrite Hsame. destruct (isLive (Some set) k t) eqn:Hl; [done|]. simpl.
  pose proof (binv_swept _ _ _ _ _ Hs1 Hi) as [I1 I2 I3].
  destruct (bounded_admit cfg k t set1) as [[[]|e] set2] eqn:Ea.
  { unfold bounded_record. by rewrite (bind_run _ _ _ _ _ (bind_run _ _ _ _ _ Ea)). }
  exfalso. apply bounded_admit_err in Ea as (_ & Hfull & ->).
  pose proof (set_delete_swept set1 t k I1 Hsame) as Hd.
  unfold throttledSweep in Hfull. rewrite jlt_jle_neg in Hfull.
  2: { unfold set_delete; cbn [lastFullSweepAt]. rewrite Hlast.
       intros E0. by rewrite E0 in Hold. }
  2: done.
  unfold set_delete in Hfull at 1 2; cbn [lastFullSweepAt entries] in Hfull.
  rewrite Hlast, Hold in Hfull. cbn [negb] in Hfull.
  pose proof (sweepAllExpired_live (EntrySet (entries (set_delete k set1)) (Fin t)) t) as Hsw.
  cbn [entries] in Hsw.
  assert (live_count (EntrySet (entries (set_delete k set1)) (Fin t)) t <= live_count set t).
  { exact (live_count_swept _ _ _ _ (binv_wf _ _ Hi) (swept_trans _ _ _ _ _ _ Hs1 Hd)). }
  assert (set_size (sweepAllExpired (EntrySet (entries (set_delete k set1)) (Fin t)) t).1
    <= live_count (EntrySet (entries (set_delete k set1)) (Fin t)) t).
  { apply Hsw; [|by apply (swept_wf _ _ _ _ Hd)].
    intros j e0 Hg. apply (swept_sub _ _ _ _ Hd) in Hg. eauto. }
  unfold set_delete in *; cbn [entries] in *. lia.
Qed.

(** ** Refusals *)

Lemma bind_Err {S E A B} (m : stateM S E A) (f : A -> stateM S E B) s e s' :
  mbind f m s = (Err e, s') ->
  m s = (Err e, s') \/ exists a s1, m s = (Ok a, s1) /\ f a s1 = (Err e, s').
Proof.
  unfold mbind, stateM_bind. destruct (m s) as [[a|e0] s1]; [|by intros [= -> ->]; left].
  intros H. right. eauto.
Qed.

Lemma admitNewEntry_err cfg key t s e s' :
  admitNewEntry cfg key t s = (Err e, s') ->
  (e = capacityExhausted /\ (table_full cfg key s' = true \/ globalCapacity cfg <= total s')) \/
  (e = quotaExhausted /\ quota_full cfg key s' = true).
Proof.
  unfold admitNewEntry. intros [H|(u & s1 & _ & [H|(u2 & s2 & _ & H)]%bind_Err)]%bind_Err.
  - left. unfold admit_table in H. rewrite bind_gets in H.
    destruct (table_full cfg key s); [|done].
    apply bind_Err in H as [H|(? & ? & _ & H)]; [done|].
    apply bind_Err in H as [H|(? & s3 & _ & H)]; [done|]. rewrite bind_gets in H.
    destruct (table_full cfg key s3) eqn:Hf; [|done]. injection H as <- <-. auto.
  - right. unfold admit_quota in H. rewrite bind_gets in H.
    destruct (quota_full cfg key s1); [|done].
    apply bind_Err in H as [H|(? & s3 & _ & H)]; [done|]. rewrite bind_gets in H.
    destruct (quota_full cfg key s3) eqn:Hf; [|done]. injection H as <- <-. auto.
  - left. unfold admit_total in H. rewrite bind_gets in H.
    destruct (globalCapacity cfg <=? total s2); [|done].
    apply bind_Err in H as [H|(? & s3 & _ & H)]; [done|]. rewrite bind_gets in H.
    destruct (Z.leb_spec (globalCapacity cfg) (total s3)); [|done].
    injection H as <- <-. auto.
Qed.

Lemma record_err cfg key jti ttlMs t s e s' :
  pwf s -> record cfg key jti ttlMs t s = (Err e, s') ->
  (e = capacityExhausted /\ (table_full cfg key s' = true \/ globalCapacity cfg <= total s')) \/
  (e = quotaExhausted /\ quota_full cfg key s' = true).
Proof.
  intros Hs. unfold record.
  destruct (currentPartition_run key t s Hs) as (s0 & _ & E). rewrite (bind_run _ _ _ _ _ E).
  destruct (isLive (map_get key (partitions s0)) jti t) eqn:Hl.
  { rewrite store_present; [done|]. unfold map_has. by destruct (map_get key (partitions s0)). }
  destruct (drop_stale_run key jti s0) as [s1 E1]. rewrite (bind_run _ _ _ _ _ E1).
  intros [H|(u & s2 & _ & H)]%bind_Err; [by eapply admitNewEntry_err|].
  by rewrite ensure_store in H.
Qed.

(** What a thrown [e] says of the state [s'] it leaves, from the state [s]. *)
Inductive refusal (cfg : partitioned_config) (key : jstr) (s s' : partitioned)
    : replay_error -> Prop :=
  | refusal_key : s' = s -> refusal cfg key s s' partitionInvalid
  | refusal_jti : s' = s -> refusal cfg key s s' (ReplayError REPLAY_JTI_INVALID_CODE None)
  | refusal_clock : s' = s -> refusal cfg key s s' clockInvalid
  | refusal_quota set : map_get key (partitions s') = Some set -> quota cfg <= set_size set ->
      refusal cfg key s s' quotaExhausted
  | refusal_table : map_get key (partitions s') = None ->
      partitionCapacity cfg <= table_size s' -> refusal cfg key s s' capacityExhausted
  | refusal_total : globalCapacity cfg <= total s' -> refusal cfg key s s' capacityExhausted.

(** [consume] fails closed and says why: it throws only for a malformed caller
    key, a malformed identifier or a non-finite clock, each without touching the
    cache, or because the caller's own partition holds its quota (429), or because
    the partition table or the whole cache is full (503); and
    [replayRefusalStatus] maps the error's code to the status it carries. *)
Theorem refusals_explained digestKey maxCaller maxSize maxParts floor cfg s0 cs
    caller key jti ttlMs reading e s' :
  createPartitionedReplayCache maxCaller maxSize maxParts floor = Ok (cfg, s0) ->
  let s := run_calls digestKey cfg cs s0 in
  or_else (forCaller digestKey caller) [] = key ->
  consume digestKey cfg caller jti ttlMs reading s = (Err e, s') ->
  refusal cfg key s s' e /\ replayRefusalStatus (re_code e) = re_status e.
Proof.
  intros [Hc Hi]%created_ok s Hkey H.
  assert (pinv cfg s) as Hs by by apply pinv_calls.
  enough (refusal cfg key s s' e) as Hr.
  { split; [done|]. by destruct Hr. }
  unfold consume in H. rewrite bind_lift in H.
  destruct (forCaller digestKey caller) as [key'|e'] eqn:Hk.
  2: { injection H as <- <-. unfold forCaller, assertPartitionKey in Hk.
       unfold mbind, result_bind in Hk. repeat case_match; simplify_eq; by constructor. }
  simpl in Hkey. subst key'. unfold view_consume in H. rewrite bind_lift in H.
  destruct (entryKey digestKey jti) as [entry|e'] eqn:He.
  2: { injection H as <- <-. unfold entryKey, assertJti in He.
       unfold mbind, result_bind in He. repeat case_match; simplify_eq; by constructor. }
  rewrite bind_lift in H. destruct reading as [| |t|]; simpl in H;
    try (injection H as <- <-; by constructor).
  destruct (currentPartition_run key t s (inv_wf _ _ Hs)) as (s1 & P & E).
  rewrite (bind_run _ _ _ _ _ E) in H. destruct (isLive _ entry t); [done|].
  apply bind_Err in H as [H|(? & ? & _ & H)]; [|done].
  apply record_err in H as [(-> & [H|H])|(-> & H)]; [| | |apply P].
  - unfold table_full, map_has in H. destruct (map_get key (partitions s')) eqn:Hg; [done|].
    apply refusal_table; [done|]. by apply Z.leb_le.
  - by apply refusal_total.
  - unfold quota_full in H. destruct (map_get key (partitions s')) eqn:Hg; [|done].
    eapply refusal_quota; [done|]. by apply Z.leb_le.
Qed.

(** ** Witnesses *)

(** The identity stands for the digest. *)
Definition id_digest (s : jstr) : jstr := s.
Definition small_cfg : partitioned_config := PartitionedConfig 4 2 2 0.

Lemma replay_refused_witness :
  (consume id_digest small_cfg (Some "agent:a"%js) (Some "j1"%js) (Fin 7) (Fin 500)
    (run_calls id_digest small_cfg
       [CSeen (Some "agent:a"%js) (Some "j1"%js) (Fin 400);
        CConsume (Some "agent:b"%js) (Some "j1"%js) (Fin 50) (Fin 1090);
        CConsume (Some "agent:a"%js) (Some "j2"%js) (Fin 9) (Fin 200)]
       (consume id_digest small_cfg (Some "agent:a"%js) (Some "j1"%js) (Fin 1000) (Fin 100)
          emptyPartitioned).2)).1 = Ok false.
Proof.
  eapply (replay_refused id_digest (Fin 2) (Fin 4) (Fin 2) (Fin 0) small_cfg
    emptyPartitioned [] (Some "agent:a"%js) (Some "j1"%js) (Fin 1000) 100).
  - reflexivity.
  - reflexivity.
  - repeat (constructor; [split; [discriminate|intros t [= <-]; reflexivity]|]). constructor.
  - reflexivity.
Defined.

Lemma accounting_exact_witness :
  let s := run_calls id_digest small_cfg
    [CConsume (Some "a"%js) (Some "j1"%js) (Fin 50) (Fin 10);
     CReset; CRoot; CConsume (Some "b"%js) (Some "j1"%js) (Fin 50) (Fin 20)] emptyPartitioned in
  (stats s).1 = Ok (table_size s, sum_sizes (partitions s)).
Proof.
  apply (accounting_exact id_digest (Fin 2) (Fin 4) (Fin 2) (Fin 0) small_cfg
    emptyPartitioned _ eq_refl).
Defined.

Lemma callers_isolated_witness :
  let s := run_calls id_digest small_cfg
    [CConsume (Some "b"%js) (Some "j1"%js) (Fin 50) (Fin 20)] emptyPartitioned in
  isLive (map_get "b"%js (partitions (run_call id_digest small_cfg
    (CConsume (Some "a"%js) (Some "j1"%js) (Fin 50) (Fin 30)) s).2)) "j1" 40 =
  isLive (map_get "b"%js (partitions s)) "j1" 40.
Proof.
  apply (callers_isolated id_digest (Fin 2) (Fin 4) (Fin 2) (Fin 0) small_cfg
    emptyPartitioned _ _ 30 "a"%js "b"%js); [reflexivity|reflexivity|reflexivity|discriminate|lia].
Defined.

Lemma bounded_refines_register_witness :
  match bounded_consume id_digest (BoundedConfig 2 0) (Some "j1"%js) (Fin 50) (Fin 10) createEntrySet with
  | (Ok b, set') =>
      b = (Register.consume ∅ "j1"%js (retentionMs (Fin 50)) 10).1 /\
      agrees 10 set' (Register.consume ∅ "j1"%js (retentionMs (Fin 50)) 10).2 /\
      map_wf (entries set')
  | (Err e, set') =>
      e = capacityExhausted /\ Register.live ∅ "j1"%js 10 = false /\ agrees 10 set' ∅ /\
      map_wf (entries set')
  end.
Proof.
  apply (bounded_refines_register id_digest (BoundedConfig 2 0) (Some "j1"%js) "j1"%js (Fin 50)
    5 10 createEntrySet ∅); [apply map_wf_nil| |lia|reflexivity].
  intros k e _. rewrite lookup_empty. split; discriminate.
Defined.

Lemma bounded_admits_witness :
  let set := run_bounded_calls id_digest (BoundedConfig 1 0)
    [BConsume (Some "j1"%js) (Fin 5) (Fin 10)] createEntrySet in
  (bounded_consume id_digest (BoundedConfig 1 0) (Some "j2"%js) (Fin 50) (Fin 2000) set).1 =
    Ok (negb (isLive (Some set) "j2" 2000)).
Proof.
  refine (proj2 (bounded_admits id_digest (Fin 1) (Fin 0) (BoundedConfig 1 0) createEntrySet
    [BConsume (Some "j1"%js) (Fin 5) (Fin 10)] (Some "j2"%js) "j2"%js (Fin 50) 2000 eq_refl)
    _ _ _); reflexivity.
Defined.

Lemma refusals_explained_witness :
  let cs := [CConsume (Some "a"%js) (Some "j1"%js) (Fin 5000) (Fin 10);
             CConsume (Some "a"%js) (Some "j2"%js) (Fin 5000) (Fin 10)] in
  let s := run_calls id_digest small_cfg cs emptyPartitioned in
  let s' := (consume id_digest small_cfg (Some "a"%js) (Some "j3"%js) (Fin 5) (Fin 20) s).2 in
  refusal small_cfg "a" s s' quotaExhausted /\
  replayRefusalStatus (re_code quotaExhausted) = re_status quotaExhausted.
Proof.
  apply (refusals_explained id_digest (Fin 2) (Fin 4) (Fin 2) (Fin 0) small_cfg
    emptyPartitioned _ (Some "a"%js) "a"%js (Some "j3"%js) (Fin 5) (Fin 20));
    reflexivity.
Defined.
