(* ===== verification/TaskControlStream.v ===== *)
(** The task control stream of [src/Agent/server/taskControlStream.mjs]: splits
    the standard error of a task into live log text and control records.

    [JSON.parse] and Node's [StringDecoder] are parameters.  What the callbacks
    [onLog] and [onControl] receive is the list of outputs, in order; an
    exception of [JSON.parse] or [onControl] is swallowed by the code. *)

From stdpp Require Import prelude.
From Stdlib Require Import NArith.
From S2P Require Import Prelude.
From S2P Require Import JsString.
From S2P Require Import JsValue.

Local Open Scope js_scope.

Definition PREFIX : jstr := "@@PLOINKY_TASK_CONTROL@@".

Definition newline : N := 10%N.

Inductive output : Type :=
  | Log (text : jstr)
  | Control (raw : js).

(** A chunk is a string or a Buffer. *)
Inductive chunk (bytes : Type) : Type :=
  | Text (s : jstr)
  | Bytes (b : bytes).

Arguments Text {bytes} s.
Arguments Bytes {bytes} b.

(** [StringDecoder('utf8')]: [write] and [end]. *)
Class Decoder (bytes : Type) := {
  decoder : Type;
  decoder_new : decoder;
  decoder_write : decoder -> bytes -> jstr * decoder;
  decoder_end : decoder -> jstr * decoder
}.

Record control_stream (D : Type) : Type := ControlStream {
  buffered : jstr;
  lineStart : bool;
  stream_decoder : D
}.

Arguments ControlStream {D} _ _ _.
Arguments buffered {D} _.
Arguments lineStart {D} _.
Arguments stream_decoder {D} _.

Section ControlStream.
Context `{DB : Decoder bytes} (json_parse : jstr -> option js).

(** The loop of [consume].  Every turn that continues removes at least one
    unit of the buffer, so its length is fuel enough. *)
Fixpoint consume_loop (fuel : nat) (buffered : jstr) (lineStart : bool) :
    list output * (jstr * bool) :=
  match fuel, buffered with
  | O, _ | _, [] => ([], (buffered, lineStart))
  | S fuel, _ =>
      let newline_at := index_of newline buffered in
      let plain :=
        match newline_at with
        | None => ([Log buffered], ([], false))
        | Some i =>
            let '(outs, end_state) := consume_loop fuel (drop (S i) buffered) true in
            (Log (take (S i) buffered) :: outs, end_state)
        end in
      if lineStart && (starts_with PREFIX buffered || starts_with buffered PREFIX) then
        match newline_at with
        | None => if length buffered <? 4096 then ([], (buffered, lineStart)) else plain
        | Some i =>
            let record := slice (length PREFIX) i buffered in
            let '(outs, end_state) := consume_loop fuel (drop (S i) buffered) lineStart in
            (match json_parse record with
             | Some raw => [Control raw]
             | None => []
             end ++ outs, end_state)
        end
      else plain
  end.

Definition consume (s : control_stream decoder) : list output * control_stream decoder :=
  let '(outs, (b, l)) := consume_loop (length (buffered s)) (buffered s) (lineStart s) in
  (outs, ControlStream b l (stream_decoder s)).

Definition createTaskControlStream : control_stream decoder :=
  ControlStream [] true decoder_new.

Definition push (c : chunk bytes) (s : control_stream decoder) :
    list output * control_stream decoder :=
  let '(text, d) :=
    match c with
    | Text t => (t, stream_decoder s)
    | Bytes b => decoder_write (stream_decoder s) b
    end in
  consume (ControlStream (buffered s ++ text) (lineStart s) d).

Definition finish (s : control_stream decoder) : list output * control_stream decoder :=
  let '(text, d) := decoder_end (stream_decoder s) in
  let rest := buffered s ++ text in
  (if truthy rest then [Log rest] else [], ControlStream [] (lineStart s) d).

Fixpoint push_all (cs : list (chunk bytes)) (s : control_stream decoder) :
    list output * control_stream decoder :=
  match cs with
  | [] => ([], s)
  | c :: cs =>
      let '(o, s) := push c s in
      let '(os, s) := push_all cs s in
      (o ++ os, s)
  end.

(** ** The contract

    A line that starts with [PREFIX] is a control record; every other line is
    log text, the unfinished last one included. *)

Fixpoint split_lines_spec (lines : list jstr) : list output :=
  match lines with
  | [] => []
  | [last] => [Log last]
  | l :: lines =>
      (if starts_with l PREFIX then
         match json_parse (drop (length PREFIX) l) with
         | Some raw => [Control raw]
         | None => []
         end
       else [Log (l ++ [newline])]) ++ split_lines_spec lines
  end.

(** The text a list of chunks decodes to, and the decoder after it. *)
Fixpoint decoded (cs : list (chunk bytes)) (d : decoder) : jstr * decoder :=
  match cs with
  | [] => ([], d)
  | Text t :: cs => let '(r, d) := decoded cs d in (t ++ r, d)
  | Bytes b :: cs =>
      let '(t, d) := decoder_write d b in
      let '(r, d) := decoded cs d in (t ++ r, d)
  end.
End ControlStream.

(** Outputs unit by unit: how the log text is cut into calls does not matter,
    its order relative to the control records does. *)
Inductive output_unit : Type :=
  | LogUnit (c : N)
  | ControlUnit (raw : js).

Definition explode (o : output) : list output_unit :=
  match o with
  | Log s => LogUnit <$> s
  | Control raw => [ControlUnit raw]
  end.

Definition explode_all (os : list output) : list output_unit := os ≫= explode.

(** No line is long enough to make the stream give up on a control record. *)
Definition lines_short (text : jstr) : Prop :=
  Forall (fun l => length l < 4096) (split_on newline text).

(** The control stream against its line contract: however the standard error
    of a task is cut into chunks, the log text and the control records are
    those of its lines. *)

Lemma explode_all_app o1 o2 : explode_all (o1 ++ o2) = explode_all o1 ++ explode_all o2.
Proof. unfold explode_all. by rewrite bind_app. Qed.

Lemma explode_all_cons o os : explode_all (o :: os) = explode o ++ explode_all os.
Proof. done. Qed.

Lemma explode_log s os :
  explode_all (Log s :: os) = (LogUnit <$> s) ++ explode_all os.
Proof. done. Qed.

(** The guard of the control branch. *)
Definition looks_control (lineStart : bool) (b : jstr) : bool :=
  lineStart && (starts_with PREFIX b || starts_with b PREFIX).

Lemma PREFIX_no_newline : newline ∉ PREFIX.
Proof. by apply index_of_None. Qed.

#[local] Opaque PREFIX.

Lemma prefix_of_PREFIX b i :
  index_of newline b = Some i -> starts_with PREFIX b = false.
Proof.
  intros Hi. apply not_true_iff_false. intros [r Hr]%starts_with_spec.
  apply PREFIX_no_newline. rewrite Hr. apply index_of_Some in Hi as [-> _].
  set_solver.
Qed.

Lemma looks_control_app_inv l b y :
  looks_control l (b ++ y) = true -> looks_control l b = true.
Proof.
  unfold looks_control. rewrite !andb_true_iff, !orb_true_iff, !starts_with_spec.
  intros [? [[r Hr]|[r Hr]]]; split; try done.
  - left. exists (y ++ r). by rewrite app_assoc.
  - symmetry in Hr. apply app_eq_inv in Hr as [(k & ? & _)|(k & ? & _)];
      [left|right]; eauto.
Qed.

Lemma looks_control_newline l b i :
  index_of newline b = Some i -> looks_control l b = l && starts_with b PREFIX.
Proof. intros Hi. unfold looks_control. by rewrite (prefix_of_PREFIX b i). Qed.

Lemma looks_control_app l b y i :
  index_of newline b = Some i -> looks_control l (b ++ y) = looks_control l b.
Proof.
  intros Hi. apply eq_true_iff_eq. split; [apply looks_control_app_inv|].
  rewrite (looks_control_newline _ _ _ Hi). unfold looks_control.
  intros [-> Hb]%andb_true_iff. rewrite (starts_with_app _ _ _ Hb).
  by rewrite orb_true_r.
Qed.

Lemma starts_with_line b i :
  index_of newline b = Some i ->
  starts_with b PREFIX = starts_with (take i b) PREFIX.
Proof.
  intros Hi. apply index_of_Some in Hi as (Hb & Hn & Hl). apply eq_true_iff_eq.
  split.
  - rewrite Hb at 1. rewrite !starts_with_spec. intros [r Hr].
    apply app_eq_inv in Hr as [(k & Hk & ?)|(k & Hk & Hr)]; [eauto|].
    destruct k as [|c k]; simplify_list_eq; [by exists []; simplify_list_eq|].
    exfalso. apply PREFIX_no_newline. rewrite Hk. set_solver.
  - intros H. rewrite Hb. by apply starts_with_app.
Qed.

Section Loop.
Context (json_parse : jstr -> option js).

Notation loop := (consume_loop json_parse).

(** The four ways a turn of the loop goes. *)
Lemma loop_wait n b l :
  index_of newline b = None -> looks_control l b = true -> length b < 4096 ->
  loop n b l = ([], (b, l)).
Proof.
  intros Hi Hc Hl. destruct n as [|n]; [done|]. destruct b as [|c b]; [done|].
  cbn [consume_loop]. fold (looks_control l (c :: b)). rewrite Hc, Hi.
  by rewrite (proj2 (Nat.ltb_lt _ _) Hl).
Qed.

Lemma loop_partial n b l :
  index_of newline b = None -> looks_control l b = false -> b <> [] ->
  loop (S n) b l = ([Log b], ([], false)).
Proof.
  intros Hi Hc Hb. destruct b as [|c b]; [done|].
  cbn [consume_loop]. fold (looks_control l (c :: b)). by rewrite Hc, Hi.
Qed.

Lemma loop_line n b l i :
  index_of newline b = Some i -> looks_control l b = false ->
  loop (S n) b l =
  (Log (take (S i) b) :: (loop n (drop (S i) b) true).1, (loop n (drop (S i) b) true).2).
Proof.
  intros Hi Hc. destruct b as [|c b]; [done|].
  cbn [consume_loop]. fold (looks_control l (c :: b)). rewrite Hc, Hi.
  by destruct (loop n _ _).
Qed.

Definition record_outputs (record : jstr) : list output :=
  match json_parse record with
  | Some raw => [Control raw]
  | None => []
  end.

Lemma loop_control n b i :
  index_of newline b = Some i -> looks_control true b = true ->
  loop (S n) b true =
  (record_outputs (slice (length PREFIX) i b) ++ (loop n (drop (S i) b) true).1,
   (loop n (drop (S i) b) true).2).
Proof.
  intros Hi Hc. destruct b as [|c b]; [done|].
  cbn [consume_loop]. fold (looks_control true (c :: b)). rewrite Hc, Hi.
  unfold record_outputs. by destruct (loop n _ _), (json_parse _).
Qed.

Lemma length_drop_lt i (b : jstr) : i < length b -> length (drop (S i) b) < length b.
Proof. rewrite length_drop. lia. Qed.

Lemma lines_short_drop b i :
  index_of newline b = Some i -> lines_short b -> lines_short (drop (S i) b).
Proof.
  intros Hi. unfold lines_short. rewrite (split_on_Some _ _ _ Hi). by inversion 1.
Qed.

Lemma lines_short_None b : index_of newline b = None -> lines_short b -> length b < 4096.
Proof.
  intros Hi. unfold lines_short. rewrite (split_on_None _ _ Hi). by inversion 1.
Qed.

Lemma lines_short_suffix b y : index_of newline b = None -> lines_short (b ++ y) -> lines_short y.
Proof.
  intros Hi. unfold lines_short.
  destruct (index_of newline y) as [i|] eqn:Hy.
  - rewrite (split_on_Some _ y i), (split_on_Some _ (b ++ y) (length b + i));
      [|by rewrite index_of_app_None, Hy|done].
    replace (S (length b + i)) with (length b + S i) by lia.
    rewrite drop_app_add, take_app_add. inversion 1 as [|?? H1 H2]; subst.
    constructor; [|done]. rewrite length_app in H1. lia.
  - rewrite !split_on_None; [|done|by rewrite index_of_app_None, Hy].
    inversion 1 as [|?? H1 H2]; subst. rewrite length_app in H1. constructor; [lia|done].
Qed.

Lemma lines_short_first b y : lines_short (b ++ y) -> index_of newline b = None -> length b < 4096.
Proof.
  intros Hs Hi. destruct (index_of newline (b ++ y)) as [i|] eqn:Hby.
  - pose proof (index_of_Some _ _ _ Hby) as (_ & _ & Hl).
    unfold lines_short in Hs. rewrite (split_on_Some _ _ _ Hby) in Hs.
    apply Forall_cons_1 in Hs as [Hs _]. rewrite index_of_app_None in Hby by done.
    destruct (index_of newline y); simplify_eq/=. rewrite length_take in Hs. lia.
  - apply lines_short_None in Hs; [|done]. rewrite length_app in Hs. lia.
Qed.

Lemma app_drop_Some b y i :
  index_of newline b = Some i -> drop (S i) (b ++ y) = drop (S i) b ++ y.
Proof.
  intros (_ & _ & Hl)%index_of_Some. rewrite drop_app.
  by replace (S i - length b) with 0 by lia.
Qed.

Lemma app_take_Some b y i :
  index_of newline b = Some i -> take (S i) (b ++ y) = take (S i) b.
Proof.
  intros (_ & _ & Hl)%index_of_Some. rewrite take_app.
  replace (S i - length b) with 0 by lia. by rewrite take_0, app_nil_r.
Qed.

Lemma slice_app_Some b y i a :
  index_of newline b = Some i -> slice a i (b ++ y) = slice a i b.
Proof.
  intros (_ & _ & Hl)%index_of_Some. unfold slice. rewrite drop_app, take_app.
  rewrite length_drop. replace (i - a - (length b - a)) with 0 by lia.
  by rewrite take_0, app_nil_r.
Qed.

(** How a turn goes, whatever the fuel. *)
Inductive turn (b : jstr) (l : bool) : Prop :=
  | TurnWait : index_of newline b = None -> looks_control l b = true ->
      length b < 4096 -> turn b l
  | TurnPartial : index_of newline b = None ->
      (forall n, loop (S n) b l = ([Log b], ([], false))) -> turn b l
  | TurnLine i : index_of newline b = Some i -> looks_control l b = false -> turn b l
  | TurnControl i : index_of newline b = Some i -> l = true ->
      looks_control true b = true -> turn b l.

Lemma turn_cases b l : b <> [] -> turn b l.
Proof.
  intros Hb. destruct (looks_control l b) eqn:Hc.
  - destruct (index_of newline b) as [i|] eqn:Hi.
    + destruct l; [|done]. by eapply TurnControl.
    + destruct (decide (length b < 4096)) as [Hl|Hl]; [by apply TurnWait|].
      apply TurnPartial; [done|]. intros n. destruct b as [|c b]; [done|].
      cbn [consume_loop]. fold (looks_control l (c :: b)). rewrite Hc, Hi.
      by rewrite (proj2 (Nat.ltb_ge _ _)) by lia.
  - destruct (index_of newline b) as [i|] eqn:Hi; [by eapply TurnLine|].
    apply TurnPartial; [done|]. intros n. by apply loop_partial.
Qed.

(** The length of the buffer is fuel enough. *)
Lemma loop_enough n : forall m b l,
  length b <= n -> length b <= m -> loop n b l = loop m b l.
Proof.
  induction n as [|n IH]; intros m b l Hn Hm.
  { destruct b; [by destruct m|simpl in Hn; lia]. }
  destruct (decide (b = [])) as [->|Hb]; [by destruct m|].
  destruct m as [|m]; [destruct b; simpl in Hm; [done|lia]|].
  assert (forall i l', index_of newline b = Some i ->
    loop n (drop (S i) b) l' = loop m (drop (S i) b) l') as Hrec.
  { intros i l' (_ & _ & Hl)%index_of_Some.
    apply IH; pose proof (length_drop_lt _ _ Hl); lia. }
  destruct (turn_cases b l Hb) as [??? |? Hp|i Hi Hc|i Hi -> Hc].
  - by rewrite !loop_wait.
  - by rewrite !Hp.
  - rewrite !(loop_line _ _ _ _ Hi Hc). by rewrite (Hrec _ _ Hi).
  - rewrite !(loop_control _ _ _ Hi Hc). by rewrite (Hrec _ _ Hi).
Qed.

Notation run b l := (loop (length b) b l).

Lemma run_loop n b l : length b <= n -> loop n b l = run b l.
Proof. intros. by apply loop_enough. Qed.

Lemma run_line b l i :
  index_of newline b = Some i -> looks_control l b = false ->
  run b l = (Log (take (S i) b) :: (run (drop (S i) b) true).1, (run (drop (S i) b) true).2).
Proof.
  intros Hi Hc. pose proof (index_of_Some _ _ _ Hi) as (_ & _ & Hl).
  destruct (length b) as [|n] eqn:Hn; [lia|]. rewrite (loop_line _ _ _ _ Hi Hc).
  rewrite run_loop; [done|]. rewrite length_drop. lia.
Qed.

Lemma run_control b i :
  index_of newline b = Some i -> looks_control true b = true ->
  run b true =
  (record_outputs (slice (length PREFIX) i b) ++ (run (drop (S i) b) true).1,
   (run (drop (S i) b) true).2).
Proof.
  intros Hi Hc. pose proof (index_of_Some _ _ _ Hi) as (_ & _ & Hl).
  destruct (length b) as [|n] eqn:Hn; [lia|]. rewrite (loop_control _ _ _ Hi Hc).
  rewrite run_loop; [done|]. rewrite length_drop. lia.
Qed.

(** Text that does not begin a line is logged up to the newline. *)
Lemma run_nonstart y :
  let r := run y false in
  match index_of newline y with
  | None => explode_all r.1 = (LogUnit <$> y) /\ r.2 = ([], false)
  | Some i =>
      explode_all r.1 = (LogUnit <$> take (S i) y) ++ explode_all (run (drop (S i) y) true).1 /\
      r.2 = (run (drop (S i) y) true).2
  end.
Proof.
  destruct (decide (y = [])) as [->|Hy]; [done|].
  destruct (turn_cases y false Hy) as [? Hc|Hi Hp|i Hi Hc|i ?]; try done.
  - simpl. rewrite Hi. destruct (length y) eqn:Hl; [by destruct y|].
    rewrite Hp. simpl. by rewrite app_nil_r.
  - simpl. rewrite Hi. by rewrite (run_line _ _ _ Hi Hc).
Qed.

(** A line that was logged before its end keeps being logged. *)
Lemma run_app_partial b y l :
  b <> [] -> index_of newline b = None -> looks_control l b = false ->
  explode_all (run (b ++ y) l).1 = (LogUnit <$> b) ++ explode_all (run y false).1 /\
  (run (b ++ y) l).2 = (run y false).2.
Proof.
  intros Hb Hi Hc. pose proof (run_nonstart y) as Hy. cbn zeta in Hy.
  assert (looks_control l (b ++ y) = false) as Hc'.
  { apply not_true_iff_false. intros H%looks_control_app_inv. congruence. }
  destruct (index_of newline y) as [i|] eqn:Hyi; destruct Hy as [-> ->].
  - rewrite (run_line (b ++ y) l (length b + i)); [|by rewrite index_of_app_None, Hyi|done].
    replace (S (length b + i)) with (length b + S i) by lia.
    rewrite drop_app_add, take_app_add. cbn [fst snd]. rewrite explode_log, fmap_app. by rewrite app_assoc.
  - destruct (length (b ++ y)) eqn:Hl; [by destruct b|].
    rewrite loop_partial; [|by rewrite index_of_app_None, Hyi|done|by destruct b].
    simpl. by rewrite app_nil_r, fmap_app.
Qed.

(** What is left of text with short lines, put before more text, still has
    short lines. *)
Lemma run_short y : forall b l,
  lines_short (b ++ y) -> lines_short ((run b l).2.1 ++ y).
Proof.
  intros b. induction b as [b IH] using (induction_ltof1 _ (@length N)).
  unfold ltof in IH. intros l Hs.
  destruct (decide (b = [])) as [->|Hb]; [done|].
  assert (forall i, index_of newline b = Some i ->
    lines_short (drop (S i) b ++ y) /\ length (drop (S i) b) < length b) as Hd.
  { intros i Hi. rewrite <-(app_drop_Some b y i Hi). split.
    - apply lines_short_drop; [by apply index_of_app_Some|done].
    - apply index_of_Some in Hi as (_ & _ & Hl). by apply length_drop_lt. }
  destruct (turn_cases b l Hb) as [Hi Hc Hl|Hi Hp|i Hi Hc|i Hi -> Hc].
  - by rewrite loop_wait.
  - destruct (length b) eqn:Hn; [by destruct b|]. rewrite Hp. simpl.
    by apply (lines_short_suffix b).
  - destruct (Hd i Hi). rewrite (run_line _ _ _ Hi Hc). cbn [fst snd]. by apply IH.
  - destruct (Hd i Hi). rewrite (run_control _ _ Hi Hc). cbn [fst snd]. by apply IH.
Qed.

(** Stopping in the middle of the text and starting again from what is left
    gives the outputs of the whole text. *)
Lemma run_app y : forall b l,
  lines_short (b ++ y) ->
  let first := run b l in
  let rest := run (first.2.1 ++ y) first.2.2 in
  let whole := run (b ++ y) l in
  explode_all whole.1 = explode_all first.1 ++ explode_all rest.1 /\
  whole.2 = rest.2.
Proof.
  intros b. induction b as [b IH] using (induction_ltof1 _ (@length N)).
  unfold ltof in IH. intros l Hs.
  destruct (decide (b = [])) as [->|Hb]; [done|].
  destruct (turn_cases b l Hb) as [Hi Hc Hl|Hi Hp|i Hi Hc|i Hi -> Hc].
  - rewrite loop_wait by done. done.
  - destruct (length b) as [|n] eqn:Hn; [by destruct b|]. rewrite Hp.
    cbn [fst snd app]. rewrite explode_log, app_nil_r. apply run_app_partial; [done..|].
    destruct (looks_control l b) eqn:Hc; [|done]. exfalso.
    pose proof (lines_short_first _ _ Hs Hi).
    specialize (Hp 0). by rewrite loop_wait in Hp.
  - pose proof (app_drop_Some b y i Hi) as Hd.
    assert (lines_short (drop (S i) b ++ y)) as Hs'.
    { rewrite <-Hd. apply lines_short_drop; [by apply index_of_app_Some|done]. }
    rewrite (run_line _ _ _ Hi Hc), (run_line (b ++ y) l i);
      [|by apply index_of_app_Some|by erewrite looks_control_app].
    rewrite Hd, (app_take_Some _ _ _ Hi). cbn [fst snd].
    destruct (IH (drop (S i) b)) with (l := true) as [He Hf]; [|done|].
    { apply index_of_Some in Hi as (_ & _ & Hl). by apply length_drop_lt. }
    rewrite !explode_log, He, Hf. split; [|done]. by rewrite app_assoc.
  - pose proof (app_drop_Some b y i Hi) as Hd.
    assert (lines_short (drop (S i) b ++ y)) as Hs'.
    { rewrite <-Hd. apply lines_short_drop; [by apply index_of_app_Some|done]. }
    rewrite (run_control _ _ Hi Hc), (run_control (b ++ y) i);
      [|by apply index_of_app_Some|by erewrite looks_control_app].
    rewrite Hd, (slice_app_Some _ _ _ _ Hi). cbn [fst snd].
    destruct (IH (drop (S i) b)) with (l := true) as [He Hf]; [|done|].
    { apply index_of_Some in Hi as (_ & _ & Hl). by apply length_drop_lt. }
    rewrite !explode_all_app, He, Hf. split; [|done]. by rewrite app_assoc.
Qed.

(** From a line start, the loop logs and reports what the line contract says,
    the unfinished line being either logged or still in the buffer. *)
Lemma run_spec b :
  lines_short b ->
  explode_all (run b true).1 ++ (LogUnit <$> (run b true).2.1) =
  explode_all (split_lines_spec json_parse (split_on newline b)).
Proof.
  induction b as [b IH] using (induction_ltof1 _ (@length N)). unfold ltof in IH.
  intros Hs. destruct (decide (b = [])) as [->|Hb]; [done|].
  destruct (turn_cases b true Hb) as [Hi Hc Hl|Hi Hp|i Hi Hc|i Hi _ Hc].
  - rewrite loop_wait, split_on_None by done. simpl. by rewrite app_nil_r.
  - rewrite split_on_None by done. destruct (length b) eqn:Hn; [by destruct b|].
    rewrite Hp. simpl. by rewrite app_nil_r.
  - pose proof (index_of_Some _ _ _ Hi) as (_ & _ & Hl).
    rewrite (run_line _ _ _ Hi Hc), (split_on_Some _ _ _ Hi). cbn [fst snd].
    specialize (IH _ (length_drop_lt _ _ Hl) (lines_short_drop _ _ Hi Hs)).
    rewrite explode_log, <-app_assoc, IH. clear IH.
    destruct (split_on newline (drop (S i) b)) eqn:He; [by apply split_on_nonempty in He|].
    cbn [split_lines_spec]. rewrite <-(starts_with_line _ _ Hi).
    rewrite looks_control_newline with (1 := Hi) in Hc. rewrite andb_true_l in Hc.
    rewrite Hc.
    rewrite explode_all_app, explode_log. simpl. rewrite app_nil_r.
    by rewrite (take_S_r b i newline) by (by apply index_of_lookup).
  - pose proof (index_of_Some _ _ _ Hi) as (_ & _ & Hl).
    rewrite (run_control _ _ Hi Hc), (split_on_Some _ _ _ Hi). cbn [fst snd].
    specialize (IH _ (length_drop_lt _ _ Hl) (lines_short_drop _ _ Hi Hs)).
    rewrite explode_all_app, <-app_assoc, IH. clear IH.
    destruct (split_on newline (drop (S i) b)) eqn:He; [by apply split_on_nonempty in He|].
    cbn [split_lines_spec]. rewrite <-(starts_with_line _ _ Hi).
    rewrite looks_control_newline with (1 := Hi) in Hc. rewrite andb_true_l in Hc.
    rewrite Hc.
    rewrite explode_all_app. unfold record_outputs, slice. by rewrite skipn_firstn_comm.
Qed.

(** What the loop leaves is what it would leave again. *)
Definition settled (b : jstr) (l : bool) : Prop := run b l = ([], (b, l)).

Lemma run_settled b l : settled (run b l).2.1 (run b l).2.2.
Proof.
  revert l. induction b as [b IH] using (induction_ltof1 _ (@length N)).
  unfold ltof in IH. intros l.
  destruct (decide (b = [])) as [->|Hb]; [done|].
  destruct (turn_cases b l Hb) as [Hi Hc Hl|Hi Hp|i Hi Hc|i Hi -> Hc].
  - pose proof (loop_wait (length b) _ _ Hi Hc Hl) as Hr. by rewrite Hr.
  - destruct (length b) eqn:Hn; [by destruct b|]. by rewrite Hp.
  - pose proof (index_of_Some _ _ _ Hi) as (_ & _ & Hl).
    rewrite (run_line _ _ _ Hi Hc). cbn [fst snd]. apply IH. by apply length_drop_lt.
  - pose proof (index_of_Some _ _ _ Hi) as (_ & _ & Hl).
    rewrite (run_control _ _ Hi Hc). cbn [fst snd]. apply IH. by apply length_drop_lt.
Qed.

Context `{DB : Decoder bytes}.

(** Pushing chunk after chunk is pushing the text they decode to. *)
Lemma push_all_run (cs : list (chunk bytes)) : forall s,
  let t := decoded cs (stream_decoder s) in
  lines_short (buffered s ++ t.1) -> settled (buffered s) (lineStart s) ->
  let r := push_all json_parse cs s in
  let w := run (buffered s ++ t.1) (lineStart s) in
  explode_all r.1 = explode_all w.1 /\
  r.2 = ControlStream w.2.1 w.2.2 t.2.
Proof.
  induction cs as [|c cs IH]; intros [b l d]; cbn [buffered lineStart stream_decoder].
  { simpl. rewrite app_nil_r. intros _ ->. done. }
  cbn [push_all]. unfold push, consume. cbn [buffered lineStart stream_decoder].
  assert (exists x d', match c with Text t => (t, d) | Bytes b => decoder_write d b end = (x, d') /\
    (decoded (c :: cs) d).1 = x ++ (decoded cs d').1 /\
    (decoded (c :: cs) d).2 = (decoded cs d').2) as (x & d' & Hx & -> & ->).
  { destruct c as [t|w]; simpl.
    - eexists _, _. split; [done|]. by destruct (decoded cs d).
    - destruct (decoder_write d w) as [x d']. eexists _, _. split; [done|].
      by destruct (decoded cs d'). }
  rewrite Hx. intros Hs _. cbn [buffered lineStart stream_decoder].
  rewrite app_assoc in Hs |- *. destruct (run_app _ _ l Hs) as [He Hf].
  pose proof (run_settled (b ++ x) l) as Hset.
  pose proof (run_short _ _ l Hs) as Hs1.
  destruct (run (b ++ x) l) as [o1 [b1 l1]]. cbn [fst snd] in *.
  destruct (IH (ControlStream b1 l1 d') Hs1 Hset) as [IH1 IH2].
  cbn [buffered lineStart stream_decoder] in *.
  destruct (push_all json_parse cs _) as [os s']. cbn [fst snd] in *.
  rewrite explode_all_app, IH1, He, IH2, Hf. done.
Qed.
End Loop.

(** C37. However the standard error of a task is cut into chunks, strings or
    Buffers, the stream logs and reports exactly what the lines of the decoded
    text say, in their order: a line that starts with the control prefix
    becomes a control record when it parses and is dropped when it does not,
    every other line is logged as it is, and the unfinished last line is
    logged at the end.  The lines are shorter than 4096 units, the length at
    which the code gives up on an unfinished control record. *)
Theorem control_stream_lines `{DB : Decoder bytes} (json_parse : jstr -> option js)
    (cs : list (chunk bytes)) :
  let text := decoded cs decoder_new in
  lines_short text.1 ->
  let pushed := push_all json_parse cs createTaskControlStream in
  let finished := finish pushed.2 in
  explode_all (pushed.1 ++ finished.1) =
  explode_all (split_lines_spec json_parse (split_on newline text.1) ++
               [Log (decoder_end text.2).1]) /\
  buffered finished.2 = [].
Proof.
  cbn zeta. intros Hs.
  destruct (push_all_run json_parse cs createTaskControlStream) as [H1 H2]; [done|done|].
  unfold createTaskControlStream in *. cbn [buffered lineStart stream_decoder] in *.
  rewrite H2. unfold finish. cbn [buffered lineStart stream_decoder].
  destruct (decoder_end (decoded cs decoder_new).2) as [e d]. cbn [fst snd].
  rewrite !explode_all_app, H1, <-(run_spec json_parse _ Hs), <-app_assoc.
  split; [|done]. f_equal. destruct (consume_loop _ _ _ true) as [o [b l]]. cbn [fst snd].
  rewrite explode_log, app_nil_r, <-fmap_app. by destruct (b ++ e); simpl; rewrite ?app_nil_r.
Qed.

(** A decoder of ASCII bytes. *)
#[local] Instance ascii_decoder : Decoder (list N) := {|
  decoder := unit;
  decoder_new := tt;
  decoder_write := fun d b => (b, d);
  decoder_end := fun d => ([], d)
|}.

Lemma control_stream_lines_witness :
  let cs := [Text (bytes := list N) "hello
@@PLOINKY_TASK_"; Bytes "CONTROL@@{}
by"; Text "e"] in
  let parse := fun s => Some (Str s) in
  let pushed := push_all parse cs createTaskControlStream in
  explode_all (pushed.1 ++ (finish pushed.2).1) =
  explode_all [Log "hello
"; Control (Str "{}"); Log "bye"].
Proof.
  intros cs parse pushed.
  destruct (control_stream_lines parse cs) as [H _].
  - unfold lines_short. repeat constructor; vm_compute; lia.
  - etransitivity; [exact H|]. vm_compute. reflexivity.
Defined.
