(* ===== verification/TaskData.v ===== *)
(** The data of the task queue ([src/Agent/server/TaskQueue.mjs]): the checks
    on what a task process reports about itself, the task object, its persisted
    form and its restoration from the queue file.

   Failure messages of tool subprocesses:
    [describeShellFailure] of [src/Agent/lib/toolError.mjs].  [JSON.parse] is a
    parameter; a result is the object the executor resolves to. *)

From stdpp Require Import prelude.
From Stdlib Require Import NArith.
From S2P Require Import Prelude.
From S2P Require Import JsString.
From S2P Require Import JsNumber.
From S2P Require Import JsMap.
From S2P Require Import JsValue.

Local Open Scope js_scope.

Definition MAX_FAILURE_MESSAGE_LENGTH : nat := 4096.

(** What an executor resolves to. *)
Record shell_result : Type := ShellResult {
  result_code : js;
  result_stdout : js;
  result_stderr : js
}.

Definition truncateMessage (message : jstr) : jstr :=
  if length message <=? MAX_FAILURE_MESSAGE_LENGTH then message
  else take MAX_FAILURE_MESSAGE_LENGTH message ++ "...".

Section ToolError.
Context (json_parse : jstr -> option js).

Definition parseJsonErrorMessage (stdout : js) : result js_error jstr :=
  trimmed ← trimmed_text stdout;
  match trimmed, json_parse trimmed with
  | [], _ | _, None => Ok []
  | _, Some parsed =>
      if negb (js_truthy parsed && is_object parsed) then Ok []
      else
        let message := trim (str_or (prop "message" parsed) []) in
        let errorField := trim (str_or (prop "error" parsed) []) in
        if negb (is_bool (prop "ok" parsed) false) && negb (truthy errorField) then Ok []
        else if truthy message && truthy errorField && negb (jeqb message errorField) then
          Ok (errorField ++ ": " ++ message)
        else Ok (sor message errorField)
  end.

Definition describeShellFailure (r : shell_result) : result js_error jstr :=
  fromStdout ← parseJsonErrorMessage (result_stdout r);
  if truthy fromStdout then Ok (truncateMessage fromStdout)
  else
    stderr ← trimmed_text (result_stderr r);
    if truthy stderr then Ok (truncateMessage stderr)
    else
      code ← to_string (result_code r);
      Ok ("command exited with code " ++ code).
End ToolError.

(** ** Numbers *)

Definition parsePositiveInt (value : js) (fallback : Z) : result js_error Z :=
  parsed ← parse_int_js value;
  Ok match parsed with
     | Fin z => if (0 <? z)%Z then z else fallback
     | _ => fallback
     end.

Definition parseNonNegativeInt (value : js) (fallback : Z) : result js_error Z :=
  parsed ← parse_int_js value;
  Ok match parsed with
     | Fin z => if (0 <=? z)%Z then z else fallback
     | _ => fallback
     end.

(** ** Formats *)

Definition in_range (lo hi : nat) (s : jstr) : bool :=
  (lo <=? length s) && (length s <=? hi).

(** [/^[A-Za-z0-9_-]{16,200}$/] *)
Definition CONTINUATION_HANDLE_RE (s : jstr) : bool :=
  in_range 16 200 s && forallb (fun c => is_alnum c || has_unit c "_-") s.

(** [/^[A-Za-z0-9._-]{1,160}$/] *)
Definition TOOL_NAME_RE (s : jstr) : bool :=
  in_range 1 160 s && forallb (fun c => is_alnum c || has_unit c "._-") s.

(** [/^\/(?!\/)[A-Za-z0-9\-._~%!$&'()*+,;=:@/?]*$/] *)
Definition details_url_unit (c : N) : bool :=
  is_alnum c || has_unit c "-._~%!$&'()*+,;=:@/?".

Definition DETAILS_URL_RE (s : jstr) : bool :=
  match s with
  | 47%N :: r => negb (starts_with r "/") && forallb details_url_unit r
  | _ => false
  end.

Definition DETAILS_LABEL_MAX : nat := 80.

(** [RE.test(v)] converts its argument. *)
Definition tool_name_test (v : js) : result js_error bool :=
  s ← to_string v; Ok (TOOL_NAME_RE s).

(** ** Continuations and details *)

(** [{ version: 1, handle, toolName, messageToolName? }] *)
Record continuation : Type := Continuation {
  handle : jstr;
  c_toolName : jstr;
  messageToolName : option js
}.

Definition continuation_js (c : continuation) : js :=
  Obj ([("version", Num (Fin 1)); ("handle", Str (handle c)); ("toolName", Str (c_toolName c))] ++
       match messageToolName c with
       | Some m => [("messageToolName", m)]
       | None => []
       end).

Definition normalizeContinuation (raw : js) : result js_error (option continuation) :=
  if negb (js_truthy raw && is_object raw) then Ok None
  else
    handle ← trimmed_text (prop "handle" raw);
    toolName ← trimmed_text (prop "toolName" raw);
    if negb (is_num (prop "version" raw) 1) || negb (CONTINUATION_HANDLE_RE handle) ||
       negb (TOOL_NAME_RE toolName) then Ok None
    else
      named ← tool_name_test (js_or (prop "messageToolName" raw) (Str []));
      Ok (Some (Continuation handle toolName
        (if named : bool then Some (prop "messageToolName" raw) else None))).

(** [{ url, label?, logsLabel? }]; an absent label is the empty string. *)
Record details : Type := Details {
  url : jstr;
  label : jstr;
  logsLabel : jstr
}.

#[export] Instance details_eq_dec : EqDecision details.
Proof. solve_decision. Defined.

Definition details_js (d : details) : js :=
  Obj ([("url", Str (url d))] ++
       (if truthy (label d) then [("label", Str (label d))] else []) ++
       (if truthy (logsLabel d) then [("logsLabel", Str (logsLabel d))] else [])).

Definition clean_label (value : js) : jstr :=
  match value with
  | Str s => take DETAILS_LABEL_MAX (trim (collapse_spaces s))
  | _ => []
  end.

Definition normalizeDetails (raw : js) : option details :=
  if negb (js_truthy raw && is_object raw) then None
  else
    let url := match prop "url" raw with
               | Str s => trim s
               | _ => []
               end in
    if negb (truthy url) || (2048 <? length url) || negb (DETAILS_URL_RE url) then None
    else Some (Details url (clean_label (prop "label" raw)) (clean_label (prop "logsLabel" raw))).

(** ** The result channel *)

Record command_result : Type := CommandResult {
  r_text : jstr;
  r_continuation : option continuation;
  r_taskStatus : option bool  (* [Some true] is 'cancelled', [Some false] 'completed' *)
}.

Section CommandResult.
Context (json_parse : jstr -> option js).

Definition no_output : jstr := "(no output)".

Definition commandResult (stdout : js) : result js_error command_result :=
  raw ← match stdout with
        | Str s => Ok s
        | _ => to_string (js_nullish stdout (Str []))
        end;
  match trim raw with
  | [] => Ok (CommandResult no_output None None)
  | trimmed =>
      let fallback := CommandResult raw None None in
      match json_parse trimmed with
      | Some parsed =>
          match js_truthy parsed && is_object parsed, prop "outputText" parsed with
          | true, Str outputText =>
              Ok (or_else
                (c ← normalizeContinuation (prop "continuation" parsed);
                 Ok (CommandResult (sor outputText no_output) c
                   (Some (is_str (prop "taskStatus" parsed) "cancelled"))))
                fallback)
          | _, _ => Ok fallback
          end
      | None => Ok fallback
      end
  end.
End CommandResult.

(** ** Tasks *)

Inductive task_status : Type :=
  | Pending
  | Running
  | Cancelling
  | Completed
  | Failed
  | Cancelled
  | OtherStatus (v : js).  (* restored from the file, any other truthy value *)

Definition status_js (s : task_status) : js :=
  match s with
  | Pending => Str "pending"
  | Running => Str "running"
  | Cancelling => Str "cancelling"
  | Completed => Str "completed"
  | Failed => Str "failed"
  | Cancelled => Str "cancelled"
  | OtherStatus v => v
  end.

Definition status_of_js (v : js) : task_status :=
  if is_str v "pending" then Pending
  else if is_str v "running" then Running
  else if is_str v "cancelling" then Cancelling
  else if is_str v "completed" then Completed
  else if is_str v "failed" then Failed
  else if is_str v "cancelled" then Cancelled
  else OtherStatus v.

(** [TERMINAL_STATUSES.has(status)] *)
Definition is_terminal (s : task_status) : bool :=
  match s with
  | Completed | Failed | Cancelled => true
  | _ => false
  end.

Definition is_cancelling (s : task_status) : bool :=
  match s with
  | Cancelling => true
  | _ => false
  end.

Definition is_pending (s : task_status) : bool :=
  match s with
  | Pending => true
  | _ => false
  end.

Record command_spec : Type := CommandSpec {
  command : js;
  args : list js;
  cwd : js;
  env : list (jstr * js);
  spec_timeoutMs : js
}.

(** [{ content, metadata: { agent, continuation? } }], the content being the
    texts of its items. *)
Record task_result : Type := TaskResult {
  content : list jstr;
  agent : js;
  result_continuation : option continuation
}.

Record task : Type := Task {
  id : jstr;
  toolName : js;
  commandSpec : option command_spec;
  payload : list (jstr * js);
  status : task_status;
  timeoutMs : js;
  createdAt : js;
  updatedAt : js;
  error : js;
  task_res : option task_result;
  full_retention : bool;
  continuationTool : jstr;
  taskMessageTool : js;
  liveContinuation : option continuation;
  task_details : option details;
  cancelRequested : bool;
  logTail : jstr;
  logSeq : Z;
  logTruncated : bool
}.

(** Assignments to the properties of a task. *)

Definition set_status (s : task_status) (u : js) (t : task) : task :=
  Task (id t) (toolName t) (commandSpec t) (payload t) (s) (timeoutMs t) (createdAt t)
    (u) (error t) (task_res t) (full_retention t) (continuationTool t)
    (taskMessageTool t) (liveContinuation t) (task_details t) (cancelRequested t)
    (logTail t) (logSeq t) (logTruncated t).

Definition set_outcome (s : task_status) (e : js) (r : option task_result) (t : task) : task :=
  Task (id t) (toolName t) (commandSpec t) (payload t) (s) (timeoutMs t) (createdAt t)
    (updatedAt t) (e) (r) (full_retention t) (continuationTool t) (taskMessageTool
    t) (liveContinuation t) (task_details t) (cancelRequested t) (logTail t) (logSeq
    t) (logTruncated t).

Definition set_updatedAt (u : js) (t : task) : task :=
  Task (id t) (toolName t) (commandSpec t) (payload t) (status t) (timeoutMs t)
    (createdAt t) (u) (error t) (task_res t) (full_retention t) (continuationTool t)
    (taskMessageTool t) (liveContinuation t) (task_details t) (cancelRequested t)
    (logTail t) (logSeq t) (logTruncated t).

Definition set_cancelRequested (u : js) (t : task) : task :=
  Task (id t) (toolName t) (commandSpec t) (payload t) (status t) (timeoutMs t)
    (createdAt t) (u) (Null) (task_res t) (full_retention t) (continuationTool t)
    (taskMessageTool t) (liveContinuation t) (task_details t) (true) (logTail t)
    (logSeq t) (logTruncated t).

Definition set_details (d : details) (u : js) (t : task) : task :=
  Task (id t) (toolName t) (commandSpec t) (payload t) (status t) (timeoutMs t)
    (createdAt t) (u) (error t) (task_res t) (full_retention t) (continuationTool t)
    (taskMessageTool t) (liveContinuation t) (Some d) (cancelRequested t) (logTail
    t) ((logSeq t + 1)%Z) (logTruncated t).

Definition set_liveContinuation (c : continuation) (t : task) : task :=
  Task (id t) (toolName t) (commandSpec t) (payload t) (status t) (timeoutMs t)
    (createdAt t) (updatedAt t) (error t) (task_res t) (full_retention t)
    (continuationTool t) (taskMessageTool t) (Some c) (task_details t)
    (cancelRequested t) (logTail t) (logSeq t) (logTruncated t).

Definition announce_continuation (c : continuation) (u : js) (t : task) : task :=
  Task (id t) (toolName t) (commandSpec t) (payload t) (status t) (timeoutMs t)
    (createdAt t) (u) (error t) (task_res t) (full_retention t) (continuationTool t)
    (taskMessageTool t) (Some c) (task_details t) (cancelRequested t) (logTail t)
    ((logSeq t + 1)%Z) (logTruncated t).

Definition set_log (tail : jstr) (seq : Z) (truncated : bool) (t : task) : task :=
  Task (id t) (toolName t) (commandSpec t) (payload t) (status t) (timeoutMs t)
    (createdAt t) (updatedAt t) (error t) (task_res t) (full_retention t)
    (continuationTool t) (taskMessageTool t) (liveContinuation t) (task_details t)
    (cancelRequested t) (tail) (seq) (truncated).


(** ** Persistence

    [JSON.stringify] drops the properties that are [undefined]. *)

Definition defined_fields (l : list (jstr * js)) : list (jstr * js) :=
  bfilter (fun e => match e.2 with Undefined => false | _ => true end) l.

Definition persistableTask (t : task) : js :=
  Obj (defined_fields [
    ("id", Str (id t));
    ("toolName", toolName t);
    ("status", status_js (status t));
    ("timeoutMs", timeoutMs t);
    ("createdAt", createdAt t);
    ("updatedAt", updatedAt t);
    ("error", error t);
    ("logRetention", Str (if full_retention t then "full" else "bounded"));
    ("continuationTool", Str (continuationTool t));
    ("taskMessageTool", taskMessageTool t);
    ("liveContinuation",
      match liveContinuation t with
      | Some c => continuation_js c
      | None => if commandSpec t then Undefined else Null
      end);
    ("details",
      match task_details t with
      | Some d => details_js d
      | None => if commandSpec t then Undefined else Null
      end)]).

(** [Date.prototype.toISOString] of a clock reading and [Date.parse]. *)
Class Dates := {
  toISOString : Z -> jstr;
  date_parse : jstr -> jnum
}.

Section Restore.
Context `{Dates}.

(** [Date.parse(v || '')]; a value without a string form has no date. *)
Definition parse_date (v : js) : jnum :=
  match to_string (js_or v (Str [])) with
  | Ok s => date_parse s
  | Err _ => NaN
  end.

Definition taskTimestamp (t : task) : Z :=
  match parse_date (updatedAt t) with
  | Fin updated => updated
  | _ =>
      match parse_date (createdAt t) with
      | Fin created => created
      | _ => 0
      end
  end.

(** The body of the loop of [restoreFromDisk]: [None] is [continue]. *)
Definition restore_entry (now : Z) (entry : js) : result js_error (option task) :=
  let stamp := Str (toISOString now) in
  match js_truthy entry && is_object entry, prop "id" entry with
  | true, Str entry_id =>
      trimmed_tool ← trimmed_text (prop "continuationTool" entry);
      named ← tool_name_test (js_or (prop "taskMessageTool" entry) (Str []));
      live ← normalizeContinuation (prop "liveContinuation" entry);
      Ok (Some (Task
        entry_id
        (prop "toolName" entry)
        None
        []
        (status_of_js (js_or (prop "status" entry) (Str "pending")))
        (js_nullish (prop "timeoutMs" entry) Null)
        (js_or (prop "createdAt" entry) stamp)
        (js_or (prop "updatedAt" entry) (js_or (prop "createdAt" entry) stamp))
        (js_nullish (prop "error" entry) Null)
        None
        (is_str (prop "logRetention" entry) "full")
        (if TOOL_NAME_RE trimmed_tool then trimmed_tool else [])
        (if named : bool then prop "taskMessageTool" entry else Str [])
        live
        (normalizeDetails (prop "details" entry))
        false [] 0%Z false))
  | _, _ => Ok None
  end.

(** The loop of [initialize] over one restored task: nothing restored runs
    again. *)
Definition interrupt_restored (now : Z) (t : task) : task * bool :=
  let stamp := Str (toISOString now) in
  match status t with
  | Cancelling => (set_updatedAt stamp (set_outcome Cancelled Null None t), true)
  | Pending | Running =>
      (set_updatedAt stamp (set_outcome Failed
        (Str "Task interrupted before completion (agent restart)") None t), true)
  | _ => (t, false)
  end.
End Restore.
