(* ===== verification/TaskQueue.v ===== *)
(** The task queue of an agent: [src/Agent/server/TaskQueue.mjs].

    The queue is a record with the fields of the class.  The executor of the
    constructor, timers, promises and the file system act through the steps of
    [queue_step]: a step is one synchronous run of the event loop, with the
    clock reading it makes.  An [activation] is a run of [executeTask]: where
    it is suspended and its local variables. *)

From stdpp Require Import prelude.
From Stdlib Require Import NArith.
From S2P Require Import Prelude JsString JsNumber JsMap JsValue TaskData.
From S2P Require Import TaskControlStream TaskData.

Local Open Scope js_scope.

Definition DEFAULT_MAX_LOG_TAIL_BYTES : Z := 128 * 1024.
Definition DEFAULT_CANCEL_GRACE_MS : Z := 2000.
Definition DEFAULT_PERSIST_DEBOUNCE_MS : Z := 100.
Definition DEFAULT_TERMINAL_RETENTION_MS : Z := 24 * 60 * 60 * 1000.
Definition DEFAULT_MAX_TERMINAL_TASKS : Z := 500.

(** The options of the constructor, after its defaults. *)
Record queue_config : Type := QueueConfig {
  maxConcurrent : jnum;
  storagePath : jstr;
  maxLogTailBytes : Z;
  cancelGraceMs : Z;
  persistDebounceMs : Z;
  terminalRetentionMs : Z;
  maxTerminalTasks : Z
}.

(** An object thrown at the queue: its [code] and [message]. *)
Record exec_error : Type := ExecError {
  error_code : js;
  error_message : js
}.

Inductive signal : Type := SIGTERM | SIGKILL.

(** A [ChildProcess]: [Number(child.pid)] when it is an integer, [killed]. *)
Record child : Type := Child {
  pid : option Z;
  killed : bool
}.

(** What a signal attempt meets: whether [process.kill(-pid)] succeeds, and
    what [child.kill] answers ([None] when it throws). *)
Record signal_outcome : Type := SignalOutcome {
  group_killed : bool;
  child_killed : option bool
}.

Record log_state : Type := LogState {
  tail : jstr;
  tailBytes : Z;
  seq : Z;
  truncated : bool
}.

(** The promise of [requestRunningTaskCancellation]. *)
Inductive cleanup : Type :=
  | CleanupPending (pid : Z)
  | CleanupDone
  | CleanupFailed (e : exec_error).

(** Where [executeTask] is suspended: waiting for the executor, for the group
    cleanup with the executor's result, or finished with its [finally] callback
    due. *)
Inductive phase : Type :=
  | AwaitExecutor
  | AwaitCleanup (r : shell_result)
  | Finished.

Record persist_write : Type := PersistWrite {
  snapshot : js;
  from_timer : bool
}.

Inductive shutdown_state : Type :=
  | Polling (startedAt timeoutMs : Z)
  | Flushing
  | Drained
  | ShutdownFailed (e : exec_error).

(** What the outside sees. *)
Inductive effect : Type :=
  | Execute (id : jstr)
  | KillGroup (pid : Z) (s : signal)
  | KillChild (id : jstr) (s : signal).

Inductive queue_error : Type :=
  | QueueShuttingDown
  | InvalidShutdownBounds
  | QueueJs (e : js_error).

(** What the constructor and the process are given: [JSON.parse], the
    environment's [AGENT_NAME], the platform test and the text of the
    language's own errors. *)
Class QueueEnv := {
  json_parse : jstr -> option js;
  agent_name : jstr;
  win32 : bool;
  js_error_message : js_error -> jstr;
  cfg : queue_config
}.

Section Queue.
Context `{DT : Dates} `{DB : Decoder bytes} `{QE : QueueEnv}.

Record activation : Type := Activation {
  act_phase : phase;
  act_timedOut : bool;
  act_timer : bool;
  act_stream : control_stream decoder
}.

Record queue : Type := Queue {
  q_tasks : jmap jstr task;
  q_taskLogs : jmap jstr log_state;
  q_pending : list jstr;
  q_running : list jstr;
  q_activeChildren : jmap jstr child;
  q_cancelCleanups : jmap jstr cleanup;
  q_cancellationFailures : jmap jstr exec_error;
  q_cancelTimers : list jstr;
  q_initialized : bool;
  q_shuttingDown : bool;
  q_shutdown : option shutdown_state;
  q_persistDirty : bool;
  q_persistTimer : bool;
  q_persistWrite : option persist_write;
  q_disk : option js;
  q_activations : jmap jstr activation;
  q_effects : list effect
}.

Definition set_tasks (x : jmap jstr task) (q : queue) : queue :=
  Queue (x) (q_taskLogs q) (q_pending q) (q_running q) (q_activeChildren q)
    (q_cancelCleanups q) (q_cancellationFailures q) (q_cancelTimers q)
    (q_initialized q) (q_shuttingDown q) (q_shutdown q) (q_persistDirty q)
    (q_persistTimer q) (q_persistWrite q) (q_disk q) (q_activations q) (q_effects q).

Definition set_taskLogs (x : jmap jstr log_state) (q : queue) : queue :=
  Queue (q_tasks q) (x) (q_pending q) (q_running q) (q_activeChildren q)
    (q_cancelCleanups q) (q_cancellationFailures q) (q_cancelTimers q)
    (q_initialized q) (q_shuttingDown q) (q_shutdown q) (q_persistDirty q)
    (q_persistTimer q) (q_persistWrite q) (q_disk q) (q_activations q) (q_effects q).

Definition set_pending (x : list jstr) (q : queue) : queue :=
  Queue (q_tasks q) (q_taskLogs q) (x) (q_running q) (q_activeChildren q)
    (q_cancelCleanups q) (q_cancellationFailures q) (q_cancelTimers q)
    (q_initialized q) (q_shuttingDown q) (q_shutdown q) (q_persistDirty q)
    (q_persistTimer q) (q_persistWrite q) (q_disk q) (q_activations q) (q_effects q).

Definition set_running (x : list jstr) (q : queue) : queue :=
  Queue (q_tasks q) (q_taskLogs q) (q_pending q) (x) (q_activeChildren q)
    (q_cancelCleanups q) (q_cancellationFailures q) (q_cancelTimers q)
    (q_initialized q) (q_shuttingDown q) (q_shutdown q) (q_persistDirty q)
    (q_persistTimer q) (q_persistWrite q) (q_disk q) (q_activations q) (q_effects q).

Definition set_activeChildren (x : jmap jstr child) (q : queue) : queue :=
  Queue (q_tasks q) (q_taskLogs q) (q_pending q) (q_running q) (x) (q_cancelCleanups q)
    (q_cancellationFailures q) (q_cancelTimers q) (q_initialized q) (q_shuttingDown
    q) (q_shutdown q) (q_persistDirty q) (q_persistTimer q) (q_persistWrite q)
    (q_disk q) (q_activations q) (q_effects q).

Definition set_cancelCleanups (x : jmap jstr cleanup) (q : queue) : queue :=
  Queue (q_tasks q) (q_taskLogs q) (q_pending q) (q_running q) (q_activeChildren q) (x)
    (q_cancellationFailures q) (q_cancelTimers q) (q_initialized q) (q_shuttingDown
    q) (q_shutdown q) (q_persistDirty q) (q_persistTimer q) (q_persistWrite q)
    (q_disk q) (q_activations q) (q_effects q).

Definition set_cancellationFailures (x : jmap jstr exec_error) (q : queue) : queue :=
  Queue (q_tasks q) (q_taskLogs q) (q_pending q) (q_running q) (q_activeChildren q)
    (q_cancelCleanups q) (x) (q_cancelTimers q) (q_initialized q) (q_shuttingDown q)
    (q_shutdown q) (q_persistDirty q) (q_persistTimer q) (q_persistWrite q) (q_disk
    q) (q_activations q) (q_effects q).

Definition set_cancelTimers (x : list jstr) (q : queue) : queue :=
  Queue (q_tasks q) (q_taskLogs q) (q_pending q) (q_running q) (q_activeChildren q)
    (q_cancelCleanups q) (q_cancellationFailures q) (x) (q_initialized q)
    (q_shuttingDown q) (q_shutdown q) (q_persistDirty q) (q_persistTimer q)
    (q_persistWrite q) (q_disk q) (q_activations q) (q_effects q).

Definition set_initialized (q : queue) : queue :=
  Queue (q_tasks q) (q_taskLogs q) (q_pending q) (q_running q) (q_activeChildren q)
    (q_cancelCleanups q) (q_cancellationFailures q) (q_cancelTimers q) (true)
    (q_shuttingDown q) (q_shutdown q) (q_persistDirty q) (q_persistTimer q)
    (q_persistWrite q) (q_disk q) (q_activations q) (q_effects q).

Definition set_shuttingDown (q : queue) : queue :=
  Queue (q_tasks q) (q_taskLogs q) (q_pending q) (q_running q) (q_activeChildren q)
    (q_cancelCleanups q) (q_cancellationFailures q) (q_cancelTimers q)
    (q_initialized q) (true) (q_shutdown q) (q_persistDirty q) (q_persistTimer q)
    (q_persistWrite q) (q_disk q) (q_activations q) (q_effects q).

Definition set_shutdown (x : shutdown_state) (q : queue) : queue :=
  Queue (q_tasks q) (q_taskLogs q) (q_pending q) (q_running q) (q_activeChildren q)
    (q_cancelCleanups q) (q_cancellationFailures q) (q_cancelTimers q)
    (q_initialized q) (q_shuttingDown q) (Some x) (q_persistDirty q) (q_persistTimer
    q) (q_persistWrite q) (q_disk q) (q_activations q) (q_effects q).

Definition set_persist (dirty timer : bool) (write : option persist_write) (q : queue) : queue :=
  Queue (q_tasks q) (q_taskLogs q) (q_pending q) (q_running q) (q_activeChildren q)
    (q_cancelCleanups q) (q_cancellationFailures q) (q_cancelTimers q)
    (q_initialized q) (q_shuttingDown q) (q_shutdown q) (dirty) (timer) (write)
    (q_disk q) (q_activations q) (q_effects q).

Definition set_disk (x : js) (q : queue) : queue :=
  Queue (q_tasks q) (q_taskLogs q) (q_pending q) (q_running q) (q_activeChildren q)
    (q_cancelCleanups q) (q_cancellationFailures q) (q_cancelTimers q)
    (q_initialized q) (q_shuttingDown q) (q_shutdown q) (q_persistDirty q)
    (q_persistTimer q) (q_persistWrite q) (Some x) (q_activations q) (q_effects q).

Definition set_activations (x : jmap jstr activation) (q : queue) : queue :=
  Queue (q_tasks q) (q_taskLogs q) (q_pending q) (q_running q) (q_activeChildren q)
    (q_cancelCleanups q) (q_cancellationFailures q) (q_cancelTimers q)
    (q_initialized q) (q_shuttingDown q) (q_shutdown q) (q_persistDirty q)
    (q_persistTimer q) (q_persistWrite q) (q_disk q) (x) (q_effects q).

Definition emit (x : effect) (q : queue) : queue :=
  Queue (q_tasks q) (q_taskLogs q) (q_pending q) (q_running q) (q_activeChildren q)
    (q_cancelCleanups q) (q_cancellationFailures q) (q_cancelTimers q)
    (q_initialized q) (q_shuttingDown q) (q_shutdown q) (q_persistDirty q)
    (q_persistTimer q) (q_persistWrite q) (q_disk q) (q_activations q) (q_effects q
    ++ [x]).


(** [new TaskQueue(...)] next to a queue file. *)
Definition new_queue (disk : option js) : queue :=
  Queue [] [] [] [] [] [] [] [] false false None false false None disk [] [].

(** ** Shared lookups and updates *)

Definition set_has (x : jstr) (l : list jstr) : bool := existsb (jeqb x) l.
Definition set_add (x : jstr) (l : list jstr) : list jstr :=
  if set_has x l then l else l ++ [x].
Definition set_remove (x : jstr) (l : list jstr) : list jstr :=
  bfilter (fun y => negb (jeqb y x)) l.

(** An assignment to the task object named [i]. *)
Definition update_task (i : jstr) (f : task -> task) (q : queue) : queue :=
  match map_get i (q_tasks q) with
  | Some t => set_tasks (map_set i (f t) (q_tasks q)) q
  | None => q
  end.

Definition update_activation (i : jstr) (f : activation -> activation) (q : queue) : queue :=
  match map_get i (q_activations q) with
  | Some a => set_activations (map_set i (f a) (q_activations q)) q
  | None => q
  end.

Definition stamp (now : Z) : js := Str (toISOString now).

(** ** Persistence *)

Definition armPersistTimer (q : queue) : queue :=
  match q_persistTimer q, q_persistWrite q, q_persistDirty q with
  | false, None, true => set_persist true true None q
  | _, _, _ => q
  end.

Definition persistTasks (q : queue) : queue :=
  if truthy (storagePath cfg) then
    armPersistTimer (set_persist true (q_persistTimer q) (q_persistWrite q) q)
  else q.

(** [terminal.sort((a, b) => taskTimestamp(b) - taskTimestamp(a))] is stable. *)
Fixpoint insert_newest (t : task) (l : list task) : list task :=
  match l with
  | [] => [t]
  | u :: r => if (taskTimestamp u <=? taskTimestamp t)%Z then t :: l else u :: insert_newest t r
  end.

Definition newest_first (l : list task) : list task := foldr insert_newest [] l.

Definition prunable (q : queue) (t : task) : bool :=
  is_terminal (status t) &&
  negb (set_has (id t) (q_running q) || map_has (id t) (q_activeChildren q)).

Fixpoint prune_from (now : Z) (index : Z) (l : list task) (q : queue) : queue :=
  match l with
  | [] => q
  | t :: l =>
      let kept := (index <? maxTerminalTasks cfg)%Z &&
                  (now - taskTimestamp t <=? terminalRetentionMs cfg)%Z in
      prune_from now (index + 1) l
        (if kept then q
         else set_taskLogs (map_delete (id t) (q_taskLogs q))
                (set_tasks (map_delete (id t) (q_tasks q)) q))
  end.

Definition pruneTerminalTasks (now : Z) (q : queue) : queue :=
  prune_from now 0 (newest_first (bfilter (prunable q) (map_values (q_tasks q)))) q.

(** The synchronous part of [startPersistWrite] and [writeSnapshot]. *)
Definition startPersistWrite (from_timer : bool) (now : Z) (q : queue) : queue :=
  let q := pruneTerminalTasks now (set_persist false false (q_persistWrite q) q) in
  set_persist false false
    (Some (PersistWrite (Arr (persistableTask <$> map_values (q_tasks q))) from_timer)) q.

(** [flushPersist({ required: true })] up to its next wait. *)
Definition flush_loop (now : Z) (q : queue) : queue :=
  match q_persistWrite q, q_persistDirty q with
  | Some _, _ => q
  | None, false => set_shutdown Drained q
  | None, true => startPersistWrite false now q
  end.

Definition flushPersist (now : Z) (q : queue) : queue :=
  if truthy (storagePath cfg) then
    flush_loop now (set_persist (q_persistDirty q) false (q_persistWrite q) q)
  else set_shutdown Drained q.

(** ** Logs *)

Definition createTaskLogState : log_state := LogState [] 0 0 false.

Definition getOrCreateTaskLogState (i : jstr) (q : queue) : log_state * queue :=
  match map_get i (q_taskLogs q) with
  | Some s => (s, q)
  | None =>
      (createTaskLogState, set_taskLogs (map_set i createTaskLogState (q_taskLogs q)) q)
  end.

Definition syncTaskLogSnapshot (i : jstr) (q : queue) : queue :=
  match map_get i (q_tasks q) with
  | None => q
  | Some _ =>
      let '(s, q) := getOrCreateTaskLogState i q in
      update_task i (set_log (tail s) (seq s) (truncated s)) q
  end.

(** The loop of [appendTaskLog]: it drops at least one unit per turn, so the
    length of the tail is fuel enough. *)
Fixpoint drop_excess (max : Z) (fuel : nat) (tail : jstr) (bytes : Z) : jstr * Z :=
  match fuel with
  | O => (tail, bytes)
  | S fuel =>
      if (max <? bytes)%Z && truthy tail then
        let charsToDrop := Z.max 1 (Z.min (Z.of_nat (length tail)) (bytes - max)) in
        let dropped := take (Z.to_nat charsToDrop) tail in
        drop_excess max fuel (drop (Z.to_nat charsToDrop) tail)
          (bytes - Z.of_nat (byte_length dropped))
      else (tail, bytes)
  end.

Definition append_log (full : bool) (text : jstr) (s : log_state) : log_state :=
  let t := tail s ++ text in
  let bytes := (tailBytes s + Z.of_nat (byte_length text))%Z in
  if negb full && (maxLogTailBytes cfg <? bytes)%Z then
    let '(t, bytes) := drop_excess (maxLogTailBytes cfg) (length t) t bytes in
    LogState t bytes (seq s + 1) true
  else LogState t bytes (seq s + 1) (truncated s).

Definition appendTaskLog (i : jstr) (text : jstr) (q : queue) : queue :=
  if negb (truthy i) || negb (truthy text) then q
  else
    let '(s, q) := getOrCreateTaskLogState i q in
    let full := match map_get i (q_tasks q) with
                | Some t => full_retention t
                | None => false
                end in
    syncTaskLogSnapshot i
      (set_taskLogs (map_set i (append_log full text s) (q_taskLogs q)) q).

Definition getTaskLogSnapshot (i : jstr) (q : queue) : jstr * Z * bool :=
  match map_get i (q_taskLogs q), map_get i (q_tasks q) with
  | Some s, _ => (tail s, seq s, truncated s)
  | None, Some t => (logTail t, logSeq t, logTruncated t)
  | None, None => ([], 0%Z, false)
  end.

(** What [getTask] returns. *)
Record task_view : Type := TaskView {
  view_id : jstr;
  view_toolName : js;
  view_status : task_status;
  view_createdAt : js;
  view_updatedAt : js;
  view_error : js;
  view_result : option task_result;
  view_liveContinuation : option continuation;
  view_details : option details;
  view_log : jstr * Z * bool
}.

Definition getTask (i : jstr) (q : queue) : option task_view :=
  t ← map_get i (q_tasks q);
  Some (TaskView (id t) (toolName t) (status t) (createdAt t) (updatedAt t) (error t)
    (task_res t) (liveContinuation t) (task_details t) (getTaskLogSnapshot (id t) q)).

(** ** Execution *)

(** The [finally] block of [executeTask]. *)
Definition finally_block (i : jstr) (now : Z) (q : queue) : queue :=
  let q := set_activeChildren (map_delete i (q_activeChildren q)) q in
  let q := set_cancelCleanups (map_delete i (q_cancelCleanups q)) q in
  let q := set_cancelTimers (set_remove i (q_cancelTimers q)) q in
  let q := persistTasks (update_task i (set_updatedAt (stamp now)) q) in
  update_activation i (fun a => Activation Finished (act_timedOut a) false (act_stream a)) q.

Definition drain_prefix : jstr := "PLOINKY_TASK_PROCESS_GROUP_DRAIN_".

Definition is_cancelled_run (t : task) : bool := cancelRequested t || is_cancelling (status t).

(** The [catch] block, then the [finally] block. *)
Definition execute_catch (i : jstr) (err : exec_error) (now : Z) (q : queue) : queue :=
  finally_block i now
    match map_get i (q_tasks q) with
    | None => q
    | Some t =>
        let code := or_else (to_string (js_or (error_code err) (Str []))) [] in
        if is_cancelled_run t && starts_with code drain_prefix then
          set_cancellationFailures (map_set i err (q_cancellationFailures q))
            (update_task i (set_outcome Failed (error_message err) None) q)
        else if is_cancelled_run t then
          update_task i (set_outcome Cancelled Null None) q
        else
          update_task i
            (set_outcome Failed (js_or (error_message err) (Str "Task execution failed")) None) q
    end.

Definition task_result_of (texts : list jstr) (c : option continuation) (t : task) : task_result :=
  TaskResult texts (js_or (Str agent_name) (toolName t)) c.

(** [delete continuation.messageToolName] unless it is the task's tool. *)
Definition strict_eq (a b : js) : bool :=
  match a, b with
  | Undefined, Undefined | Null, Null => true
  | Bool x, Bool y => Bool.eqb x y
  | Num (Fin x), Num (Fin y) => (x =? y)%Z
  | Num PosInf, Num PosInf | Num NegInf, Num NegInf => true
  | Frac x, Frac y => jeqb x y
  | Str x, Str y => jeqb x y
  | _, _ => false
  end.

Definition restrict_message_tool (t : task) (c : continuation) : continuation :=
  if strict_eq (default Undefined (messageToolName c)) (taskMessageTool t) then c
  else Continuation (handle c) (c_toolName c) None.

(** What the code after the executor's result does to the task. *)
Definition settle_task (timedOut : bool) (r : shell_result) (t : task) : result js_error task :=
  let success := negb timedOut && is_num (result_code r) 0 in
  parsed ← commandResult json_parse (result_stdout r);
  let from_result :=
    match r_continuation parsed with
    | Some c => if truthy (continuationTool t) && jeqb (c_toolName c) (continuationTool t)
                then Some c else None
    | None => None
    end in
  let '(c, t) :=
    match from_result, liveContinuation t with
    | Some c, _ => (Some (restrict_message_tool t c), t)
    | None, Some c =>
        (* the object of [task.liveContinuation] itself *)
        let c := restrict_message_tool t c in (Some c, set_liveContinuation c t)
    | None, None => (None, t)
    end in
  let partial := c ← c; Some (task_result_of [] (Some c) t) in
  if is_cancelled_run t then Ok (set_outcome Cancelled Null partial t)
  else if success then
    Ok (set_outcome (if bool_decide (r_taskStatus parsed = Some true) then Cancelled else Completed)
          Null (Some (task_result_of [r_text parsed] c t)) t)
  else
    message ← (if timedOut then
                 ms ← to_string (timeoutMs t); Ok ("Task timed out after " ++ ms ++ "ms")
               else describeShellFailure json_parse r);
    Ok (set_outcome Failed (Str message) partial t).

(** The rest of [executeTask] after the cleanup wait. *)
Definition settle_execution (i : jstr) (r : shell_result) (now : Z) (q : queue) : queue :=
  match map_get i (q_activations q), map_get i (q_tasks q) with
  | Some a, Some t =>
      match settle_task (act_timedOut a) r t with
      | Ok t' => finally_block i now (set_tasks (map_set i t' (q_tasks q)) q)
      | Err e => execute_catch i (ExecError Undefined (Str (js_error_message e))) now q
      end
  | _, _ => q
  end.

Definition startTask (now : Z) (t : task) (q : queue) : queue :=
  let i := id t in
  let q := update_task i (set_status Running (stamp now)) q in
  let q := persistTasks (set_running (set_add i (q_running q)) q) in
  let q := set_activations
    (map_set i (Activation AwaitExecutor false false createTaskControlStream) (q_activations q)) q in
  match commandSpec t with
  | Some spec =>
      if js_truthy (command spec) then emit (Execute i) q
      else execute_catch i (ExecError Undefined (Str "Missing command specification for task")) now q
  | None => execute_catch i (ExecError Undefined (Str "Missing command specification for task")) now q
  end.

(** Every turn shifts [pending], so its length is fuel enough. *)
Fixpoint process_loop (fuel : nat) (now : Z) (q : queue) : queue :=
  match fuel, q_pending q with
  | S fuel, nextId :: rest =>
      if jlt (Fin (Z.of_nat (length (q_running q)))) (maxConcurrent cfg) then
        let q := set_pending rest q in
        match map_get nextId (q_tasks q) with
        | Some t =>
            if truthy nextId && is_pending (status t)
            then process_loop fuel now (startTask now t q)
            else process_loop fuel now q
        | None => process_loop fuel now q
        end
      else q
  | _, _ => q
  end.

Definition processQueue (now : Z) (q : queue) : queue :=
  if q_shuttingDown q then q else process_loop (length (q_pending q)) now q.

(** The [finally] callback of [startTask]. *)
Definition run_finally (i : jstr) (now : Z) (q : queue) : queue :=
  let q := set_running (set_remove i (q_running q)) q in
  let q := set_activations (map_delete i (q_activations q)) q in
  let q := match map_get i (q_tasks q) with
           | Some t =>
               if is_pending (status t) && negb (set_has i (q_pending q))
               then set_pending (q_pending q ++ [i]) q else q
           | None => q
           end in
  processQueue now q.

(** ** Start up *)

(** The loop of [restoreFromDisk]; a throw leaves the tasks restored so far and
    skips the rewrite of the file. *)
Fixpoint restore_loop (now : Z) (entries : list js) (q : queue) : queue :=
  match entries with
  | [] => persistTasks q
  | entry :: entries =>
      match restore_entry now entry with
      | Ok (Some t) => restore_loop now entries (set_tasks (map_set (id t) t (q_tasks q)) q)
      | Ok None => restore_loop now entries q
      | Err _ => q
      end
  end.

Definition restoreFromDisk (now : Z) (q : queue) : queue :=
  if truthy (storagePath cfg) then
    match q_disk q with
    | Some (Arr entries) => restore_loop now entries q
    | _ => q
    end
  else q.

(** The visiting order of [initialize] is by date, and its visits are
    independent. *)
Definition initialize (now : Z) (q : queue) : queue :=
  if q_initialized q then q
  else
    let q := restoreFromDisk now (set_initialized q) in
    let visited := map_fmap (interrupt_restored now) (q_tasks q) in
    let needsPersist := existsb (fun e => e.2.2) visited in
    let q := set_tasks (map_fmap fst visited) q in
    processQueue now (if needsPersist then persistTasks q else q).

(** ** Enqueueing *)

Record enqueue_args : Type := EnqueueArgs {
  arg_toolName : js;
  arg_commandSpec : js;
  arg_payload : js;
  arg_timeoutMs : js;
  arg_logRetention : js;
  arg_continuationTool : js;
  arg_taskMessageTool : js
}.

(** [{ ...v }]: the own enumerable properties. *)
Definition indexed (l : list js) : list (jstr * js) :=
  imap (fun n x => (string_of_N (N.of_nat n), x)) l.

Definition spread (v : js) : list (jstr * js) :=
  match v with
  | Obj l => l
  | Arr l => indexed l
  | Str s => indexed ((fun c => Str [c]) <$> s)
  | _ => []
  end.

Definition is_finite_js (v : js) : bool :=
  match v with
  | Num (Fin _) | Frac _ => true
  | _ => false
  end.

Definition read_spec (v : js) : result js_error command_spec :=
  command ← member "command" v;
  Ok (CommandSpec command
    match prop "args" v with
    | Arr l => l
    | _ => []
    end (prop "cwd" v) (spread (prop "env" v)) (prop "timeoutMs" v)).

(** The task object of [enqueueTask]. *)
Definition new_task (i : jstr) (now : Z) (a : enqueue_args) : result js_error task :=
  spec ← read_spec (arg_commandSpec a);
  trimmed_tool ← trimmed_text (arg_continuationTool a);
  let taskMessageTool := match arg_taskMessageTool a with
                         | Undefined => Str []
                         | v => v
                         end in
  named ← tool_name_test taskMessageTool;
  Ok (Task i (arg_toolName a) (Some spec)
    (map_set "taskId" (Str i) (spread (arg_payload a)))
    Pending
    (if is_finite_js (arg_timeoutMs a) then arg_timeoutMs a else Null)
    (stamp now) (stamp now) Null None
    (is_str (arg_logRetention a) "full")
    (if TOOL_NAME_RE trimmed_tool then trimmed_tool else [])
    (if named : bool then taskMessageTool else Str [])
    None None false [] 0 false).

(** The receipt shows the task after the queue has been processed. *)
Record receipt : Type := Receipt {
  receipt_id : jstr;
  receipt_status : task_status;
  receipt_full_retention : bool;
  receipt_capability : option jstr
}.

Definition enqueueTask (i : jstr) (now : Z) (a : enqueue_args) :
    stateM queue queue_error receipt :=
  modify (initialize now);;
  shuttingDown ← gets q_shuttingDown;
  if shuttingDown : bool then throw QueueShuttingDown
  else
    t ← lift (match new_task i now a with
              | Ok t => Ok t
              | Err e => Err (QueueJs e)
              end);
    modify (fun q => set_tasks (map_set i t (q_tasks q)) q);;
    modify (fun q => set_taskLogs (map_set i createTaskLogState (q_taskLogs q)) q);;
    modify (fun q => set_pending (q_pending q ++ [i]) q);;
    modify persistTasks;;
    modify (processQueue now);;
    queued ← gets (fun q => default t (map_get i (q_tasks q)));
    mret (Receipt i (status queued) (full_retention queued)
      (if truthy (continuationTool queued) then Some (continuationTool queued) else None)).

(** ** Cancellation *)

Definition valid_pid (c : child) : option Z :=
  match pid c with
  | Some p => if (0 <? p)%Z && negb win32 then Some p else None
  | None => None
  end.

(** [signalTaskProcess] on the child of task [i]. *)
Definition signalTaskProcess (i : jstr) (c : child) (sg : signal) (o : signal_outcome)
    (q : queue) : queue :=
  match valid_pid c, group_killed o with
  | Some p, true => emit (KillGroup p sg) q
  | _, _ =>
      match child_killed o with
      | Some sent =>
          let q := if map_has i (q_activeChildren q)
                   then set_activeChildren
                          (map_set i (Child (pid c) (killed c || sent)) (q_activeChildren q)) q
                   else q in
          emit (KillChild i sg) q
      | None => q
      end
  end.

Definition requestRunningTaskCancellation (i : jstr) (c : child) (o : signal_outcome)
    (q : queue) : queue :=
  if map_has i (q_cancelCleanups q) || set_has i (q_cancelTimers q) then q
  else
    let q := signalTaskProcess i c SIGTERM o q in
    match valid_pid c with
    | None => set_cancelTimers (set_add i (q_cancelTimers q)) q
    | Some p => set_cancelCleanups (map_set i (CleanupPending p) (q_cancelCleanups q)) q
    end.

(** The callback of the timer set when there is no process group. *)
Definition cancel_timer_fires (i : jstr) (o : signal_outcome) (q : queue) : queue :=
  let q := set_cancelTimers (set_remove i (q_cancelTimers q)) q in
  match map_get i (q_activeChildren q) with
  | Some c => signalTaskProcess i c SIGKILL o q
  | None => q
  end.

Definition cancelTask (i : jstr) (o : signal_outcome) (now : Z) (q : queue) : queue :=
  let q := initialize now q in
  match map_get i (q_tasks q) with
  | None => q
  | Some t =>
      if is_terminal (status t) then q
      else
        let q := update_task i (set_cancelRequested (stamp now)) q in
        if is_pending (status t) then
          let q := set_pending (set_remove i (q_pending q)) q in
          let q := update_task i (set_status Cancelled (stamp now)) q in
          processQueue now (persistTasks q)
        else
          let q := persistTasks (update_task i (set_status Cancelling (stamp now)) q) in
          match map_get i (q_activeChildren q) with
          | Some c => requestRunningTaskCancellation i c o q
          | None => q
          end
  end.

(** ** Waiting for a process group

    A probe is what [process.kill(-pid, 0)] answers, with the clock reading
    that follows it. *)

Inductive probe : Type :=
  | Alive           (* it succeeds, or fails with EPERM *)
  | Absent          (* ESRCH *)
  | ProbeError (e : exec_error).

Definition processGroupExists (p : Z) (answer : probe) : result exec_error bool :=
  if (p <? 1)%Z || win32 then Ok false
  else match answer with
       | Alive => Ok true
       | Absent => Ok false
       | ProbeError e => Err e
       end.

(** [None] while it is still waiting after the given probes. *)
Fixpoint waitForProcessGroupAbsence (p deadline : Z) (probes : list (probe * Z)) :
    option (result exec_error bool) :=
  match probes with
  | [] => None
  | (answer, now) :: probes =>
      match processGroupExists p answer with
      | Err e => Some (Err e)
      | Ok false => Some (Ok true)
      | Ok true =>
          if (deadline <=? now)%Z then Some (Ok false)
          else waitForProcessGroupAbsence p deadline probes
      end
  end.

(** What the cleanup of one group meets: its probes before and after SIGKILL,
    and how [process.kill(-pid, 'SIGKILL')] ends. *)
Record cleanup_trace : Type := CleanupTrace {
  started : Z;
  probes_term : list (probe * Z);
  kill_error : option exec_error;
  killed_at : Z;
  probes_kill : list (probe * Z)
}.

Definition drain_timeout : jstr := "PLOINKY_TASK_PROCESS_GROUP_DRAIN_TIMEOUT".
Definition drain_failed : jstr := "PLOINKY_TASK_PROCESS_GROUP_DRAIN_FAILED".

Definition group_message (p : Z) (text : jstr) : js :=
  Str ("Task process group " ++ string_of_Z p ++ text).

(** The [catch] of the cleanup promise. *)
Definition cleanup_failure (p : Z) (cause : exec_error) : cleanup :=
  if is_str (error_code cause) drain_timeout then CleanupFailed cause
  else CleanupFailed (ExecError (Str drain_failed)
         (group_message p " cleanup could not be proven")).

(** ESRCH from SIGKILL is no failure. *)
Definition kill_fails (tr : cleanup_trace) : option exec_error :=
  e ← kill_error tr;
  if is_str (error_code e) "ESRCH" then None else Some e.

Definition run_cleanup (p : Z) (tr : cleanup_trace) : option cleanup :=
  let grace := cancelGraceMs cfg in
  first ← waitForProcessGroupAbsence p (started tr + grace) (probes_term tr);
  match first with
  | Err e => Some (cleanup_failure p e)
  | Ok true => Some CleanupDone
  | Ok false =>
      match kill_fails tr with
      | Some e => Some (cleanup_failure p e)
      | None =>
          second ← waitForProcessGroupAbsence p (killed_at tr + grace) (probes_kill tr);
          Some match second with
               | Err e => cleanup_failure p e
               | Ok true => CleanupDone
               | Ok false => cleanup_failure p (ExecError (Str drain_timeout)
                               (group_message p " did not drain after SIGKILL"))
               end
      end
  end.

(** The cleanup promise of task [i] settles, and wakes the run that waits for it. *)
Definition resume_after_cleanup (i : jstr) (c : cleanup) (now : Z) (q : queue) : queue :=
  match map_get i (q_activations q), c with
  | Some (Activation (AwaitCleanup r) _ _ _), CleanupDone => settle_execution i r now q
  | Some (Activation (AwaitCleanup r) _ _ _), CleanupFailed e => execute_catch i e now q
  | _, _ => q
  end.

(** ** Shutdown *)

Definition is_safe_integer (v : js) : option Z :=
  match v with
  | Num (Fin z) => if (Z.abs z <=? 9007199254740991)%Z then Some z else None
  | _ => None
  end.

Definition valid_bounds (timeoutMs pollMs : js) : option Z :=
  t ← is_safe_integer timeoutMs;
  p ← is_safe_integer pollMs;
  if (t <? 1)%Z || (p <? 1)%Z || (t <? p)%Z then None else Some t.

Definition drain_error : exec_error :=
  ExecError (Str "PLOINKY_TASK_QUEUE_DRAIN_TIMEOUT")
    (Str "Task queue did not drain before shutdown timeout").

(** One turn of the loop of [shutdown], and what follows the loop. *)
Definition shutdown_poll (now : Z) (q : queue) : queue :=
  match q_shutdown q with
  | Some (Polling startedAt timeoutMs) =>
      match map_values (q_cancellationFailures q) with
      | e :: _ => set_shutdown (ShutdownFailed e) q
      | [] =>
          if (0 <? length (q_running q)) || (0 <? length (q_activeChildren q)) then
            if (timeoutMs <=? now - startedAt)%Z
            then set_shutdown (ShutdownFailed drain_error) q else q
          else flushPersist now (set_shutdown Flushing q)
      end
  | _ => q
  end.

Fixpoint cancel_all (ids : list jstr) (o : jstr -> signal_outcome) (now : Z) (q : queue) : queue :=
  match ids with
  | [] => q
  | i :: ids => cancel_all ids o now (cancelTask i (o i) now q)
  end.

Definition shutdown (timeoutMs pollMs : js) (o : jstr -> signal_outcome) (now : Z) :
    stateM queue queue_error unit :=
  promise ← gets q_shutdown;
  match promise with
  | Some _ => skip
  | None =>
      match valid_bounds timeoutMs pollMs with
      | None => throw InvalidShutdownBounds
      | Some t =>
          modify (initialize now);;
          modify set_shuttingDown;;
          modify (fun q => cancel_all (q_pending q ++ q_running q) o now q);;
          modify persistTasks;;
          modify (set_shutdown (Polling now t));;
          modify (shutdown_poll now)
      end
  end.

(** ** The callbacks of a run *)

(** [onControl]: an exception is swallowed by the stream. *)
Definition on_control (i : jstr) (raw : js) (now : Z) (q : queue) : queue :=
  match map_get i (q_tasks q) with
  | None => q
  | Some t =>
      match normalizeDetails (prop "details" raw) with
      | Some d =>
          if bool_decide (task_details t = Some d) then q
          else persistTasks (update_task i (set_details d (stamp now)) q)
      | None =>
          match liveContinuation t, normalizeContinuation raw with
          | Some _, _ | None, Err _ | None, Ok None => q
          | None, Ok (Some c) =>
              if jeqb (c_toolName c) (continuationTool t) then
                persistTasks (update_task i
                  (announce_continuation (restrict_message_tool t c) (stamp now)) q)
              else q
          end
      end
  end.

Definition handle_output (i : jstr) (now : Z) (q : queue) (o : output) : queue :=
  match o with
  | Log text => appendTaskLog i text q
  | Control raw => on_control i raw now q
  end.

Definition handle_outputs (i : jstr) (now : Z) (os : list output) (q : queue) : queue :=
  foldl (handle_output i now) q os.

Definition set_stream (s : control_stream decoder) (a : activation) : activation :=
  Activation (act_phase a) (act_timedOut a) (act_timer a) s.

Definition awaits_executor (a : activation) : bool :=
  match act_phase a with
  | AwaitExecutor => true
  | _ => false
  end.

(** [timeoutMs] is finite and positive: a fraction is written without a sign
    only when it is positive. *)
Definition has_timeout (v : js) : bool :=
  match v with
  | Num (Fin z) => (0 <? z)%Z
  | Frac s => negb (starts_with s "-")
  | _ => false
  end.

Definition onSpawn (i : jstr) (c : child) (o : signal_outcome) (q : queue) : queue :=
  match map_get i (q_tasks q) with
  | None => q
  | Some t =>
      let q := set_activeChildren (map_set i c (q_activeChildren q)) q in
      let q := if cancelRequested t then requestRunningTaskCancellation i c o q else q in
      if has_timeout (timeoutMs t)
      then update_activation i
             (fun a => Activation (act_phase a) (act_timedOut a) true (act_stream a)) q
      else q
  end.

(** The timeout of the task fires. *)
Definition timeout_fires (i : jstr) (o : signal_outcome) (q : queue) : queue :=
  match map_get i (q_activeChildren q) with
  | Some c =>
      let q := update_activation i
        (fun a => Activation (act_phase a) (act_timedOut a || negb (killed c)) false (act_stream a)) q in
      if killed c then q else signalTaskProcess i c SIGKILL o q
  | None => q
  end.

Definition onStderrChunk (i : jstr) (c : chunk bytes) (now : Z) (q : queue) : queue :=
  match map_get i (q_activations q) with
  | Some a =>
      let '(os, s) := push json_parse c (act_stream a) in
      handle_outputs i now os (update_activation i (set_stream s) q)
  | None => q
  end.

(** The executor resolves: the stream is finished, then a cancelled run waits
    for the cleanup of its process group. *)
Definition executor_resolves (i : jstr) (r : shell_result) (now : Z) (q : queue) : queue :=
  match map_get i (q_activations q) with
  | None => q
  | Some a =>
      let '(os, s) := finish (act_stream a) in
      let q := handle_outputs i now os (update_activation i (set_stream s) q) in
      match map_get i (q_tasks q) with
      | None => q
      | Some t =>
          match (if is_cancelled_run t then map_get i (q_cancelCleanups q) else None) with
          | None | Some CleanupDone => settle_execution i r now q
          | Some (CleanupFailed e) => execute_catch i e now q
          | Some (CleanupPending _) =>
              update_activation i
                (fun a => Activation (AwaitCleanup r) (act_timedOut a) (act_timer a) (act_stream a)) q
          end
      end
  end.

Definition cleanup_settles (i : jstr) (c : cleanup) (now : Z) (q : queue) : queue :=
  resume_after_cleanup i c now (set_cancelCleanups (map_set i c (q_cancelCleanups q)) q).

(** The timer of [armPersistTimer]. *)
Definition persist_timer_fires (now : Z) (q : queue) : queue :=
  let q := set_persist (q_persistDirty q) false (q_persistWrite q) q in
  match q_persistWrite q, q_persistDirty q with
  | None, true => startPersistWrite true now q
  | _, _ => q
  end.

(** The write [w] in flight settles; a failed one leaves the file as it was.
    A timer is armed again after a background write only. *)
Definition after_write (failure : option exec_error) (w : persist_write) (q : queue) : queue :=
  match failure with
  | None =>
      let q := set_disk (snapshot w) (set_persist (q_persistDirty q) (q_persistTimer q) None q) in
      if from_timer w then armPersistTimer q else q
  | Some _ => set_persist true (q_persistTimer q) None q
  end.

Definition write_settles (failure : option exec_error) (now : Z) (q : queue) : queue :=
  match q_persistWrite q with
  | None => q
  | Some w =>
      let q := after_write failure w q in
      match q_shutdown q, failure, from_timer w with
      | Some Flushing, Some e, false => set_shutdown (ShutdownFailed e) q
      | Some Flushing, _, _ => flush_loop now q
      | _, _, _ => q
      end
  end.

(** ** Steps *)

Inductive event : Type :=
  | Initialize
  | Enqueue (i : jstr) (a : enqueue_args)
  | Cancel (i : jstr) (o : signal_outcome)
  | Shutdown (timeoutMs pollMs : js) (o : jstr -> signal_outcome)
  | Spawned (i : jstr) (c : child) (o : signal_outcome)
  | Stderr (i : jstr) (c : chunk bytes)
  | TimeoutFires (i : jstr) (o : signal_outcome)
  | Resolves (i : jstr) (r : shell_result)
  | Rejects (i : jstr) (e : exec_error)
  | CleanupSettles (i : jstr) (tr : cleanup_trace)
  | CancelTimerFires (i : jstr) (o : signal_outcome)
  | RunFinally (i : jstr)
  | PersistTimerFires
  | WriteSettles (failure : option exec_error)
  | ShutdownPoll.

Definition run_phase (i : jstr) (q : queue) : option phase :=
  act_phase <$> map_get i (q_activations q).

(** An identifier [randomBytes] has not produced before. *)
Definition fresh (i : jstr) (q : queue) : Prop :=
  i <> [] /\ i ∉ map_keys (q_tasks q) /\ i ∉ q_pending q /\ i ∉ q_running q /\
  Execute i ∉ q_effects q.

(** One synchronous run of the event loop.  The premises are what the
    environment guarantees: a promise settles once, a timer that was cleared
    does not fire, a child is spawned at most once per run. *)
Inductive queue_step (q : queue) : event -> Z -> queue -> Prop :=
  | StepInitialize now : queue_step q Initialize now (initialize now q)
  | StepEnqueue i a now :
      fresh i (initialize now q) ->
      queue_step q (Enqueue i a) now (enqueueTask i now a q).2
  | StepCancel i o now : queue_step q (Cancel i o) now (cancelTask i o now q)
  | StepShutdown t p o now : queue_step q (Shutdown t p o) now (shutdown t p o now q).2
  | StepSpawned i c o now :
      run_phase i q = Some AwaitExecutor -> map_get i (q_activeChildren q) = None ->
      queue_step q (Spawned i c o) now (onSpawn i c o q)
  | StepStderr i c now :
      run_phase i q = Some AwaitExecutor ->
      queue_step q (Stderr i c) now (onStderrChunk i c now q)
  | StepTimeout i o a now :
      map_get i (q_activations q) = Some a -> act_timer a = true ->
      queue_step q (TimeoutFires i o) now (timeout_fires i o q)
  | StepResolves i r now :
      run_phase i q = Some AwaitExecutor ->
      queue_step q (Resolves i r) now (executor_resolves i r now q)
  | StepRejects i e now :
      run_phase i q = Some AwaitExecutor ->
      queue_step q (Rejects i e) now (execute_catch i e now q)
  | StepCleanup i p tr c now :
      map_get i (q_cancelCleanups q) = Some (CleanupPending p) ->
      run_cleanup p tr = Some c ->
      queue_step q (CleanupSettles i tr) now (cleanup_settles i c now q)
  | StepCancelTimer i o now :
      i ∈ q_cancelTimers q ->
      queue_step q (CancelTimerFires i o) now (cancel_timer_fires i o q)
  | StepFinally i now :
      run_phase i q = Some Finished ->
      queue_step q (RunFinally i) now (run_finally i now q)
  | StepPersistTimer now :
      q_persistTimer q = true -> queue_step q PersistTimerFires now (persist_timer_fires now q)
  | StepWrite f now : queue_step q (WriteSettles f) now (write_settles f now q)
  | StepPoll now : queue_step q ShutdownPoll now (shutdown_poll now q).

(** The states a queue goes through, from its construction next to a file. *)
Inductive reachable : queue -> Prop :=
  | ReachNew disk : reachable (new_queue disk)
  | ReachStep q e now q' : reachable q -> queue_step q e now q' -> reachable q'.
End Queue.
