(* ===== verification/TaskQueueFacts.v ===== *)
(** The control part of the task queue and its invariant: which tasks are
    pending, running or finished, and which operations leave that alone. *)

From stdpp Require Import prelude.
From Stdlib Require Import NArith.
From S2P Require Import Prelude JsString JsNumber JsMap JsValue TaskData.
From S2P Require Import TaskControlStream TaskData TaskQueue.

Section Control.
Context `{DT : Dates} `{DB : Decoder bytes} `{QE : QueueEnv}.
Implicit Types (q : queue) (i : jstr) (t : task).

(** ** Views *)

Definition st q i : option task_status := status <$> map_get i (q_tasks q).

(** What a task reports as its outcome. *)
Definition outcome : Type := task_status * js * option task_result.

Definition outcome_of t : outcome := (status t, error t, task_res t).

Definition oc q i : option outcome := outcome_of <$> map_get i (q_tasks q).

Definition has_child i q : bool := map_has i (q_activeChildren q).

Definition executed_by (e : effect) : option jstr :=
  match e with
  | Execute i => Some i
  | _ => None
  end.

(** The runs handed to the executor so far. *)
Definition executes q : list jstr := omap executed_by (q_effects q).

Definition tasks_wf q : Prop :=
  map_wf (q_tasks q) /\ forall i t, map_get i (q_tasks q) = Some t -> id t = i.

(** Two states that agree on what the scheduler looks at. *)
Record control_eq q q' : Prop := ControlEq {
  ce_wf : tasks_wf q -> tasks_wf q';
  ce_oc i : oc q' i = oc q i;
  ce_pending : q_pending q' = q_pending q;
  ce_running : q_running q' = q_running q;
  ce_phase i : run_phase i q' = run_phase i q;
  ce_child i : has_child i q' = has_child i q;
  ce_init : q_initialized q' = q_initialized q;
  ce_shut : q_shuttingDown q' = q_shuttingDown q;
  ce_promise : q_shutdown q' = None <-> q_shutdown q = None;
  ce_exec : executes q' = executes q
}.

#[export] Instance control_eq_preorder : PreOrder control_eq.
Proof.
  split.
  - by intros q; split.
  - intros q1 q2 q3 [] []. split; intros;
      first [by auto|by eapply eq_trans; eauto|tauto].
Qed.

Lemma st_update_task q f i j :
  st (update_task j f q) i =
  if decide (i = j) then (status ∘ f) <$> map_get j (q_tasks q) else st q i.
Proof.
  unfold st, update_task. destruct (map_get j (q_tasks q)) as [t|] eqn:Hj; simpl.
  - case_decide; subst; [by rewrite map_get_set_eq|by rewrite map_get_set_ne].
  - case_decide; subst; [by rewrite Hj|done].
Qed.

Lemma tasks_wf_update q f j :
  (forall t, id (f t) = id t) -> tasks_wf q -> tasks_wf (update_task j f q).
Proof.
  unfold tasks_wf, update_task. intros Hf [Hw Hid].
  destruct (map_get j (q_tasks q)) as [t|] eqn:Hj; [|done]. simpl. split.
  - by apply map_wf_set.
  - intros i u. destruct (decide (i = j)) as [->|Hne].
    + rewrite map_get_set_eq. intros [= <-]. rewrite Hf. by apply Hid.
    + rewrite map_get_set_ne by done. apply Hid.
Qed.

Lemma oc_update_task q f i j :
  oc (update_task j f q) i =
  if decide (i = j) then (outcome_of ∘ f) <$> map_get j (q_tasks q) else oc q i.
Proof.
  unfold oc, update_task. destruct (map_get j (q_tasks q)) as [t|] eqn:Hj; simpl.
  - case_decide; subst; [by rewrite map_get_set_eq|by rewrite map_get_set_ne].
  - case_decide; subst; [by rewrite Hj|done].
Qed.

Lemma st_oc q i : st q i = (fun o => o.1.1) <$> oc q i.
Proof. unfold st, oc. by destruct (map_get i (q_tasks q)). Qed.

Lemma ce_st q q' i : control_eq q q' -> st q' i = st q i.
Proof. intros H. by rewrite !st_oc, (ce_oc _ _ H). Qed.

Lemma control_update_task q f j :
  (forall t, id (f t) = id t) -> (forall t, outcome_of (f t) = outcome_of t) ->
  control_eq q (update_task j f q).
Proof.
  intros Hid Hf. split; try by unfold update_task; case_match.
  - by apply tasks_wf_update.
  - intros i. rewrite oc_update_task. case_decide; [subst|done].
    unfold oc. by destruct (map_get j (q_tasks q)); simpl; rewrite ?Hf.
Qed.

Lemma run_phase_update q f i j :
  run_phase i (update_activation j f q) =
  if decide (i = j) then (act_phase ∘ f) <$> map_get j (q_activations q)
  else run_phase i q.
Proof.
  unfold run_phase, update_activation.
  destruct (map_get j (q_activations q)) as [t|] eqn:Hj; simpl.
  - case_decide; subst; [by rewrite map_get_set_eq|by rewrite map_get_set_ne].
  - case_decide; subst; [by rewrite Hj|done].
Qed.

Lemma control_update_activation q f j :
  (forall a, act_phase (f a) = act_phase a) -> control_eq q (update_activation j f q).
Proof.
  intros Hf. split; try by unfold update_activation; case_match.
  intros i. rewrite run_phase_update. case_decide; [subst|done].
  unfold run_phase. by destruct (map_get j (q_activations q)); simpl; rewrite ?Hf.
Qed.

(** ** Persistence and logs are no part of control *)

Lemma control_persist q d tm w : control_eq q (set_persist d tm w q).
Proof. by split. Qed.

Lemma control_persistTasks q : control_eq q (persistTasks q).
Proof.
  unfold persistTasks, armPersistTimer. case_match; [|done].
  simpl. split_cases; by split.
Qed.

Lemma control_taskLogs q l : control_eq q (set_taskLogs l q).
Proof. by split. Qed.

Lemma control_cleanups q c : control_eq q (set_cancelCleanups c q).
Proof. by split. Qed.

Lemma control_timers q c : control_eq q (set_cancelTimers c q).
Proof. by split. Qed.

Lemma control_failures q c : control_eq q (set_cancellationFailures c q).
Proof. by split. Qed.

Lemma control_kill q e : executed_by e = None -> control_eq q (emit e q).
Proof.
  intros He. split; try done. unfold executes. simpl. rewrite omap_app. simpl.
  by rewrite He, app_nil_r.
Qed.

Lemma control_getOrCreate q i : control_eq q (getOrCreateTaskLogState i q).2.
Proof. unfold getOrCreateTaskLogState. case_match; simpl; [done|]. apply control_taskLogs. Qed.

Lemma control_sync q i : control_eq q (syncTaskLogSnapshot i q).
Proof.
  unfold syncTaskLogSnapshot. case_match; [|done].
  pose proof (control_getOrCreate q i) as Hg.
  destruct (getOrCreateTaskLogState i q) as [s q']. simpl in Hg.
  etrans; [exact Hg|]. by apply control_update_task.
Qed.

Lemma control_append q i text : control_eq q (appendTaskLog i text q).
Proof.
  unfold appendTaskLog. case_match; [done|].
  pose proof (control_getOrCreate q i) as Hg.
  destruct (getOrCreateTaskLogState i q) as [s q']. simpl in Hg.
  etrans; [exact Hg|]. etrans; [|apply control_sync]. apply control_taskLogs.
Qed.

Lemma control_on_control q i raw now : control_eq q (on_control i raw now q).
Proof.
  unfold on_control. split_cases;
    (etrans; [|apply control_persistTasks]); by apply control_update_task.
Qed.

Lemma control_handle_outputs i now os : forall q, control_eq q (handle_outputs i now os q).
Proof.
  induction os as [|o os IH]; intros q; [done|]. unfold handle_outputs in *. simpl.
  etrans; [|apply IH]. destruct o; [apply control_append|apply control_on_control].
Qed.

(** ** Signals *)

Lemma control_signal q i c sg o : control_eq q (signalTaskProcess i c sg o q).
Proof.
  unfold signalTaskProcess.
  assert (forall b, control_eq q
    (if map_has i (q_activeChildren q)
     then set_activeChildren (map_set i (Child (pid c) b) (q_activeChildren q)) q else q)) as Hc.
  { intros b. case_match eqn:Hi; [|done]. split; try done. intros j. unfold has_child, map_has in *.
    simpl. destruct (decide (j = i)) as [->|Hj].
    - rewrite map_get_set_eq. by destruct (map_get i _).
    - by rewrite map_get_set_ne. }
  split_cases; try (by apply control_kill); (etrans; [apply Hc|]); by apply control_kill.
Qed.

Lemma control_request q i c o : control_eq q (requestRunningTaskCancellation i c o q).
Proof.
  unfold requestRunningTaskCancellation. case_match; [done|].
  case_match; (etrans; [apply control_signal|]); [apply control_cleanups|apply control_timers].
Qed.

Lemma control_cancel_timer q i o : control_eq q (cancel_timer_fires i o q).
Proof.
  unfold cancel_timer_fires. case_match; [|apply control_timers].
  etrans; [apply control_timers|]. apply control_signal.
Qed.

Lemma control_timeout q i o : control_eq q (timeout_fires i o q).
Proof.
  unfold timeout_fires. case_match; [|done].
  case_match; [by apply control_update_activation|].
  etrans; [|apply control_signal]. by apply control_update_activation.
Qed.

(** ** The invariant *)

(** A run that is not finished belongs to a task that is running or being
    cancelled; a finished one to a task with its final status. *)
Definition phase_ok (p : phase) (s : task_status) : bool :=
  match p, s with
  | Finished, _ => is_terminal s
  | _, (Running | Cancelling) => true
  | _, _ => false
  end.

Record inv q : Prop := Inv {
  inv_tasks : tasks_wf q;
  inv_nodup_pending : NoDup (q_pending q);
  inv_nodup_running : NoDup (q_running q);
  inv_pending i : i ∈ q_pending q <-> st q i = Some Pending;
  inv_named i : i ∈ q_pending q -> i <> [];
  inv_running i : i ∈ q_running q <-> is_Some (run_phase i q);
  inv_phase i p : run_phase i q = Some p -> exists s, st q i = Some s /\ phase_ok p s = true;
  inv_status i : st q i = Some Running -> is_Some (run_phase i q);
  inv_child i : has_child i q = true -> exists p, run_phase i q = Some p /\ p <> Finished;
  inv_nodup_exec : NoDup (executes q);
  inv_exec i : i ∈ executes q -> i ∉ q_pending q;
  inv_promise : q_shuttingDown q = false -> q_shutdown q = None;
  inv_uninit : q_initialized q = false ->
    q_shuttingDown q = false /\ (forall i, oc q i = None) /\ executes q = []
}.

Lemma inv_control q q' : control_eq q q' -> inv q -> inv q'.
Proof.
  intros Hc [I1 I2 I3 I4 IN I5 I6 I7 I8 I9 I10 I12 I13].
  pose proof (fun i => ce_st q q' i Hc) as Hst.
  destruct Hc as [C1 C2 C3 C4 C5 C6 C7 C8 C9 C10].
  split; rewrite ?C3, ?C4, ?C7, ?C8, ?C10; auto; try intros i; [..|apply C9; auto|].
  - by rewrite Hst.
  - by rewrite C5.
  - intros p. rewrite C5, Hst. apply I6.
  - rewrite Hst, C5. apply I7.
  - rewrite C6. setoid_rewrite C5. apply I8.
  - destruct (I13 i) as (? & Ho & ?). split_and!; try done. intros j. by rewrite C2.
Qed.

(** ** What steps do to tasks *)

Definition may_become (s s' : task_status) : bool :=
  match s, s' with
  | Pending, (Pending | Running | Cancelling | Completed | Failed | Cancelled) => true
  | Running, (Running | Cancelling | Completed | Failed | Cancelled) => true
  | Cancelling, (Cancelling | Failed | Cancelled) => true
  | OtherStatus _, (OtherStatus _ | Cancelling | Failed | Cancelled) => true
  | _, _ => false
  end.

(** A final outcome stays; any other status only moves forward. *)
Definition moves (o o' : outcome) : Prop :=
  if is_terminal o.1.1 then o' = o else may_become o.1.1 o'.1.1 = true.

#[export] Instance moves_preorder : PreOrder moves.
Proof.
  split; unfold moves.
  - intros [[[] ?] ?]; done.
  - intros [[s1 ?] ?] [[s2 ?] ?] [[s3 ?] ?]; simpl. destruct s1, s2; simpl; try done;
      intros; simplify_eq/=; try done; destruct s3; done.
Qed.

(** No task disappears, none changes its final outcome, and once the queue is
    shutting down nothing more is executed. *)
Record advance q q' : Prop := Advance {
  adv_moves i o : oc q i = Some o -> exists o', oc q' i = Some o' /\ moves o o';
  adv_shut : q_shuttingDown q = true ->
    q_shuttingDown q' = true /\ executes q' = executes q;
  adv_init : q_initialized q = true -> q_initialized q' = true
}.

#[export] Instance advance_preorder : PreOrder advance.
Proof.
  split.
  - intros q. split; [|done..]. intros i o Ho. by exists o.
  - intros q1 q2 q3 [A1 A2 A3] [B1 B2 B3]. split.
    + intros i o (o' & Ho & Hm)%A1. apply B1 in Ho as (o'' & ? & ?). exists o''.
      split; [done|]. by etrans.
    + intros [H1 H2]%A2. apply B2 in H1 as [? ?]. split; [done|congruence].
    + auto.
Qed.

Lemma advance_control q q' : control_eq q q' -> advance q q'.
Proof.
  intros H. split; rewrite ?(ce_shut _ _ H), ?(ce_exec _ _ H), ?(ce_init _ _ H); [|done..].
  intros i o. rewrite <-(ce_oc _ _ H). intros Ho. by exists o.
Qed.

Lemma advance_same q q' :
  (forall i, oc q' i = oc q i) -> q_shuttingDown q' = q_shuttingDown q ->
  executes q' = executes q -> q_initialized q' = q_initialized q -> advance q q'.
Proof.
  intros H1 H2 H3 H4. split; [|by rewrite H2|by rewrite H4].
  intros i o. rewrite <-H1. intros Ho. by exists o.
Qed.

(** ** The slots *)

Definition slots_free q : bool := jlt (Fin (Z.of_nat (length (q_running q)))) (maxConcurrent cfg).

Definition bounded q : Prop :=
  q_running q = [] \/ jle (Fin (Z.of_nat (length (q_running q)))) (maxConcurrent cfg) = true.

(** No slot stays free while a task waits. *)
Definition conserving q : Prop :=
  q_shuttingDown q = false -> q_pending q = [] \/ slots_free q = false.

Lemma bounded_control q q' : control_eq q q' -> bounded q -> bounded q'.
Proof. intros H. unfold bounded. by rewrite (ce_running _ _ H). Qed.

Lemma conserving_control q q' : control_eq q q' -> conserving q -> conserving q'.
Proof.
  intros H. unfold conserving, slots_free.
  by rewrite (ce_running _ _ H), (ce_pending _ _ H), (ce_shut _ _ H).
Qed.

(** ** A run finishes *)

Record finishes i q q' : Prop := Finishes {
  fin_wf : tasks_wf q -> tasks_wf q';
  fin_oc o : oc q i = Some o ->
    exists o', oc q' i = Some o' /\ is_terminal o'.1.1 = true /\ may_become o.1.1 o'.1.1 = true;
  fin_oc_ne j : j <> i -> oc q' j = oc q j;
  fin_pending : q_pending q' = q_pending q;
  fin_running : q_running q' = q_running q;
  fin_phase : run_phase i q' = Some Finished;
  fin_phase_ne j : j <> i -> run_phase j q' = run_phase j q;
  fin_child : has_child i q' = false;
  fin_child_ne j : j <> i -> has_child j q' = has_child j q;
  fin_init : q_initialized q' = q_initialized q;
  fin_shut : q_shuttingDown q' = q_shuttingDown q;
  fin_promise : q_shutdown q' = q_shutdown q;
  fin_exec : executes q' = executes q
}.

Lemma phase_unfinished q i p :
  inv q -> run_phase i q = Some p -> p <> Finished ->
  exists o, oc q i = Some o /\ (o.1.1 = Running \/ o.1.1 = Cancelling).
Proof.
  intros Hi Hp Hne. destruct (inv_phase _ Hi _ _ Hp) as (s & Hs & Hok).
  rewrite st_oc in Hs. destruct (oc q i) as [o|]; [|done]. exists o. split; [done|].
  simpl in Hs. injection Hs as <-. destruct p, (o.1.1); try done; eauto.
Qed.

Lemma inv_finishes i q q' p :
  inv q -> run_phase i q = Some p -> p <> Finished -> finishes i q q' -> inv q'.
Proof.
  intros Hi Hp Hne F. destruct (phase_unfinished q i p Hi Hp Hne) as (o & Ho & Hso).
  destruct (fin_oc _ _ _ F o Ho) as (o' & Ho' & Ht & _).
  assert (st q i <> Some Pending) as Hnp.
  { rewrite st_oc, Ho. simpl. intros [= Hs]. destruct Hso; congruence. }
  assert (forall j, j <> i -> st q' j = st q j) as Hst.
  { intros j Hj. by rewrite !st_oc, (fin_oc_ne _ _ _ F). }
  assert (st q' i = Some o'.1.1) as Hsti by by rewrite st_oc, Ho'.
  destruct F as [F1 _ F3 F4 F5 F6 F7 F8 F9 F10 F11 F12 F13]. destruct Hi as [I1 I2 I3 I4 IN I5 I6 I7 I8 I9 I10 I12 I13].
  split; rewrite ?F4, ?F5, ?F10, ?F11, ?F12, ?F13; auto.
  - intros j. rewrite I4. destruct (decide (j = i)) as [->|Hj]; [|by rewrite Hst].
    rewrite Hsti. split; [done|]. intros [= Hs]. by rewrite Hs in Ht.
  - intros j. rewrite I5. destruct (decide (j = i)) as [->|Hj]; [|by rewrite F7].
    rewrite F6, Hp. split; eauto.
  - intros j r. destruct (decide (j = i)) as [->|Hj]; [|rewrite F7, Hst by done; apply I6].
    rewrite F6, Hsti. intros [= <-]. eauto.
  - intros j. destruct (decide (j = i)) as [->|Hj]; [rewrite F6; eauto|].
    rewrite F7, Hst by done. apply I7.
  - intros j. destruct (decide (j = i)) as [->|Hj]; [by rewrite F8|].
    rewrite F9, F7 by done. apply I8.
  - intros Hu. destruct (I13 Hu) as (? & Hn & ?). by rewrite Hn in Ho.
Qed.

Lemma advance_finishes i q q' p :
  inv q -> run_phase i q = Some p -> p <> Finished -> finishes i q q' -> advance q q'.
Proof.
  intros Hi Hp Hne F. destruct (phase_unfinished q i p Hi Hp Hne) as (o & Ho & Hso).
  split; rewrite ?(fin_shut _ _ _ F), ?(fin_exec _ _ _ F), ?(fin_init _ _ _ F); try done.
  intros j o1 Ho1. destruct (decide (j = i)) as [->|Hj].
  - destruct (fin_oc _ _ _ F _ Ho1) as (o' & ? & ? & Hm). exists o'. split; [done|].
    unfold moves. rewrite Ho in Ho1. injection Ho1 as <-.
    destruct (is_terminal o.1.1) eqn:Hto; [|done].
    destruct Hso as [Hs|Hs]; by rewrite Hs in Hto.
  - exists o1. by rewrite (fin_oc_ne _ _ _ F).
Qed.

Lemma bounded_finishes i q q' : finishes i q q' -> bounded q -> bounded q'.
Proof. intros F. unfold bounded. by rewrite (fin_running _ _ _ F). Qed.

Lemma conserving_finishes i q q' : finishes i q q' -> conserving q -> conserving q'.
Proof.
  intros F. unfold conserving, slots_free.
  by rewrite (fin_running _ _ _ F), (fin_pending _ _ _ F), (fin_shut _ _ _ F).
Qed.

(** A final outcome is assigned to a task, and nothing else. *)
Record settles i q q' : Prop := Settles {
  se_wf : tasks_wf q -> tasks_wf q';
  se_oc o : oc q i = Some o ->
    exists o', oc q' i = Some o' /\ is_terminal o'.1.1 = true /\ may_become o.1.1 o'.1.1 = true;
  se_oc_ne j : j <> i -> oc q' j = oc q j;
  se_pending : q_pending q' = q_pending q;
  se_running : q_running q' = q_running q;
  se_phase j : run_phase j q' = run_phase j q;
  se_child j : has_child j q' = has_child j q;
  se_init : q_initialized q' = q_initialized q;
  se_shut : q_shuttingDown q' = q_shuttingDown q;
  se_promise : q_shutdown q' = q_shutdown q;
  se_exec : executes q' = executes q
}.

Lemma settles_update i q t f :
  map_get i (q_tasks q) = Some t -> (forall u, id (f u) = id u) ->
  is_terminal (status (f t)) = true -> may_become (status t) (status (f t)) = true ->
  settles i q (update_task i f q).
Proof.
  intros Ht Hid Hf Hm. split; try by unfold update_task; rewrite Ht.
  - by apply tasks_wf_update.
  - intros o Ho. rewrite oc_update_task. case_decide; [|done]. rewrite Ht.
    unfold oc in Ho. rewrite Ht in Ho. injection Ho as <-. eexists. by split_and!.
  - intros j Hj. rewrite oc_update_task. by case_decide.
Qed.

Lemma settles_failures i q q' c : settles i q q' -> settles i q (set_cancellationFailures c q').
Proof. intros []. by split. Qed.

Lemma promise_persistTasks q : q_shutdown (persistTasks q) = q_shutdown q.
Proof. unfold persistTasks, armPersistTimer. simpl. split_cases. Qed.

Lemma promise_update_task q i f : q_shutdown (update_task i f q) = q_shutdown q.
Proof. unfold update_task. by case_match. Qed.

Lemma promise_update_activation q i f : q_shutdown (update_activation i f q) = q_shutdown q.
Proof. unfold update_activation. by case_match. Qed.

Lemma finally_finishes i now q q1 :
  settles i q q1 -> is_Some (run_phase i q) -> finishes i q (finally_block i now q1).
Proof.
  intros S Hp. unfold finally_block.
  set (q2 := set_activeChildren _ q1). set (q3 := set_cancelTimers _ _).
  assert (control_eq q2 q3) as C3.
  { subst q3. etrans; [apply control_cleanups|apply control_timers]. }
  assert (control_eq q2 (persistTasks (update_task i (set_updatedAt (stamp now)) q3))) as C.
  { etrans; [exact C3|]. etrans; [|apply control_persistTasks]. by apply control_update_task. }
  assert (q_shutdown (persistTasks (update_task i (set_updatedAt (stamp now)) q3)) = q_shutdown q) as Hpr.
  { rewrite promise_persistTasks, promise_update_task. apply (se_promise _ _ _ S). }
  set (q4 := persistTasks _) in *. clearbody q4. clear C3 q3.
  assert (forall j, run_phase j q4 = run_phase j q) as Hphase.
  { intros j. rewrite (ce_phase _ _ C). apply (se_phase _ _ _ S). }
  destruct C as [C1 C2 C3 C4 C5 C6 C7 C8 C9 C10].
  split.
  - intros Hw%S. unfold update_activation. case_match; by apply C1.
  - intros o (o' & Ho & ?)%S. exists o'. split; [|done]. etrans; [|exact Ho]. etrans; [|exact (C2 i)]. by unfold update_activation; case_match.
  - intros j Hj. rewrite <-(se_oc_ne _ _ _ S) by done. etrans; [|apply (C2 j)]. by unfold update_activation; case_match.
  - etrans; [|apply S]. etrans; [|exact C3]. by unfold update_activation; case_match.
  - etrans; [|apply S]. etrans; [|exact C4]. by unfold update_activation; case_match.
  - rewrite run_phase_update. rewrite decide_True by done.
    destruct Hp as [p Hp]. rewrite <-Hphase in Hp. unfold run_phase in Hp.
    by destruct (map_get i (q_activations q4)).
  - intros j Hj. rewrite run_phase_update, decide_False by done. apply Hphase.
  - transitivity (has_child i q2); [etrans; [|exact (C6 i)]; by unfold update_activation; case_match|].
    unfold has_child, map_has. simpl. by rewrite map_get_delete_eq.
  - intros j Hj. rewrite <-(se_child _ _ _ S).
    transitivity (has_child j q2); [etrans; [|exact (C6 j)]; by unfold update_activation; case_match|].
    unfold has_child, map_has. simpl. by rewrite map_get_delete_ne.
  - etrans; [|apply S]. etrans; [|exact C7]. by unfold update_activation; case_match.
  - etrans; [|apply S]. etrans; [|exact C8]. by unfold update_activation; case_match.
  - by rewrite promise_update_activation.
  - etrans; [|apply S]. etrans; [|exact C10]. by unfold update_activation; case_match.
Qed.

Lemma is_cancelled_cases t :
  status t = Running \/ status t = Cancelling ->
  (is_cancelled_run t = false -> status t = Running).
Proof.
  unfold is_cancelled_run. intros [->| ->]; [done|]. simpl. by rewrite orb_true_r.
Qed.

Lemma catch_finishes i err now q p :
  inv q -> run_phase i q = Some p -> p <> Finished ->
  finishes i q (execute_catch i err now q).
Proof.
  intros Hi Hp Hne. destruct (phase_unfinished q i p Hi Hp Hne) as (o & Ho & Hso).
  unfold execute_catch. apply finally_finishes; [|by rewrite Hp].
  unfold oc in Ho. destruct (map_get i (q_tasks q)) as [t|] eqn:Ht; [|done].
  injection Ho as <-. simpl in Hso.
  destruct (is_cancelled_run t) eqn:Hc; simpl.
  - assert (may_become (status t) Failed = true /\ may_become (status t) Cancelled = true) as [? ?]
      by (by destruct Hso as [->| ->]).
    case_match; [apply settles_failures|]; by apply settles_update with t.
  - apply settles_update with t; try done.
    simpl. by rewrite (is_cancelled_cases _ Hso Hc).
Qed.

(** The outcome of a run that returned. *)
Lemma settle_task_final timedOut r t t' :
  settle_task timedOut r t = Ok t' -> status t = Running \/ status t = Cancelling ->
  id t' = id t /\ is_terminal (status t') = true /\ may_become (status t) (status t') = true.
Proof.
  unfold settle_task. intros H Hso.
  destruct (commandResult json_parse (result_stdout r)) as [parsed|e]; [|done].
  cbn [mbind result_bind] in H.
  match type of H with (let '(_, _) := ?p in _) = _ => destruct p as [c u] eqn:Hp end.
  assert (id u = id t /\ status u = status t /\ is_cancelled_run u = is_cancelled_run t)
    as (Hid & Hst & Hc).
  { revert Hp. repeat case_match; intros; simplify_eq/=; done. }
  clear Hp. rewrite Hc in H. destruct (is_cancelled_run t) eqn:Hct.
  { injection H as <-. simpl. rewrite Hid. by destruct Hso as [->| ->]. }
  rewrite (is_cancelled_cases _ Hso Hct).
  destruct (negb timedOut && is_num (result_code r) 0).
  { injection H as <-. simpl. rewrite Hid. by case_match. }
  unfold mbind, result_bind in H. repeat case_match; simplify_eq/=; by rewrite Hid.
Qed.

Lemma settle_finishes i r now q p :
  inv q -> run_phase i q = Some p -> p <> Finished ->
  finishes i q (settle_execution i r now q).
Proof.
  intros Hi Hp Hne. destruct (phase_unfinished q i p Hi Hp Hne) as (o & Ho & Hso).
  unfold settle_execution. pose proof Hp as Hp'. unfold run_phase in Hp'.
  destruct (map_get i (q_activations q)) as [a|]; [|done].
  unfold oc in Ho. destruct (map_get i (q_tasks q)) as [t|] eqn:Ht; [|done].
  injection Ho as <-. simpl in Hso.
  destruct (settle_task (act_timedOut a) r t) as [t'|e] eqn:Hs; [|by eapply catch_finishes].
  destruct (settle_task_final _ _ _ _ Hs Hso) as (Hid & Hterm & Hmay).
  apply finally_finishes; [|by rewrite Hp].
  assert (set_tasks (map_set i t' (q_tasks q)) q = update_task i (fun _ => t') q) as ->.
  { unfold update_task. by rewrite Ht. }
  split; try by unfold update_task; rewrite Ht.
  - unfold update_task. rewrite Ht. intros [Hw Hids]. split; [by apply map_wf_set|].
    intros j u. simpl. rewrite map_get_set. case_decide; [|apply Hids].
    intros [= <-]. subst. rewrite Hid. by apply Hids.
  - intros o Ho. rewrite oc_update_task. case_decide; [|done]. rewrite Ht.
    unfold oc in Ho. rewrite Ht in Ho. injection Ho as <-. eexists. by split_and!.
  - intros j Hj. rewrite oc_update_task. by case_decide.
Qed.

(** ** A run starts *)

(** The state [startTask] leaves before the synchronous part of the run. *)
Definition begin_run i now q : queue :=
  let q := update_task i (set_status Running (stamp now)) q in
  let q := persistTasks (set_running (set_add i (q_running q)) q) in
  set_activations
    (map_set i (Activation AwaitExecutor false false createTaskControlStream) (q_activations q)) q.

Record begins i rest q q' : Prop := Begins {
  beg_wf : tasks_wf q -> tasks_wf q';
  beg_oc : exists o, oc q' i = Some o /\ o.1.1 = Running;
  beg_oc_ne j : j <> i -> oc q' j = oc q j;
  beg_pending : q_pending q' = rest;
  beg_running : q_running q' = q_running q ++ [i];
  beg_phase : run_phase i q' = Some AwaitExecutor;
  beg_phase_ne j : j <> i -> run_phase j q' = run_phase j q;
  beg_child j : has_child j q' = has_child j q;
  beg_init : q_initialized q' = q_initialized q;
  beg_shut : q_shuttingDown q' = q_shuttingDown q;
  beg_promise : q_shutdown q' = q_shutdown q;
  beg_exec : executes q' = executes q
}.

Lemma set_has_elem i (l : list jstr) : set_has i l = true <-> i ∈ l.
Proof. apply one_of_elem. Qed.

Lemma set_add_new i (l : list jstr) : i ∉ l -> set_add i l = l ++ [i].
Proof.
  intros H. unfold set_add. destruct (set_has i l) eqn:Hs; [|done].
  by apply set_has_elem in Hs.
Qed.

Lemma elem_of_set_remove i j (l : list jstr) : j ∈ set_remove i l <-> j ∈ l /\ j <> i.
Proof.
  unfold set_remove. rewrite elem_of_bfilter, negb_true_iff. by rewrite jeqb_neq.
Qed.

Lemma begin_begins i now q rest :
  inv q -> q_pending q = i :: rest -> begins i rest q (begin_run i now (set_pending rest q)).
Proof.
  intros Hi Hq.
  assert (st q i = Some Pending) as Hs.
  { apply (inv_pending _ Hi). rewrite Hq. apply elem_of_cons. by left. }
  assert (i ∉ q_running q) as Hr.
  { intros (p & Hp)%(inv_running _ Hi). destruct (inv_phase _ Hi _ _ Hp) as (s & Hs' & Hok).
    rewrite Hs in Hs'. injection Hs' as <-. by destruct p. }
  unfold st in Hs. destruct (map_get i (q_tasks q)) as [t|] eqn:Ht; [|done].
  unfold begin_run. cbn zeta. set (q1 := update_task _ _ _).
  assert (q_running q1 = q_running q) as ->.
  { subst q1. unfold update_task. by case_match. }
  rewrite set_add_new by done. set (q2 := set_running _ q1).
  pose proof (control_persistTasks q2) as C. pose proof (promise_persistTasks q2) as Hpr.
  set (q3 := persistTasks q2) in *. clearbody q3.
  destruct C as [C1 C2 C3 C4 C5 C6 C7 C8 C9 C10].
  assert (q1 = set_tasks (map_set i (set_status Running (stamp now) t) (q_tasks q))
    (set_pending rest q)) as Hq1.
  { subst q1. unfold update_task. simpl. by rewrite Ht. }
  split; cbn [set_activations q_pending q_running q_initialized q_shuttingDown q_shutdown].
  - intros Hw. apply C1. subst q2. unfold tasks_wf. simpl. apply (tasks_wf_update (set_pending rest q)); done.
  - eexists (Running, error t, task_res t). split; [|done]. etrans; [exact (C2 i)|].
    subst q2. rewrite Hq1. unfold oc. simpl. by rewrite map_get_set_eq.
  - intros j Hj. etrans; [exact (C2 j)|]. subst q2. rewrite Hq1. unfold oc. simpl.
    by rewrite map_get_set_ne.
  - rewrite C3. subst q2. by rewrite Hq1.
  - rewrite C4. by subst q2.
  - unfold run_phase. simpl. by rewrite map_get_set_eq.
  - intros j Hj. unfold run_phase. simpl. rewrite map_get_set_ne by done.
    etrans; [exact (C5 j)|]. subst q2. by rewrite Hq1.
  - intros j. etrans; [exact (C6 j)|]. subst q2. by rewrite Hq1.
  - rewrite C7. subst q2. by rewrite Hq1.
  - rewrite C8. subst q2. by rewrite Hq1.
  - rewrite Hpr. subst q2. by rewrite Hq1.
  - etrans; [exact C10|]. subst q2. by rewrite Hq1.
Qed.

Lemma inv_begins i rest q q' :
  inv q -> q_pending q = i :: rest -> begins i rest q q' -> inv q'.
Proof.
  intros Hi Hq B.
  assert (st q i = Some Pending) as Hs.
  { apply (inv_pending _ Hi). rewrite Hq. apply elem_of_cons. by left. }
  assert (run_phase i q = None) as Hnr.
  { destruct (run_phase i q) as [p|] eqn:Hp; [|done]. exfalso.
    destruct (inv_phase _ Hi _ _ Hp) as (s & Hs' & Hok).
    rewrite Hs in Hs'. injection Hs' as <-. by destruct p. }
  destruct (beg_oc _ _ _ _ B) as (o & Ho & Hor).
  assert (st q' i = Some Running) as Hsi by (rewrite st_oc, Ho; simpl; by rewrite Hor).
  assert (forall j, j <> i -> st q' j = st q j) as Hst.
  { intros j Hj. by rewrite !st_oc, (beg_oc_ne _ _ _ _ B). }
  destruct B as [B1 _ B3 B4 B5 B6 B7 B8 B9 B10 B11 B12].
  destruct Hi as [I1 I2 I3 I4 IN I5 I6 I7 I8 I9 I10 I12 I13].
  rewrite Hq in I2, I4, IN, I10. apply NoDup_cons in I2 as [Hni Hnd].
  split; rewrite ?B4, ?B5, ?B9, ?B10, ?B11, ?B12; auto.
  - apply NoDup_app. split_and!; [done| |apply NoDup_singleton].
    intros j Hj ->%list_elem_of_singleton. apply I5 in Hj as [? ?]. congruence.
  - intros j. destruct (decide (j = i)) as [->|Hj].
    + rewrite Hsi. split; [by intros ?%Hni|done].
    + rewrite Hst, <-I4, elem_of_cons by done. split; [by right|]. by intros [?|?].
  - intros j Hj. apply IN, elem_of_cons. by right.
  - intros j. rewrite elem_of_app, list_elem_of_singleton, I5.
    destruct (decide (j = i)) as [->|Hj]; [rewrite B6; split; eauto|].
    rewrite B7 by done. split; [by intros [?|?]|by left].
  - intros j p. destruct (decide (j = i)) as [->|Hj].
    + rewrite B6, Hsi. intros [= <-]. by exists Running.
    + rewrite B7, Hst by done. apply I6.
  - intros j. destruct (decide (j = i)) as [->|Hj]; [rewrite B6; eauto|].
    rewrite B7, Hst by done. apply I7.
  - intros j. rewrite B8. intros Hj. destruct (decide (j = i)) as [->|Hne].
    + apply I8 in Hj as (p & ? & _). congruence.
    + rewrite B7 by done. by apply I8.
  - intros j Hj Hr. apply (I10 _ Hj). apply elem_of_cons. by right.
  - intros Hu. destruct (I13 Hu) as (? & Hn & ?). rewrite st_oc, Hn in Hs. done.
Qed.

Lemma advance_begins i rest q q' :
  inv q -> q_pending q = i :: rest -> begins i rest q q' -> advance q q'.
Proof.
  intros Hi Hq B. split; rewrite ?(beg_shut _ _ _ _ B), ?(beg_exec _ _ _ _ B), ?(beg_init _ _ _ _ B);
    try done.
  intros j o Ho. destruct (decide (j = i)) as [->|Hj].
  - destruct (beg_oc _ _ _ _ B) as (o' & Ho' & Hr). exists o'. split; [done|].
    assert (st q i = Some Pending) as Hs.
    { apply (inv_pending _ Hi). rewrite Hq. apply elem_of_cons. by left. }
    rewrite st_oc, Ho in Hs. injection Hs as Hs. unfold moves. by rewrite Hs, Hr.
  - exists o. by rewrite (beg_oc_ne _ _ _ _ B).
Qed.

Lemma jle_succ (n : nat) m : jlt (Fin (Z.of_nat n)) m = true -> jle (Fin (Z.of_nat (n + 1))) m = true.
Proof. destruct m; unfold jlt, jle; try done. rewrite Z.ltb_lt, Z.leb_le. lia. Qed.

(** What handing a run to the executor needs and leaves. *)
Lemma inv_emit i q :
  inv q -> q_initialized q = true -> i ∉ executes q -> i ∉ q_pending q -> inv (emit (Execute i) q).
Proof.
  intros [I1 I2 I3 I4 IN I5 I6 I7 I8 I9 I10 I12 I13] Hin He Hp.
  assert (executes (emit (Execute i) q) = executes q ++ [i]) as Hx.
  { unfold executes. simpl. by rewrite omap_app. }
  split; rewrite ?Hx; try done.
  - apply NoDup_app. split_and!; [done| |apply NoDup_singleton].
    by intros j Hj ->%list_elem_of_singleton.
  - intros j. rewrite elem_of_app, list_elem_of_singleton. intros [Hj| ->]; [by apply I10|done].
  - simpl. by rewrite Hin.
Qed.

Definition missing_command : exec_error :=
  ExecError Undefined (Str "Missing command specification for task").

Lemma startTask_begin i now t q :
  id t = i ->
  startTask now t q =
  match commandSpec t with
  | Some spec =>
      if js_truthy (command spec) then emit (Execute i) (begin_run i now q)
      else execute_catch i missing_command now (begin_run i now q)
  | None => execute_catch i missing_command now (begin_run i now q)
  end.
Proof. intros <-. reflexivity. Qed.

Lemma start_ok i rest now q t :
  inv q -> q_initialized q = true -> q_shuttingDown q = false -> slots_free q = true ->
  q_pending q = i :: rest -> map_get i (q_tasks q) = Some t ->
  let q' := startTask now t (set_pending rest q) in
  inv q' /\ advance q q' /\ bounded q' /\ q_pending q' = rest /\
  q_shuttingDown q' = false /\ q_initialized q' = true.
Proof.
  intros Hi Hin Hsh Hfree Hq Ht. cbn zeta.
  assert (id t = i) as Hid by by apply (inv_tasks _ Hi).
  pose proof (begin_begins i now q rest Hi Hq) as B.
  pose proof (inv_begins _ _ _ _ Hi Hq B) as Hi1.
  pose proof (advance_begins _ _ _ _ Hi Hq B) as Ha1.
  assert (bounded (begin_run i now (set_pending rest q))) as Hb1.
  { right. rewrite (beg_running _ _ _ _ B), length_app. by apply jle_succ. }
  assert (i ∉ executes q) as Hex.
  { intros Hx%(inv_exec _ Hi). apply Hx. rewrite Hq. apply elem_of_cons. by left. }
  assert (i ∉ rest) as Hrest.
  { pose proof (inv_nodup_pending _ Hi) as Hnd. rewrite Hq in Hnd. by apply NoDup_cons in Hnd as [? _]. }
  assert (forall err, let q' := execute_catch i err now (begin_run i now (set_pending rest q)) in
    inv q' /\ advance q q' /\ bounded q' /\ q_pending q' = rest /\
    q_shuttingDown q' = false /\ q_initialized q' = true) as Hcatch.
  { intros err. cbn zeta.
    pose proof (catch_finishes i err now _ _ Hi1 (beg_phase _ _ _ _ B) ltac:(done)) as F.
    split_and!.
    - eapply inv_finishes; [exact Hi1|apply B|done|done].
    - etrans; [exact Ha1|]. eapply advance_finishes; [exact Hi1|apply B|done|done].
    - by eapply bounded_finishes.
    - rewrite (fin_pending _ _ _ F). apply B.
    - rewrite (fin_shut _ _ _ F). by rewrite (beg_shut _ _ _ _ B).
    - rewrite (fin_init _ _ _ F). by rewrite (beg_init _ _ _ _ B). }
  rewrite (startTask_begin i) by done.
  set (b := begin_run i now (set_pending rest q)) in *. clearbody b.
  destruct (commandSpec t) as [spec|]; [|apply Hcatch].
  destruct (js_truthy (command spec)); [|apply Hcatch].
  split_and!; try (by apply Hb1); try (by apply B).
  - apply inv_emit; [done| | |].
    + by rewrite (beg_init _ _ _ _ B).
    + by rewrite (beg_exec _ _ _ _ B).
    + by rewrite (beg_pending _ _ _ _ B).
  - etrans; [exact Ha1|]. split; [|simpl; rewrite (beg_shut _ _ _ _ B); congruence|done].
    intros j o Ho. by exists o.
  - simpl. by rewrite (beg_shut _ _ _ _ B).
  - simpl. by rewrite (beg_init _ _ _ _ B).
Qed.

Lemma process_loop_ok now : forall fuel q,
  inv q -> q_initialized q = true -> q_shuttingDown q = false -> bounded q ->
  length (q_pending q) <= fuel ->
  let q' := process_loop fuel now q in
  inv q' /\ advance q q' /\ bounded q' /\ conserving q' /\ q_shuttingDown q' = false.
Proof.
  induction fuel as [|fuel IH]; intros q Hi Hin Hsh Hb Hf; cbn zeta.
  { simpl. split_and!; try done. intros _. left. by apply nil_length_inv, Nat.le_0_r. }
  simpl. destruct (q_pending q) as [|i rest] eqn:Hq.
  { split_and!; try done. by left. }
  fold (slots_free q). destruct (slots_free q) eqn:Hfree; [|split_and!; try done; by right].
  assert (st q i = Some Pending) as Hs.
  { apply (inv_pending _ Hi). rewrite Hq. apply elem_of_cons. by left. }
  unfold st in Hs. simpl. destruct (map_get i (q_tasks q)) as [t|] eqn:Ht; [|done].
  injection Hs as Hs. rewrite Hs. simpl. rewrite andb_true_r.
  assert (truthy i = true) as ->.
  { apply truthy_true, (inv_named _ Hi). rewrite Hq. apply elem_of_cons. by left. }
  destruct (start_ok i rest now q t Hi Hin Hsh Hfree Hq Ht) as (H1 & H2 & H3 & H4 & H5 & H6).
  assert (length (q_pending (startTask now t (set_pending rest q))) <= fuel) as Hl.
  { rewrite H4. simpl in Hf. lia. }
  destruct (IH _ H1 H6 H5 H3 Hl) as (K1 & K2 & K3 & K4).
  exact (conj K1 (conj (transitivity H2 K2) (conj K3 K4))).
Qed.

(** [processQueue], from any state of the invariant. *)
Lemma process_ok now q :
  inv q -> q_initialized q = true -> bounded q ->
  let q' := processQueue now q in
  inv q' /\ advance q q' /\ bounded q' /\ conserving q' /\
  q_shuttingDown q' = q_shuttingDown q.
Proof.
  intros Hi Hin Hb. unfold processQueue. destruct (q_shuttingDown q) eqn:Hsh.
  - split_and!; try done. by intros ?; congruence.
  - by apply process_loop_ok.
Qed.

(** ** Pruning *)

Lemma insert_newest_perm t l : insert_newest t l ≡ₚ t :: l.
Proof.
  induction l as [|u l IH]; simpl; [done|]. case_match; [done|].
  rewrite IH. apply Permutation_swap.
Qed.

Lemma newest_first_perm l : newest_first l ≡ₚ l.
Proof. induction l as [|t l IH]; simpl; [done|]. by rewrite insert_newest_perm, IH. Qed.

Definition prune_keeps (now n : Z) t : bool :=
  (n <? maxTerminalTasks cfg)%Z && (now - taskTimestamp t <=? terminalRetentionMs cfg)%Z.

(** The identifiers [prune_from] deletes. *)
Fixpoint doomed (now n : Z) (l : list task) : list jstr :=
  match l with
  | [] => []
  | t :: l => (if prune_keeps now n t then [] else [id t]) ++ doomed now (n + 1) l
  end.

Record deletes (ids : list jstr) q q' : Prop := Deletes {
  del_wf : tasks_wf q -> tasks_wf q';
  del_get i : map_get i (q_tasks q') = if decide (i ∈ ids) then None else map_get i (q_tasks q);
  del_same : exists logs, q' = set_taskLogs logs (set_tasks (q_tasks q') q)
}.

Lemma prune_from_deletes now l : forall n q,
  deletes (doomed now n l) q (prune_from now n l q).
Proof.
  induction l as [|t l IH]; intros n q.
  { split; simpl; [done|by intros i|exists (q_taskLogs q); by destruct q]. }
  simpl. fold (prune_keeps now n t). destruct (prune_keeps now n t); [apply IH|].
  destruct (IH (n + 1)%Z (set_taskLogs (map_delete (id t) (q_taskLogs q))
    (set_tasks (map_delete (id t) (q_tasks q)) q))) as [H1 H2 [logs H3]].
  split.
  - intros [Hw Hid]. apply H1. split; simpl; [by apply map_wf_delete|].
    intros i u. rewrite map_get_delete. case_decide; [done|apply Hid].
  - intros i. rewrite H2. simpl. rewrite map_get_delete.
    repeat case_decide; subst; try done; exfalso; set_solver.
  - exists logs. rewrite H3 at 1. by destruct q.
Qed.

Lemma doomed_sub now l : forall n i, i ∈ doomed now n l -> i ∈ id <$> l.
Proof.
  induction l as [|t l IH]; intros n i; simpl; [done|].
  rewrite elem_of_app. case_match; intros [H'|H']; try (by apply not_elem_of_nil in H');
    apply elem_of_cons; [right|left|right]; [by eapply IH|by apply list_elem_of_singleton|by eapply IH].
Qed.

(** Tasks with a final status and no run may be deleted, nothing else changes. *)
Record pruned q q' : Prop := Pruned {
  pr_wf : tasks_wf q -> tasks_wf q';
  pr_oc i : oc q' i = oc q i \/
    oc q' i = None /\ run_phase i q = None /\ has_child i q = false /\
    exists o, oc q i = Some o /\ is_terminal o.1.1 = true;
  pr_same : exists ts logs, q' = set_taskLogs logs (set_tasks ts q)
}.

Lemma prune_pruned now q : inv q -> pruned q (pruneTerminalTasks now q).
Proof.
  intros Hi. unfold pruneTerminalTasks.
  set (l := newest_first _). destruct (prune_from_deletes now l 0 q) as [D1 D2 [logs D3]].
  split; [done| |by eexists _, _].
  intros i. unfold oc. rewrite D2. case_decide as Hd; [|by left].
  destruct (map_get i (q_tasks q)) as [t|] eqn:Ht; [|by left]. right.
  apply doomed_sub, list_elem_of_fmap in Hd as (u & -> & Hu).
  subst l. rewrite newest_first_perm, elem_of_bfilter in Hu. destruct Hu as [Hu Hp].
  apply list_elem_of_fmap in Hu as ([j u'] & ? & Hu). simplify_eq/=.
  destruct (inv_tasks _ Hi) as [Hw Hids].
  apply map_get_in in Hu; [|done]. pose proof (Hids _ _ Hu). subst j.
  rewrite Hu in Ht. injection Ht as ->.
  unfold prunable in Hp. apply andb_true_iff in Hp as [Hterm Hp].
  apply negb_true_iff, orb_false_iff in Hp as [Hr Hc]. split_and!; try done.
  - destruct (run_phase (id t) q) eqn:Hph; [|done].
    assert (id t ∈ q_running q) as Hin by by apply (inv_running _ Hi).
    apply set_has_elem in Hin. congruence.
  - eexists. split; [done|done].
Qed.

Lemma inv_pruned q q' : inv q -> pruned q q' -> inv q'.
Proof.
  intros Hi [P1 P2 (ts & logs & ->)].
  set (q' := set_taskLogs _ _) in *.
  assert (forall i, st q' i = st q i \/
    st q' i = None /\ run_phase i q = None /\ exists s, st q i = Some s /\ is_terminal s = true) as Hst.
  { intros i. rewrite !st_oc. destruct (P2 i) as [->|(-> & ? & _ & o & -> & ?)]; [by left|].
    right. split_and!; try done. by exists o.1.1. }
  destruct Hi as [I1 I2 I3 I4 IN I5 I6 I7 I8 I9 I10 I12 I13].
  split; try done; subst q'; auto.
  - intros i. simpl. rewrite I4. destruct (Hst i) as [->|(-> & _ & s & -> & Hs)]; [done|].
    split; [|done]. intros [= ->]. done.
  - intros i p Hp. destruct (I6 _ _ Hp) as (s & Hs & Hok).
    destruct (Hst i) as [Heq|(_ & Hn & _)]; [|by change (run_phase i q = Some p) in Hp; congruence].
    exists s. by rewrite Heq.
  - intros i. destruct (Hst i) as [->|(-> & _)]; [apply I7|done].
  - intros Hu. destruct (I13 Hu) as (? & Ho & ?). split_and!; try done.
    intros i. destruct (P2 i) as [->|(-> & _)]; done.
Qed.

(** ** What a step may do

    Like [advance], except that tasks with a final status and no run may be
    pruned. *)

Record progress q q' : Prop := Progress {
  pg_moves i o : oc q i = Some o ->
    (exists o', oc q' i = Some o' /\ moves o o') \/
    oc q' i = None /\ run_phase i q' = None /\
      exists o', moves o o' /\ is_terminal o'.1.1 = true;
  pg_shut : q_shuttingDown q = true ->
    q_shuttingDown q' = true /\ executes q' = executes q;
  pg_init : q_initialized q = true -> q_initialized q' = true
}.

Lemma progress_advance q q' : advance q q' -> progress q q'.
Proof. intros [H1 H2 H3]. split; auto. Qed.

Lemma progress_after q1 q2 q3 : advance q1 q2 -> progress q2 q3 -> progress q1 q3.
Proof.
  intros [A1 A2 A3] [B1 B2 B3]. split.
  - intros i o (o' & Ho & Hm)%A1.
    destruct (B1 i o' Ho) as [(o'' & ? & ?)|(? & ? & o'' & ? & ?)].
    + left. exists o''. split; [done|]. by etrans.
    + right. split_and!; try done. exists o''. split; [|done]. by etrans.
  - intros [H1 H2]%A2. apply B2 in H1 as [? ?]. split; [done|congruence].
  - auto.
Qed.

Lemma progress_control q1 q2 q3 : progress q1 q2 -> control_eq q2 q3 -> progress q1 q3.
Proof.
  intros [A1 A2 A3] C. split.
  - intros i o Ho. rewrite (ce_oc _ _ C), (ce_phase _ _ C). by apply A1.
  - rewrite (ce_shut _ _ C), (ce_exec _ _ C). apply A2.
  - rewrite (ce_init _ _ C). apply A3.
Qed.

Lemma progress_pruned q q' : pruned q q' -> progress q q'.
Proof.
  intros [P1 P2 (ts & logs & Hq)]. split; [|by rewrite Hq..].
  intros i o Ho. destruct (P2 i) as [Heq|(Hn & Hp & _ & o' & Ho' & Ht)].
  - left. exists o. by rewrite Heq.
  - right. rewrite Ho in Ho'. injection Ho' as <-. split_and!; [done|by rewrite Hq|].
    by exists o.
Qed.

(** ** States between steps *)

Definition shut_ok q : Prop := q_shuttingDown q = true -> q_pending q = [].

Record good q : Prop := Good {
  good_inv : inv q;
  good_bounded : bounded q;
  good_conserving : conserving q;
  good_shut : shut_ok q
}.

Definition good_step q q' : Prop := good q' /\ progress q q'.

Lemma good_control q q' : good q -> control_eq q q' -> good_step q q'.
Proof.
  intros [H1 H2 H3 H4] C. split; [split|].
  - by eapply inv_control.
  - by eapply bounded_control.
  - by eapply conserving_control.
  - intros Hs. rewrite (ce_pending _ _ C). apply H4. by rewrite <-(ce_shut _ _ C).
  - by apply progress_advance, advance_control.
Qed.

Lemma good_step_control q1 q2 q3 : good_step q1 q2 -> control_eq q2 q3 -> good_step q1 q3.
Proof.
  intros [G P] C. split; [by apply (good_control q2)|]. by eapply progress_control.
Qed.

Lemma good_after q1 q2 q3 : advance q1 q2 -> good_step q2 q3 -> good_step q1 q3.
Proof. intros A [G P]. split; [done|]. by eapply progress_after. Qed.

Lemma good_finishes i q q' p :
  good q -> run_phase i q = Some p -> p <> Finished -> finishes i q q' -> good_step q q'.
Proof.
  intros [H1 H2 H3 H4] Hp Hne F. split; [split|].
  - by eapply inv_finishes.
  - by eapply bounded_finishes.
  - by eapply conserving_finishes.
  - intros Hs. rewrite (fin_pending _ _ _ F). apply H4. by rewrite <-(fin_shut _ _ _ F).
  - apply progress_advance. by eapply advance_finishes.
Qed.

Lemma good_pruned q q' : good q -> pruned q q' -> good_step q q'.
Proof.
  intros [H1 H2 H3 H4] P. split; [|by apply progress_pruned].
  destruct (pr_same _ _ P) as (ts & logs & Hq). split.
  - by eapply inv_pruned.
  - by rewrite Hq.
  - by rewrite Hq.
  - by rewrite Hq.
Qed.

Lemma good_startPersistWrite b now q : good q -> good_step q (startPersistWrite b now q).
Proof.
  intros G. unfold startPersistWrite.
  pose proof (control_persist q false false (q_persistWrite q)) as C.
  set (q1 := set_persist _ _ _ q) in *.
  destruct (good_control _ _ G C) as [G1 P1].
  eapply good_step_control; [|apply control_persist].
  eapply good_after; [by apply advance_control|].
  apply good_pruned; [done|]. by apply prune_pruned, G1.
Qed.

(** The promise of [shutdown] moves on without touching anything else. *)
Lemma control_set_shutdown x q : q_shutdown q <> None -> control_eq q (set_shutdown x q).
Proof. intros Hs. by split. Qed.

Lemma promise_prune now q : q_shutdown (pruneTerminalTasks now q) = q_shutdown q.
Proof.
  unfold pruneTerminalTasks. destruct (prune_from_deletes now (newest_first
    (bfilter (prunable q) (map_values (q_tasks q)))) 0 q) as [_ _ [logs ->]]. done.
Qed.

Lemma good_flush_loop now q : good q -> q_shutdown q <> None -> good_step q (flush_loop now q).
Proof.
  intros G Hs. unfold flush_loop. case_match; [by apply good_control|].
  case_match; [by apply good_startPersistWrite|].
  apply good_control; [done|]. by apply control_set_shutdown.
Qed.

Lemma good_flush now q : good q -> q_shutdown q <> None -> good_step q (flushPersist now q).
Proof.
  intros G Hs. unfold flushPersist. case_match.
  - eapply good_after; [apply advance_control, control_persist|].
    apply good_flush_loop; [|done]. by eapply good_control, control_persist.
  - apply good_control; [done|]. by apply control_set_shutdown.
Qed.

Lemma good_poll now q : good q -> good_step q (shutdown_poll now q).
Proof.
  intros G. unfold shutdown_poll.
  destruct (q_shutdown q) as [[]|] eqn:Hs; try by apply good_control.
  assert (forall x, control_eq q (set_shutdown x q)) as C.
  { intros x. apply control_set_shutdown. by rewrite Hs. }
  repeat case_match; try by apply good_control.
  eapply good_after; [apply advance_control, C|]. apply good_flush; [|done].
  by eapply good_control.
Qed.

Lemma control_arm q : control_eq q (armPersistTimer q).
Proof. unfold armPersistTimer. by split_cases. Qed.

Lemma promise_arm q : q_shutdown (armPersistTimer q) = q_shutdown q.
Proof. unfold armPersistTimer. by split_cases. Qed.

Lemma control_after_write f w q :
  control_eq q (after_write f w q) /\ q_shutdown (after_write f w q) = q_shutdown q.
Proof.
  unfold after_write. destruct f; [split; [by split|done]|].
  set (q1 := set_disk _ _).
  assert (control_eq q q1 /\ q_shutdown q1 = q_shutdown q) as [C S] by (split; [by split|done]).
  case_match; [|done]. rewrite promise_arm. split; [|done].
  etrans; [exact C|apply control_arm].
Qed.

Lemma good_write_settles f now q : good q -> good_step q (write_settles f now q).
Proof.
  intros G. unfold write_settles. destruct (q_persistWrite q) as [w|]; [|by apply good_control].
  cbn zeta. destruct (control_after_write f w q) as [C S].
  set (q2 := after_write f w q) in *. clearbody q2.
  assert (good_step q q2) as G2 by by apply good_control.
  destruct (q_shutdown q2) as [[]|] eqn:Hs; try done.
  assert (good_step q (flush_loop now q2)) as Hfl.
  { eapply good_after; [by apply advance_control|]. apply good_flush_loop; [apply G2|].
    by rewrite Hs. }
  destruct f, (from_timer w); try done.
  eapply good_step_control; [exact G2|]. by apply control_set_shutdown; rewrite Hs.
Qed.

(** ** Spawning and waiting *)

Lemma good_spawn i c q :
  good q -> run_phase i q = Some AwaitExecutor ->
  good_step q (set_activeChildren (map_set i c (q_activeChildren q)) q).
Proof.
  intros [I B C S] Hp. split; [split; try done|by apply progress_advance, advance_same].
  destruct I as [I1 I2 I3 I4 IN I5 I6 I7 I8 I9 I10 I12 I13]. split; try done.
  intros j. unfold has_child, map_has. simpl. destruct (decide (j = i)) as [->|Hj].
  - intros _. by exists AwaitExecutor.
  - rewrite map_get_set_ne by done. apply I8.
Qed.

Lemma good_onSpawn i c o q :
  good q -> run_phase i q = Some AwaitExecutor -> good_step q (onSpawn i c o q).
Proof.
  intros G Hp. unfold onSpawn. destruct (map_get i (q_tasks q)) as [t|]; [|by apply good_control].
  cbn zeta. pose proof (good_spawn i c q G Hp) as G1.
  set (q1 := set_activeChildren _ q) in *. clearbody q1.
  assert (good_step q (if cancelRequested t then requestRunningTaskCancellation i c o q1 else q1))
    as G2.
  { case_match; [|done]. eapply good_step_control; [done|]. apply control_request. }
  destruct (has_timeout (timeoutMs t)); [|exact G2].
  eapply good_step_control; [exact G2|]. by apply control_update_activation.
Qed.

Lemma good_rephase i f q p :
  good q -> run_phase i q = Some p -> p <> Finished ->
  (forall a, act_phase (f a) <> Finished) ->
  good_step q (update_activation i f q).
Proof.
  intros [I B C S] Hp Hne Hf.
  assert (exists a, map_get i (q_activations q) = Some a /\ act_phase a = p) as (a & Ha & <-).
  { unfold run_phase in Hp. destruct (map_get i (q_activations q)) as [a|]; [|done].
    exists a. by injection Hp as ->. }
  assert (forall j, run_phase j (update_activation i f q) =
    if decide (j = i) then Some (act_phase (f a)) else run_phase j q) as Hph.
  { intros j. rewrite run_phase_update. by rewrite Ha. }
  assert (update_activation i f q = set_activations (map_set i (f a) (q_activations q)) q) as Heq.
  { unfold update_activation. by rewrite Ha. }
  rewrite Heq in *. split; [split; try done|by apply progress_advance, advance_same].
  destruct I as [I1 I2 I3 I4 IN I5 I6 I7 I8 I9 I10 I12 I13]. split; try done; intros j.
  - rewrite Hph, I5. case_decide; [subst|done]. rewrite Hp. split; eauto.
  - intros p. rewrite Hph. case_decide; [subst|apply I6]. intros [= <-].
    destruct (I6 _ _ Hp) as (s & Hs & Hok). exists s. split; [done|].
    specialize (Hf a). destruct (act_phase a), (act_phase (f a)), s; done.
  - rewrite Hph. case_decide; [eauto|apply I7].
  - rewrite Hph. intros Hj%I8. case_decide; [|done]. eauto.
Qed.

Lemma good_resolves i r now q :
  good q -> run_phase i q = Some AwaitExecutor -> good_step q (executor_resolves i r now q).
Proof.
  intros G Hp. unfold executor_resolves.
  destruct (map_get i (q_activations q)) as [a|]; [|by apply good_control].
  destruct (finish (act_stream a)) as [os s].
  set (q1 := handle_outputs _ _ _ _).
  assert (control_eq q q1) as C.
  { subst q1. etrans; [|apply control_handle_outputs]. by apply control_update_activation. }
  clearbody q1. cbn zeta. destruct (good_control _ _ G C) as [G1 _].
  assert (run_phase i q1 = Some AwaitExecutor) as Hp1 by by rewrite (ce_phase _ _ C).
  destruct (map_get i (q_tasks q1)) as [t|]; [|by apply good_control].
  eapply good_after; [by apply advance_control|].
  assert (good_step q1 (settle_execution i r now q1)) as Hset.
  { eapply good_finishes; [done..|]. by eapply settle_finishes; [apply G1|..]. }
  repeat case_match; try done.
  - by eapply good_rephase.
  - eapply good_finishes; [done..|]. by eapply catch_finishes; [apply G1|..].
Qed.

Lemma good_rejects i e now q :
  good q -> run_phase i q = Some AwaitExecutor -> good_step q (execute_catch i e now q).
Proof.
  intros G Hp. eapply good_finishes; [done..|]. by eapply catch_finishes; [apply G|..].
Qed.

Lemma good_cleanup i c now q : good q -> good_step q (cleanup_settles i c now q).
Proof.
  intros G. unfold cleanup_settles.
  pose proof (control_cleanups q (map_set i c (q_cancelCleanups q))) as C.
  set (q1 := set_cancelCleanups _ q) in *. clearbody q1.
  destruct (good_control _ _ G C) as [G1 _].
  eapply good_after; [by apply advance_control|]. unfold resume_after_cleanup.
  destruct (map_get i (q_activations q1)) as [[[|r|] ? ? ?]|] eqn:Ha; try by apply good_control.
  assert (run_phase i q1 = Some (AwaitCleanup r)) as Hp by (unfold run_phase; by rewrite Ha).
  destruct c; [by apply good_control|..].
  - eapply good_finishes; [done..|]. by eapply settle_finishes; [apply G1|..].
  - eapply good_finishes; [done..|]. by eapply catch_finishes; [apply G1|..].
Qed.

(** ** Cancellation *)

Lemma inv_initialized q i o : inv q -> oc q i = Some o -> q_initialized q = true.
Proof.
  intros I Ho. destruct (q_initialized q) eqn:Hin; [done|].
  destruct (inv_uninit _ I Hin) as (_ & Hn & _). by rewrite Hn in Ho.
Qed.

(** A pending task leaves the queue. *)
Lemma inv_unqueue i q q' :
  inv q -> st q i = Some Pending ->
  (tasks_wf q -> tasks_wf q') -> (exists o, oc q' i = Some o /\ o.1.1 = Cancelled) ->
  (forall j, j <> i -> oc q' j = oc q j) -> q_pending q' = set_remove i (q_pending q) ->
  q_running q' = q_running q -> (forall j, run_phase j q' = run_phase j q) ->
  (forall j, has_child j q' = has_child j q) -> q_initialized q' = q_initialized q ->
  q_shuttingDown q' = q_shuttingDown q -> q_shutdown q' = q_shutdown q ->
  executes q' = executes q -> inv q' /\ advance q q'.
Proof.
  intros I Hs Hw (o & Ho & Hoc) Hne Hp Hr Hph Hch Hin Hsh Hpr Hex.
  assert (st q' i = Some Cancelled) as Hsi by (rewrite st_oc, Ho; simpl; by rewrite Hoc).
  assert (forall j, j <> i -> st q' j = st q j) as Hst.
  { intros j Hj. by rewrite !st_oc, Hne. }
  assert (run_phase i q = None) as Hnr.
  { destruct (run_phase i q) as [p|] eqn:Hpi; [|done].
    destruct (inv_phase _ I _ _ Hpi) as (s & Hs' & Hok). rewrite Hs in Hs'.
    injection Hs' as <-. by destruct p. }
  split.
  - destruct I as [I1 I2 I3 I4 IN I5 I6 I7 I8 I9 I10 I12 I13].
    split; rewrite ?Hp, ?Hr, ?Hin, ?Hsh, ?Hpr, ?Hex; auto;
      [by apply NoDup_bfilter|..]; intros j.
    + rewrite elem_of_set_remove, I4. destruct (decide (j = i)) as [->|Hj].
      * rewrite Hsi. split; [by intros []|done].
      * rewrite Hst by done. split; [by intros []|done].
    + rewrite elem_of_set_remove. intros [Hj _]. by apply IN.
    + rewrite I5. by rewrite Hph.
    + intros p. rewrite Hph. destruct (decide (j = i)) as [->|Hj]; [by rewrite Hnr|].
      rewrite Hst by done. apply I6.
    + rewrite Hph. destruct (decide (j = i)) as [->|Hj]; [by rewrite Hsi|].
      rewrite Hst by done. apply I7.
    + rewrite Hch, Hph. apply I8.
    + rewrite elem_of_set_remove. intros Hj [Hj' _]. by apply (I10 j).
    + destruct (I13 j) as (? & Hn & ?). by rewrite st_oc, Hn in Hs.
  - split; rewrite ?Hsh, ?Hex, ?Hin; try done. intros j o1 Ho1.
    destruct (decide (j = i)) as [->|Hj]; [|exists o1; by rewrite Hne].
    exists o. split; [done|]. rewrite st_oc, Ho1 in Hs. injection Hs as Hs.
    unfold moves. by rewrite Hs, Hoc.
Qed.

(** A task that is not pending is marked. *)
Lemma inv_mark i q q' s :
  inv q -> st q i = Some s -> s <> Pending -> is_terminal s = false ->
  (tasks_wf q -> tasks_wf q') -> (exists o, oc q' i = Some o /\ o.1.1 = Cancelling) ->
  (forall j, j <> i -> oc q' j = oc q j) -> q_pending q' = q_pending q ->
  q_running q' = q_running q -> (forall j, run_phase j q' = run_phase j q) ->
  (forall j, has_child j q' = has_child j q) -> q_initialized q' = q_initialized q ->
  q_shuttingDown q' = q_shuttingDown q -> q_shutdown q' = q_shutdown q ->
  executes q' = executes q -> inv q' /\ advance q q'.
Proof.
  intros I Hs Hnp Hnt Hw (o & Ho & Hoc) Hne Hp Hr Hph Hch Hin Hsh Hpr Hex.
  assert (st q' i = Some Cancelling) as Hsi by (rewrite st_oc, Ho; simpl; by rewrite Hoc).
  assert (forall j, j <> i -> st q' j = st q j) as Hst.
  { intros j Hj. by rewrite !st_oc, Hne. }
  split.
  - destruct I as [I1 I2 I3 I4 IN I5 I6 I7 I8 I9 I10 I12 I13].
    split; rewrite ?Hp, ?Hr, ?Hin, ?Hsh, ?Hpr, ?Hex; auto; intros j.
    + rewrite I4. destruct (decide (j = i)) as [->|Hj]; [|by rewrite Hst].
      rewrite Hsi, Hs. split; [by intros [= ->]|done].
    + rewrite I5. by rewrite Hph.
    + intros p. rewrite Hph. destruct (decide (j = i)) as [->|Hj]; [|rewrite Hst by done; apply I6].
      intros Hpi. exists Cancelling. split; [done|]. destruct (I6 _ _ Hpi) as (s' & Hs' & Hok).
      rewrite Hs in Hs'. injection Hs' as <-. destruct p; [done..|]. simpl in Hok. congruence.
    + rewrite Hph. destruct (decide (j = i)) as [->|Hj]; [by rewrite Hsi|].
      rewrite Hst by done. apply I7.
    + rewrite Hch, Hph. apply I8.
    + destruct (I13 j) as (? & Hn & ?). by rewrite st_oc, Hn in Hs.
  - split; rewrite ?Hsh, ?Hex, ?Hin; try done. intros j o1 Ho1.
    destruct (decide (j = i)) as [->|Hj]; [|exists o1; by rewrite Hne].
    exists o. split; [done|]. rewrite st_oc, Ho1 in Hs. injection Hs as Hs.
    unfold moves. rewrite Hs, Hoc. rewrite Hnt. by destruct s.
Qed.

Lemma get_update_task i f q :
  map_get i (q_tasks (update_task i f q)) = f <$> map_get i (q_tasks q).
Proof.
  unfold update_task. destruct (map_get i (q_tasks q)) as [t|] eqn:Ht; simpl; [|done].
  by rewrite map_get_set_eq.
Qed.

(** Two assignments to a task, and nothing else. *)
Lemma update_update i f g q :
  let q' := update_task i g (update_task i f q) in
  (forall j, j <> i -> oc q' j = oc q j) /\
  oc q' i = (fun t => outcome_of (g (f t))) <$> map_get i (q_tasks q) /\
  q_pending q' = q_pending q /\ q_running q' = q_running q /\
  (forall j, run_phase j q' = run_phase j q) /\ (forall j, has_child j q' = has_child j q) /\
  q_initialized q' = q_initialized q /\ q_shuttingDown q' = q_shuttingDown q /\
  q_shutdown q' = q_shutdown q /\ executes q' = executes q.
Proof.
  cbn zeta. split_and!.
  - intros j Hj. by rewrite !oc_update_task, !decide_False.
  - rewrite oc_update_task, decide_True, get_update_task by done.
    by destruct (map_get i (q_tasks q)).
  - unfold update_task. by repeat case_match.
  - unfold update_task. by repeat case_match.
  - unfold update_task. by repeat case_match.
  - unfold update_task. by repeat case_match.
  - unfold update_task. by repeat case_match.
  - unfold update_task. by repeat case_match.
  - unfold update_task. by repeat case_match.
  - unfold update_task. by repeat case_match.
Qed.

Lemma unqueue_ok i now q t :
  inv q -> map_get i (q_tasks q) = Some t -> status t = Pending ->
  let q' := update_task i (set_status Cancelled (stamp now))
    (set_pending (set_remove i (q_pending q)) (update_task i (set_cancelRequested (stamp now)) q)) in
  inv q' /\ advance q q' /\ q_pending q' = set_remove i (q_pending q) /\
  q_running q' = q_running q /\ q_shuttingDown q' = q_shuttingDown q.
Proof.
  intros I Ht Hs. cbn zeta.
  destruct (update_update i (set_cancelRequested (stamp now)) (set_status Cancelled (stamp now)) q)
    as (U1 & U2 & U3 & U4 & U5 & U6 & U7 & U8 & U9 & U10).
  set (q1 := update_task i (set_cancelRequested (stamp now)) q) in *.
  assert (update_task i (set_status Cancelled (stamp now)) (set_pending (set_remove i (q_pending q)) q1)
    = set_pending (set_remove i (q_pending q)) (update_task i (set_status Cancelled (stamp now)) q1)) as ->.
  { unfold update_task. simpl. by case_match. }
  set (q2 := update_task i _ q1) in *.
  assert (tasks_wf q -> tasks_wf q2) as Hw.
  { intros Hw. by apply tasks_wf_update, tasks_wf_update. }
  clearbody q2. rewrite Ht in U2.
  destruct (inv_unqueue i q (set_pending (set_remove i (q_pending q)) q2)) as [H1 H2]; try done.
  - unfold st. by rewrite Ht, <-Hs.
  - eexists. split; [exact U2|done].
Qed.

Lemma mark_ok i now q t :
  inv q -> map_get i (q_tasks q) = Some t -> status t <> Pending -> is_terminal (status t) = false ->
  let q' := update_task i (set_status Cancelling (stamp now))
    (update_task i (set_cancelRequested (stamp now)) q) in
  inv q' /\ advance q q' /\ q_pending q' = q_pending q /\
  q_running q' = q_running q /\ q_shuttingDown q' = q_shuttingDown q.
Proof.
  intros I Ht Hs Hterm. cbn zeta.
  destruct (update_update i (set_cancelRequested (stamp now)) (set_status Cancelling (stamp now)) q)
    as (U1 & U2 & U3 & U4 & U5 & U6 & U7 & U8 & U9 & U10).
  set (q1 := update_task i (set_cancelRequested (stamp now)) q) in *.
  set (q2 := update_task i _ q1) in *.
  assert (tasks_wf q -> tasks_wf q2) as Hw.
  { intros Hw. by apply tasks_wf_update, tasks_wf_update. }
  clearbody q2. rewrite Ht in U2.
  destruct (inv_mark i q q2 (status t)) as [H1 H2]; try done.
  - unfold st. by rewrite Ht.
  - eexists. split; [exact U2|done].
Qed.

(** Cancelling in a queue that is initialized. *)
Lemma cancel_ok i o now q :
  inv q -> bounded q -> q_initialized q = true ->
  let q' := cancelTask i o now q in
  inv q' /\ advance q q' /\ bounded q' /\ (conserving q -> conserving q') /\
  (q_shuttingDown q = true -> q_pending q' = set_remove i (q_pending q)) /\
  q_shuttingDown q' = q_shuttingDown q.
Proof.
  intros I B Hin. unfold cancelTask, initialize. rewrite Hin. cbn zeta.
  assert (st q i <> Some Pending -> set_remove i (q_pending q) = q_pending q) as Hrem.
  { intros Hs. apply bfilter_all. intros j Hj. apply negb_true_iff, jeqb_neq.
    intros ->. by apply (inv_pending _ I) in Hj. }
  destruct (map_get i (q_tasks q)) as [t|] eqn:Ht;
    [|split_and!; try done; intros _; rewrite Hrem; [done|unfold st; by rewrite Ht]].
  assert (st q i = Some (status t)) as Hs by (unfold st; by rewrite Ht).
  destruct (is_terminal (status t)) eqn:Hterm.
  { split_and!; try done. intros _. rewrite Hrem; [done|]. rewrite Hs. intros [= Hx].
    by rewrite Hx in Hterm. }
  assert (is_pending (status t) = true \/ status t <> Pending) as Hcase by (destruct (status t); auto).
  destruct (is_pending (status t)) eqn:Hp.
  - assert (status t = Pending) as Hst by by destruct (status t).
    assert (q_pending (update_task i (set_cancelRequested (stamp now)) q) = q_pending q) as ->.
    { unfold update_task. by case_match. }
    destruct (unqueue_ok i now q t I Ht Hst) as (U1 & U2 & U3 & U4 & U5).
    set (q1 := update_task i (set_status Cancelled _) _) in *. clearbody q1.
    pose proof (control_persistTasks q1) as C.
    assert (q_initialized (persistTasks q1) = true) as Hin1.
    { rewrite (ce_init _ _ C). by apply (adv_init _ _ U2). }
    destruct (process_ok now (persistTasks q1)) as (K1 & K2 & K3 & K4 & K5); try done.
    { by eapply inv_control. }
    { unfold bounded. rewrite (ce_running _ _ C), U4. exact B. }
    split_and!; try done.
    + etrans; [exact U2|]. etrans; [by apply advance_control|done].
    + intros Hsh. unfold processQueue. rewrite (ce_shut _ _ C), U5, Hsh.
      by rewrite (ce_pending _ _ C).
    + by rewrite K5, (ce_shut _ _ C).
  - destruct Hcase as [?|Hcase]; [done|].
    destruct (mark_ok i now q t I Ht Hcase Hterm) as (U1 & U2 & U3 & U4 & U5).
    set (q1 := update_task i (set_status Cancelling _) _) in *. clearbody q1.
    set (q2 := match map_get i (q_activeChildren (persistTasks q1)) with Some _ => _ | None => _ end).
    assert (control_eq q1 q2) as C.
    { etrans; [apply control_persistTasks|]. subst q2. case_match; [|done]. apply control_request. }
    clearbody q2. split_and!.
    + by eapply inv_control.
    + etrans; [exact U2|]. by apply advance_control.
    + unfold bounded. rewrite (ce_running _ _ C), U4. exact B.
    + intros Hc. eapply conserving_control; [exact C|]. unfold conserving, slots_free.
      by rewrite U3, U4, U5.
    + intros _. rewrite (ce_pending _ _ C), U3, Hrem; [done|]. rewrite Hs. by intros [= ?].
    + by rewrite (ce_shut _ _ C).
Qed.

(** ** Start up *)

(** Tasks are put in the map, and nothing else of control changes. *)
Record fills q q' : Prop := Fills {
  fl_wf : tasks_wf q -> tasks_wf q';
  fl_pending : q_pending q' = q_pending q;
  fl_running : q_running q' = q_running q;
  fl_phase i : run_phase i q' = run_phase i q;
  fl_child i : has_child i q' = has_child i q;
  fl_init : q_initialized q' = q_initialized q;
  fl_shut : q_shuttingDown q' = q_shuttingDown q;
  fl_promise : q_shutdown q' = None <-> q_shutdown q = None;
  fl_exec : executes q' = executes q
}.

Lemma fills_trans q1 q2 q3 : fills q1 q2 -> fills q2 q3 -> fills q1 q3.
Proof.
  intros [] []. split; intros; first [by auto|by eapply eq_trans; eauto|tauto].
Qed.

Lemma fills_control q q' : control_eq q q' -> fills q q'.
Proof. intros []. by split. Qed.

Lemma restore_loop_fills now es : forall q, fills q (restore_loop now es q).
Proof.
  induction es as [|e es IH]; intros q; simpl; [apply fills_control, control_persistTasks|].
  destruct (restore_entry now e) as [[t|]|e']; [|apply IH|by split].
  eapply fills_trans; [|apply IH]. split; try done. intros [Hw Hid]. split; simpl.
  - by apply map_wf_set.
  - intros i u. rewrite map_get_set. case_decide; [|apply Hid]. by intros [= <-].
Qed.

Lemma interrupted now t :
  status (interrupt_restored now t).1 <> Pending /\ status (interrupt_restored now t).1 <> Running /\
  id (interrupt_restored now t).1 = id t.
Proof. unfold interrupt_restored. by destruct (status t) eqn:Hs; simpl; rewrite ?Hs. Qed.

Lemma inv_uninit_empty q :
  inv q -> q_initialized q = false -> q_pending q = [] /\ q_running q = [].
Proof.
  intros I Hin. destruct (inv_uninit _ I Hin) as (_ & Hn & _).
  assert (forall i, st q i = None) as Hst by (intros i; by rewrite st_oc, Hn).
  split; apply elem_of_nil_inv; intros i Hi.
  - apply (inv_pending _ I) in Hi. by rewrite Hst in Hi.
  - apply (inv_running _ I) in Hi as [p Hp]. destruct (inv_phase _ I _ _ Hp) as (s & Hs & _).
    by rewrite Hst in Hs.
Qed.

Lemma inv_filled q q' :
  inv q -> q_initialized q = false -> fills (set_initialized q) q' ->
  (forall i s, st q' i = Some s -> s <> Pending /\ s <> Running) -> inv q'.
Proof.
  intros I Hin F Hst. destruct (inv_uninit_empty q I Hin) as [Hp Hr].
  destruct (inv_uninit _ I Hin) as (_ & _ & Hex).
  destruct F as [F1 F2 F3 F4 F5 F6 F7 F8 F9].
  assert (executes q' = []) as Hex' by (rewrite F9; exact Hex).
  assert (forall i, run_phase i q = None) as Hph.
  { intros i. destruct (run_phase i q) eqn:H; [|done]. exfalso.
    assert (i ∈ q_running q) as Hi by (by apply (inv_running _ I)).
    rewrite Hr in Hi. by apply not_elem_of_nil in Hi. }
  split.
  - by apply F1, I.
  - rewrite F2. apply I.
  - rewrite F3. apply I.
  - intros i. rewrite F2. simpl. rewrite Hp. split; [by intros ?%not_elem_of_nil|].
    by intros [? _]%Hst.
  - intros i. rewrite F2. simpl. rewrite Hp. by intros ?%not_elem_of_nil.
  - intros i. rewrite F3, F4. apply (inv_running _ I).
  - intros i p. rewrite F4. unfold run_phase. simpl. fold (run_phase i q). by rewrite Hph.
  - by intros i [_ ?]%Hst.
  - intros i. rewrite F5. intros Hc. destruct (inv_child _ I _ Hc) as (p & Hp' & _). by rewrite Hph in Hp'.
  - rewrite Hex'. constructor.
  - intros i. rewrite Hex'. by intros ?%not_elem_of_nil.
  - rewrite F7, F8. apply I.
  - by rewrite F6.
Qed.

Lemma initialize_ok now q :
  good q -> good (initialize now q) /\ advance q (initialize now q) /\
  q_initialized (initialize now q) = true.
Proof.
  intros [I B C S]. unfold initialize. destruct (q_initialized q) eqn:Hin.
  { split_and!; [by split|reflexivity|done]. }
  cbn zeta. set (q1 := restoreFromDisk now (set_initialized q)).
  assert (fills (set_initialized q) q1) as F1.
  { subst q1. unfold restoreFromDisk. repeat case_match; try (by split). apply restore_loop_fills. }
  clearbody q1.
  set (visited := map_fmap (interrupt_restored now) (q_tasks q1)).
  set (q2 := set_tasks _ q1).
  assert (fills q1 q2 /\ forall i s, st q2 i = Some s -> s <> Pending /\ s <> Running) as [F2 Hst].
  { assert (forall i, map_get i (q_tasks q2) = (fst ∘ interrupt_restored now) <$> map_get i (q_tasks q1)) as Hg.
    { intros i. simpl. unfold visited. rewrite !map_get_fmap.
      by destruct (map_get i (q_tasks q1)). }
    split; [split; try done|].
    - intros [Hw Hid]. split; [by apply map_wf_fmap, map_wf_fmap|].
      intros i t. rewrite Hg. intros (u & Hu & ->)%fmap_Some. simpl.
      destruct (interrupted now u) as (_ & _ & ->). by apply Hid.
    - intros i s. unfold st. rewrite Hg. destruct (map_get i (q_tasks q1)) as [u|]; [|done].
      simpl. intros [= <-]. destruct (interrupted now u) as (? & ? & _). done. }
  clearbody q2. clearbody visited.
  set (q3 := if existsb _ _ then _ else _).
  assert (control_eq q2 q3) as C3 by (subst q3; case_match; [apply control_persistTasks|done]).
  clearbody q3.
  pose proof (fills_trans _ _ _ (fills_trans _ _ _ F1 F2) (fills_control _ _ C3)) as F.
  assert (inv q3) as I3.
  { eapply inv_filled; [done..|]. intros i s. rewrite (ce_st _ _ _ C3). apply Hst. }
  destruct (inv_uninit_empty q I Hin) as [Hp Hr]. destruct (inv_uninit _ I Hin) as (Hsh & Hn & _).
  assert (processQueue now q3 = q3) as ->.
  { unfold processQueue. rewrite (fl_pending _ _ F). simpl. rewrite Hp. by case_match. }
  assert (q_initialized q3 = true) as Hin3 by by rewrite (fl_init _ _ F).
  split_and!; [split|split|]; try done.
  - left. by rewrite (fl_running _ _ F).
  - intros _. left. by rewrite (fl_pending _ _ F).
  - intros _. by rewrite (fl_pending _ _ F).
  - intros i o. by rewrite Hn.
  - by rewrite Hsh.
Qed.

(** ** Enqueueing *)

Lemma new_task_spec i now a t : new_task i now a = Ok t -> id t = i /\ status t = Pending.
Proof.
  unfold new_task, mbind, result_bind. repeat case_match; intros; simplify_eq; done.
Qed.

(** The state [enqueueTask] hands to [processQueue]. *)
Definition queue_task i t q : queue :=
  let q := set_tasks (map_set i t (q_tasks q)) q in
  let q := set_taskLogs (map_set i createTaskLogState (q_taskLogs q)) q in
  persistTasks (set_pending (q_pending q ++ [i]) q).

Lemma enqueue_state i now a q :
  (enqueueTask i now a q).2 =
  let q := initialize now q in
  if q_shuttingDown q then q
  else match new_task i now a with
       | Ok t => processQueue now (queue_task i t q)
       | Err _ => q
       end.
Proof.
  unfold enqueueTask. rewrite bind_modify, bind_gets. cbn zeta.
  destruct (q_shuttingDown (initialize now q)); [done|].
  rewrite bind_lift. by destruct (new_task i now a).
Qed.

Lemma queue_task_ok i t q :
  good q -> q_initialized q = true -> fresh i q -> id t = i -> status t = Pending ->
  let q' := queue_task i t q in
  inv q' /\ advance q q' /\ bounded q' /\ q_shuttingDown q' = q_shuttingDown q /\
  q_initialized q' = true.
Proof.
  intros [I B C S] Hin (Hi & Hk & Hp & Hr & He) Hid Hst. cbn zeta. unfold queue_task. cbn zeta.
  set (q1 := set_pending _ _). pose proof (control_persistTasks q1) as C1.
  assert (oc q i = None) as Hoc.
  { unfold oc. by rewrite (proj2 (map_get_None i (q_tasks q))). }
  assert (i ∉ executes q) as Hex.
  { intros Hx. apply He. unfold executes in Hx. apply list_elem_of_omap in Hx as (e & Hin' & Hx).
    by destruct e; simplify_eq/=. }
  assert (run_phase i q = None) as Hph.
  { destruct (run_phase i q) eqn:Hx; [|done]. destruct Hr. by apply (inv_running _ I). }
  assert (forall j, st q1 j = if decide (j = i) then Some Pending else st q j) as Hst1.
  { intros j. unfold st. simpl. rewrite map_get_set. case_decide; [|done]. simpl. by rewrite Hst. }
  assert (advance q q1) as A.
  { split; [|done..]. intros j o Ho. exists o. split; [|done]. unfold oc. simpl.
    rewrite map_get_set. case_decide; [|exact Ho]. subst j. by rewrite Hoc in Ho. }
  assert (inv q1) as I1.
  { destruct I as [I1 I2 I3 I4 IN I5 I6 I7 I8 I9 I10 I12 I13].
    split; try done; try (by subst q1); simpl.
    - destruct I1 as [Hw Hids]. split; [by apply map_wf_set|]. intros j u. simpl.
      rewrite map_get_set. case_decide; [|apply Hids]. by intros [= <-]; subst.
    - apply NoDup_app. split_and!; [done| |apply NoDup_singleton].
      by intros j Hj ->%list_elem_of_singleton.
    - intros j. rewrite elem_of_app, list_elem_of_singleton, Hst1, I4.
      case_decide; [by split; [|right]|]. split; [by intros [?|?]|by left].
    - intros j. rewrite elem_of_app, list_elem_of_singleton. intros [Hj| ->]; [by apply IN|done].
    - intros j p Hj. change (run_phase j q = Some p) in Hj. rewrite Hst1. case_decide; [|by apply I6].
      subst j. by rewrite Hph in Hj.
    - intros j. rewrite Hst1. case_decide; [done|]. apply I7.
    - intros j Hj. rewrite elem_of_app, list_elem_of_singleton. intros [Hj'| ->]; [|done].
      by apply (I10 j).
    - simpl. by rewrite Hin. }
  split_and!.
  - by eapply inv_control.
  - etrans; [exact A|]. by apply advance_control.
  - unfold bounded. rewrite (ce_running _ _ C1). exact B.
  - by rewrite (ce_shut _ _ C1).
  - by rewrite (ce_init _ _ C1).
Qed.

(** From a processed state back to a state between steps. *)
Lemma good_processed now q q1 :
  inv q1 -> advance q q1 -> bounded q1 -> q_initialized q1 = true -> shut_ok q1 ->
  good_step q (processQueue now q1).
Proof.
  intros I A B Hin S. destruct (process_ok now q1 I Hin B) as (K1 & K2 & K3 & K4 & K5).
  split; [split; try done|].
  - unfold shut_ok. rewrite K5. intros Hs. unfold processQueue. rewrite Hs. by apply S.
  - apply progress_advance. by etrans.
Qed.

Lemma good_enqueue i a now q :
  good q -> fresh i (initialize now q) -> good_step q (enqueueTask i now a q).2.
Proof.
  intros G Hf. rewrite enqueue_state. cbn zeta.
  destruct (initialize_ok now q G) as (G1 & A1 & Hin).
  set (q1 := initialize now q) in *. clearbody q1.
  eapply good_after; [exact A1|].
  destruct (q_shuttingDown q1) eqn:Hsh; [by apply good_control|].
  destruct (new_task i now a) as [t|] eqn:Ht; [|by apply good_control].
  destruct (new_task_spec _ _ _ _ Ht) as [Hid Hst].
  destruct (queue_task_ok i t q1 G1 Hin Hf Hid Hst) as (K1 & K2 & K3 & K4 & K5).
  apply good_processed; try done. unfold shut_ok. rewrite K4. congruence.
Qed.

(** ** Cancelling and shutting down *)

Lemma initialize_done now q : q_initialized q = true -> initialize now q = q.
Proof. unfold initialize. by intros ->. Qed.

Lemma good_cancel i o now q : good q -> good_step q (cancelTask i o now q).
Proof.
  intros G. destruct (initialize_ok now q G) as (G1 & A1 & Hin).
  assert (cancelTask i o now q = cancelTask i o now (initialize now q)) as ->.
  { unfold cancelTask. by rewrite (initialize_done now _ Hin). }
  set (q1 := initialize now q) in *. clearbody q1.
  eapply good_after; [exact A1|]. destruct G1 as [I B C S].
  destruct (cancel_ok i o now q1 I B Hin) as (K1 & K2 & K3 & K4 & K5 & K6).
  split; [split; [done|done|by apply K4|]|by apply progress_advance].
  unfold shut_ok. rewrite K6. intros Hsh. by rewrite K5, S.
Qed.

(** Every pending task is cancelled when all are asked to. *)
Lemma cancel_all_ok ids o now : forall q,
  inv q -> bounded q -> q_initialized q = true -> q_shuttingDown q = true ->
  let q' := cancel_all ids o now q in
  inv q' /\ advance q q' /\ bounded q' /\ q_shuttingDown q' = true /\
  forall j, j ∈ q_pending q' -> j ∈ q_pending q /\ j ∉ ids.
Proof.
  induction ids as [|i ids IH]; intros q I B Hin Hsh; simpl.
  { split_and!; try done. intros j Hj. split; [done|apply not_elem_of_nil]. }
  destruct (cancel_ok i (o i) now q I B Hin) as (K1 & K2 & K3 & _ & K5 & K6).
  rewrite Hsh in K6. specialize (K5 Hsh).
  destruct (IH _ K1 K3 (adv_init _ _ K2 Hin) K6) as (L1 & L2 & L3 & L4 & L5).
  split_and!; try done; [by etrans|].
  intros j [Hj Hn]%L5. rewrite K5 in Hj. apply elem_of_set_remove in Hj as [Hj Hne].
  split; [done|]. by apply not_elem_of_cons.
Qed.

(** The state [shutdown] hands to its polling loop. *)
Definition begin_shutdown (t : Z) (o : jstr -> signal_outcome) (now : Z) q : queue :=
  let q := set_shuttingDown (initialize now q) in
  set_shutdown (Polling now t) (persistTasks (cancel_all (q_pending q ++ q_running q) o now q)).

Lemma shutdown_state_eq tm p o now q :
  (shutdown tm p o now q).2 =
  match q_shutdown q, valid_bounds tm p with
  | None, Some ms => shutdown_poll now (begin_shutdown ms o now q)
  | _, _ => q
  end.
Proof.
  unfold shutdown. rewrite bind_gets. destruct (q_shutdown q); [done|].
  by destruct (valid_bounds tm p).
Qed.

Lemma begin_shutdown_ok ms o now q :
  good q -> good (begin_shutdown ms o now q) /\ advance q (begin_shutdown ms o now q).
Proof.
  intros G. destruct (initialize_ok now q G) as (G1 & A1 & Hin).
  unfold begin_shutdown. set (q1 := initialize now q) in *. clearbody q1. cbn zeta.
  assert (forall q', good q' /\ advance q1 q' -> good q' /\ advance q q') as Hafter.
  { intros q' [? ?]. split; [done|]. by etrans. }
  apply Hafter. clear A1 G Hafter. destruct G1 as [I B C S].
  assert (inv (set_shuttingDown q1)) as I2.
  { destruct I as [I1 I2 I3 I4 IN I5 I6 I7 I8 I9 I10 I12 I13]. split; try done.
    simpl. by rewrite Hin. }
  destruct (cancel_all_ok (q_pending q1 ++ q_running q1) o now (set_shuttingDown q1)) as
    (K1 & K2 & K3 & K4 & K5); try done.
  set (q2 := cancel_all _ _ _ _) in *. clearbody q2.
  assert (q_pending q2 = []) as Hp.
  { apply elem_of_nil_inv. intros j [Hj Hn]%K5. apply Hn, elem_of_app. by left. }
  pose proof (control_persistTasks q2) as C2. set (q3 := persistTasks q2) in *. clearbody q3.
  assert (inv q3) as I3 by by eapply inv_control.
  assert (q_shuttingDown q3 = true) as Hs3 by by rewrite (ce_shut _ _ C2).
  assert (advance q1 q3) as A3.
  { etrans; [|by apply advance_control]. destruct K2 as [M1 M2 M3]. split; [exact M1| |exact M3].
    intros Hs. by apply M2. }
  split; [split|].
  - destruct I3 as [I1 I2' I3 I4 IN I5 I6 I7 I8 I9 I10 I12 I13]. split; try done.
    simpl. by rewrite Hs3.
  - unfold bounded. simpl. rewrite (ce_running _ _ C2). exact K3.
  - intros Hs. simpl in Hs. congruence.
  - intros _. simpl. by rewrite (ce_pending _ _ C2).
  - etrans; [exact A3|]. by apply advance_same.
Qed.

Lemma good_shutdown tm p o now q : good q -> good_step q (shutdown tm p o now q).2.
Proof.
  intros G. rewrite shutdown_state_eq.
  destruct (q_shutdown q); [by apply good_control|].
  destruct (valid_bounds tm p) as [ms|]; [|by apply good_control].
  destruct (begin_shutdown_ok ms o now q G) as [G1 A1].
  eapply good_after; [exact A1|]. by apply good_poll.
Qed.

(** ** The end of a run *)

Lemma good_run_finally i now q :
  good q -> run_phase i q = Some Finished -> good_step q (run_finally i now q).
Proof.
  intros [I B C S] Hp. unfold run_finally. cbn zeta.
  set (q1 := set_activations _ _).
  destruct (inv_phase _ I _ _ Hp) as (s & Hs & Hterm). simpl in Hterm.
  assert (q_initialized q = true) as Hin.
  { rewrite st_oc in Hs. destruct (oc q i) as [o|] eqn:Ho; [|done]. by eapply inv_initialized. }
  match goal with |- good_step q (processQueue now ?x) => assert (x = q1) as -> end.
  { change (st q1 i = Some s) in Hs. unfold st in Hs.
    destruct (map_get i (q_tasks q1)) as [t|]; [|done]. injection Hs as <-. by destruct (status t). }
  assert (forall j, run_phase j q1 = if decide (j = i) then None else run_phase j q) as Hph.
  { intros j. unfold run_phase. simpl. rewrite map_get_delete. by case_decide. }
  assert (forall j, j ∈ q_running q1 <-> j ∈ q_running q /\ j <> i) as Hr.
  { intros j. apply elem_of_set_remove. }
  apply good_processed; try done; [|by apply advance_same|].
  - destruct I as [I1 I2 I3 I4 IN I5 I6 I7 I8 I9 I10 I12 I13]. split; try done.
    + by apply NoDup_bfilter.
    + intros j. rewrite Hr, Hph, I5. case_decide; [|by split; [intros []|]].
      split; [by intros []|by intros []].
    + intros j p. rewrite Hph. case_decide; [done|apply I6].
    + intros j Hj. change (st q j = Some Running) in Hj. rewrite Hph. case_decide; [|by apply I7].
      subst j. rewrite Hs in Hj. by injection Hj as ->.
    + intros j Hj. change (has_child j q = true) in Hj. rewrite Hph.
      destruct (I8 j Hj) as (p & Hp' & Hne). case_decide; [|eauto]. subst. congruence.
  - destruct B as [B|B]; [left|right].
    + simpl. by rewrite B.
    + simpl. eapply jle_trans; [|exact B]. unfold jle. apply Z.leb_le.
      unfold set_remove. pose proof (length_bfilter (fun y => negb (jeqb y i)) (q_running q)). lia.
Qed.

(** ** Every step *)

Lemma good_new disk : good (new_queue disk).
Proof.
  assert (forall i, i ∉ ([] : list jstr)) as Hnil by (intros i; apply not_elem_of_nil).
  split; [split| | |]; try done.
  - split; [constructor|done].
  - constructor.
  - constructor.
  - intros i. split; [by intros ?%Hnil|done].
  - intros i. by intros ?%Hnil.
  - intros i. split; [by intros ?%Hnil|by intros [??]].
  - constructor.
  - by left.
  - intros _. by left.
Qed.

Lemma control_stderr i c now q : control_eq q (onStderrChunk i c now q).
Proof.
  unfold onStderrChunk. destruct (map_get i (q_activations q)) as [a|]; [|done].
  destruct (push json_parse c (act_stream a)) as [os s].
  etrans; [|apply control_handle_outputs]. by apply control_update_activation.
Qed.

Lemma good_persist_timer now q : good q -> good_step q (persist_timer_fires now q).
Proof.
  intros G. unfold persist_timer_fires. cbn zeta.
  pose proof (control_persist q (q_persistDirty q) false (q_persistWrite q)) as C.
  set (q1 := set_persist _ _ _ q) in *. clearbody q1.
  destruct (good_control _ _ G C) as [G1 _].
  eapply good_after; [by apply advance_control|].
  repeat case_match; try by apply good_control. by apply good_startPersistWrite.
Qed.

Lemma step_good q e now q' : good q -> queue_step q e now q' -> good_step q q'.
Proof.
  intros G. destruct 1.
  - destruct (initialize_ok now q G) as (? & ? & ?). split; [done|by apply progress_advance].
  - by apply good_enqueue.
  - by apply good_cancel.
  - by apply good_shutdown.
  - by apply good_onSpawn.
  - apply good_control; [done|apply control_stderr].
  - apply good_control; [done|apply control_timeout].
  - by apply good_resolves.
  - by apply good_rejects.
  - by apply good_cleanup.
  - apply good_control; [done|apply control_cancel_timer].
  - by apply good_run_finally.
  - by apply good_persist_timer.
  - by apply good_write_settles.
  - by apply good_poll.
Qed.

Lemma reachable_good q : reachable q -> good q.
Proof.
  induction 1 as [disk|q e now q' _ IH Hs]; [apply good_new|].
  by destruct (step_good _ _ _ _ IH Hs).
Qed.
End Control.
