(* ===== verification/TaskQueueDurable.v ===== *)
(** Durability of the task queue: what the queue file holds once nothing is
    left to write, and what is left when the promise of [shutdown] resolves. *)

From stdpp Require Import prelude.
From Stdlib Require Import NArith.
From S2P Require Import Prelude JsString JsNumber JsMap JsValue TaskData.
From S2P Require Import TaskControlStream TaskData TaskQueue TaskQueueFacts.

Section Durable.
Context `{DT : Dates} `{DB : Decoder bytes} `{QE : QueueEnv}.
Implicit Types (q : queue) (i : jstr) (t : task).

(** The file the present tasks would be written to. *)
Definition snap q : js := Arr (persistableTask <$> map_values (q_tasks q)).

(** What is written, or being written, is the present when nothing is dirty. *)
Definition durable q : Prop :=
  truthy (storagePath cfg) = true -> q_persistDirty q = false ->
  match q_persistWrite q with
  | Some w => snapshot w = snap q
  | None => q_disk q = Some (snap q)
  end.

(** A step of the queue that either marks its change or changes nothing that
    is persisted. *)
Definition keeps q q' : Prop :=
  truthy (storagePath cfg) = true ->
  q_persistDirty q' = true \/
  q_persistDirty q' = q_persistDirty q /\ snap q' = snap q /\
  q_persistWrite q' = q_persistWrite q /\ q_disk q' = q_disk q.

#[export] Instance keeps_preorder : PreOrder keeps.
Proof.
  split.
  - intros q _. by right.
  - intros q1 q2 q3 H1 H2 Hs. specialize (H1 Hs). specialize (H2 Hs).
    destruct H2 as [H2|(-> & -> & -> & ->)]; [by left|exact H1].
Qed.

Lemma durable_keeps q q' : keeps q q' -> durable q -> durable q'.
Proof.
  intros K D Hs Hd. destruct (K Hs) as [H|(H1 & H2 & H3 & H4)]; [congruence|].
  rewrite H2, H3, H4. apply D; [done|congruence].
Qed.

(** Fields that are not persisted. *)
Lemma keeps_same q q' :
  q_persistDirty q' = q_persistDirty q -> q_tasks q' = q_tasks q ->
  q_persistWrite q' = q_persistWrite q -> q_disk q' = q_disk q -> keeps q q'.
Proof. intros H1 H2 H3 H4 _. right. unfold snap. by rewrite H2. Qed.

Lemma dirty_persistTasks q :
  truthy (storagePath cfg) = true -> q_persistDirty (persistTasks q) = true.
Proof. intros Hs. unfold persistTasks, armPersistTimer. rewrite Hs. simpl. by split_cases. Qed.

(** Whatever was done before [persistTasks] is marked. *)
Lemma keeps_persistTasks q q' : keeps q (persistTasks q').
Proof. intros Hs. left. by apply dirty_persistTasks. Qed.

Lemma map_set_values {V} (f : V -> js) i (v v' : V) (m : jmap jstr V) :
  map_get i m = Some v -> f v' = f v ->
  f <$> map_values (map_set i v' m) = f <$> map_values m.
Proof.
  intros Hv Hf. induction m as [|[j w] m IH]; simpl in *; [done|].
  case_bool_decide; csimpl.
  - injection Hv as ->. unfold map_values. csimpl. by rewrite Hf.
  - unfold map_values in *. csimpl. f_equal. by apply IH.
Qed.

Lemma keeps_update_task i f q :
  (forall t, persistableTask (f t) = persistableTask t) -> keeps q (update_task i f q).
Proof.
  intros Hf _. right. unfold update_task.
  destruct (map_get i (q_tasks q)) as [t|] eqn:Ht; [|done]. split_and!; try done.
  unfold snap. simpl. f_equal. by eapply map_set_values.
Qed.

Lemma keeps_update_activation i f q : keeps q (update_activation i f q).
Proof. unfold update_activation. case_match; by apply keeps_same. Qed.

Lemma keeps_append i text q : keeps q (appendTaskLog i text q).
Proof.
  unfold appendTaskLog. destruct (_ || _); [done|].
  assert (forall q, keeps q (getOrCreateTaskLogState i q).2) as Hget.
  { intros q0. unfold getOrCreateTaskLogState. case_match; by apply keeps_same. }
  pose proof (Hget q) as H1. destruct (getOrCreateTaskLogState i q) as [s q1].
  etrans; [exact H1|]. set (q2 := set_taskLogs _ q1).
  assert (keeps q1 q2) as H2 by by apply keeps_same.
  etrans; [exact H2|]. unfold syncTaskLogSnapshot. case_match; [|done].
  pose proof (Hget q2) as H3. destruct (getOrCreateTaskLogState i q2) as [s' q3].
  etrans; [exact H3|]. by apply keeps_update_task.
Qed.

Lemma keeps_outputs i now os : forall q, keeps q (handle_outputs i now os q).
Proof.
  induction os as [|o os IH]; intros q; [done|]. unfold handle_outputs in *. simpl.
  etrans; [|apply IH]. destruct o; simpl; [apply keeps_append|].
  unfold on_control. split_cases; apply keeps_persistTasks.
Qed.

Lemma keeps_signal i c sg o q : keeps q (signalTaskProcess i c sg o q).
Proof. unfold signalTaskProcess. repeat case_match; by apply keeps_same. Qed.

Lemma keeps_request i c o q : keeps q (requestRunningTaskCancellation i c o q).
Proof.
  unfold requestRunningTaskCancellation. case_match; [done|].
  case_match; (etrans; [apply keeps_signal|]); by apply keeps_same.
Qed.

Lemma keeps_finally i now q q' : keeps q (finally_block i now q').
Proof. unfold finally_block. etrans; [|apply keeps_update_activation]. apply keeps_persistTasks. Qed.

Lemma keeps_catch i e now q : keeps q (execute_catch i e now q).
Proof. apply keeps_finally. Qed.

Lemma keeps_settle i r now q : keeps q (settle_execution i r now q).
Proof. unfold settle_execution. repeat case_match; try done; apply keeps_finally. Qed.

Lemma keeps_start now t q : keeps q (startTask now t q).
Proof.
  rewrite (startTask_begin (id t)) by done.
  assert (keeps q (begin_run (id t) now q)) as H.
  { unfold begin_run. cbn zeta. set (q1 := persistTasks _).
    etrans; [apply (keeps_persistTasks q)|]. by apply (keeps_same q1). }
  repeat case_match; (etrans; [exact H|]); first [apply keeps_catch|by apply keeps_same].
Qed.

Lemma keeps_process now q : keeps q (processQueue now q).
Proof.
  unfold processQueue. case_match; [done|]. generalize (length (q_pending q)) as fuel.
  intros fuel. clear H. revert q. induction fuel as [|fuel IH]; intros q; simpl; [done|].
  destruct (q_pending q) as [|i rest]; [done|]. case_match; [|done].
  assert (keeps q (set_pending rest q)) as Hp by by apply keeps_same.
  destruct (map_get i _) as [t|]; [case_match|];
    (etrans; [exact Hp|]); try by apply IH.
  etrans; [apply keeps_start|]. by apply IH.
Qed.

Lemma keeps_cancel i o now q : q_initialized q = true -> keeps q (cancelTask i o now q).
Proof.
  intros Hin. unfold cancelTask. rewrite (initialize_done now q Hin). cbn zeta.
  case_match; [|done]. case_match; [done|]. case_match.
  - etrans; [apply keeps_persistTasks|]. apply keeps_process.
  - etrans; [apply (keeps_persistTasks q)|]. case_match; [apply keeps_request|done].
Qed.

(** A write starts from what is present. *)
Lemma durable_start b now q : durable (startPersistWrite b now q).
Proof. by intros _ _. Qed.

Lemma keeps_resolves i r now q : keeps q (executor_resolves i r now q).
Proof.
  unfold executor_resolves. destruct (map_get i (q_activations q)) as [a|]; [|done].
  destruct (finish (act_stream a)) as [os s]. set (q1 := handle_outputs _ _ _ _).
  assert (keeps q q1) as H.
  { etrans; [apply (keeps_update_activation i (set_stream s))|apply keeps_outputs]. }
  clearbody q1. cbn zeta. etrans; [exact H|].
  repeat case_match; try done;
    first [apply keeps_settle|apply keeps_catch|apply keeps_update_activation].
Qed.

Lemma durable_flush_loop now q : durable q -> durable (flush_loop now q).
Proof.
  intros D. unfold flush_loop. repeat case_match; first [done|apply durable_start].
Qed.

Lemma durable_flush now q : durable q -> durable (flushPersist now q).
Proof.
  intros D. unfold flushPersist. case_match; [|exact D]. by apply durable_flush_loop.
Qed.

Lemma durable_poll now q : durable q -> durable (shutdown_poll now q).
Proof.
  intros D. unfold shutdown_poll. repeat case_match; first [done|by apply durable_flush].
Qed.

Lemma durable_after_write f w q :
  q_persistWrite q = Some w -> durable q -> durable (after_write f w q).
Proof.
  intros Hw D Hs. unfold after_write. destruct f; [done|]. specialize (D Hs). rewrite Hw in D.
  destruct (from_timer w); [|intros Hd; simpl; by rewrite D].
  unfold armPersistTimer. simpl. repeat case_match; intros Hd; simpl in *; try done; by rewrite D.
Qed.

Lemma durable_write f now q : durable q -> durable (write_settles f now q).
Proof.
  intros D. unfold write_settles. destruct (q_persistWrite q) as [w|] eqn:Hw; [|exact D].
  pose proof (durable_after_write f w q Hw D) as D'. cbn zeta.
  set (q1 := after_write f w q) in *. clearbody q1.
  repeat case_match; first [exact D'|by apply durable_flush_loop].
Qed.

(** From the call of [shutdown] on, every step keeps the file durable. *)
Lemma shutdown_initialized q : good q -> q_shutdown q <> None ->
  q_initialized q = true /\ q_shuttingDown q = true.
Proof.
  intros [I _ _ _] Hs. destruct (q_shuttingDown q) eqn:Hsh.
  - split; [|done]. destruct (q_initialized q) eqn:Hin; [done|].
    destruct (inv_uninit _ I Hin) as (? & _). congruence.
  - by apply (inv_promise _ I) in Hsh.
Qed.

Lemma durable_step q e now q' :
  good q -> q_shutdown q <> None -> queue_step q e now q' -> durable q -> durable q'.
Proof.
  intros G Hs Hst D. destruct (shutdown_initialized q G Hs) as [Hin Hsh].
  destruct Hst.
  - by rewrite initialize_done.
  - rewrite enqueue_state, initialize_done by done. cbn zeta. by rewrite Hsh.
  - eapply durable_keeps; [by apply keeps_cancel|done].
  - rewrite shutdown_state_eq. by destruct (q_shutdown q).
  - eapply durable_keeps; [|exact D]. unfold onSpawn. case_match; [|done]. cbn zeta.
    set (q1 := set_activeChildren _ q). assert (keeps q q1) as Kq by by apply keeps_same.
    case_match; case_match;
      try (etrans; [|apply keeps_update_activation]); try done;
      (etrans; [exact Kq|]); apply keeps_request.
  - eapply durable_keeps; [|exact D]. unfold onStderrChunk. case_match; [|done].
    destruct (push json_parse c (act_stream a)). etrans; [|apply keeps_outputs].
    apply keeps_update_activation.
  - eapply durable_keeps; [|exact D]. unfold timeout_fires. case_match; [|done].
    case_match; (etrans; [|first [apply keeps_signal|reflexivity]]); apply keeps_update_activation.
  - eapply durable_keeps; [apply keeps_resolves|done].
  - eapply durable_keeps; [apply keeps_catch|done].
  - eapply durable_keeps; [|exact D]. unfold cleanup_settles, resume_after_cleanup.
    set (q1 := set_cancelCleanups _ q). assert (keeps q q1) as Kq by by apply keeps_same.
    repeat case_match; try done; (etrans; [exact Kq|]); [apply keeps_settle|apply keeps_catch].
  - eapply durable_keeps; [|exact D]. unfold cancel_timer_fires.
    case_match; [|by apply keeps_same]. etrans; [|apply keeps_signal]. by apply keeps_same.
  - eapply durable_keeps; [|exact D]. unfold run_finally. etrans; [|apply keeps_process].
    cbn zeta. repeat case_match; by apply keeps_same.
  - unfold persist_timer_fires. cbn zeta. repeat case_match; first [done|apply durable_start].
  - by apply durable_write.
  - by apply durable_poll.
Qed.

(** ** Who moves the promise of [shutdown] *)

Notation same_promise f q := (q_shutdown (f q) = q_shutdown q).

Hint Rewrite promise_persistTasks promise_update_task promise_update_activation promise_arm
  promise_prune : promise.

Ltac promise := repeat case_match; autorewrite with promise; simpl; autorewrite with promise; done.

Lemma promise_append i text q : same_promise (appendTaskLog i text) q.
Proof.
  unfold appendTaskLog, syncTaskLogSnapshot, getOrCreateTaskLogState.
  repeat case_match; simplify_eq/=; autorewrite with promise; done.
Qed.

Lemma promise_outputs i now os : forall q, same_promise (handle_outputs i now os) q.
Proof.
  induction os as [|o os IH]; intros q; [done|]. unfold handle_outputs in *. simpl.
  rewrite IH. destruct o; simpl; [apply promise_append|]. unfold on_control. promise.
Qed.

Lemma promise_signal i c sg o q : same_promise (signalTaskProcess i c sg o) q.
Proof. unfold signalTaskProcess. promise. Qed.

Lemma promise_request i c o q : same_promise (requestRunningTaskCancellation i c o) q.
Proof.
  unfold requestRunningTaskCancellation. repeat case_match; simpl; by rewrite ?promise_signal.
Qed.

Lemma promise_finally i now q : same_promise (finally_block i now) q.
Proof. unfold finally_block. promise. Qed.

Lemma promise_catch i e now q : same_promise (execute_catch i e now) q.
Proof. unfold execute_catch. rewrite promise_finally. promise. Qed.

Lemma promise_settle i r now q : same_promise (settle_execution i r now) q.
Proof.
  unfold settle_execution. repeat case_match; rewrite ?promise_catch, ?promise_finally; done.
Qed.

Lemma promise_start now t q : same_promise (startTask now t) q.
Proof.
  rewrite (startTask_begin (id t)) by done.
  assert (same_promise (begin_run (id t) now) q) as H.
  { unfold begin_run. simpl. by autorewrite with promise; simpl; autorewrite with promise. }
  repeat case_match; rewrite ?promise_catch; done.
Qed.

Lemma promise_process_loop fuel now : forall q, same_promise (process_loop fuel now) q.
Proof.
  induction fuel as [|fuel IH]; intros q; simpl; [done|].
  repeat case_match; rewrite ?IH, ?promise_start; done.
Qed.

Lemma promise_process now q : same_promise (processQueue now) q.
Proof. unfold processQueue. case_match; [done|]. apply promise_process_loop. Qed.

Lemma promise_restore_loop now es : forall q, same_promise (restore_loop now es) q.
Proof.
  induction es as [|e es IH]; intros q; simpl; [apply promise_persistTasks|].
  repeat case_match; rewrite ?IH; done.
Qed.

Lemma promise_initialize now q : same_promise (initialize now) q.
Proof.
  unfold initialize. case_match; [done|]. rewrite promise_process.
  assert (q_shutdown (restoreFromDisk now (set_initialized q)) = q_shutdown q) as H'.
  { unfold restoreFromDisk. repeat case_match; rewrite ?promise_restore_loop; done. }
  repeat case_match; rewrite ?promise_persistTasks; done.
Qed.

Lemma promise_enqueue i a now q : q_shutdown (enqueueTask i now a q).2 = q_shutdown q.
Proof.
  rewrite enqueue_state. cbn zeta. repeat case_match; rewrite ?promise_process; unfold queue_task;
    rewrite ?promise_persistTasks; simpl; apply promise_initialize.
Qed.

Lemma promise_cancel i o now q : same_promise (cancelTask i o now) q.
Proof.
  unfold cancelTask. repeat case_match; rewrite ?promise_process, ?promise_request;
    autorewrite with promise; simpl; autorewrite with promise; apply promise_initialize.
Qed.

Lemma promise_onSpawn i c o q : same_promise (onSpawn i c o) q.
Proof.
  unfold onSpawn. repeat case_match; rewrite ?promise_update_activation, ?promise_request; done.
Qed.

Lemma promise_stderr i c now q : same_promise (onStderrChunk i c now) q.
Proof.
  unfold onStderrChunk. repeat case_match; rewrite ?promise_outputs; autorewrite with promise; done.
Qed.

Lemma promise_timeout i o q : same_promise (timeout_fires i o) q.
Proof. unfold timeout_fires. repeat case_match; rewrite ?promise_signal; autorewrite with promise; done. Qed.

Lemma promise_resolves i r now q : same_promise (executor_resolves i r now) q.
Proof.
  unfold executor_resolves. repeat case_match;
    rewrite ?promise_settle, ?promise_catch, ?promise_update_activation, ?promise_outputs;
    autorewrite with promise; done.
Qed.

Lemma promise_cleanup i c now q : same_promise (cleanup_settles i c now) q.
Proof.
  unfold cleanup_settles, resume_after_cleanup. repeat case_match;
    rewrite ?promise_settle, ?promise_catch; done.
Qed.

Lemma promise_cancel_timer i o q : same_promise (cancel_timer_fires i o) q.
Proof. unfold cancel_timer_fires. repeat case_match; rewrite ?promise_signal; done. Qed.

Lemma promise_run_finally i now q : same_promise (run_finally i now) q.
Proof. unfold run_finally. rewrite promise_process. repeat case_match; done. Qed.

Lemma promise_startWrite b now q : same_promise (startPersistWrite b now) q.
Proof. unfold startPersistWrite. simpl. by rewrite promise_prune. Qed.

Lemma promise_persist_timer now q : same_promise (persist_timer_fires now) q.
Proof. unfold persist_timer_fires. repeat case_match; rewrite ?promise_startWrite; done. Qed.

(** ** The state a resolved shutdown leaves *)

Definition flushing q : Prop := q_shutdown q = Some Flushing \/ q_shutdown q = Some Drained.

(** Nothing runs while the promise only waits for the file. *)
Definition idle q : Prop :=
  q_running q = [] /\ q_activeChildren q = [] /\ q_cancellationFailures q = [].

Lemma idle_startWrite b now q : idle q -> idle (startPersistWrite b now q).
Proof.
  intros Hi. unfold startPersistWrite, pruneTerminalTasks. cbn zeta.
  set (q1 := set_persist _ _ _ q).
  destruct (prune_from_deletes now (newest_first (bfilter (prunable q1) (map_values (q_tasks q1)))) 0 q1)
    as [_ _ [logs ->]]. exact Hi.
Qed.

Lemma idle_flush_loop now q : idle q -> idle (flush_loop now q).
Proof. intros Hi. unfold flush_loop. repeat case_match; first [exact Hi|by apply idle_startWrite]. Qed.

Lemma idle_flush now q : idle q -> idle (flushPersist now q).
Proof. intros Hi. unfold flushPersist. case_match; [by apply idle_flush_loop|exact Hi]. Qed.

(** Polling starts to flush only when nothing is left running. *)
Lemma flushing_poll now q :
  (flushing q -> idle q) -> flushing (shutdown_poll now q) -> idle (shutdown_poll now q).
Proof.
  intros Hq. unfold shutdown_poll. destruct (q_shutdown q) as [[]|] eqn:Hs.
  - destruct (map_values (q_cancellationFailures q)) eqn:Hf; [|by intros [?|?]].
    assert (q_cancellationFailures q = []) as Hf' by by destruct (q_cancellationFailures q).
    destruct (_ || _) eqn:Hr.
    + case_match; [by intros [?|?]|]. unfold flushing. rewrite Hs. by intros [?|?].
    + intros _. apply orb_false_iff in Hr as [Hr Hc]. apply Nat.ltb_ge in Hr, Hc.
      apply idle_flush. split_and!; [..|done];
        apply nil_length_inv, Nat.le_0_r; done.
  - intros _. apply Hq. by left.
  - intros _. apply Hq. by right.
  - unfold flushing. rewrite Hs. by intros [?|?].
  - unfold flushing. rewrite Hs. by intros [?|?].
Qed.

Lemma idle_no_run q i : good q -> idle q -> run_phase i q = None.
Proof.
  intros [I _ _ _] (Hr & _). destruct (run_phase i q) eqn:Hp; [|done].
  assert (i ∈ q_running q) as Hi by by apply (inv_running _ I).
  rewrite Hr in Hi. by apply not_elem_of_nil in Hi.
Qed.

(** In an idle queue that is shutting down, no step makes anything run. *)
Lemma idle_step q e now q' :
  good q -> flushing q -> idle q -> queue_step q e now q' -> idle q'.
Proof.
  intros G F Hi Hst.
  assert (q_shutdown q <> None) as Hs by (by destruct F as [-> | ->]).
  destruct (shutdown_initialized q G Hs) as [Hin Hsh].
  pose proof (fun i => idle_no_run q i G Hi) as Hph.
  assert (forall i, map_get i (q_activations q) = None) as Hact.
  { intros i. specialize (Hph i). unfold run_phase in Hph. by destruct (map_get i _). }
  pose proof (good_shut _ G Hsh) as Hp.
  destruct Hst; try (by rewrite Hph in *); try (by rewrite Hact in *).
  - by rewrite initialize_done.
  - rewrite enqueue_state, initialize_done by done. cbn zeta. by rewrite Hsh.
  - unfold cancelTask. rewrite initialize_done by done. cbn zeta.
    destruct (map_get i (q_tasks q)) as [t|] eqn:Ht; [|done].
    destruct (is_terminal (status t)); [done|].
    destruct (is_pending (status t)) eqn:Hpe.
    { assert (i ∈ q_pending q) as Hx.
      { apply (inv_pending _ (good_inv _ G)). unfold st. rewrite Ht. simpl. by destruct (status t). }
      rewrite Hp in Hx. by apply not_elem_of_nil in Hx. }
    assert (idle (persistTasks (update_task i (set_status Cancelling (stamp now))
      (update_task i (set_cancelRequested (stamp now)) q)))) as Hi'.
    { unfold idle, persistTasks, armPersistTimer, update_task. by repeat case_match. }
    destruct Hi' as (H1 & H2 & H3). rewrite H2. done.
  - rewrite shutdown_state_eq. by destruct (q_shutdown q).
  - unfold cleanup_settles, resume_after_cleanup. simpl. by rewrite Hact.
  - unfold cancel_timer_fires. simpl. destruct Hi as (? & Hc & ?). by rewrite Hc.
  - unfold persist_timer_fires. cbn zeta.
    repeat case_match; first [exact Hi|by apply idle_startWrite].
  - unfold write_settles. destruct (q_persistWrite q) as [w|]; [|done]. cbn zeta.
    assert (idle (after_write f w q)) as Hi'.
    { unfold after_write, armPersistTimer. by repeat case_match. }
    repeat case_match; first [exact Hi'|by apply idle_flush_loop].
  - unfold shutdown_poll. destruct F as [-> | ->]; done.
Qed.

(** The promise enters the flushing phase through [shutdown_poll] only. *)
Lemma flushing_step q e now q' :
  good q -> (flushing q -> idle q) -> queue_step q e now q' -> flushing q' -> idle q'.
Proof.
  intros G Hq Hst F'.
  assert (flushing q -> idle q') as Hfl.
  { intros F. eapply idle_step; eauto. }
  assert (q_shutdown q' = q_shutdown q -> idle q') as Hsame.
  { intros He. apply Hfl. unfold flushing in *. by rewrite <-He. }
  destruct Hst.
  - apply Hsame, promise_initialize.
  - apply Hsame, promise_enqueue.
  - apply Hsame, promise_cancel.
  - rewrite shutdown_state_eq in *. destruct (q_shutdown q) eqn:Hs; [by apply Hfl|].
    destruct (valid_bounds t p) as [ms|]; [|by apply Hfl].
    apply flushing_poll; [|done]. by intros [?|?].
  - apply Hsame, promise_onSpawn.
  - apply Hsame, promise_stderr.
  - apply Hsame, promise_timeout.
  - apply Hsame, promise_resolves.
  - apply Hsame, promise_catch.
  - apply Hsame, promise_cleanup.
  - apply Hsame, promise_cancel_timer.
  - apply Hsame, promise_run_finally.
  - apply Hsame, promise_persist_timer.
  - apply Hfl. clear Hsame Hfl. unfold write_settles in F'.
    destruct (q_persistWrite q) as [w|]; [|done]. cbn zeta in F'.
    destruct (control_after_write f w q) as [_ He].
    set (q1 := after_write f w q) in *. clearbody q1.
    unfold flushing. rewrite <-He.
    destruct (q_shutdown q1) as [[]|] eqn:Hs1; try (by left); try (by right);
      unfold flushing in F'; rewrite Hs1 in F'; by destruct F'.
  - by apply flushing_poll.
Qed.

Lemma reachable_flushing q : reachable q -> flushing q -> idle q.
Proof.
  induction 1 as [disk|q e now q' Hr IH Hs].
  - by intros [?|?].
  - eapply flushing_step; [by apply reachable_good|done..].
Qed.

(** Until [shutdown] is called nothing is claimed about the file; its call
    marks the tasks dirty. *)
Lemma reachable_durable q : reachable q -> q_shutdown q <> None -> durable q.
Proof.
  induction 1 as [disk|q e now q' Hr IH Hs]; [done|]. intros Hn.
  destruct (q_shutdown q) as [x|] eqn:Hq.
  { eapply durable_step; [by apply reachable_good|by rewrite Hq|done|]. by apply IH. }
  destruct Hs; try by (exfalso; apply Hn; rewrite <-Hq; first
    [apply promise_initialize|apply promise_enqueue|apply promise_cancel|apply promise_onSpawn
    |apply promise_stderr|apply promise_timeout|apply promise_resolves|apply promise_catch
    |apply promise_cleanup|apply promise_cancel_timer|apply promise_run_finally
    |apply promise_persist_timer]).
  - rewrite shutdown_state_eq in *. rewrite Hq in *.
    destruct (valid_bounds t p) as [ms|]; [|done].
    apply durable_poll. intros Hst Hd. unfold begin_shutdown in Hd. simpl in Hd.
    by rewrite dirty_persistTasks in Hd.
  - exfalso. apply Hn. unfold write_settles.
    destruct (q_persistWrite q) as [w|]; [|done]. cbn zeta.
    destruct (control_after_write f w q) as [_ He]. rewrite Hq in He. by rewrite He.
  - exfalso. apply Hn. unfold shutdown_poll. by rewrite Hq.
Qed.

(** The promise resolves only with nothing left to write. *)
Definition clean q : Prop := q_persistDirty q = false /\ q_persistWrite q = None.

Lemma flush_loop_clean now q :
  q_shutdown q <> Some Drained -> q_shutdown (flush_loop now q) = Some Drained -> clean (flush_loop now q).
Proof.
  intros Hn. unfold flush_loop.
  destruct (q_persistWrite q) eqn:Hw; [done|]. destruct (q_persistDirty q) eqn:Hd; [|done].
  by rewrite promise_startWrite.
Qed.

Lemma flush_clean now q :
  truthy (storagePath cfg) = true -> q_shutdown q <> Some Drained ->
  q_shutdown (flushPersist now q) = Some Drained -> clean (flushPersist now q).
Proof. intros Hs Hn. unfold flushPersist. rewrite Hs. by apply flush_loop_clean. Qed.

Lemma poll_clean now q :
  truthy (storagePath cfg) = true -> q_shutdown q <> Some Drained ->
  q_shutdown (shutdown_poll now q) = Some Drained -> clean (shutdown_poll now q).
Proof.
  intros Hs Hn. unfold shutdown_poll.
  destruct (q_shutdown q) as [[]|] eqn:Hq; try by rewrite Hq.
  repeat case_match; try done; [by rewrite Hq|]. by apply flush_clean.
Qed.

Lemma drained_clean q e now q' :
  queue_step q e now q' -> truthy (storagePath cfg) = true ->
  q_shutdown q <> Some Drained -> q_shutdown q' = Some Drained -> clean q'.
Proof.
  intros Hst Hs Hn Hd. destruct Hst;
    try by (exfalso; apply Hn; rewrite <-Hd; symmetry; first
      [apply promise_initialize|apply promise_enqueue|apply promise_cancel|apply promise_onSpawn
      |apply promise_stderr|apply promise_timeout|apply promise_resolves|apply promise_catch
      |apply promise_cleanup|apply promise_cancel_timer|apply promise_run_finally
      |apply promise_persist_timer]).
  - rewrite shutdown_state_eq in *. destruct (q_shutdown q) eqn:Hq; [congruence|].
    destruct (valid_bounds t p); [|congruence]. by apply poll_clean.
  - unfold write_settles in *. destruct (q_persistWrite q) as [w|]; [|done]. cbn zeta in *.
    destruct (control_after_write f w q) as [_ He].
    set (q1 := after_write f w q) in *. clearbody q1. rewrite <-He in Hn.
    pose proof (flush_loop_clean now q1 Hn) as Hfl.
    destruct (q_shutdown q1) as [[]|] eqn:Hq1; try (by rewrite Hq1 in Hd).
    destruct f, (from_timer w); try done; by apply Hfl.
  - by apply poll_clean.
Qed.
End Durable.
