(* ===== verification/TaskQueueTheorems.v ===== *)
(** What the task queue guarantees, in every state it reaches.

   A concrete environment of the task queue and some of the states it reaches:
    the instances at which the theorems are applied. *)

From stdpp Require Import prelude.
From Stdlib Require Import NArith.
From S2P Require Import Prelude.
From S2P Require Import JsString.
From S2P Require Import JsNumber.
From S2P Require Import JsMap.
From S2P Require Import JsValue.
From S2P Require Import TaskData.
From S2P Require Import TaskControlStream.
From S2P Require Import TaskQueue.
From S2P Require Import TaskQueueFacts.
From S2P Require Import TaskQueueDurable.

Local Open Scope js_scope.

(** ** A concrete environment, for the witnesses *)

Definition text_decoder : Decoder jstr := {|
  decoder := unit;
  decoder_new := tt;
  decoder_write := fun d b => (b, d);
  decoder_end := fun d => ([], d)
|}.

Definition decimal_dates : Dates := {|
  toISOString := string_of_Z;
  date_parse := fun s => if is_decimal s then Fin (decimal_value s) else NaN
|}.

(** One slot, a queue file, at most two finished tasks kept for 1000 ms. *)
Definition small_config (file : jstr) : queue_config := QueueConfig (Fin 1) file 4 2000 100 1000 2.

Definition env_at (file : jstr) : QueueEnv := {|
  json_parse := fun _ => None;
  agent_name := "agent";
  win32 := false;
  js_error_message := fun _ => [];
  cfg := small_config file
|}.

Definition with_file : QueueEnv := env_at "tasks.json".

#[local] Existing Instances text_decoder decimal_dates with_file.

Definition run_tool : enqueue_args :=
  EnqueueArgs (Str "tool") (Obj [("command", Str "/bin/tool")]) (Obj []) (Num (Fin 50))
    Undefined Undefined Undefined.

Definition signalled : signal_outcome := SignalOutcome true (Some true).
Definition exit_zero : shell_result := ShellResult (Num (Fin 0)) (Str "done") (Str []).

(** Identifiers that nothing has used are fresh. *)
Definition fresh_b (i : jstr) (q : queue) : bool :=
  truthy i && negb (map_has i (q_tasks q)) && negb (one_of i (q_pending q)) &&
  negb (one_of i (q_running q)) && negb (one_of i (executes q)).

Lemma fresh_b_fresh i q : fresh_b i q = true -> fresh i q.
Proof.
  unfold fresh_b. rewrite !andb_true_iff, !negb_true_iff. intros [[[[H1 H2] H3] H4] H5].
  split_and!.
  - by apply truthy_true.
  - apply map_get_None. unfold map_has in H2. by destruct (map_get i (q_tasks q)).
  - rewrite <-one_of_elem. congruence.
  - rewrite <-one_of_elem. congruence.
  - intros He. assert (i ∈ executes q) as Hx by (apply list_elem_of_omap; eauto).
    apply one_of_elem in Hx. congruence.
Qed.

(** Two tasks in one slot: the first has been spawned and is being cancelled. *)
Definition one_task : queue := (enqueueTask "a" 10 run_tool (new_queue None)).2.
Definition two_tasks : queue := (enqueueTask "b" 11 run_tool one_task).2.
Definition spawned_a : queue := onSpawn "a" (Child (Some 77%Z) false) signalled two_tasks.
Definition cancelling_a : queue := cancelTask "a" signalled 13 spawned_a.

Lemma reachable_two_tasks : reachable two_tasks.
Proof.
  assert (reachable one_task) as H.
  { refine (ReachStep _ _ _ _ (ReachNew None) (StepEnqueue _ "a" run_tool 10 _)).
    apply fresh_b_fresh. by vm_compute. }
  refine (ReachStep _ _ _ _ H (StepEnqueue _ "b" run_tool 11 _)).
  apply fresh_b_fresh. by vm_compute.
Qed.

Lemma reachable_cancelling_a : reachable cancelling_a.
Proof.
  assert (reachable spawned_a) as H.
  { refine (ReachStep _ _ _ _ reachable_two_tasks
      (StepSpawned _ "a" (Child (Some 77%Z) false) signalled 12 _ _)); by vm_compute. }
  exact (ReachStep _ _ _ _ H (StepCancel _ "a" signalled 13)).
Qed.

#[local] Existing Instances text_decoder decimal_dates with_file.

Section Theorems.
Context `{DT : Dates} `{DB : Decoder bytes} `{QE : QueueEnv}.

(** C3. In every reachable state at most [maxConcurrent] tasks run, no slot
    stays free while a task waits, the queue holds exactly the pending tasks,
    each once, and the running set exactly the tasks whose run is not over,
    none of which has been forgotten. *)
Theorem queue_scheduling (q : queue) :
  reachable q ->
  (q_running q = [] \/
   jle (Fin (Z.of_nat (length (q_running q)))) (maxConcurrent cfg) = true) /\
  (q_shuttingDown q = true -> q_pending q = []) /\
  (q_shuttingDown q = false -> q_pending q = [] \/
   jlt (Fin (Z.of_nat (length (q_running q)))) (maxConcurrent cfg) = false) /\
  NoDup (q_pending q) /\ NoDup (q_running q) /\
  (forall i, i ∈ q_pending q <-> exists t, map_get i (q_tasks q) = Some t /\ status t = Pending) /\
  (forall i, i ∈ q_running q <-> is_Some (run_phase i q)) /\
  (forall i, i ∈ q_running q -> exists t, map_get i (q_tasks q) = Some t /\ id t = i).
Proof.
  intros Hr. destruct (reachable_good q Hr) as [I B C S].
  split_and!; try done; try apply I.
  - intros i. rewrite (inv_pending _ I). unfold st. destruct (map_get i (q_tasks q)) as [t|]; simpl.
    + split; [intros [= Hs]; by exists t|]. by intros (u & [= <-] & ->).
    + split; [done|]. by intros (u & ? & _).
  - intros i Hi. apply (inv_running _ I) in Hi as [p Hp].
    destruct (inv_phase _ I _ _ Hp) as (s & Hs & _). unfold st in Hs.
    destruct (map_get i (q_tasks q)) as [t|] eqn:Ht; [|done]. exists t. split; [done|].
    by apply (inv_tasks _ I).
Qed.
End Theorems.

Lemma queue_scheduling_witness :
  q_running cancelling_a = ["a"%js] /\ q_pending cancelling_a = ["b"%js] /\ NoDup (q_running cancelling_a).
Proof.
  split_and!; [by vm_compute|by vm_compute|].
  destruct (queue_scheduling cancelling_a reachable_cancelling_a) as (_ & _ & _ & _ & H & _).
  exact H.
Defined.

Section Movement.
Context `{DT : Dates} `{DB : Decoder bytes} `{QE : QueueEnv}.

(** C8. No step, of any kind, changes the outcome of a task that is completed,
    failed or cancelled; every other task only moves forward (pending, running,
    cancelling, final), a task being cancelled never completes, and a task
    disappears only when it is final and its run is over. *)
Theorem tasks_move_forward (q : queue) (e : event) (now : Z) (q' : queue) (i : jstr) (t : task) :
  reachable q -> queue_step q e now q' -> map_get i (q_tasks q) = Some t ->
  match map_get i (q_tasks q') with
  | Some t' =>
      if is_terminal (status t)
      then status t' = status t /\ error t' = error t /\ task_res t' = task_res t
      else may_become (status t) (status t') = true
  | None => run_phase i q' = None /\ i ∉ q_running q' /\
      exists s, is_terminal s = true /\ (s = status t \/ may_become (status t) s = true)
  end.
Proof.
  intros Hr Hs Ht. destruct (step_good _ _ _ _ (reachable_good _ Hr) Hs) as [G' P].
  assert (oc q i = Some (outcome_of t)) as Ho by (unfold oc; by rewrite Ht).
  destruct (pg_moves _ _ P i _ Ho) as [(o' & Ho' & Hm)|(Hn & Hp & o' & Hm & Hterm)].
  - unfold oc in Ho'. destruct (map_get i (q_tasks q')) as [t'|]; [|done].
    injection Ho' as <-. unfold moves in Hm. simpl in Hm.
    destruct (is_terminal (status t)); [|done]. injection Hm as ???. done.
  - unfold oc in Hn. destruct (map_get i (q_tasks q')) as [t'|]; [done|].
    split_and!; [done| |].
    + intros Hi. apply (inv_running _ (good_inv _ G')) in Hi. rewrite Hp in Hi. by destruct Hi.
    + exists o'.1.1. split; [done|]. unfold moves in Hm. simpl in Hm.
      destruct (is_terminal (status t)); [left; by rewrite Hm|by right].
Qed.

(** C16. No task is ever handed to the executor twice, a pending task has not
    been handed to it, and once a shutdown has been requested nothing is: every
    later step leaves the executed tasks as they are and enqueueing fails. *)
Theorem executed_at_most_once (q : queue) :
  reachable q ->
  NoDup (executes q) /\
  (forall i, i ∈ executes q -> i ∉ q_pending q) /\
  (q_shuttingDown q = true -> forall e now q', queue_step q e now q' ->
    executes q' = executes q /\ q_shuttingDown q' = true) /\
  (q_shuttingDown q = true -> forall i now a,
    enqueueTask i now a q = (Err QueueShuttingDown, q)).
Proof.
  intros Hr. pose proof (reachable_good q Hr) as G. split_and!.
  - apply G.
  - apply G.
  - intros Hs e now q' Hst. destruct (step_good _ _ _ _ G Hst) as [_ P].
    by destruct (pg_shut _ _ P Hs).
  - intros Hs i now a. assert (q_initialized q = true) as Hin.
    { destruct (q_initialized q) eqn:Hin; [done|].
      destruct (inv_uninit _ (good_inv _ G) Hin) as [? _]. congruence. }
    unfold enqueueTask. rewrite bind_modify, bind_gets. by rewrite initialize_done, Hs by done.
Qed.

(** C21. At the step that resolves the promise of [shutdown] to drained, no task
    waits or runs, no child is tracked, no cancellation has failed, and with a
    queue file the file holds exactly the present tasks, nothing being left to
    write. *)
Theorem drained_shutdown (q : queue) (e : event) (now : Z) (q' : queue) :
  reachable q -> queue_step q e now q' ->
  q_shutdown q <> Some Drained -> q_shutdown q' = Some Drained ->
  q_pending q' = [] /\ q_running q' = [] /\ q_activeChildren q' = [] /\
  q_cancellationFailures q' = [] /\
  (truthy (storagePath cfg) = true ->
   q_persistDirty q' = false /\ q_persistWrite q' = None /\
   q_disk q' = Some (Arr (persistableTask <$> map_values (q_tasks q')))).
Proof.
  intros Hr Hst Hn Hd. pose proof (ReachStep _ _ _ _ Hr Hst) as Hr'.
  pose proof (reachable_good q' Hr') as G.
  assert (q_shutdown q' <> None) as Hn' by by rewrite Hd.
  destruct (shutdown_initialized q' G Hn') as [_ Hsh].
  destruct (reachable_flushing q' Hr' (or_intror Hd)) as (H1 & H2 & H3).
  split_and!; try done; [by apply G|].
  intros Hs. destruct (drained_clean _ _ _ _ Hst Hs Hn Hd) as [Hc Hw]. split_and!; try done.
  pose proof (reachable_durable q' Hr' Hn' Hs Hc) as D. by rewrite Hw in D.
Qed.
End Movement.

Lemma tasks_move_forward_witness :
  let q' := cancelTask "b" signalled 14 cancelling_a in
  status <$> map_get "b"%js (q_tasks cancelling_a) = Some Pending /\
  status <$> map_get "b"%js (q_tasks q') = Some Cancelled /\
  may_become Pending Cancelled = true.
Proof.
  intros q'. split_and!; [by vm_compute|by vm_compute|].
  destruct (map_get "b"%js (q_tasks cancelling_a)) as [t|] eqn:Ht; [|by vm_compute in Ht].
  pose proof (tasks_move_forward cancelling_a _ _ _ "b" t reachable_cancelling_a
    (StepCancel cancelling_a "b" signalled 14) Ht) as H.
  assert (status t = Pending) as Hs by (vm_compute in Ht; by injection Ht as <-).
  destruct (map_get "b"%js (q_tasks (cancelTask "b" signalled 14 cancelling_a))) as [t'|] eqn:Ht';
    [|by vm_compute in Ht'].
  assert (status t' = Cancelled) as Hs' by (vm_compute in Ht'; by injection Ht' as <-).
  match type of H with
  | match ?x with _ => _ end => assert (x = Some t') as Hx by exact Ht'; rewrite Hx in H
  end.
  rewrite Hs, Hs' in H. exact H.
Defined.

Lemma executed_at_most_once_witness :
  executes cancelling_a = ["a"%js] /\ NoDup (executes cancelling_a).
Proof.
  split; [by vm_compute|].
  destruct (executed_at_most_once cancelling_a reachable_cancelling_a) as [H _]. exact H.
Defined.

(** An idle queue with a file that is shut down: the write is in flight. *)
Definition shut_down_idle : queue :=
  (shutdown (Num (Fin 20000)) (Num (Fin 10)) (fun _ => signalled) 50 (new_queue None)).2.

Lemma reachable_shut_down_idle : reachable shut_down_idle.
Proof.
  exact (ReachStep _ _ _ _ (ReachNew None)
    (StepShutdown _ (Num (Fin 20000)) (Num (Fin 10)) (fun _ => signalled) 50)).
Qed.

Definition drained_idle : queue := write_settles None 60 shut_down_idle.

Lemma drained_shutdown_witness :
  q_shutdown shut_down_idle = Some Flushing /\ q_disk drained_idle = Some (Arr []).
Proof.
  split; [by vm_compute|].
  assert (q_shutdown shut_down_idle <> Some Drained) as H1 by by vm_compute.
  assert (q_shutdown drained_idle = Some Drained) as H2 by by vm_compute.
  assert (truthy (storagePath cfg) = true) as H3 by by vm_compute.
  assert (Some (Arr (persistableTask <$> map_values (q_tasks drained_idle))) = Some (Arr [])) as H4
    by by vm_compute.
  pose proof (drained_shutdown shut_down_idle (WriteSettles None) 60 drained_idle
    reachable_shut_down_idle (StepWrite shut_down_idle None 60) H1 H2) as (_ & _ & _ & _ & H).
  destruct (H H3) as (_ & _ & H5). exact (eq_trans H5 H4).
Defined.
