(* ===== verification/TaskRetentionTheorems.v ===== *)
(** What the task queue retains and what it waits for: the tail of a log, the
    finished tasks, the processes of a cancelled run. *)

From stdpp Require Import prelude.
From Stdlib Require Import NArith Sorting.Sorted.
From S2P Require Import Prelude JsString JsNumber JsMap JsValue TaskData.
From S2P Require Import TaskControlStream TaskData TaskQueue TaskQueueFacts TaskQueueTheorems.

Local Open Scope js_scope.

(** ** Text without surrogates *)

Definition plain_unit (c : N) : Prop := is_high_surrogate c = false.

Lemma byte_length_cons c s :
  plain_unit c ->
  byte_length (c :: s) =
  (if (c <? 128)%N then 1 else if (c <? 2048)%N then 2 else 3) + byte_length s.
Proof.
  intros Hc. simpl. destruct (c <? 128)%N; [done|]. destruct (c <? 2048)%N; [done|].
  destruct s as [|d s]; [done|]. by rewrite Hc.
Qed.

Lemma byte_length_app s r :
  Forall plain_unit s -> byte_length (s ++ r) = byte_length s + byte_length r.
Proof.
  induction 1 as [|c s Hc Hs IH]; [done|]. cbn [app].
  rewrite !byte_length_cons, IH by done. lia.
Qed.

Lemma length_byte_length s : Forall plain_unit s -> length s <= byte_length s.
Proof.
  induction 1 as [|c s Hc Hs IH]; [done|]. rewrite byte_length_cons by done. simpl length.
  repeat case_match; lia.
Qed.

Lemma drop_excess_spec max : (0 <= max)%Z -> forall fuel s,
  length s <= fuel -> Forall plain_unit s ->
  let r := drop_excess max fuel s (Z.of_nat (byte_length s)) in
  exists dropped, s = dropped ++ r.1 /\ r.2 = Z.of_nat (byte_length r.1) /\ (r.2 <= max)%Z /\
    ((Z.of_nat (byte_length s) <= max)%Z -> dropped = []).
Proof.
  intros Hmax. induction fuel as [|fuel IH]; intros s Hf Hs; cbn zeta.
  { destruct s; [|simpl in Hf; lia]. exists []. split_and!; simpl; lia || done. }
  cbn [drop_excess]. destruct (Z.ltb_spec max (Z.of_nat (byte_length s))) as [Hlt|Hge];
    [|exists []; split_and!; simpl; lia || done].
  destruct s as [|c s]; [simpl in Hlt; lia|]. cbn [truthy andb].
  set (n := Z.to_nat _).
  assert (1 <= n) as Hn by (subst n; lia).
  destruct (IH (drop n (c :: s))) as (d & H1 & H2 & H3 & H4).
  { rewrite length_drop. simpl in *. lia. }
  { by apply Forall_drop. }
  assert (Z.of_nat (byte_length (c :: s)) - Z.of_nat (byte_length (take n (c :: s))) =
    Z.of_nat (byte_length (drop n (c :: s))))%Z as ->.
  { rewrite <-(take_drop n (c :: s)) at 1. rewrite byte_length_app by (by apply Forall_take). lia. }
  exists (take n (c :: s) ++ d). split_and!; [|done|done|].
  - rewrite <-app_assoc, <-H1. by rewrite take_drop.
  - intros. lia.
Qed.

(** ** Sorting by age *)

Section Newest.
Context `{DT : Dates}.

Definition at_least_as_recent (t u : task) : Prop := (taskTimestamp u <= taskTimestamp t)%Z.

Lemma insert_newest_sorted t l :
  Sorted at_least_as_recent l -> Sorted at_least_as_recent (insert_newest t l).
Proof.
  induction 1 as [|u l Hl IH Hu]; simpl; [by repeat constructor|].
  destruct (Z.leb_spec (taskTimestamp u) (taskTimestamp t)).
  - by repeat constructor.
  - constructor; [done|]. destruct l as [|v l]; simpl in *.
    + constructor. unfold at_least_as_recent. lia.
    + inversion Hu; subst. case_match; constructor; [unfold at_least_as_recent; lia|done].
Qed.

Lemma newest_first_sorted l : Sorted at_least_as_recent (newest_first l).
Proof. induction l as [|t l IH]; simpl; [constructor|]. by apply insert_newest_sorted. Qed.

Lemma newest_first_strong l : StronglySorted at_least_as_recent (newest_first l).
Proof.
  apply Sorted_StronglySorted; [|apply newest_first_sorted].
  intros x y z. unfold at_least_as_recent. lia.
Qed.
End Newest.

Section Pruning.
Context `{DT : Dates} `{QE : QueueEnv}.

(** What goes is decided by the position and the age. *)
Lemma doomed_lookup now l : forall n k t,
  NoDup (id <$> l) -> l !! k = Some t ->
  (id t ∈ doomed now n l <-> prune_keeps now (n + Z.of_nat k) t = false).
Proof.
  induction l as [|u l IH]; intros n k t Hnd Hk; [done|].
  apply NoDup_cons in Hnd as [Hu Hnd]. cbn [doomed]. rewrite elem_of_app.
  destruct k as [|k]; simpl in Hk.
  - injection Hk as ->. rewrite Z.add_0_r. destruct (prune_keeps now n t).
    + split; [|done]. intros [Hx|Hx]; [by apply not_elem_of_nil in Hx|].
      exfalso. apply Hu. by eapply doomed_sub.
    + split; [done|]. intros _. left. by apply list_elem_of_singleton.
  - assert (id t ∈ (if prune_keeps now n u then [] else [id u]) -> False) as Hno.
    { case_match; [by intros ?%not_elem_of_nil|]. intros Hx%list_elem_of_singleton. apply Hu.
      rewrite <-Hx. apply list_elem_of_fmap. exists t. split; [done|]. by eapply list_elem_of_lookup_2. }
    replace (n + Z.of_nat (S k))%Z with (n + 1 + Z.of_nat k)%Z by lia.
    rewrite <-(IH _ k t Hnd Hk). tauto.
Qed.

Context `{DB : Decoder bytes}.

Definition prune_candidates (q : queue) : list task :=
  newest_first (bfilter (prunable q) (map_values (q_tasks q))).

Lemma values_NoDup (q : queue) : tasks_wf q -> NoDup (id <$> map_values (q_tasks q)).
Proof.
  intros [Hw Hid]. assert (id <$> map_values (q_tasks q) = map_keys (q_tasks q)) as ->; [|done].
  unfold map_values, map_keys. rewrite <-list_fmap_compose. apply list_fmap_ext.
  intros k [i t] Hk. apply Hid. apply map_get_in; [done|]. by eapply list_elem_of_lookup_2.
Qed.

Lemma bfilter_NoDup_ids f (l : list task) : NoDup (id <$> l) -> NoDup (id <$> bfilter f l).
Proof.
  induction l as [|t l IH]; simpl; [done|]. intros [Ht Hl]%NoDup_cons.
  destruct (f t); simpl; [|by apply IH]. apply NoDup_cons. split; [|by apply IH].
  intros (u & Hu & Hin)%list_elem_of_fmap. apply Ht. rewrite Hu.
  apply list_elem_of_fmap. exists u. split; [done|]. by apply elem_of_bfilter in Hin as [? _].
Qed.

Lemma candidates_NoDup q : tasks_wf q -> NoDup (id <$> prune_candidates q).
Proof.
  intros Hw. unfold prune_candidates. rewrite newest_first_perm.
  by apply bfilter_NoDup_ids, values_NoDup.
Qed.

Lemma candidates_elem q t :
  tasks_wf q -> t ∈ prune_candidates q <->
  map_get (id t) (q_tasks q) = Some t /\ prunable q t = true.
Proof.
  intros [Hw Hid]. unfold prune_candidates. rewrite newest_first_perm, elem_of_bfilter.
  unfold map_values. split.
  - intros [([i u] & -> & Hin)%list_elem_of_fmap Hp]. split; [|done]. simpl in *.
    apply map_get_in in Hin; [|done]. by rewrite (Hid _ _ Hin).
  - intros [Ht Hp]. split; [|done]. apply list_elem_of_fmap. exists (id t, t). split; [done|].
    by apply map_get_Some_in.
Qed.

(** [pruneTerminalTasks], candidate by candidate. *)
Lemma prune_get now q i :
  map_get i (q_tasks (pruneTerminalTasks now q)) =
  if decide (i ∈ doomed now 0 (prune_candidates q)) then None else map_get i (q_tasks q).
Proof. apply (del_get _ _ _ (prune_from_deletes now (prune_candidates q) 0 q)). Qed.

Lemma prune_candidate now q k t :
  tasks_wf q -> prune_candidates q !! k = Some t ->
  map_get (id t) (q_tasks (pruneTerminalTasks now q)) =
  if prune_keeps now (Z.of_nat k) t then Some t else None.
Proof.
  intros Hw Hk. rewrite prune_get.
  pose proof (doomed_lookup now _ 0 k t (candidates_NoDup q Hw) Hk) as Hd. rewrite Z.add_0_l in Hd.
  assert (map_get (id t) (q_tasks q) = Some t) as Ht.
  { apply candidates_elem; [done|]. by eapply list_elem_of_lookup_2. }
  case_decide as Hi; destruct (prune_keeps now (Z.of_nat k) t); try done.
  - by apply Hd in Hi.
  - by destruct Hi; apply Hd.
Qed.

Lemma prune_other now q i t :
  tasks_wf q -> map_get i (q_tasks q) = Some t -> prunable q t = false ->
  map_get i (q_tasks (pruneTerminalTasks now q)) = Some t.
Proof.
  intros Hw Ht Hp. rewrite prune_get. case_decide as Hd; [|done].
  apply doomed_sub, list_elem_of_fmap in Hd as (u & -> & Hu).
  apply candidates_elem in Hu as [Hu Hpu]; [|done]. congruence.
Qed.

Lemma prune_fields now q :
  q_running (pruneTerminalTasks now q) = q_running q /\
  q_activeChildren (pruneTerminalTasks now q) = q_activeChildren q.
Proof.
  destruct (prune_from_deletes now (prune_candidates q) 0 q) as [_ _ [logs H]].
  unfold pruneTerminalTasks. fold (prune_candidates q). by rewrite H.
Qed.

(** At most the allowed number of candidates is left. *)
Lemma prune_count now q :
  tasks_wf q -> (0 <= maxTerminalTasks cfg)%Z ->
  let q' := pruneTerminalTasks now q in
  (Z.of_nat (length (prune_candidates q')) <= maxTerminalTasks cfg)%Z.
Proof.
  intros Hw Hmax. cbn zeta. set (q' := pruneTerminalTasks now q).
  assert (tasks_wf q') as Hw' by by apply (del_wf _ _ _ (prune_from_deletes now (prune_candidates q) 0 q)).
  pose proof (candidates_NoDup q' Hw') as Hnd.
  set (max := Z.to_nat (maxTerminalTasks cfg)).
  assert (forall i, i ∈ (id <$> prune_candidates q') -> i ∈ (id <$> take max (prune_candidates q))) as Hsub.
  { intros i (t & -> & Ht)%list_elem_of_fmap. apply candidates_elem in Ht as [Ht Hp]; [|done].
    destruct (prune_fields now q) as [Hr Hc].
    assert (prunable q t = true) as Hpq.
    { unfold prunable in *. fold q' in Hr, Hc. by rewrite <-Hr, <-Hc. }
    assert (map_get (id t) (q_tasks q) = Some t) as Htq.
    { subst q'. rewrite prune_get in Ht. by case_decide. }
    assert (t ∈ prune_candidates q) as Hin by (apply candidates_elem; done).
    apply list_elem_of_lookup in Hin as [k Hk].
    pose proof (prune_candidate now q k t Hw Hk) as Hkeep. fold q' in Hkeep. rewrite Ht in Hkeep.
    destruct (prune_keeps now (Z.of_nat k) t) eqn:Hpk; [|done].
    unfold prune_keeps in Hpk. apply andb_true_iff in Hpk as [Hkm _]. apply Z.ltb_lt in Hkm.
    apply list_elem_of_fmap. exists t. split; [done|]. apply (list_elem_of_lookup_2 _ k).
    rewrite lookup_take_lt; [done|]. subst max. lia. }
  assert (length (id <$> prune_candidates q') <= length (id <$> take max (prune_candidates q))) as Hl.
  { apply submseteq_length, NoDup_submseteq; [done|]. exact Hsub. }
  rewrite !length_fmap, length_take in Hl. subst max. lia.
Qed.
End Pruning.

Section Retention.
Context `{DT : Dates} `{DB : Decoder bytes} `{QE : QueueEnv}.

(** Pruning forgets finished tasks only, and the right ones: in every
    reachable state a task that is not final, or still runs, stays as it is;
    of the others, ordered from the newest on, one stays exactly when it is
    among the first [maxTerminalTasks] and not older than the retention time;
    so at most [maxTerminalTasks] of them are left. *)
Theorem prune_keeps_newest (q : queue) (now : Z) :
  reachable q -> (0 <= maxTerminalTasks cfg)%Z ->
  let q' := pruneTerminalTasks now q in
  (forall i t, map_get i (q_tasks q) = Some t ->
     is_terminal (status t) = false \/ i ∈ q_running q -> map_get i (q_tasks q') = Some t) /\
  StronglySorted at_least_as_recent (prune_candidates q) /\
  (forall k t, prune_candidates q !! k = Some t ->
     map_get (id t) (q_tasks q') =
     if (Z.of_nat k <? maxTerminalTasks cfg)%Z && (now - taskTimestamp t <=? terminalRetentionMs cfg)%Z
     then Some t else None) /\
  (Z.of_nat (length (prune_candidates q')) <= maxTerminalTasks cfg)%Z.
Proof.
  intros Hr Hmax. cbn zeta. pose proof (inv_tasks _ (good_inv _ (reachable_good q Hr))) as Hw.
  split_and!.
  - intros i t Ht Hnp. apply prune_other; [done..|]. unfold prunable.
    destruct Hnp as [-> |Hi]; [done|]. apply set_has_elem in Hi.
    destruct Hw as [_ Hid]. rewrite (Hid _ _ Ht), Hi. simpl. by rewrite andb_false_r.
  - apply newest_first_strong.
  - intros k t Hk. by apply prune_candidate.
  - by apply prune_count.
Qed.

(** Appending to a log keeps its limit: for text without surrogate pairs
    and a log whose byte count is right, the count stays right, the kept tail
    is the end of the whole text and takes at most [maxLogTailBytes], nothing
    is dropped while everything fits, the truncation mark is set exactly when
    something did not fit, and a log with full retention is never cut. *)
Theorem append_log_bounded (full : bool) (text : jstr) (s : log_state) :
  (0 <= maxLogTailBytes cfg)%Z ->
  Forall plain_unit (tail s) -> Forall plain_unit text ->
  tailBytes s = Z.of_nat (byte_length (tail s)) ->
  let whole := tail s ++ text in
  let s' := append_log full text s in
  seq s' = (seq s + 1)%Z /\
  (exists dropped, whole = dropped ++ tail s') /\
  tailBytes s' = Z.of_nat (byte_length (tail s')) /\
  (if full || (Z.of_nat (byte_length whole) <=? maxLogTailBytes cfg)%Z
   then tail s' = whole /\ truncated s' = truncated s
   else (tailBytes s' <= maxLogTailBytes cfg)%Z /\ truncated s' = true).
Proof.
  intros Hmax Ht Hx Hb. cbn zeta. unfold append_log.
  assert (Z.of_nat (byte_length (tail s ++ text)) =
    (tailBytes s + Z.of_nat (byte_length text))%Z) as Hw.
  { rewrite byte_length_app by done. lia. }
  rewrite <-Hw. destruct full; simpl.
  { split_and!; try done. by exists []. }
  rewrite Z.leb_antisym.
  destruct (maxLogTailBytes cfg <? Z.of_nat (byte_length (tail s ++ text)))%Z eqn:Hc; simpl.
  - destruct (drop_excess_spec (maxLogTailBytes cfg) Hmax (length (tail s ++ text)) (tail s ++ text))
      as (d & H1 & H2 & H3 & _); [done|by apply Forall_app|].
    destruct (drop_excess _ _ _ _) as [t b]. simpl in *. split_and!; try done. by exists d.
  - split_and!; try done. by exists [].
Qed.

(** A cancelled run is only taken for cleaned up when its process group
    was seen absent: the cleanup is done exactly when a probe answered that the
    group does not exist, all earlier ones having found it; otherwise it has
    failed with one of the drain errors, which the run then reports. *)
Theorem cleanup_needs_absence (p : Z) (tr : cleanup_trace) (c : cleanup) :
  (0 < p)%Z -> win32 = false -> run_cleanup p tr = Some c ->
  (c = CleanupDone /\
   exists probes before t after, (probes = probes_term tr \/ probes = probes_kill tr) /\
     probes = before ++ (Absent, t) :: after /\ Forall (fun a => a.1 = Alive) before) \/
  exists e, c = CleanupFailed e /\ starts_with (str_or (error_code e) []) drain_prefix = true.
Proof.
  intros Hp Hw. unfold run_cleanup.
  assert (forall deadline probes, waitForProcessGroupAbsence p deadline probes = Some (Ok true) ->
    exists before t after, probes = before ++ (Absent, t) :: after /\
      Forall (fun a => a.1 = Alive) before) as Hwait.
  { intros deadline probes. induction probes as [|[a t] probes IH]; simpl; [done|].
    unfold processGroupExists. rewrite Hw, (proj2 (Z.ltb_ge p 1)) by lia. simpl.
    destruct a; [|intros _; by exists [], t, probes|done].
    case_match; [done|]. intros (before & u & after & -> & Hb)%IH.
    exists ((Alive, t) :: before), u, after. split; [done|]. by constructor. }
  assert (forall e, exists e', cleanup_failure p e = CleanupFailed e' /\
    starts_with (str_or (error_code e') []) drain_prefix = true) as Hfail.
  { intros e. unfold cleanup_failure. destruct (is_str (error_code e) drain_timeout) eqn:He.
    - exists e. split; [done|]. apply is_str_eq in He. by rewrite He.
    - by eexists. }
  destruct (waitForProcessGroupAbsence p _ (probes_term tr)) as [[[]|e]|] eqn:H1; [| | |done]; simpl.
  - intros [= <-]. left. split; [done|]. exists (probes_term tr).
    destruct (Hwait _ _ H1) as (before & t & after & ? & ?). exists before, t, after. auto.
  - destruct (kill_fails tr) as [e|].
    { intros [= <-]. right. apply Hfail. }
    destruct (waitForProcessGroupAbsence p _ (probes_kill tr)) as [[[]|e]|] eqn:H2; [| | |done];
      simpl; intros [= <-].
    + left. split; [done|]. exists (probes_kill tr).
      destruct (Hwait _ _ H2) as (before & t & after & ? & ?). exists before, t, after. auto.
    + right. apply Hfail.
    + right. apply Hfail.
  - intros [= <-]. right. apply Hfail.
Qed.
End Retention.

(** ** Witnesses *)

Lemma append_log_bounded_witness :
  let _ := decimal_dates in let _ := with_file in
  tail (append_log false "cdef" (LogState "ab" 2 1 false)) = "cdef"%js /\
  (tailBytes (append_log false "cdef" (LogState "ab" 2 1 false)) <= 4)%Z.
Proof.
  intros D E. split; [by vm_compute|].
  destruct (append_log_bounded (QE := with_file) false "cdef" (LogState "ab" 2 1 false))
    as (_ & _ & _ & H); [by vm_compute|repeat constructor|repeat constructor|by vm_compute|].
  vm_compute in H |- *. apply H.
Defined.

#[local] Existing Instances text_decoder decimal_dates with_file.

(** Three finished tasks of a queue file. *)
Definition finished_entry (i : jstr) (updated : jstr) : js :=
  Obj [("id", Str i); ("status", Str "completed"); ("createdAt", Str "1"); ("updatedAt", Str updated)].

Definition restored : queue :=
  initialize 10 (new_queue (Some (Arr
    [finished_entry "a" "5"; finished_entry "b" "9"; finished_entry "c" "7"]))).

Lemma prune_keeps_newest_witness :
  reachable restored /\
  map_get "a"%js (q_tasks (pruneTerminalTasks 20 restored)) = None /\
  (Z.of_nat (length (prune_candidates (pruneTerminalTasks 20 restored))) <= 2)%Z.
Proof.
  assert (reachable restored) as Hr.
  { exact (ReachStep _ _ _ _ (ReachNew _) (StepInitialize _ 10)). }
  destruct (prune_keeps_newest restored 20 Hr) as (_ & _ & H3 & H4); [by vm_compute|].
  split_and!; [exact Hr| |exact H4].
  destruct (prune_candidates restored !! 2) as [t|] eqn:Ht; [|by vm_compute in Ht].
  specialize (H3 2 t Ht). assert (id t = "a"%js) as Hid by (vm_compute in Ht; by injection Ht as <-).
  rewrite Hid in H3. etransitivity; [exact H3|]. by vm_compute.
Defined.

Lemma cleanup_needs_absence_witness :
  let tr := CleanupTrace 0 [(Alive, 100%Z); (Absent, 110%Z)] None 0 [] in
  run_cleanup 77 tr = Some CleanupDone /\
  (CleanupDone = CleanupDone /\
   exists probes before t after, (probes = probes_term tr \/ probes = probes_kill tr) /\
     probes = before ++ (Absent, t) :: after /\ Forall (fun a => a.1 = Alive) before).
Proof.
  intros tr. assert (run_cleanup 77 tr = Some CleanupDone) as Hc by by vm_compute.
  split; [exact Hc|].
  destruct (cleanup_needs_absence 77 tr CleanupDone) as [H|(e & He & _)];
    [lia|by vm_compute|exact Hc|exact H|discriminate He].
Defined.

(** The tail of a log can exceed its limit: cutting it inside a surrogate
    pair takes three bytes off the count for each half, four for the pair, so
    the count drifts below the size of what is kept. *)
Theorem surrogate_tail_exceeds_limit :
  let s1 := append_log false ([55357%N; 56832%N] ++ "a") createTaskLogState in
  let s2 := append_log false "bc" s1 in
  (tailBytes s2 <= maxLogTailBytes cfg)%Z /\
  (maxLogTailBytes cfg < Z.of_nat (byte_length (tail s2)))%Z.
Proof. by vm_compute. Qed.

(** ** A rejected run *)

Definition no_file : QueueEnv := env_at [].

Definition abandoned : queue :=
  let q := (enqueueTask (QE := no_file) "a" 10 run_tool (new_queue None)).2 in
  let q := onSpawn (QE := no_file) "a" (Child (Some 77%Z) false) signalled q in
  cancelTask (QE := no_file) "a" signalled 13 q.

Definition acknowledged : queue :=
  let q := execute_catch (QE := no_file) "a" (ExecError Undefined (Str "EPERM")) 14 abandoned in
  let q := run_finally (QE := no_file) "a" 15 q in
  (shutdown (QE := no_file) (Num (Fin 20000)) (Num (Fin 10)) (fun _ => signalled) 16 q).2.

Lemma reachable_abandoned : reachable (QE := no_file) abandoned.
Proof.
  set (q1 := (enqueueTask (QE := no_file) "a" 10 run_tool (new_queue None)).2).
  assert (reachable (QE := no_file) q1) as H1.
  { refine (ReachStep (QE := no_file) _ _ _ _ (ReachNew None) (StepEnqueue _ "a" run_tool 10 _)).
    apply fresh_b_fresh. by vm_compute. }
  set (q2 := onSpawn (QE := no_file) "a" (Child (Some 77%Z) false) signalled q1).
  assert (reachable (QE := no_file) q2) as H2.
  { refine (ReachStep (QE := no_file) _ _ _ _ H1
      (StepSpawned _ "a" (Child (Some 77%Z) false) signalled 12 _ _)); by vm_compute. }
  exact (ReachStep (QE := no_file) _ _ _ _ H2 (StepCancel _ "a" signalled 13)).
Qed.

(** A run whose executor rejects is over at once and its group cleanup with
    it: a reachable queue with a pending cleanup reaches a drained shutdown
    without the group ever having been seen absent. *)
Theorem rejected_run_abandons_cleanup :
  reachable (QE := no_file) abandoned /\
  map_get "a"%js (q_cancelCleanups abandoned) = Some (CleanupPending 77) /\
  reachable (QE := no_file) acknowledged /\
  q_shutdown acknowledged = Some Drained /\ q_cancelCleanups acknowledged = [].
Proof.
  split_and!; [apply reachable_abandoned|by vm_compute| |by vm_compute|by vm_compute].
  assert (reachable (QE := no_file)
    (execute_catch (QE := no_file) "a" (ExecError Undefined (Str "EPERM")) 14 abandoned)) as H1.
  { refine (ReachStep (QE := no_file) _ _ _ _ reachable_abandoned
      (StepRejects _ "a" (ExecError Undefined (Str "EPERM")) 14 _)). by vm_compute. }
  set (q1 := execute_catch (QE := no_file) "a" _ 14 abandoned) in *.
  assert (reachable (QE := no_file) (run_finally (QE := no_file) "a" 15 q1)) as H2.
  { refine (ReachStep (QE := no_file) _ _ _ _ H1 (StepFinally _ "a" 15 _)). by vm_compute. }
  exact (ReachStep (QE := no_file) _ _ _ _ H2
    (StepShutdown _ (Num (Fin 20000)) (Num (Fin 10)) (fun _ => signalled) 16)).
Qed.
