(* ===== verification/JsLiveMap.v ===== *)
(** A JavaScript [Map] as its live iterators see it: the slots of [[MapData]]
    in insertion order, a deleted entry leaving an empty slot behind.  An
    iterator is the index of its next slot, or exhausted for good. *)

From stdpp Require Import prelude.
From S2P Require Import Prelude JsMap.

Notation live_map K V := (list (option (K * V))).

Section LiveMap.
Context `{EqDecision K} {V : Type}.
Implicit Types (m : live_map K V) (k : K) (v : V).

Definition contents m : jmap K V := omap (fun s => s) m.

Definition holds k (s : option (K * V)) : bool :=
  match s with
  | Some e => bool_decide (e.1 = k)
  | None => false
  end.

Definition live_get k m : option V := map_get k (contents m).

(** [map.delete(k)] *)
Definition live_delete k m : live_map K V :=
  (fun s => if holds k s then None else s) <$> m.

(** [map.set(k, v)] *)
Definition live_set k v m : live_map K V :=
  if existsb (holds k) m
  then (fun s => if holds k s then Some (k, v) else s) <$> m
  else m ++ [Some (k, v)].

Definition live_wf m : Prop := map_wf (contents m).

(** [iterator.next()]: skips empty slots; [None] when nothing is left. *)
Fixpoint next_from (fuel i : nat) m : option (K * V * nat) :=
  match fuel with
  | O => None
  | S fuel =>
      match m !! i with
      | Some (Some e) => Some (e, S i)
      | Some None => next_from fuel (S i) m
      | None => None
      end
  end.

Inductive iterator : Type :=
  | At (i : nat)
  | Exhausted.

Definition next (it : iterator) m : option (K * V * nat) :=
  match it with
  | At i => next_from (S (length m)) i m
  | Exhausted => None
  end.

Lemma contents_app m m' : contents (m ++ m') = contents m ++ contents m'.
Proof. apply omap_app. Qed.

Lemma contents_delete k m : contents (live_delete k m) = map_delete k (contents m).
Proof.
  induction m as [|[[k' v]|] m IH]; [done| |done].
  unfold live_delete in *. csimpl. rewrite map_delete_cons.
  unfold contents in *. case_bool_decide; simpl; by rewrite IH.
Qed.

Lemma existsb_holds k m : existsb (holds k) m = map_has k (contents m).
Proof.
  unfold map_has. induction m as [|[[k' v]|] m IH]; [done| |done].
  simpl. case_bool_decide; simpl; done.
Qed.

Lemma contents_set k v m :
  live_wf m -> contents (live_set k v m) = map_set k v (contents m).
Proof.
  intros Hw. unfold live_set. rewrite existsb_holds. unfold map_has.
  destruct (map_get k (contents m)) as [w|] eqn:Hk.
  - revert Hw w Hk. unfold live_wf, map_wf.
    induction m as [|[[k' v']|] m IH]; [done| |].
    + csimpl. intros [Hn Hw]%NoDup_cons w. case_bool_decide; subst; csimpl.
      * intros _. f_equal.
        assert (forall s, s ∈ m -> holds k s = false) as Hno.
        { intros [[k2 v2]|] Hs; [|done]. apply bool_decide_eq_false. simpl. intros ->.
          apply Hn. apply list_elem_of_fmap. exists (k, v2). split; [done|].
          unfold contents. apply list_elem_of_omap. eauto. }
        clear -Hno. induction m as [|s m IH]; [done|]. csimpl.
        rewrite (Hno s) by (apply elem_of_cons; by left).
        assert (contents ((fun s => if holds k s then Some (k, v) else s) <$> m) = contents m) as E.
        { apply IH. intros s' Hs'. apply Hno, elem_of_cons. by right. }
        unfold contents in *. simpl. destruct s; by rewrite E.
      * intros Hk. f_equal. by eapply IH.
    + csimpl. intros Hw w Hk. by eapply IH.
  - rewrite contents_app, map_set_absent by done. done.
Qed.

Lemma live_wf_delete k m : live_wf m -> live_wf (live_delete k m).
Proof. unfold live_wf. rewrite contents_delete. apply map_wf_delete. Qed.

Lemma live_wf_set k v m : live_wf m -> live_wf (live_set k v m).
Proof. intros Hw. unfold live_wf. rewrite contents_set by done. by apply map_wf_set. Qed.

(** What [next] finds: the first full slot from the index on. *)
Lemma next_from_spec m : forall fuel i,
  length m < fuel + i ->
  match next_from fuel i m with
  | Some (e, j) => i < j /\ m !! (j - 1) = Some (Some e) /\
      (forall p, i <= p < j - 1 -> m !! p = Some None) /\
      contents (drop i m) = e :: contents (drop j m)
  | None => contents (drop i m) = []
  end.
Proof.
  induction fuel as [|fuel IH]; intros i Hf; simpl.
  { by rewrite drop_ge by lia. }
  destruct (m !! i) as [[e|]|] eqn:Hi.
  - split_and!; [lia|by replace (S i - 1) with i by lia|lia|].
    by rewrite (drop_S _ _ _ Hi).
  - specialize (IH (S i) ltac:(lia)). rewrite (drop_S _ _ _ Hi).
    destruct (next_from fuel (S i) m) as [[e j]|]; [|done].
    destruct IH as (? & ? & Hp & ?). split_and!; [lia|done| |done].
    intros p Hpi. destruct (decide (p = i)) as [->|]; [done|]. apply Hp. lia.
  - by rewrite drop_ge by (by apply lookup_ge_None).
Qed.
Lemma next_At i m : next (At i) m = next_from (S (length m)) i m.
Proof. done. Qed.

(** Slots that were emptied, and no others changed. *)
Definition thinned m m' : Prop := forall p, m' !! p = m !! p \/ m' !! p = Some None.

#[export] Instance thinned_preorder : PreOrder thinned.
Proof.
  split.
  - intros m p. by left.
  - intros m1 m2 m3 H1 H2 p. destruct (H2 p) as [->|?]; [apply H1|by right].
Qed.

Lemma thinned_delete k m : thinned m (live_delete k m).
Proof.
  intros p. unfold live_delete. rewrite list_lookup_fmap.
  destruct (m !! p) as [s|]; [|by left]. simpl. case_match; auto.
Qed.

Lemma thinned_Some m m' p e : thinned m m' -> m' !! p = Some (Some e) -> m !! p = Some (Some e).
Proof. intros H Hp. destruct (H p) as [Hq|Hq]; congruence. Qed.
End LiveMap.
