(* ===== verification/SessionStore.v ===== *)
(** The browser session store: [src/cli/server/auth/sessionStore.js].

    Sessions are kept in a [Map] that a persistent iterator sweeps a few
    entries at a time; pending logins in a [Map] that is cleaned whole.  Clock
    readings and the random identifiers are arguments, in the order the code
    makes them. *)

From stdpp Require Import prelude.
From S2P Require Import Prelude JsString JsNumber JsMap JsValue JsLiveMap.

Local Open Scope js_scope.

Definition DEFAULT_SESSION_TTL_MS : Z := 4 * 60 * 60 * 1000.
Definition DEFAULT_PENDING_TTL_MS : Z := 5 * 60 * 1000.

Record store_config : Type := StoreConfig {
  sessionTtlMs : jnum;
  pendingTtlMs : jnum
}.

Definition default_config : store_config :=
  StoreConfig (Fin DEFAULT_SESSION_TTL_MS) (Fin DEFAULT_PENDING_TTL_MS).

(** The fields of a session the store itself reads or writes; the others that
    were spread into it are [extra]. *)
Record session : Type := Session {
  session_id : jstr;
  user : js;
  tokens : js;
  providerSession : js;
  createdAt : jnum;
  updatedAt : jnum;
  expiresAt : jnum;
  refreshExpiresAt : js;
  extra : list (jstr * js)
}.

Record pending_auth : Type := PendingAuth {
  data : list (jstr * js);
  pending_createdAt : jnum
}.

Record session_store : Type := SessionStore {
  sessions : live_map jstr session;
  pending : jmap jstr pending_auth;
  sweepIterator : option iterator
}.

Definition createSessionStore : session_store := SessionStore [] [] None.

Definition set_sessions (x : live_map jstr session) (s : session_store) : session_store :=
  SessionStore x (pending s) (sweepIterator s).

Definition set_pending_auth (x : jmap jstr pending_auth) (s : session_store) : session_store :=
  SessionStore (sessions s) x (sweepIterator s).

Definition num_truthy (n : jnum) : bool :=
  match n with
  | NaN => false
  | Fin 0 => false
  | _ => true
  end.

(** [session.expiresAt && now > session.expiresAt] *)
Definition expired (now : jnum) (s : session) : bool :=
  num_truthy (expiresAt s) && jlt (expiresAt s) now.

(** The loop of [sweepStep]; [it] is the iterator it starts with. *)
Fixpoint sweep_loop (limit : nat) (now : jnum) (it : iterator) (m : live_map jstr session) :
    live_map jstr session * iterator :=
  match limit with
  | O => (m, it)
  | S limit =>
      match (match next it m with
             | Some found => Some found
             | None => next (At 0) m
             end) with
      | None => (m, Exhausted)
      | Some ((sid, s), i) =>
          sweep_loop limit now (At i) (if expired now s then live_delete sid m else m)
      end
  end.

Definition sweepStep (limit : nat) (now : jnum) (s : session_store) : session_store :=
  let it := match sweepIterator s with
            | Some it => it
            | None => At 0
            end in
  let '(m, it) := sweep_loop limit now it (sessions s) in
  SessionStore m (pending s) (Some it).

Section Store.
Context (cfg : store_config).

(** [now - entry.createdAt > pendingTtlMs] *)
Definition pending_expired (now : jnum) (e : pending_auth) : bool :=
  jlt (pendingTtlMs cfg) (jsub now (pending_createdAt e)).

Definition cleanupPending (now : jnum) (s : session_store) : session_store :=
  set_pending_auth (bfilter (fun e => negb (pending_expired now e.2)) (pending s)) s.

Definition cleanupSessions (now : jnum) (s : session_store) : session_store :=
  set_sessions ((fun slot =>
    match slot with
    | Some e => if expired now e.2 then None else Some e
    | None => None
    end) <$> sessions s) s.

Definition createPendingAuth (state : jstr) (cleanup_now now : jnum) (data : list (jstr * js))
    (s : session_store) : jstr * session_store :=
  let s := cleanupPending cleanup_now s in
  (state, set_pending_auth (map_set state (PendingAuth data now) (pending s)) s).

Definition consumePendingAuth (state : jstr) (cleanup_now now : jnum) (s : session_store) :
    option pending_auth * session_store :=
  let s := cleanupPending cleanup_now s in
  match map_get state (pending s) with
  | None => (None, s)
  | Some entry =>
      let s := set_pending_auth (map_delete state (pending s)) s in
      (if pending_expired now entry then None else Some entry, s)
  end.

(** The record given to [createSession]. *)
Record session_record : Type := SessionRecord {
  record_user : js;
  record_tokens : js;
  record_providerSession : js;
  record_expiresAt : jnum;
  record_refreshExpiresAt : js;
  record_extra : list (jstr * js)
}.

Definition createSession (sid : jstr) (sweep_now now : jnum) (r : session_record)
    (s : session_store) : session * session_store :=
  let s := sweepStep 8 sweep_now s in
  let expiresAt := jor (record_expiresAt r) (jadd now (sessionTtlMs cfg)) in
  let new := Session sid (record_user r) (record_tokens r) (record_providerSession r)
    now now expiresAt (js_or (record_refreshExpiresAt r) Null) (record_extra r) in
  (new, set_sessions (live_set sid new (sessions s)) s).

Definition touch (now : jnum) (x : session) : session :=
  Session (session_id x) (user x) (tokens x) (providerSession x) (createdAt x) now (expiresAt x)
    (refreshExpiresAt x) (extra x).

(** The three readings are those of the sweep, of the check and of the touch;
    the touched session is the object in the map. *)
Definition getSession (sid : jstr) (sweep_now check_now touch_now : jnum) (s : session_store) :
    option session * session_store :=
  if negb (truthy sid) then (None, s)
  else
    let s := sweepStep 8 sweep_now s in
    match live_get sid (sessions s) with
    | None => (None, s)
    | Some x =>
        if expired check_now x then (None, set_sessions (live_delete sid (sessions s)) s)
        else
          let x := touch touch_now x in
          (Some x, set_sessions (live_set sid x (sessions s)) s)
    end.

(** The argument of [updateSession]; an absent field is [undefined], an absent
    expiry NaN. *)
Record session_updates : Type := SessionUpdates {
  new_tokens : js;
  new_expiresAt : jnum;
  new_refreshExpiresAt : js;
  new_user : js;
  new_providerSession : js
}.

(** [{ ...a, ...b }] *)
Definition fields (v : js) : list (jstr * js) :=
  match v with
  | Obj l => l
  | _ => []
  end.

Definition merge (a b : js) : js :=
  Obj (foldl (fun acc e => map_set e.1 e.2 acc) (fields a) (fields b)).

Definition apply_updates (u : session_updates) (now : jnum) (x : session) : session :=
  let picked (v old : js) := if js_truthy v && is_object v then v else old in
  Session (session_id x)
    (picked (new_user u) (user x))
    (if js_truthy (new_tokens u) then merge (tokens x) (new_tokens u) else tokens x)
    (picked (new_providerSession u) (providerSession x))
    (createdAt x) now
    (if num_truthy (new_expiresAt u) then new_expiresAt u else expiresAt x)
    (match new_refreshExpiresAt u with
     | Undefined => refreshExpiresAt x
     | v => v
     end)
    (extra x).

Definition updateSession (sid : jstr) (sweep_now check_now touch_now update_now : jnum)
    (u : session_updates) (s : session_store) : option session * session_store :=
  let '(found, s) := getSession sid sweep_now check_now touch_now s in
  match found with
  | None => (None, s)
  | Some x =>
      let x := apply_updates u update_now x in
      (Some x, set_sessions (live_set sid x (sessions s)) s)
  end.

Definition deleteSession (sid : jstr) (s : session_store) : session_store :=
  if truthy sid then set_sessions (live_delete sid (sessions s)) s else s.

Definition deleteSessionsWhere (predicate : session -> jstr -> bool) (now : jnum)
    (s : session_store) : session_store :=
  let s := cleanupSessions now s in
  set_sessions ((fun slot =>
    match slot with
    | Some e => if predicate e.2 e.1 then None else Some e
    | None => None
    end) <$> sessions s) s.

Definition getAllSessions (now : jnum) (s : session_store) : list session * session_store :=
  let s := cleanupSessions now s in (map_values (contents (sessions s)), s).
End Store.
