(* ===== verification/SessionStoreTheorems.v ===== *)
(** What the session store guarantees: no expired session is handed out, the
    sweep finds every expired one, a pending login is consumed once. *)

From stdpp Require Import prelude.
From S2P Require Import Prelude JsString JsNumber JsMap JsValue JsLiveMap.
From S2P Require Import SessionStore.

Local Open Scope js_scope.

(** ** Sweeping *)

Section Sweep.
Context (now : jnum).
Implicit Types (m : live_map jstr session).

(** Expired entries may be gone, nothing else is. *)
Definition swept_sessions m m' : Prop :=
  forall k, live_get k m' = live_get k m \/
    live_get k m' = None /\ exists x, live_get k m = Some x /\ expired now x = true.

#[export] Instance swept_sessions_preorder : PreOrder swept_sessions.
Proof.
  split.
  - intros m k. by left.
  - intros m1 m2 m3 H1 H2 k. destruct (H2 k) as [->|(-> & x & Hx & He)]; [apply H1|].
    right. split; [done|]. destruct (H1 k) as [H|(H & _)]; [|congruence].
    exists x. split; [by rewrite <-H|done].
Qed.

Lemma live_get_delete_eq k m : live_get k (live_delete k m) = None.
Proof. unfold live_get. rewrite contents_delete. apply map_get_delete_eq. Qed.

Lemma live_get_delete_ne j k m : j <> k -> live_get j (live_delete k m) = live_get j m.
Proof. intros Hne. unfold live_get. rewrite contents_delete. by apply map_get_delete_ne. Qed.

Lemma live_get_set_eq k v m : live_wf m -> live_get k (live_set k v m) = Some v.
Proof. intros Hw. unfold live_get. rewrite contents_set by done. apply map_get_set_eq. Qed.

Lemma live_get_set_ne j k v m : live_wf m -> j <> k -> live_get j (live_set k v m) = live_get j m.
Proof. intros Hw Hne. unfold live_get. rewrite contents_set by done. by apply map_get_set_ne. Qed.

Lemma live_get_lookup m i k x : live_wf m -> m !! i = Some (Some (k, x)) -> live_get k m = Some x.
Proof.
  intros Hw Hi. apply map_get_in; [done|]. apply list_elem_of_omap. eexists. split; [|done].
  by eapply list_elem_of_lookup_2.
Qed.

(** One examined entry. *)
Definition examine (sid : jstr) (x : session) m : live_map jstr session :=
  if expired now x then live_delete sid m else m.

Lemma examine_swept sid x m : live_get sid m = Some x -> swept_sessions m (examine sid x m).
Proof.
  unfold examine. intros Hx k. destruct (expired now x) eqn:He; [|by left].
  destruct (decide (k = sid)) as [->|Hne].
  - right. split; [apply live_get_delete_eq|eauto].
  - left. by apply live_get_delete_ne.
Qed.

Lemma examine_wf sid x m : live_wf m -> live_wf (examine sid x m).
Proof. unfold examine. case_match; [apply live_wf_delete|done]. Qed.

Lemma examine_length sid x m : length (examine sid x m) = length m.
Proof. unfold examine. case_match; [apply length_fmap|done]. Qed.

Definition found_by (it : iterator) m : option (jstr * session * nat) :=
  match next it m with
  | Some found => Some found
  | None => next (At 0) m
  end.

Lemma sweep_loop_S limit it m :
  sweep_loop (S limit) now it m =
  match found_by it m with
  | None => (m, Exhausted)
  | Some ((sid, s), i) => sweep_loop limit now (At i) (examine sid s m)
  end.
Proof. done. Qed.

Lemma next_found it m sid x j : next it m = Some ((sid, x), j) -> m !! (j - 1) = Some (Some (sid, x)).
Proof.
  destruct it as [i|]; [|done]. rewrite next_At. intros H.
  pose proof (next_from_spec m (S (length m)) i ltac:(lia)) as Hs. rewrite H in Hs. apply Hs.
Qed.

Lemma found_lookup it m sid x j : found_by it m = Some ((sid, x), j) -> m !! (j - 1) = Some (Some (sid, x)).
Proof.
  unfold found_by. destruct (next it m) as [[[??]?]|] eqn:Hn.
  - intros [= -> -> ->]. by eapply next_found.
  - apply next_found.
Qed.

Lemma sweep_loop_swept limit : forall it m, live_wf m ->
  swept_sessions m (sweep_loop limit now it m).1 /\ live_wf (sweep_loop limit now it m).1.
Proof.
  induction limit as [|limit IH]; intros it m Hw; [done|]. rewrite sweep_loop_S.
  destruct (found_by it m) as [[[sid x] j]|] eqn:Hf; [|done].
  assert (live_get sid m = Some x) as Hx by (eapply live_get_lookup, found_lookup; eauto).
  destruct (IH (At j) (examine sid x m) (examine_wf _ _ _ Hw)) as [H1 H2].
  split; [|done]. etrans; [by apply examine_swept|done].
Qed.

(** ** Completeness *)

(** No entry in a slot from [i] on is expired. *)
Definition clean_from (i : nat) m : Prop :=
  forall p k x, i <= p -> m !! p = Some (Some (k, x)) -> expired now x = false.

Lemma contents_drop_delete i sid m :
  contents (drop i (live_delete sid m)) = map_delete sid (contents (drop i m)).
Proof. unfold live_delete. rewrite <-fmap_drop. apply contents_delete. Qed.

Lemma live_wf_drop i m : live_wf m -> map_wf (contents (drop i m)).
Proof.
  unfold live_wf, map_wf. rewrite <-(take_drop i m) at 1. rewrite contents_app, fmap_app.
  by intros (_ & _ & ?)%NoDup_app.
Qed.

Lemma thinned_examine sid x m : thinned m (examine sid x m).
Proof. unfold examine. case_match; [apply thinned_delete|done]. Qed.

Lemma examine_rest i sid x m j :
  live_wf m -> next (At i) m = Some ((sid, x), j) ->
  contents (drop j (examine sid x m)) = contents (drop j m) /\
  contents (drop i m) = (sid, x) :: contents (drop j m) /\
  forall p k y, i <= p < j -> examine sid x m !! p = Some (Some (k, y)) -> expired now y = false.
Proof.
  intros Hw. rewrite next_At. intros Hn.
  pose proof (next_from_spec m (S (length m)) i ltac:(lia)) as Hs.
  rewrite Hn in Hs. destruct Hs as (Hij & Hj & Hp & Hc). split_and!; [|done|].
  - unfold examine. case_match; [|done]. rewrite contents_drop_delete.
    apply map_delete_absent, map_get_None.
    pose proof (live_wf_drop i m Hw) as Hd. unfold map_wf in Hd. rewrite Hc in Hd.
    by apply NoDup_cons in Hd as [? _].
  - intros p k y Hpj Hpy.
    pose proof (thinned_Some _ _ _ _ (thinned_examine sid x m) Hpy) as Hm.
    destruct (decide (p = j - 1)) as [->|Hne]; [|by rewrite Hp in Hm by lia].
    rewrite Hj in Hm. injection Hm as <- <-. unfold examine in Hpy.
    destruct (expired now x); [|done]. exfalso. unfold live_delete in Hpy.
    rewrite list_lookup_fmap, Hj in Hpy. simpl in Hpy. by rewrite bool_decide_true in Hpy.
Qed.

(** A pass from [i] with room for what is left of it. *)
Lemma sweep_pass limit : forall i m,
  live_wf m -> length (contents (drop i m)) <= limit ->
  exists m1 j, sweep_loop limit now (At i) m =
    sweep_loop (limit - length (contents (drop i m))) now (At j) m1 /\
    live_wf m1 /\ thinned m m1 /\ clean_from i m1 /\ contents (drop j m1) = [] /\
    length (contents m1) <= length (contents m).
Proof.
  induction limit as [|limit IH]; intros i m Hw Hl.
  { assert (contents (drop i m) = []) as Hn by by apply nil_length_inv, Nat.le_0_r.
    exists m, i. split_and!; try done. intros p k x Hp Hk. exfalso.
    assert ((k, x) ∈ contents (drop i m)) as Hin.
    { apply list_elem_of_omap. eexists. split; [|done]. apply (list_elem_of_lookup_2 _ (p - i)).
      rewrite lookup_drop. by replace (i + (p - i)) with p by lia. }
    rewrite Hn in Hin. by apply not_elem_of_nil in Hin. }
  destruct (next (At i) m) as [[[sid x] j]|] eqn:Hn.
  - destruct (examine_rest i sid x m j Hw Hn) as (He & Hc & Hfirst).
    rewrite sweep_loop_S. unfold found_by. rewrite Hn. rewrite Hc in Hl |- *. simpl in Hl |- *.
    destruct (IH j (examine sid x m)) as (m1 & j' & Hr & Hw1 & Ht & Hcl & Hj & Hlen).
    { by apply examine_wf. }
    { rewrite He. lia. }
    rewrite He in Hr. exists m1, j'. split_and!; try done.
    + etrans; [apply thinned_examine|done].
    + intros p k y Hp Hk. destruct (decide (j <= p)); [by eapply Hcl|].
      apply (Hfirst p k y); [lia|]. by eapply thinned_Some.
    + etrans; [exact Hlen|]. unfold examine. case_match; [|done].
      rewrite contents_delete. apply map_size_delete_le.
  - rewrite next_At in Hn.
    pose proof (next_from_spec m (S (length m)) i ltac:(lia)) as Hs. rewrite Hn in Hs.
    exists m, i. rewrite Hs. rewrite Nat.sub_0_r. split_and!; try done.
    intros p k x Hp Hk. exfalso.
    assert ((k, x) ∈ contents (drop i m)) as Hin.
    { apply list_elem_of_omap. eexists. split; [|done]. apply (list_elem_of_lookup_2 _ (p - i)).
      rewrite lookup_drop. by replace (i + (p - i)) with p by lia. }
    rewrite Hs in Hin. by apply not_elem_of_nil in Hin.
Qed.

(** An iterator at its end wraps around. *)
Lemma sweep_loop_wrap limit j m :
  contents (drop j m) = [] -> sweep_loop (S limit) now (At j) m = sweep_loop (S limit) now (At 0) m.
Proof.
  intros Hj. rewrite !sweep_loop_S. unfold found_by at 1.
  assert (next (At j) m = None) as ->.
  { rewrite next_At. pose proof (next_from_spec m (S (length m)) j ltac:(lia)) as Hs.
    destruct (next_from _ j m) as [[e i]|]; [|done]. destruct Hs as (_ & _ & _ & Hc).
    by rewrite Hj in Hc. }
  unfold found_by. by destruct (next (At 0) m).
Qed.

Lemma thinned_sweep limit : forall it m, thinned m (sweep_loop limit now it m).1.
Proof.
  induction limit as [|limit IH]; intros it m; [done|]. rewrite sweep_loop_S.
  destruct (found_by it m) as [[[sid x] j]|]; [|done].
  etrans; [apply thinned_examine|apply IH].
Qed.

Lemma clean_thinned i m m' : thinned m m' -> clean_from i m -> clean_from i m'.
Proof. intros Ht Hc p k x Hp Hk. apply (Hc p k x Hp). by eapply thinned_Some. Qed.

Lemma clean_get m k x : clean_from 0 m -> live_get k m = Some x -> expired now x = false.
Proof.
  intros Hc Hk. apply map_get_Some_in, list_elem_of_omap in Hk as (slot & Hin & Hs). simpl in Hs.
  subst slot. apply list_elem_of_lookup in Hin as [p Hp]. by apply (Hc p k x); [lia|].
Qed.

Lemma contents_drop_length i m : length (contents (drop i m)) <= length (contents m).
Proof.
  rewrite <-(take_drop i m) at 2. rewrite contents_app, length_app. lia.
Qed.

Lemma sweep_from_start m limit :
  live_wf m -> length (contents m) <= limit -> clean_from 0 (sweep_loop limit now (At 0) m).1.
Proof.
  intros Hw Hl. destruct (sweep_pass limit 0 m Hw) as (m1 & j & -> & _ & _ & Hc & _ & _).
  { by rewrite drop_0. }
  eapply clean_thinned; [apply thinned_sweep|done].
Qed.

Lemma sweep_complete_at i m limit :
  live_wf m -> 2 * length (contents m) <= limit -> clean_from 0 (sweep_loop limit now (At i) m).1.
Proof.
  intros Hw Hl. pose proof (contents_drop_length i m) as Hd.
  destruct (sweep_pass limit i m Hw) as (m1 & j & -> & Hw1 & _ & Hc & Hj & Hlen); [lia|].
  destruct (contents m1) as [|e l] eqn:Hm1.
  - intros p k x Hp Hk. pose proof (thinned_Some _ _ _ _ (thinned_sweep _ _ _) Hk) as Hk1.
    assert ((k, x) ∈ contents m1) as Hin.
    { apply list_elem_of_omap. eexists. split; [|done]. by eapply list_elem_of_lookup_2. }
    rewrite Hm1 in Hin. by apply not_elem_of_nil in Hin.
  - simpl in Hlen. destruct (limit - length (contents (drop i m))) as [|n] eqn:Hn; [lia|].
    rewrite sweep_loop_wrap by done. apply sweep_from_start; [done|]. rewrite Hm1. simpl. lia.
Qed.

Lemma sweep_complete_exhausted m limit :
  live_wf m -> 2 * length (contents m) <= limit -> clean_from 0 (sweep_loop limit now Exhausted m).1.
Proof.
  intros Hw Hl. destruct limit as [|limit].
  - assert (contents m = []) as Hm by (apply nil_length_inv; lia).
    intros p k x _ Hk. assert ((k, x) ∈ contents m) as Hin.
    { apply list_elem_of_omap. eexists. split; [|done]. by eapply list_elem_of_lookup_2. }
    rewrite Hm in Hin. by apply not_elem_of_nil in Hin.
  - assert (sweep_loop (S limit) now Exhausted m = sweep_loop (S limit) now (At 0) m) as ->.
    { rewrite !sweep_loop_S. unfold found_by. simpl (next Exhausted m). by destruct (next (At 0) m). }
    apply sweep_from_start; [done|lia].
Qed.

(** Sweeping in two steps is sweeping in one. *)
Lemma sweep_loop_add a b : forall it m,
  (sweep_loop (a + b) now it m).1 =
  (sweep_loop b now (sweep_loop a now it m).2 (sweep_loop a now it m).1).1.
Proof.
  induction a as [|a IH]; intros it m; [done|]. simpl (S a + b).
  rewrite !sweep_loop_S. destruct (found_by it m) as [[[sid x] j]|] eqn:Hf; [apply IH|].
  simpl. destruct b as [|b]; [done|]. rewrite sweep_loop_S. unfold found_by in *.
  simpl (next Exhausted m). destruct (next it m); [done|]. by rewrite Hf.
Qed.
End Sweep.

(** [n] calls that sweep, with the clock standing still. *)
Fixpoint sweep_times (n : nat) (now : jnum) (s : session_store) : session_store :=
  match n with
  | O => s
  | S n => sweep_times n now (sweepStep 8 now s)
  end.

Definition iterator_of (s : session_store) : iterator := default (At 0) (sweepIterator s).

Lemma sweepStep_sessions limit now s :
  sessions (sweepStep limit now s) = (sweep_loop limit now (iterator_of s) (sessions s)).1 /\
  sweepIterator (sweepStep limit now s) = Some (sweep_loop limit now (iterator_of s) (sessions s)).2 /\
  pending (sweepStep limit now s) = pending s.
Proof.
  unfold sweepStep, iterator_of. destruct (sweepIterator s); simpl;
    by destruct (sweep_loop _ _ _ _).
Qed.

Lemma sweep_times_sessions n now : forall s,
  sessions (sweep_times n now s) = (sweep_loop (n * 8) now (iterator_of s) (sessions s)).1.
Proof.
  induction n as [|n IH]; intros s; [done|].
  change (S n * 8) with (8 + n * 8). simpl (sweep_times (S n) now s). rewrite IH.
  destruct (sweepStep_sessions 8 now s) as (H1 & H2 & _).
  unfold iterator_of at 1. rewrite H1, H2. simpl default. by rewrite sweep_loop_add.
Qed.

(** The incremental sweep misses nothing: whatever the persistent iterator
    points at, once the calls have examined twice as many entries as there are
    sessions, no expired session is left, and no other session is gone. *)
Theorem sweep_finds_expired (n : nat) (now : jnum) (s : session_store) :
  live_wf (sessions s) -> 2 * map_size (contents (sessions s)) <= n * 8 ->
  let s' := sweep_times n now s in
  (forall k x, live_get k (sessions s') = Some x -> expired now x = false) /\
  (forall k x, live_get k (sessions s) = Some x -> expired now x = false ->
     live_get k (sessions s') = Some x).
Proof.
  intros Hw Hn. cbn zeta. rewrite sweep_times_sessions. split.
  - intros k x. apply clean_get. destruct (iterator_of s) as [i|].
    + by apply sweep_complete_at.
    + by apply sweep_complete_exhausted.
  - intros k x Hx He. destruct (sweep_loop_swept now (n * 8) (iterator_of s) (sessions s) Hw) as [H _].
    destruct (H k) as [->|(_ & y & Hy & Hey)]; [done|]. congruence.
Qed.

Lemma sweepStep_swept limit now s :
  live_wf (sessions s) ->
  swept_sessions now (sessions s) (sessions (sweepStep limit now s)) /\
  live_wf (sessions (sweepStep limit now s)).
Proof.
  intros Hw. destruct (sweepStep_sessions limit now s) as (-> & _). by apply sweep_loop_swept.
Qed.

(** A session is handed out exactly when it is stored and has not expired:
    the result is the stored session, not expired at the check, with its last
    use refreshed in the store; a session that is stored and expired neither at
    the sweep nor at the check is found; and every other session is untouched
    unless it has expired. *)
Theorem getSession_live (sid : jstr) (sweep_now check_now touch_now : jnum) (s : session_store) :
  live_wf (sessions s) ->
  let '(found, s') := getSession sid sweep_now check_now touch_now s in
  live_wf (sessions s') /\ pending s' = pending s /\
  match found with
  | Some x => exists old, live_get sid (sessions s) = Some old /\ x = touch touch_now old /\
      expired check_now x = false /\ live_get sid (sessions s') = Some x
  | None => forall old, sid <> [] -> live_get sid (sessions s) = Some old ->
      expired sweep_now old = true \/ expired check_now old = true
  end /\
  (forall other x, other <> sid -> live_get other (sessions s) = Some x ->
     live_get other (sessions s') = Some x \/
     live_get other (sessions s') = None /\ expired sweep_now x = true).
Proof.
  intros Hw. unfold getSession. destruct (truthy sid) eqn:Hsid; simpl.
  2: { apply truthy_false in Hsid. split_and!; try done. intros other x _ Hx. by left. }
  destruct (sweepStep_swept 8 sweep_now s Hw) as [Hsw Hw1].
  destruct (sweepStep_sessions 8 sweep_now s) as (_ & _ & Hp).
  set (s1 := sweepStep 8 sweep_now s) in *. clearbody s1.
  assert (forall other x, live_get other (sessions s) = Some x ->
    live_get other (sessions s1) = Some x \/
    live_get other (sessions s1) = None /\ expired sweep_now x = true) as Hother.
  { intros other x Hx. destruct (Hsw other) as [->|(-> & y & Hy & He)]; [by left|].
    right. split; [done|]. congruence. }
  destruct (live_get sid (sessions s1)) as [x|] eqn:Hx.
  - assert (live_get sid (sessions s) = Some x) as Hold.
    { destruct (Hsw sid) as [<-|(Hn & _)]; [done|congruence]. }
    destruct (expired check_now x) eqn:He; simpl; split_and!; try done.
    + by apply live_wf_delete.
    + intros old _ Ho. right. congruence.
    + intros other y Hne Hy. rewrite live_get_delete_ne by done. by apply Hother.
    + by apply live_wf_set.
    + exists x. split_and!; try done. by rewrite live_get_set_eq.
    + intros other y Hne Hy. rewrite live_get_set_ne by done. by apply Hother.
  - split_and!; try done.
    + intros old _ Ho. left. destruct (Hother _ _ Ho) as [?|[_ ?]]; [congruence|done].
    + intros other y _ Hy. by apply Hother.
Qed.

Section Pending.
Context (cfg : store_config).

Lemma cleanup_get now s k :
  map_wf (pending s) ->
  map_get k (pending (cleanupPending cfg now s)) =
  match map_get k (pending s) with
  | Some e => if pending_expired cfg now e then None else Some e
  | None => None
  end.
Proof.
  intros Hm. unfold cleanupPending. simpl. rewrite map_get_filter by done.
  destruct (map_get k (pending s)) as [e|]; [|done]. simpl. by destruct (pending_expired cfg now e).
Qed.

Lemma cleanup_wf now s : map_wf (pending s) -> map_wf (pending (cleanupPending cfg now s)).
Proof. apply map_wf_filter. Qed.

Lemma consume_unknown state t1 t2 s :
  map_wf (pending s) -> map_get state (pending s) = None ->
  fst (consumePendingAuth cfg state t1 t2 s) = None.
Proof.
  intros Hw Hn. unfold consumePendingAuth. by rewrite cleanup_get, Hn by done.
Qed.
End Pending.

(** C40. A pending login is consumed at most once and only in time: consuming
    returns an entry exactly when it was stored and has not outlived its
    time-to-live at either reading, afterwards the state is unknown, and no
    other login in its time is lost. *)
Theorem pending_consumed_once (cfg : store_config) (state : jstr) (cleanup_now now : jnum)
    (s : session_store) :
  map_wf (pending s) ->
  let '(found, s') := consumePendingAuth cfg state cleanup_now now s in
  (forall e, found = Some e <->
     map_get state (pending s) = Some e /\ pending_expired cfg cleanup_now e = false /\
     pending_expired cfg now e = false) /\
  map_get state (pending s') = None /\ map_wf (pending s') /\
  (forall t1 t2, fst (consumePendingAuth cfg state t1 t2 s') = None) /\
  (forall other e, other <> state -> map_get other (pending s) = Some e ->
     pending_expired cfg cleanup_now e = false -> map_get other (pending s') = Some e) /\
  sessions s' = sessions s.
Proof.
  intros Hw. unfold consumePendingAuth at 1.
  pose proof (cleanup_get cfg cleanup_now s) as Hget. pose proof (cleanup_wf cfg cleanup_now s Hw) as Hw1.
  assert (sessions (cleanupPending cfg cleanup_now s) = sessions s) as Hses by done.
  set (s1 := cleanupPending cfg cleanup_now s) in *. clearbody s1.
  destruct (map_get state (pending s1)) as [e|] eqn:He.
  - set (s2 := set_pending_auth (map_delete state (pending s1)) s1).
    assert (map_get state (pending s2) = None) as Hn2 by apply map_get_delete_eq.
    assert (map_wf (pending s2)) as Hw2 by by apply map_wf_delete.
    rewrite Hget in He by done. destruct (map_get state (pending s)) as [e0|] eqn:Hs; [|done].
    destruct (pending_expired cfg cleanup_now e0) eqn:Hx; [done|]. injection He as ->.
    split_and!; try done.
    + intros e1. destruct (pending_expired cfg now e) eqn:Hnow.
      * split; [done|]. intros ([= <-] & _ & ?). congruence.
      * split; [by intros [= <-]|by intros ([= <-] & _ & _)].
    + intros t1 t2. by apply consume_unknown.
    + intros other e1 Hne Ho Hxo. simpl. rewrite map_get_delete_ne, Hget, Ho by done. by rewrite Hxo.
  - split_and!; try done.
    + intros e1. split; [done|]. intros (Hs & Hx & _). rewrite Hget, Hs, Hx in He by done. done.
    + intros t1 t2. by apply consume_unknown.
    + intros other e1 _ Ho Hxo. by rewrite Hget, Ho, Hxo.
Qed.

(** ** Witnesses *)

Definition some_session (until : Z) : session :=
  Session "s" Null Null Null (Fin 0) (Fin 0) (Fin until) Null [].

Definition two_sessions : session_store :=
  SessionStore [Some ("old"%js, some_session 10); None; Some ("new"%js, some_session 99)] [] (Some (At 2)).

Lemma two_sessions_wf : live_wf (sessions two_sessions).
Proof. repeat constructor; set_solver. Qed.

Lemma sweep_finds_expired_witness :
  live_get "old"%js (sessions (sweep_times 1 (Fin 50) two_sessions)) = None /\
  forall k x, live_get k (sessions (sweep_times 1 (Fin 50) two_sessions)) = Some x ->
    expired (Fin 50) x = false.
Proof.
  split; [by vm_compute|].
  destruct (sweep_finds_expired 1 (Fin 50) two_sessions two_sessions_wf) as [H _];
    [vm_compute; lia|]. exact H.
Defined.

Lemma getSession_live_witness :
  fst (getSession "new" (Fin 50) (Fin 51) (Fin 52) two_sessions) =
    Some (touch (Fin 52) (some_session 99)) /\
  live_wf (sessions (snd (getSession "new" (Fin 50) (Fin 51) (Fin 52) two_sessions))).
Proof.
  split; [by vm_compute|].
  pose proof (getSession_live "new" (Fin 50) (Fin 51) (Fin 52) two_sessions two_sessions_wf) as H.
  destruct (getSession "new" _ _ _ two_sessions) as [f s']. apply H.
Defined.

Lemma pending_consumed_once_witness :
  let s := SessionStore [] [("st"%js, PendingAuth [] (Fin 10))] None in
  fst (consumePendingAuth default_config "st" (Fin 20) (Fin 21) s) = Some (PendingAuth [] (Fin 10)) /\
  map_get "st"%js (pending (snd (consumePendingAuth default_config "st" (Fin 20) (Fin 21) s))) = None.
Proof.
  intros s. split; [by vm_compute|].
  pose proof (pending_consumed_once default_config "st" (Fin 20) (Fin 21) s) as H.
  destruct (consumePendingAuth default_config "st" _ _ s) as [f s'].
  apply H. repeat constructor. apply not_elem_of_nil.
Defined.
