(* ===== verification/JsUri.v ===== *)
(** [encodeURIComponent] and [decodeURIComponent] of ECMA-262 (19.2.6): UTF-16
    to percent-encoded UTF-8 and back, with their [URIError]s. *)

From stdpp Require Import prelude.
From Stdlib Require Import NArith.
From S2P Require Import Prelude JsString JsNumber JsMap JsValue.

Local Open Scope N_scope.

(** ** Code points *)

Definition surrogate_pair (hi lo : N) : N := 65536 + (hi - 55296) * 1024 + (lo - 56320).

Definition utf16_of (cp : N) : jstr :=
  if cp <? 65536 then [cp]
  else [55296 + (cp - 65536) / 1024; 56320 + (cp - 65536) mod 1024].

Definition utf8_of (cp : N) : list N :=
  if cp <? 128 then [cp]
  else if cp <? 2048 then [192 + cp / 64; 128 + cp mod 64]
  else if cp <? 65536 then [224 + cp / 4096; 128 + cp / 64 mod 64; 128 + cp mod 64]
  else [240 + cp / 262144; 128 + cp / 4096 mod 64; 128 + cp / 64 mod 64; 128 + cp mod 64].

(** ** Percent triplets *)

Definition hex_digit (n : N) : N := if n <? 10 then 48 + n else 55 + n.

Definition hex_value (c : N) : option N :=
  if is_digit c then Some (c - 48)
  else if (65 <=? c) && (c <=? 70) then Some (c - 55)
  else if (97 <=? c) && (c <=? 102) then Some (c - 87)
  else None.

Definition percent (b : N) : jstr := [37; hex_digit (b / 16); hex_digit (b mod 16)].

(** The byte of a triplet [%XX] at the start of the string. *)
Definition triplet (s : jstr) : option (N * jstr) :=
  match s with
  | c :: a :: b :: r =>
      if c =? 37 then
        match hex_value a, hex_value b with
        | Some x, Some y => Some (x * 16 + y, r)
        | _, _ => None
        end
      else None
  | _ => None
  end.

(** ** Encoding *)

(** [A-Z a-z 0-9 - _ . ! ~ * ' ( )] *)
Definition uri_unreserved (c : N) : bool := is_alnum c || has_unit c "-_.!~*'()"%js.

Fixpoint encodeURIComponent (s : jstr) : result js_error jstr :=
  match s with
  | [] => Ok []
  | c :: r =>
      if uri_unreserved c then t ← encodeURIComponent r; Ok (c :: t)
      else if is_low_surrogate c then Err URIError
      else if is_high_surrogate c then
        match r with
        | d :: r' =>
            if is_low_surrogate d then
              t ← encodeURIComponent r';
              Ok ((utf8_of (surrogate_pair c d) ≫= percent) ++ t)
            else Err URIError
        | [] => Err URIError
        end
      else t ← encodeURIComponent r; Ok ((utf8_of c ≫= percent) ++ t)
  end.

(** ** Decoding *)

Definition is_continuation (b : N) : bool := (128 <=? b) && (b <? 192).

(** [n] continuation bytes, most significant first. *)
Fixpoint continuations (n : nat) (acc : N) (s : jstr) : option (N * jstr) :=
  match n with
  | O => Some (acc, s)
  | S n =>
      match triplet s with
      | Some (b, r) => if is_continuation b then continuations n (acc * 64 + (b - 128)) r else None
      | None => None
      end
  end.

(** A code point that takes exactly [len] bytes and is no surrogate. *)
Definition valid_scalar (len : nat) (cp : N) : bool :=
  (cp <? 1114112) && negb ((55296 <=? cp) && (cp <? 57344)) && (length (utf8_of cp) =? len)%nat.

(** One escape sequence: the triplet and the continuations its byte asks for. *)
Definition decode_escape (s : jstr) : option (jstr * jstr) :=
  '(b, r) ← triplet s;
  if b <? 128 then Some ([b], r)
  else
    let more n top :=
      '(cp, r') ← continuations n (b - top) r;
      if valid_scalar (S n) cp then Some (utf16_of cp, r') else None in
    if b <? 192 then None
    else if b <? 224 then more 1%nat 192
    else if b <? 240 then more 2%nat 224
    else if b <? 248 then more 3%nat 240
    else None.

(** Every turn consumes at least one unit: the length is fuel enough. *)
Fixpoint decode_from (fuel : nat) (s : jstr) : result js_error jstr :=
  match fuel, s with
  | _, [] => Ok []
  | O, _ => Err URIError
  | S fuel, c :: r =>
      if c =? 37 then
        match decode_escape s with
        | Some (u, r') => t ← decode_from fuel r'; Ok (u ++ t)
        | None => Err URIError
        end
      else t ← decode_from fuel r; Ok (c :: t)
  end.

Definition decodeURIComponent (s : jstr) : result js_error jstr := decode_from (length s) s.

Example decode_euro : decodeURIComponent "a%E2%82%AC%2f"%js = Ok [97; 8364; 47].
Proof. by vm_compute. Qed.

Example encode_pair : encodeURIComponent [55357; 56832] = Ok "%F0%9F%98%80"%js.
Proof. by vm_compute. Qed.

Example decode_overlong : decodeURIComponent "%C0%AF"%js = Err URIError.
Proof. by vm_compute. Qed.
