(* ===== verification/AgentPort.v ===== *)
(** Requests for additional ports of an agent and router-owned agent paths:
    [src/cli/server/agentPortConvention/parseSelector.js],
    [.../relayPolicy.js] and [src/cli/server/internalAgentPath.js]. *)

From stdpp Require Import prelude sorting.
From Stdlib Require Import NArith.
From S2P Require Import Prelude JsString JsNumber JsMap JsValue JsUri.

Local Open Scope js_scope.

Definition AGENT_PORT_ROUTE : jstr := "base-agent-additional-server".

(** [/^[A-Za-z0-9][A-Za-z0-9_.-]*$/] *)
Definition ROUTE_KEY_PATTERN (s : jstr) : bool :=
  match s with
  | c :: r => is_alnum c && forallb (fun c => is_alnum c || has_unit c "_.-") r
  | [] => false
  end.

(** [/^[1-9][0-9]{0,4}$/] *)
Definition PORT_PATTERN (s : jstr) : bool :=
  match s with
  | c :: r => is_digit c && negb (c =? 48)%N && forallb is_digit r && (length r <=? 4)
  | [] => false
  end.

Inductive selector_code : Type :=
  | MALFORMED_SELECTOR
  | NON_CANONICAL_SELECTOR
  | DENIED_PORT.

(** [AgentPortSelectorError] with its status, or an error of the language. *)
Inductive selector_error : Type :=
  | Rejected (code : selector_code) (status : Z)
  | SelectorJs (e : js_error).

Definition reject {A} (code : selector_code) : result selector_error A := Err (Rejected code 400).

(** [PCHAR_PERCENT_ENCODING]: the triplets a path segment need not escape. *)
Definition pchar_escapes : list (jstr * N) :=
  [("%24", 36%N); ("%26", 38%N); ("%2B", 43%N); ("%2C", 44%N); ("%3A", 58%N);
   ("%3B", 59%N); ("%3D", 61%N); ("%40", 64%N)].

Definition pchar_unescape (s : jstr) : option N :=
  snd <$> find_first (fun e => jeqb e.1 (take 3 s)) pchar_escapes.

Fixpoint unescape_pchars (fuel : nat) (s : jstr) : jstr :=
  match fuel, s with
  | S fuel, c :: r =>
      match pchar_unescape s with
      | Some u => u :: unescape_pchars fuel (drop 3 s)
      | None => c :: unescape_pchars fuel r
      end
  | _, _ => s
  end.

Definition encodeCanonicalSuffixSegment (value : jstr) : result js_error jstr :=
  e ← encodeURIComponent value; Ok (unescape_pchars (length e) e).

(** [/%2f|%5c/i] *)
Definition separator_escape (s : jstr) : bool :=
  match s with
  | 37%N :: 50%N :: c :: _ => has_unit c "fF"
  | 37%N :: 53%N :: c :: _ => has_unit c "cC"
  | _ => false
  end.

Fixpoint has_separator_escape (s : jstr) : bool :=
  separator_escape s ||
  match s with
  | [] => false
  | _ :: r => has_separator_escape r
  end.

(** [/%(?:25)*(?:2f|5c)/i]: after the percent sign, any number of [25] and
    then an escaped separator. *)
Fixpoint nested_tail (fuel : nat) (s : jstr) : bool :=
  match fuel, s with
  | S fuel, 50%N :: 53%N :: r => nested_tail fuel r
  | S _, 50%N :: c :: _ => has_unit c "fF"
  | S _, 53%N :: c :: _ => has_unit c "cC"
  | _, _ => false
  end.

Fixpoint has_nested_escape (s : jstr) : bool :=
  match s with
  | [] => false
  | c :: r => ((c =? 37)%N && nested_tail (S (length r)) r) || has_nested_escape r
  end.

Definition decodeCanonicalSegment (raw : jstr) (canonicalize : jstr -> result js_error jstr) :
    result selector_error jstr :=
  if negb (truthy raw) || has_unit 92 raw || has_separator_escape raw then reject MALFORMED_SELECTOR
  else
    match decodeURIComponent raw with
    | Err _ => reject MALFORMED_SELECTOR
    | Ok decoded =>
        if has_unit 47 decoded || has_unit 92 decoded || has_unit 0 decoded then
          reject MALFORMED_SELECTOR
        else if jeqb decoded "." || jeqb decoded ".." then reject MALFORMED_SELECTOR
        else
          match canonicalize decoded with
          | Err e => Err (SelectorJs e)
          | Ok canonical =>
              if jeqb canonical raw then Ok decoded else reject NON_CANONICAL_SELECTOR
          end
    end.

(** The loop of [assertNoNestedProtectedEncoding]: [Ok true] when it returned. *)
Fixpoint decode_passes (passes : nat) (decoded : jstr) : result selector_error bool :=
  match passes with
  | O => Ok false
  | S passes =>
      if has_separator_escape decoded then reject MALFORMED_SELECTOR
      else
        match decodeURIComponent decoded with
        | Err _ => reject MALFORMED_SELECTOR
        | Ok next => if jeqb next decoded then Ok true else decode_passes passes next
        end
  end.

Definition assertNoNestedProtectedEncoding (rawPath : jstr) : result selector_error unit :=
  returned ← decode_passes 3 rawPath;
  if returned : bool then Ok tt
  else if has_nested_escape rawPath then reject MALFORMED_SELECTOR
  else Ok tt.

(** [rawPath] and [query]. *)
Definition splitRawTarget (raw : jstr) : result selector_error (jstr * jstr) :=
  if negb (starts_with raw "/") || has_unit 35 raw || has_unit 0 raw || has_unit 92 raw then
    reject MALFORMED_SELECTOR
  else
    Ok match index_of 63 raw with
       | None => (raw, [])
       | Some i => (take i raw, drop (S i) raw)
       end.

Record selector : Type := Selector {
  sel_agent : jstr;
  sel_rawAgent : jstr;
  sel_port : Z;
  sel_canonicalPort : jstr;
  sel_suffix : jstr;
  sel_query : jstr;
  sel_policyPath : jstr;
  sel_requestTarget : jstr
}.

Fixpoint check_suffix (segments : list jstr) : result selector_error unit :=
  match segments with
  | [] => Ok tt
  | s :: segments =>
      _ ← decodeCanonicalSegment s encodeCanonicalSuffixSegment;
      check_suffix segments
  end.

(** [suffixSegments.at(-1) === ''] and [pop]. *)
Definition split_trailing (segments : list jstr) : list jstr * bool :=
  match last segments with
  | Some [] => (removelast segments, true)
  | _ => (segments, false)
  end.

Definition suffix_of (segments : list jstr) (trailing : bool) : jstr :=
  match segments with
  | [] => "/"
  | _ => "/" ++ join "/" segments ++ (if trailing then "/" else [])
  end.

Definition parseAgentPortSelector (requestTarget : jstr) (deniedPorts : list Z) :
    result selector_error (option selector) :=
  '(rawPath, query) ← splitRawTarget requestTarget;
  let prefixPath := "/" ++ AGENT_PORT_ROUTE in
  if negb (jeqb rawPath prefixPath) && negb (starts_with rawPath (prefixPath ++ "/")) then Ok None
  else if includes rawPath "//" then reject MALFORMED_SELECTOR
  else
    _ ← assertNoNestedProtectedEncoding rawPath;
    match split_on 47 (drop 1 rawPath) with
    | route :: rawAgent :: rawPort :: suffixSegments =>
        if negb (jeqb route AGENT_PORT_ROUTE) then reject MALFORMED_SELECTOR
        else
          agent ← decodeCanonicalSegment rawAgent encodeURIComponent;
          if negb (ROUTE_KEY_PATTERN agent) then reject MALFORMED_SELECTOR
          else if negb (PORT_PATTERN rawPort) then reject MALFORMED_SELECTOR
          else
            let port := decimal_value rawPort in
            if (port <? 1)%Z || (65535 <? port)%Z then reject MALFORMED_SELECTOR
            else if existsb (Z.eqb port) deniedPorts then Err (Rejected DENIED_PORT 403)
            else
              let '(segments, hasTrailingSlash) := split_trailing suffixSegments in
              _ ← check_suffix segments;
              Ok (Some (Selector agent rawAgent port rawPort
                (suffix_of segments hasTrailingSlash) query rawPath
                (if truthy query then rawPath ++ "?" ++ query else rawPath)))
    | _ => reject MALFORMED_SELECTOR
    end.

(** ** The per-agent relay policy

    [normalizeAgentPortRelayPolicy] throws an [Error] with one of three
    messages. *)

Inductive relay_policy : Type :=
  | RelayAll
  | RelayNone
  | RelayListed (ports : list Z).

Inductive relay_error : Type :=
  | PortListShape
  | PortRange
  | PortRepeated.

(** [Number.isInteger(port) && port >= 1 && port <= 65535] *)
Definition relay_port (v : js) : result relay_error Z :=
  match v with
  | Num (Fin z) => if ((1 <=? z) && (z <=? 65535))%Z then Ok z else Err PortRange
  | _ => Err PortRange
  end.

(** [new Set(ports).size] is that of the duplicate-free list. *)
Definition normalizeAgentPortRelayPolicy (value : js) : result relay_error relay_policy :=
  match value with
  | Undefined | Null | Bool true => Ok RelayAll
  | Bool false => Ok RelayNone
  | Arr l =>
      if (length l =? 0) || (64 <? length l) then Err PortListShape
      else
        ports ← mapM_result relay_port l;
        if negb (length (remove_dups ports) =? length ports) then Err PortRepeated
        else Ok (RelayListed (merge_sort Z.le ports))
  | _ => Err PortListShape
  end.

Definition agentPortRelayPolicyFromManifest (manifest : js) : result relay_error relay_policy :=
  normalizeAgentPortRelayPolicy (optional "agentPorts" (optional "routerAccess" manifest)).

Inductive relay_denial : Type :=
  | AGENT_PORT_RELAY_DISABLED
  | AGENT_PORT_NOT_DECLARED.

(** The status of a denial is always 403. *)
Definition agentPortRelayDenial (policy : relay_policy) (port : Z) : option (Z * relay_denial) :=
  match policy with
  | RelayNone => Some (403%Z, AGENT_PORT_RELAY_DISABLED)
  | RelayListed ports =>
      if existsb (Z.eqb port) ports then None else Some (403%Z, AGENT_PORT_NOT_DECLARED)
  | RelayAll => None
  end.

(** ** Router-owned [__agent] segments *)

Definition MAX_DECODE_PASSES : nat := 3.

Fixpoint decode_layers (passes : nat) (current : jstr) : jstr :=
  match passes with
  | O => current
  | S passes =>
      match decodeURIComponent current with
      | Err _ => current
      | Ok next => if jeqb next current then current else decode_layers passes next
      end
  end.

Definition fullyDecodeSegment (segment : jstr) : jstr := decode_layers MAX_DECODE_PASSES segment.

(** [s.split(c)[0]] *)
Definition before (c : N) (s : jstr) : jstr :=
  match index_of c s with
  | Some i => take i s
  | None => s
  end.

(** [s.split('/').filter(Boolean)] *)
Definition path_segments (s : jstr) : list jstr := bfilter truthy (split_on 47 s).

Definition internal_segment (segment : jstr) : bool :=
  jeqb segment "__agent" || jeqb (fullyDecodeSegment segment) "__agent".

Definition hasInternalAgentSegment (path : jstr) : bool :=
  existsb internal_segment (path_segments (before 35 (before 63 path))).
