(* ===== verification/JsDecimal.v ===== *)
(** Decimal texts of natural numbers and splitting of texts at a separator:
    the two are inverse to evaluation and to joining. *)

From stdpp Require Import prelude.
From Stdlib Require Import NArith.
From S2P Require Import Prelude.
From S2P Require Import JsString.
From S2P Require Import JsNumber.
From S2P Require Import JsMap.
From S2P Require Import JsValue.

Local Open Scope js_scope.

(** ** Decimal texts *)

Lemma decimal_value_snoc ds d : decimal_value (ds ++ [d]) = (decimal_value ds * 10 + digit_value d)%Z.
Proof. unfold decimal_value. by rewrite fold_left_app. Qed.

Lemma digit_value_bounds d : is_digit d = true -> (0 <= digit_value d < 10)%Z.
Proof.
  unfold is_digit, digit_value. rewrite andb_true_iff, !N.leb_le. lia.
Qed.

Lemma decimal_value_nonneg ds : forallb is_digit ds = true -> (0 <= decimal_value ds)%Z.
Proof.
  induction ds as [|d ds IH] using rev_ind; [done|].
  rewrite forallb_app, decimal_value_snoc. simpl. intros [H1 H2]%andb_true_iff.
  rewrite andb_true_r in H2. specialize (IH H1). pose proof (digit_value_bounds d H2). lia.
Qed.

(** A text of decimal digits without leading zero. *)
Definition canonical_decimal (ds : jstr) : bool :=
  match ds with
  | c :: r => is_digit c && negb (c =? 48)%N && forallb is_digit r
  | [] => false
  end.

Lemma canonical_decimal_value ds :
  canonical_decimal ds = true -> (10 ^ (Z.of_nat (length ds) - 1) <= decimal_value ds)%Z.
Proof.
  destruct ds as [|c r]; simpl; [done|]. rewrite !andb_true_iff, negb_true_iff, N.eqb_neq.
  intros [[Hc Hn] Hr]. assert (1 <= digit_value c)%Z as Hc1.
  { unfold is_digit, digit_value in *. apply andb_true_iff in Hc as [?%N.leb_le _]. lia. }
  revert Hr. induction r as [|d r IH] using rev_ind.
  - intros _. unfold decimal_value. simpl. lia.
  - rewrite forallb_app. simpl. rewrite andb_true_r. intros [H1 H2]%andb_true_iff.
    rewrite app_comm_cons, decimal_value_snoc. specialize (IH H1).
    pose proof (digit_value_bounds d H2) as Hd. rewrite length_app. simpl.
    replace (Z.of_nat (S (length r + 1)) - 1)%Z with (Z.of_nat (S (length r)) - 1 + 1)%Z by lia.
    rewrite Z.pow_add_r by lia. lia.
Qed.

Lemma decimal_digits_value fuel ds acc :
  canonical_decimal ds = true -> length ds <= fuel ->
  decimal_digits fuel (Z.to_N (decimal_value ds)) acc = ds ++ acc.
Proof.
  revert fuel acc. induction ds as [|d ds IH] using rev_ind; [done|].
  intros fuel acc Hc Hf. rewrite length_app in Hf. simpl in Hf.
  destruct fuel as [|fuel]; [lia|]. simpl.
  assert (forallb is_digit ds = true /\ is_digit d = true) as [Hds Hd].
  { destruct ds as [|c r]; simpl in *; rewrite !andb_true_iff in Hc; [tauto|].
    destruct Hc as [[Hc _] Hr].
    rewrite forallb_app in Hr. simpl in Hr. rewrite andb_true_r in Hr.
    apply andb_true_iff in Hr as [-> ->]. by rewrite Hc. }
  pose proof (digit_value_bounds d Hd) as Hb. pose proof (decimal_value_nonneg ds Hds) as H0.
  rewrite decimal_value_snoc.
  set (v := decimal_value ds) in *. assert (digit_value d = Z.of_N (d - 48)) as Hdv.
  { unfold digit_value, is_digit in *. apply andb_true_iff in Hd as [?%N.leb_le _]. lia. }
  replace (Z.to_N (v * 10 + digit_value d)) with (Z.to_N v * 10 + (d - 48))%N by lia.
  rewrite N.Div0.add_mod, N.Div0.mod_mul, N.add_0_l, N.Div0.mod_mod, N.mod_small by lia.
  rewrite N.div_add_l, (N.div_small (d - 48)), N.add_0_r by lia.
  replace (48 + (d - 48))%N with d
    by (unfold is_digit in Hd; apply andb_true_iff in Hd as [?%N.leb_le _]; lia).
  destruct ds as [|c r].
  - assert (v = 0%Z) as -> by done.
    assert ((Z.to_N 0 * 10 + (d - 48) <? 10)%N = true) as -> by (apply N.ltb_lt; lia). done.
  - assert (canonical_decimal (c :: r) = true) as Hcr.
    { simpl in Hc, Hds. simpl. rewrite !andb_true_iff in Hc. apply andb_true_iff in Hds as [? ?].
      rewrite !andb_true_iff. tauto. }
    pose proof (canonical_decimal_value _ Hcr) as Hv. fold v in Hv.
    assert (1 <= v)%Z by (pose proof (Z.pow_pos_nonneg 10 (Z.of_nat (length (c :: r)) - 1)); simpl length in *; lia).
    assert ((Z.to_N v * 10 + (d - 48) <? 10)%N = false) as -> by (apply N.ltb_ge; lia).
    subst v. rewrite IH; [|done|simpl in *; lia]. by rewrite <- app_assoc.
Qed.

Lemma size_nat_size n : N.of_nat (N.size_nat n) = N.size n.
Proof. destruct n as [|p]; [done|]. simpl. induction p; simpl; lia. Qed.

Lemma size_bounds_length ds :
  canonical_decimal ds = true -> length ds <= S (N.size_nat (Z.to_N (decimal_value ds))).
Proof.
  intros Hc. pose proof (canonical_decimal_value ds Hc) as Hv.
  set (n := Z.to_N (decimal_value ds)).
  destruct (decide (length ds <= 1)); [lia|].
  assert (Hp : (0 < 10 ^ (Z.of_nat (length ds) - 1))%Z) by (apply Z.pow_pos_nonneg; lia).
  assert (n <> 0)%N by (unfold n; lia).
  assert (Hs : N.of_nat (N.size_nat n) = N.size n) by apply size_nat_size.
  pose proof (N.size_gt n) as Hg.
  assert (Z.of_N n < 2 ^ Z.of_N (N.size n))%Z as Hg' by lia.
  assert (10 ^ (Z.of_nat (length ds) - 1) < 2 ^ Z.of_N (N.size n))%Z as Hlt by lia.
  assert (2 ^ (Z.of_nat (length ds) - 1) <= 10 ^ (Z.of_nat (length ds) - 1))%Z as Hle
    by (apply Z.pow_le_mono_l; lia).
  assert (Z.of_nat (length ds) - 1 < Z.of_N (N.size n))%Z as Hfin
    by (apply (Z.pow_lt_mono_r_iff 2); lia).
  lia.
Qed.

(** [String(Number(s)) === s] for a canonical decimal text. *)
Lemma string_of_decimal ds :
  canonical_decimal ds = true -> string_of_Z (decimal_value ds) = ds.
Proof.
  intros Hc. pose proof (canonical_decimal_value ds Hc) as Hv.
  assert (Hp : (0 <= 10 ^ (Z.of_nat (length ds) - 1))%Z) by (apply Z.pow_nonneg; lia).
  assert (string_of_Z (decimal_value ds) = string_of_N (Z.to_N (decimal_value ds))) as ->.
  { unfold string_of_Z. destruct (decimal_value ds); [done|done|lia]. }
  unfold string_of_N. rewrite decimal_digits_value, app_nil_r; [done|done|by apply size_bounds_length].
Qed.

(** A text written by [String(n)] evaluates to [n] again. *)
Lemma decimal_digits_spec fuel n acc :
  (n < 10 ^ N.of_nat fuel)%N -> fuel <> 0 ->
  exists ds, decimal_digits fuel n acc = ds ++ acc /\ decimal_value ds = Z.of_N n /\
    forallb is_digit ds = true /\ ds <> [].
Proof.
  revert n acc. induction fuel as [|fuel IH]; intros n acc Hn Hf; [done|]. simpl.
  pose proof (N.mod_lt n 10) as Hm. set (d := (n mod 10)%N) in *.
  assert (is_digit (48 + d) = true) as Hd
    by (unfold is_digit; apply andb_true_iff; rewrite !N.leb_le; lia).
  assert (digit_value (48 + d) = Z.of_N d) as Hv by (unfold digit_value; lia).
  destruct (N.ltb_spec n 10) as [Hs|Hs].
  - exists [(48 + d)%N]. subst d. rewrite N.mod_small in * by done.
    split_and!; [done| |simpl; by rewrite Hd|done]. unfold decimal_value. simpl. lia.
  - assert (fuel <> 0) as Hf'.
    { intros ->. change (10 ^ N.of_nat 1)%N with 10%N in Hn. lia. }
    destruct (IH (n / 10)%N ((48 + d)%N :: acc)) as (ds & He & Hvd & Hds & Hne).
    + apply N.Div0.div_lt_upper_bound. rewrite Nat2N.inj_succ, N.pow_succ_r' in Hn. lia.
    + done.
    + exists (ds ++ [(48 + d)%N]). split_and!; [by rewrite He, <- app_assoc| | |by destruct ds].
      * rewrite decimal_value_snoc, Hvd, Hv. subst d.
        pose proof (N.div_mod' n 10). lia.
      * rewrite forallb_app, Hds. simpl. by rewrite Hd.
Qed.

Lemma string_of_N_spec n :
  exists ds, string_of_N n = ds /\ decimal_value ds = Z.of_N n /\ forallb is_digit ds = true /\ ds <> [].
Proof.
  destruct (decimal_digits_spec (S (N.size_nat n)) n []) as (ds & He & H); [|done|].
  - pose proof (N.size_gt n) as Hg. rewrite <- size_nat_size in Hg.
    apply (N.lt_le_trans _ _ _ Hg). rewrite Nat2N.inj_succ, N.pow_succ_r'.
    assert (2 ^ N.of_nat (N.size_nat n) <= 10 ^ N.of_nat (N.size_nat n))%N
      by (apply N.pow_le_mono_l; lia).
    lia.
  - rewrite app_nil_r in He. exists ds. split; [exact He|exact H].
Qed.

Lemma string_of_N_inj n m : string_of_N n = string_of_N m -> n = m.
Proof.
  intros H. destruct (string_of_N_spec n) as (ds & Hn & Hv & _), (string_of_N_spec m) as (es & Hm & Hw & _).
  assert (ds = es) as -> by congruence. lia.
Qed.

(** The value of a text of digits is that of its parts. *)
Lemma decimal_value_app a b :
  decimal_value (a ++ b) = (decimal_value a * 10 ^ Z.of_nat (length b) + decimal_value b)%Z.
Proof.
  induction b as [|d b IH] using rev_ind.
  - rewrite app_nil_r. unfold decimal_value at 3. simpl. lia.
  - rewrite app_assoc, !decimal_value_snoc, IH, length_app. simpl length.
    rewrite Nat2Z.inj_add, Z.pow_add_r by lia. lia.
Qed.

Lemma decimal_value_bound ds :
  forallb is_digit ds = true -> (decimal_value ds < 10 ^ Z.of_nat (length ds))%Z.
Proof.
  induction ds as [|d ds IH] using rev_ind; [done|].
  rewrite forallb_app, decimal_value_snoc, length_app. simpl. rewrite andb_true_r.
  intros [H1 H2]%andb_true_iff. specialize (IH H1). pose proof (digit_value_bounds d H2).
  rewrite Nat2Z.inj_add, Z.pow_add_r by lia. lia.
Qed.

Lemma string_of_Z_spec z : (0 <= z)%Z ->
  is_decimal (string_of_Z z) = true /\ decimal_value (string_of_Z z) = z.
Proof.
  intros Hz. assert (string_of_Z z = string_of_N (Z.to_N z)) as -> by (by destruct z).
  destruct (string_of_N_spec (Z.to_N z)) as (ds & -> & Hv & Hd & Hne).
  unfold is_decimal. rewrite Hd, Hv, andb_true_r. split; [by apply truthy_true|lia].
Qed.

(** Digits at both ends: nothing is trimmed. *)
Lemma trim_start_solid c s : is_space c = false -> trim_start (c :: s) = c :: s.
Proof. simpl. by intros ->. Qed.

Lemma trim_solid c s d r :
  c :: s = r ++ [d] -> is_space c = false -> is_space d = false -> trim (c :: s) = c :: s.
Proof.
  intros He Hc Hd. unfold trim, trim_end. rewrite trim_start_solid, He, rev_app_distr by done.
  simpl. rewrite Hd. simpl. by rewrite rev_involutive.
Qed.

Lemma digit_not_space c : is_digit c = true -> is_space c = false.
Proof.
  unfold is_digit, is_space. rewrite andb_true_iff, !N.leb_le. intros [? ?].
  repeat match goal with |- context [(?a <=? ?b)%N] => destruct (N.leb_spec a b); try lia end; simpl;
  repeat match goal with |- context [(?a =? ?b)%N] => destruct (N.eqb_spec a b); try lia end; done.
Qed.

Lemma take_digits_app ds r :
  forallb is_digit ds = true ->
  match r with
  | c :: _ => is_digit c = false
  | [] => True
  end ->
  take_digits (ds ++ r) = ds.
Proof.
  induction ds as [|d ds IH]; simpl.
  - destruct r; [done|]. simpl. by intros _ ->.
  - intros [-> Hd]%andb_true_iff Hr. by rewrite IH.
Qed.

Lemma take_digits_prefix s :
  forallb is_digit (take_digits s) = true /\ take_digits s ++ drop (length (take_digits s)) s = s.
Proof.
  induction s as [|c s [IH1 IH2]]; [done|]. simpl. destruct (is_digit c) eqn:Hc; [|done].
  simpl. rewrite Hc, IH1. simpl. by rewrite IH2.
Qed.

(** ** Splitting and joining *)

Lemma join_cons sep (w : jstr) ws : ws <> [] -> join sep (w :: ws) = w ++ sep ++ join sep ws.
Proof. by destruct ws. Qed.

Lemma join_split c s : join [c] (split_on c s) = s.
Proof.
  induction s as [|d s IH]; simpl; [done|].
  destruct (N.eqb_spec d c) as [->|Hd].
  - rewrite join_cons by apply split_on_nonempty. simpl. by rewrite IH.
  - destruct (split_on c s) as [|w ws] eqn:Hs; [by destruct (split_on_nonempty c s)|].
    destruct ws as [|w' ws]; simpl in *; [by rewrite IH|]. by rewrite IH.
Qed.

Lemma split_on_app c a b : split_on c (a ++ [c] ++ b) = split_on c a ++ split_on c b.
Proof.
  induction a as [|d a IH]; simpl; [by rewrite N.eqb_refl|]. simpl in IH.
  destruct (d =? c)%N; [by rewrite IH|]. rewrite IH.
  by destruct (split_on c a) eqn:Ha; [destruct (split_on_nonempty c a)|].
Qed.

Lemma split_join c ws :
  ws <> [] -> Forall (fun w => c ∉ w) ws -> split_on c (join [c] ws) = ws.
Proof.
  intros Hne Hws. induction Hws as [|w ws Hw Hws IH]; [done|].
  destruct ws as [|w' ws]; [by apply split_on_None, index_of_None|].
  rewrite join_cons by done. rewrite split_on_app, IH by done.
  by rewrite split_on_None by by apply index_of_None.
Qed.

Lemma split_on_inj c a b : split_on c a = split_on c b -> a = b.
Proof. intros H. by rewrite <- (join_split c a), <- (join_split c b), H. Qed.

Lemma split_on_pieces c s : Forall (fun w => c ∉ w) (split_on c s).
Proof.
  induction s as [|d s IH]; simpl; [by constructor; [apply not_elem_of_nil|]|].
  destruct (N.eqb_spec d c) as [->|Hd].
  - by constructor; [apply not_elem_of_nil|].
  - destruct (split_on c s) as [|w ws]; inversion_clear IH; constructor; try done.
    + apply not_elem_of_cons. split; [congruence|apply not_elem_of_nil].
    + apply not_elem_of_cons. by split; [congruence|].
Qed.

Lemma has_unit_false c s : has_unit c s = false -> c ∉ s.
Proof.
  unfold has_unit. intros H Hin. apply not_true_iff_false in H. apply H.
  apply existsb_exists. exists c. split; [by apply list_elem_of_In|apply N.eqb_refl].
Qed.
