(* ===== verification/AgentPortTheorems.v ===== *)
(** The theorems about agent-port selectors, the relay policy and the detector
    of router-owned paths. *)

From stdpp Require Import prelude sorting.
From Stdlib Require Import NArith.
From S2P Require Import Prelude.
From S2P Require Import JsString.
From S2P Require Import JsDecimal.
From S2P Require Import JsNumber.
From S2P Require Import JsMap.
From S2P Require Import JsValue.
From S2P Require Import JsUri.
From S2P Require Import AgentPort.

Local Open Scope js_scope.

(** ** Segments *)

Lemma encode_unreserved s : forallb uri_unreserved s = true -> encodeURIComponent s = Ok s.
Proof.
  induction s as [|c s IH]; simpl; [done|]. intros [-> Hs]%andb_true_iff. simpl.
  by rewrite IH.
Qed.

Lemma route_key_unreserved s : ROUTE_KEY_PATTERN s = true -> forallb uri_unreserved s = true.
Proof.
  destruct s as [|c s]; simpl; [done|]. intros [Hc Hs]%andb_true_iff.
  apply andb_true_iff. split; [unfold uri_unreserved; by rewrite Hc|].
  apply forallb_forall. intros d Hd. rewrite forallb_forall in Hs. specialize (Hs d Hd).
  unfold uri_unreserved. apply orb_true_iff in Hs as [->|Hu]; [done|].
  apply orb_true_iff. right. unfold has_unit in *. simpl in *. rewrite !orb_false_r in *.
  rewrite !orb_true_iff in *. tauto.
Qed.

(** A text that [decodeCanonicalSegment] accepts, with what it returns. *)
Definition canonical_segment (canonicalize : jstr -> result js_error jstr) (raw decoded : jstr) : Prop :=
  raw <> [] /\ decodeURIComponent raw = Ok decoded /\ canonicalize decoded = Ok raw /\
  47%N ∉ decoded /\ 92%N ∉ decoded /\ 0%N ∉ decoded /\ decoded <> "." /\ decoded <> "..".

Lemma decodeCanonicalSegment_Ok raw canonicalize decoded :
  decodeCanonicalSegment raw canonicalize = Ok decoded ->
  canonical_segment canonicalize raw decoded.
Proof.
  unfold decodeCanonicalSegment, reject. destruct (negb (truthy raw) || _ || _) eqn:H1; [done|].
  destruct (decodeURIComponent raw) as [d|] eqn:Hd; [|done].
  destruct (has_unit 47 d || _ || _) eqn:H2; [done|].
  destruct (jeqb d "." || _) eqn:H3; [done|].
  destruct (canonicalize d) as [c|] eqn:Hc; [|done].
  destruct (jeqb c raw) eqn:H4; [|done]. intros [= <-].
  reflect_bools. apply jeqb_eq in H4 as ->.
  rewrite truthy_true in *. rewrite jeqb_neq in *.
  split_and!; auto using has_unit_false.
Qed.

Lemma check_suffix_Ok segments :
  check_suffix segments = Ok tt ->
  Forall (fun s => exists d, canonical_segment encodeCanonicalSuffixSegment s d) segments.
Proof.
  induction segments as [|s segments IH]; simpl; [by constructor|].
  destruct (decodeCanonicalSegment s _) as [d|] eqn:Hd; [|done]. simpl. intros H.
  constructor; [|by apply IH]. exists d. by apply decodeCanonicalSegment_Ok.
Qed.

Lemma split_trailing_eq l segs t :
  split_trailing l = (segs, t) -> l = segs ++ (if t then [[]] else []).
Proof.
  unfold split_trailing. destruct (last l) as [x|] eqn:Hl.
  - apply last_Some in Hl as [l' ->]. destruct x; intros [= <- <-]; [|by rewrite app_nil_r].
    by rewrite removelast_last.
  - intros [= <- <-]. by rewrite app_nil_r.
Qed.

(** ** Selectors *)

(** What an accepted selector says, and how its texts are built from it. *)
Record canonical_selector (s : selector) (deniedPorts : list Z) : Prop := {
  cs_agent : ROUTE_KEY_PATTERN (sel_agent s) = true;
  cs_rawAgent : sel_rawAgent s = sel_agent s;
  cs_port : (1 <= sel_port s <= 65535)%Z;
  cs_denied : sel_port s ∉ deniedPorts;
  cs_canonicalPort : sel_canonicalPort s = string_of_Z (sel_port s);
  cs_path : exists segments (trailing : bool),
    sel_suffix s = suffix_of segments trailing /\
    sel_policyPath s =
      join "/" ([[]; AGENT_PORT_ROUTE; sel_agent s; string_of_Z (sel_port s)] ++
                segments ++ (if trailing then [[]] else [])) /\
    Forall (fun seg => exists d, canonical_segment encodeCanonicalSuffixSegment seg d) segments;
  cs_target : sel_requestTarget s = sel_policyPath s ++
    (if truthy (sel_query s) then "?" ++ sel_query s else [])
}.

Lemma port_pattern_canonical s : PORT_PATTERN s = true -> canonical_decimal s = true.
Proof. destruct s; simpl; [done|]. by intros [? _]%andb_true_iff. Qed.

(** The accepting path of [parseAgentPortSelector]. *)
Lemma parse_accepts t denied s :
  parseAgentPortSelector t denied = Ok (Some s) ->
  exists rawPath query rawAgent rawPort suffixSegments segments trailing agent,
    splitRawTarget t = Ok (rawPath, query) /\
    split_on 47 (drop 1 rawPath) = AGENT_PORT_ROUTE :: rawAgent :: rawPort :: suffixSegments /\
    decodeCanonicalSegment rawAgent encodeURIComponent = Ok agent /\
    ROUTE_KEY_PATTERN agent = true /\ PORT_PATTERN rawPort = true /\
    (1 <= decimal_value rawPort <= 65535)%Z /\ decimal_value rawPort ∉ denied /\
    split_trailing suffixSegments = (segments, trailing) /\ check_suffix segments = Ok tt /\
    s = Selector agent rawAgent (decimal_value rawPort) rawPort (suffix_of segments trailing)
          query rawPath (if truthy query then rawPath ++ "?" ++ query else rawPath).
Proof.
  unfold parseAgentPortSelector.
  destruct (splitRawTarget t) as [[rawPath query]|] eqn:Ht; [|done]. simpl.
  destruct (_ && _); [done|]. destruct (includes _ _); [done|].
  destruct (assertNoNestedProtectedEncoding rawPath) as [[]|] eqn:Ha; [|done]. simpl.
  destruct (split_on 47 (drop 1 rawPath)) as [|route [|rawAgent [|rawPort sfx]]] eqn:Hs; try done.
  destruct (jeqb route AGENT_PORT_ROUTE) eqn:Hr; simpl; [|done]. apply jeqb_eq in Hr as ->.
  destruct (decodeCanonicalSegment rawAgent _) as [agent|] eqn:Hd; [|done]. simpl.
  destruct (ROUTE_KEY_PATTERN agent) eqn:Hk; simpl; [|done].
  destruct (PORT_PATTERN rawPort) eqn:Hp; simpl; [|done].
  destruct (_ || _) eqn:Hb; [done|]. apply orb_false_iff in Hb as [?%Z.ltb_ge ?%Z.ltb_ge].
  destruct (existsb _ denied) eqn:He; [done|].
  destruct (split_trailing sfx) as [segs tr] eqn:Hst.
  destruct (check_suffix segs) as [[]|] eqn:Hc; [|done]. simpl. intros [= <-].
  eexists _, _, _, _, _, _, _, _. split_and!; try done.
  intros Hin. apply not_true_iff_false in He. apply He, existsb_exists.
  exists (decimal_value rawPort). split; [by apply list_elem_of_In|apply Z.eqb_refl].
Qed.

Lemma has_unit_app c a b : has_unit c (a ++ b) = has_unit c a || has_unit c b.
Proof. apply existsb_app. Qed.

(** A text [splitRawTarget] accepts. *)
Definition origin_form (raw : jstr) : bool :=
  starts_with raw "/" && negb (has_unit 35 raw || has_unit 0 raw || has_unit 92 raw).

Lemma splitRawTarget_eq raw :
  splitRawTarget raw =
  if origin_form raw then
    Ok match index_of 63 raw with
       | None => (raw, [])
       | Some i => (take i raw, drop (S i) raw)
       end
  else reject MALFORMED_SELECTOR.
Proof.
  unfold splitRawTarget, origin_form. destruct (starts_with raw "/"); simpl; [|done].
  by destruct (has_unit 35 raw), (has_unit 0 raw), (has_unit 92 raw).
Qed.

Lemma splitRawTarget_Ok t rawPath query :
  splitRawTarget t = Ok (rawPath, query) ->
  starts_with rawPath "/" = true /\
  splitRawTarget (if truthy query then rawPath ++ "?" ++ query else rawPath) = Ok (rawPath, query).
Proof.
  rewrite splitRawTarget_eq. destruct (origin_form t) eqn:Ho; [|done].
  destruct (index_of 63 t) as [i|] eqn:Hi; intros [= <- <-].
  - apply index_of_Some in Hi as Hs. destruct Hs as (Ht & Hn & Hl).
    unfold origin_form in Ho. apply andb_true_iff in Ho as [H1 H2].
    destruct t as [|c t]; [done|]. destruct i as [|i].
    { simpl in Ht. injection Ht as ->. done. }
    assert (starts_with (take (S i) (c :: t)) "/" = true) as Hsw.
    { simpl in *. rewrite andb_true_r in *. destruct (47 =? c)%N; [by destruct (take i t)|done]. }
    split; [done|]. rewrite Ht in H2. set (p := take (S i) (c :: t)) in *.
    set (q := drop (S (S i)) (c :: t)) in *.
    assert (origin_form p = true) as Hp.
    { unfold origin_form. rewrite Hsw. rewrite !has_unit_app in H2.
      apply negb_true_iff in H2. apply negb_true_iff.
      destruct (has_unit 35 p), (has_unit 0 p), (has_unit 92 p); simpl in *; try done;
        by rewrite ?orb_true_r in H2. }
    apply index_of_None in Hn.
    destruct (truthy q) eqn:Hq.
    + rewrite splitRawTarget_eq. change (p ++ "?" ++ q) with (p ++ 63%N :: q).
      rewrite <- Ht in *. unfold origin_form. by rewrite H1, H2, Hi.
    + apply truthy_false in Hq. rewrite splitRawTarget_eq, Hp, Hn, Hq. done.
  - unfold origin_form in Ho. apply andb_true_iff in Ho as [H1 H2]. split; [done|].
    simpl. rewrite splitRawTarget_eq. unfold origin_form. by rewrite H1, H2, Hi.
Qed.

Lemma accepted_agent agent rawAgent :
  decodeCanonicalSegment rawAgent encodeURIComponent = Ok agent ->
  ROUTE_KEY_PATTERN agent = true -> rawAgent = agent.
Proof.
  intros (_ & _ & He & _)%decodeCanonicalSegment_Ok Hk.
  rewrite encode_unreserved in He by by apply route_key_unreserved. congruence.
Qed.

(** An accepted selector is canonical: its agent is a route key spelled
    without any escape, its port a number from 1 to 65535 that is not denied
    and is spelled in canonical decimal, its path exactly
    [/base-agent-additional-server/agent/port] followed by non-empty segments
    that are the canonical encoding of a text without separators, NUL or dot
    segments. *)
Theorem selector_canonical t denied s :
  parseAgentPortSelector t denied = Ok (Some s) -> canonical_selector s denied.
Proof.
  intros (rawPath & query & rawAgent & rawPort & sfx & segs & tr & agent & Ht & Hs & Hd & Hk &
    Hp & Hb & Hn & Hst & Hc & ->)%parse_accepts.
  apply splitRawTarget_Ok in Ht as [Hsw _].
  pose proof (accepted_agent _ _ Hd Hk) as ->.
  pose proof (string_of_decimal rawPort (port_pattern_canonical _ Hp)) as Hdec.
  constructor; simpl; try done.
  - exists segs, tr. split_and!; [done| |by apply check_suffix_Ok].
    rewrite Hdec, <- (split_trailing_eq _ _ _ Hst).
    apply starts_with_spec in Hsw as [raw ->]. change ("/" ++ raw) with (47%N :: raw) in *.
    change (drop 1 (47%N :: raw)) with raw in Hs. rewrite <- (join_split 47 raw), Hs. done.
  - destruct (truthy query); [done|]. by rewrite app_nil_r.
Qed.

Definition sample_target : jstr :=
  "/base-agent-additional-server/soplang.1/7000/api/a%20b/?x=1".

Definition sample_selector : selector :=
  Selector "soplang.1" "soplang.1" 7000 "7000" "/api/a%20b/" "x=1"
    "/base-agent-additional-server/soplang.1/7000/api/a%20b/" sample_target.

Lemma sample_target_parsed :
  parseAgentPortSelector sample_target [8080%Z] = Ok (Some sample_selector).
Proof. by vm_compute. Qed.

Theorem selector_canonical_witness : canonical_selector sample_selector [8080%Z].
Proof. exact (selector_canonical sample_target [8080%Z] _ sample_target_parsed). Defined.

(** The request target a selector carries selects it again: what the
    router forwards parses to the same agent, port, suffix and query. *)
Theorem selector_roundtrip t denied s :
  parseAgentPortSelector t denied = Ok (Some s) ->
  parseAgentPortSelector (sel_requestTarget s) denied = Ok (Some s).
Proof.
  intros Hparse. pose proof (parse_accepts _ _ _ Hparse) as
    (rawPath & query & rawAgent & rawPort & sfx & segs & tr & agent & Ht & _ & _ & _ & _ & _ & _ & _ & _ & ->).
  rewrite <- Hparse. cbn [sel_requestTarget]. unfold parseAgentPortSelector.
  pose proof (splitRawTarget_Ok _ _ _ Ht) as [_ Ht']. by rewrite Ht, Ht'.
Qed.

Theorem selector_roundtrip_witness :
  parseAgentPortSelector (sel_requestTarget sample_selector) [8080%Z] = Ok (Some sample_selector).
Proof. exact (selector_roundtrip sample_target [8080%Z] _ sample_target_parsed). Defined.

(** ** The relay policy *)

Lemma relay_ports l ports :
  mapM_result relay_port l = Ok ports ->
  l = Num ∘ Fin <$> ports /\ Forall (fun z => 1 <= z <= 65535)%Z ports.
Proof.
  revert ports. induction l as [|v l IH]; intros ports; simpl.
  - intros [= <-]. by split.
  - destruct (relay_port v) as [z|] eqn:Hv; [|done]. simpl.
    destruct (mapM_result relay_port l) as [zs|]; [|done]. simpl. intros [= <-].
    destruct (IH zs eq_refl) as [-> Hzs]. unfold relay_port in Hv.
    destruct v as [| | |[]| | | |]; try done. case_match eqn:Hr; [|done].
    apply andb_true_iff in Hr as [?%Z.leb_le ?%Z.leb_le]. injection Hv as ->.
    split; [done|]. by constructor.
Qed.

Lemma remove_dups_full (l : list Z) : length (remove_dups l) = length l -> NoDup l.
Proof.
  assert (forall k : list Z, length (remove_dups k) <= length k) as Hle.
  { induction k as [|z k IH]; simpl; [done|]. case_decide; simpl; lia. }
  induction l as [|z l IH]; simpl; [by constructor|].
  case_decide as Hd; simpl; intros Hl.
  - specialize (Hle l). lia.
  - constructor; [done|]. apply IH. lia.
Qed.

(** The ports a manifest value admits. *)
Definition declared_ports (value : js) (port : Z) : Prop :=
  match value with
  | Arr l => Num (Fin port) ∈ l
  | Bool false => False
  | _ => True
  end.

(** What normalization promises about the policy it returns. *)
Definition relay_normal (p : relay_policy) : Prop :=
  match p with
  | RelayListed ports =>
      Sorted Z.le ports /\ NoDup ports /\ Forall (fun z => 1 <= z <= 65535)%Z ports /\
      1 <= length ports <= 64
  | _ => True
  end.

(** An agent's relay declaration is enforced as written: once a manifest
    value is accepted the relay denies, with status 403, exactly the ports the
    value does not declare, and a list is kept as one to 64 distinct TCP
    ports in increasing order. *)
Theorem relay_policy_enforced value p :
  normalizeAgentPortRelayPolicy value = Ok p ->
  relay_normal p /\
  forall port,
    (agentPortRelayDenial p port = None <-> declared_ports value port) /\
    (forall status code, agentPortRelayDenial p port = Some (status, code) -> status = 403%Z).
Proof.
  assert (forall port status code q, agentPortRelayDenial q port = Some (status, code) -> status = 403%Z) as H403.
  { intros port status code []; simpl; try case_match; by intros [= <- <-]. }
  intros Hp. split; [|intros port; split; [|eauto]].
  - destruct value as [| |[]| | | |l|]; try done; try by injection Hp as <-. simpl in Hp.
    destruct (_ || _) eqn:Hl; [done|]. apply orb_false_iff in Hl as [?%Nat.eqb_neq ?%Nat.ltb_ge].
    destruct (mapM_result relay_port l) as [ports|] eqn:Hm; [|done]. simpl in Hp.
    destruct (Nat.eqb_spec (length (remove_dups ports)) (length ports)); [|done].
    injection Hp as <-. destruct (relay_ports _ _ Hm) as [-> Hr]. rewrite length_fmap in *.
    pose proof (merge_sort_Permutation Z.le ports) as HP. simpl. split_and!.
    + apply Sorted_merge_sort, _.
    + rewrite HP. by apply remove_dups_full.
    + by rewrite HP.
    + rewrite HP. lia.
    + by rewrite HP.
  - destruct value as [| |[]| | | |l|]; try done; try by injection Hp as <-. simpl in Hp.
    destruct (_ || _); [done|].
    destruct (mapM_result relay_port l) as [ports|] eqn:Hm; [|done]. simpl in Hp.
    destruct (negb _); [done|]. injection Hp as <-.
    destruct (relay_ports _ _ Hm) as [-> Hr]. simpl.
    rewrite list_elem_of_fmap. destruct (existsb _ _) eqn:He; split; try done.
    + intros _. apply existsb_exists in He as (z & Hz & <-%Z.eqb_eq).
      exists port. split; [done|]. apply list_elem_of_In in Hz.
      by rewrite merge_sort_Permutation in Hz.
    + intros (z & [= <-] & Hz). exfalso. apply not_true_iff_false in He. apply He, existsb_exists.
      exists port. split; [|apply Z.eqb_refl]. apply list_elem_of_In.
      by rewrite merge_sort_Permutation.
Qed.

Definition sample_ports : js := Arr [Num (Fin 9000); Num (Fin 7000)].

Theorem relay_policy_enforced_witness :
  agentPortRelayDenial (RelayListed [7000%Z; 9000%Z]) 7000 = None /\
  relay_normal (RelayListed [7000%Z; 9000%Z]).
Proof.
  pose proof (relay_policy_enforced sample_ports (RelayListed [7000%Z; 9000%Z])) as H.
  assert (normalizeAgentPortRelayPolicy sample_ports = Ok (RelayListed [7000%Z; 9000%Z])) as Hn
    by by vm_compute.
  destruct (H Hn) as [H1 H2]. split; [|exact H1].
  apply (H2 7000%Z). apply list_elem_of_further, list_elem_of_here.
Defined.

(** ** Router-owned segments *)

(** [k] layers of percent-encoding taken off. *)
Fixpoint peel (k : nat) (s : jstr) : result js_error jstr :=
  match k with
  | O => Ok s
  | S k => t ← decodeURIComponent s; peel k t
  end.

Lemma peel_fixed k s : decodeURIComponent s = Ok s -> peel k s = Ok s.
Proof. intros Hd. induction k as [|k IH]; [done|]. cbn [peel]. by rewrite Hd. Qed.

Lemma decode_layers_sound n s : exists k, k <= n /\ peel k s = Ok (decode_layers n s).
Proof.
  revert s. induction n as [|n IH]; intros s; [by exists 0|]. simpl.
  destruct (decodeURIComponent s) as [t|] eqn:Hd; [|exists 0; split; [lia|done]].
  destruct (jeqb t s); [exists 0; split; [lia|done]|].
  destruct (IH t) as (k & Hk & Hp). exists (S k). split; [lia|]. simpl. by rewrite Hd.
Qed.

Lemma decode_layers_complete n s k :
  k <= n -> peel k s = Ok "__agent" -> decode_layers n s = "__agent".
Proof.
  revert s k. induction n as [|n IH]; intros s k Hk Hp.
  - assert (k = 0) as -> by lia. simpl in Hp. by injection Hp as ->.
  - destruct k as [|k].
    { injection Hp as ->. by vm_compute; destruct n. }
    simpl in Hp. destruct (decodeURIComponent s) as [t|] eqn:Hd; [|done]. simpl in Hp.
    cbn [decode_layers]. rewrite Hd. destruct (jeqb t s) eqn:Ht.
    + apply jeqb_eq in Ht as ->. rewrite peel_fixed in Hp by done. by injection Hp.
    + apply (IH t k); [lia|done].
Qed.

(** Some segment of the path is [__agent] under at most [MAX_DECODE_PASSES]
    layers of percent-encoding. *)
Definition reaches_agent (segment : jstr) : Prop :=
  exists k, k <= MAX_DECODE_PASSES /\ peel k segment = Ok "__agent".

Lemma internal_segment_spec segment : internal_segment segment = true <-> reaches_agent segment.
Proof.
  unfold internal_segment, reaches_agent, fullyDecodeSegment.
  rewrite orb_true_iff, !jeqb_eq. split.
  - intros [->|H]; [exists 0; split; [lia|done]|].
    destruct (decode_layers_sound MAX_DECODE_PASSES segment) as (k & Hk & Hp).
    exists k. by rewrite Hp, H.
  - intros (k & Hk & Hp). right. by eapply decode_layers_complete.
Qed.

(** A path is classified as router-owned exactly when one of its
    non-empty segments, with query and fragment cut off, is [__agent] under
    zero to three layers of percent-encoding: an
    encoded spelling is caught like the literal one, and no other path is. *)
Theorem internal_paths_detected path :
  hasInternalAgentSegment path = true <->
  exists segment, segment ∈ split_on 47 (before 35 (before 63 path)) /\ segment <> [] /\
    reaches_agent segment.
Proof.
  unfold hasInternalAgentSegment, path_segments. rewrite existsb_exists. split.
  - intros (segment & Hin & Hs). apply list_elem_of_In, elem_of_bfilter in Hin as [Hin Ht].
    exists segment. by rewrite <- internal_segment_spec, <- truthy_true.
  - intros (segment & Hin & Ht & Hs). exists segment. split; [|by apply internal_segment_spec].
    apply list_elem_of_In, elem_of_bfilter. by rewrite truthy_true.
Qed.
