(* ===== verification/HttpRoutePath.v ===== *)
(** Policy-controlled HTTP paths and access classes:
    [src/cli/server/policy/HttpRouteAccessPath.js],
    [.../HttpRouteAccessDecision.js] and [.../PublicProtocolPolicy.js]. *)

From stdpp Require Import prelude.
From Stdlib Require Import NArith.
From S2P Require Import Prelude.
From S2P Require Import JsString.
From S2P Require Import JsNumber.
From S2P Require Import JsMap.
From S2P Require Import JsValue.
From S2P Require Import AgentPort.

Local Open Scope js_scope.

(** ** [HttpRouteAccessPath] *)

Definition READONLY_METHODS : list jstr := ["GET"; "HEAD"].

Definition INTERNAL_EXACT : list jstr :=
  ["/policy/command"; "/metrics"; "/health"; "/health/internal"].

Definition ROUTER_OWNED_FIRST_SEGMENTS : list jstr :=
  ["agent-card"; "mcp"; "auth"; "admin"; "webchat"; "webtty"; "status"; "upload"; "blobs";
   "workspace-files"; "api"; "health"; "metrics"; "MCPBrowserClient.js"; "web-libs"].

Definition isReadOnlyMethod (method : jstr) : bool := one_of (to_upper method) READONLY_METHODS.

(** [core.split('/').filter(Boolean)[0] || ''] *)
Definition routeKeyForPath (path : jstr) : jstr := default [] (head (path_segments path)).

(** The path an entry is about: [raw.slice(0, -2) || '/'] for a wildcard. *)
Definition internal_core (raw : jstr) : jstr :=
  if ends_with raw "/*" then sor (drop_last 2 raw) "/" else raw.

Definition isInternal (raw : jstr) : bool :=
  jeqb raw "/" || jeqb raw "/*" ||
  let core := internal_core raw in
  negb (truthy core) || jeqb core "/" || one_of core INTERNAL_EXACT ||
  (jeqb core "/auth" || starts_with core "/auth/") ||
  (jeqb core "/admin" || starts_with core "/admin/") ||
  hasInternalAgentSegment core ||
  one_of (routeKeyForPath core) ROUTER_OWNED_FIRST_SEGMENTS.

(** [/[a-z][a-z0-9+.-]*:\/\//i]: a letter, scheme units, then [://]. *)
Fixpoint scheme_tail (s : jstr) : bool :=
  match s with
  | c :: r =>
      if is_alnum c || has_unit c "+.-" then scheme_tail r else starts_with s "://"
  | [] => false
  end.

Fixpoint has_scheme (s : jstr) : bool :=
  match s with
  | c :: r => (is_alpha c && scheme_tail r) || has_scheme r
  | [] => false
  end.

(** The error messages of [normalize]. *)
Inductive path_error : Type :=
  | PathNotText
  | FragmentNotAllowed
  | NulNotAllowed
  | BackslashNotAllowed
  | SchemeNotAllowed
  | PathNotAbsolute
  | EncodedSeparator
  | WildcardNotAllowed
  | WildcardNotTrailing
  | DoubleSlash
  | RelativeSegment
  | InternalRoute.

Definition path_error_code (e : path_error) : jstr :=
  match e with
  | WildcardNotAllowed | WildcardNotTrailing => "INVALID_WILDCARD"
  | InternalRoute => "INTERNAL_ROUTE_NOT_ALLOWED"
  | _ => "INVALID_PATH"
  end.

Record normalized_path : Type := NormalizedPath {
  np_path : jstr;
  np_isWildcard : bool;
  np_prefix : jstr
}.

(** From the text that starts with a slash on. *)
Definition normalize_core (value : jstr) (allowWildcard : bool) : result path_error normalized_path :=
  let isWildcard := ends_with value "/*" in
  if isWildcard && negb allowWildcard then Err WildcardNotAllowed
  else
    let core := if isWildcard then sor (drop_last 2 value) "/" else value in
    if has_unit 42 core then Err WildcardNotTrailing
    else if includes core "//" then Err DoubleSlash
    else
      let segments := split_on 47 core in
      if one_of ".." segments || one_of "." segments then Err RelativeSegment
      else
        let path := if isWildcard then core ++ "/*" else core in
        if isInternal path then Err InternalRoute
        else Ok (NormalizedPath path isWildcard core).

Definition normalize_text (raw : jstr) (allowWildcard : bool) : result path_error normalized_path :=
  if negb (truthy (trim raw)) then Err PathNotText
  else
    let value := before 63 (trim raw) in
    if has_unit 35 value then Err FragmentNotAllowed
    else if has_unit 0 value then Err NulNotAllowed
    else if has_unit 92 value then Err BackslashNotAllowed
    else if has_scheme value then Err SchemeNotAllowed
    else if negb (starts_with value "/") then Err PathNotAbsolute
    else if has_separator_escape value then Err EncodedSeparator
    else normalize_core value allowWildcard.

Definition normalize (rawPath : js) (allowWildcard : bool) : result path_error normalized_path :=
  match rawPath with
  | Str raw => normalize_text raw allowWildcard
  | _ => Err PathNotText
  end.

Definition matches (requestPath entryPath : jstr) : bool :=
  if ends_with entryPath "/*" then
    let prefix := drop_last 2 entryPath in
    jeqb requestPath prefix || starts_with requestPath (prefix ++ "/")
  else jeqb requestPath entryPath.

(** ** [HttpRouteAccessDecision] *)

Inductive access : Type :=
  | NoAccess
  | Public
  | Guest
  | Authenticated
  | Deny.

#[export] Instance access_eq_dec : EqDecision access.
Proof. solve_decision. Defined.

Definition access_text (a : access) : jstr :=
  match a with
  | NoAccess => "none"
  | Public => "public"
  | Guest => "guest"
  | Authenticated => "authenticated"
  | Deny => "deny"
  end.

Definition RANK (a : access) : nat :=
  match a with
  | NoAccess => 0
  | Public => 1
  | Guest => 2
  | Authenticated => 3
  | Deny => 4
  end.

Definition HTTP_ROUTE_ACCESS_VALUES : list access := [Public; Guest; Authenticated].

(** The member of the set a text names. *)
Definition access_value (text : jstr) : option access :=
  find_first (fun a => jeqb (access_text a) text) HTTP_ROUTE_ACCESS_VALUES.

(** [None] is the empty text. *)
Definition normalizeHttpRouteAccess (value : js) : result js_error (option access) :=
  text ← trimmed_text value; Ok (access_value (to_lower text)).

(** ** [PublicProtocolPolicy] *)

Definition METHODS : list jstr := ["GET"; "HEAD"; "POST"; "OPTIONS"].

Record public_protocol : Type := PublicProtocol {
  pp_methods : list jstr;
  pp_allowLoopbackRedirects : bool;
  pp_allowCors : bool
}.

#[export] Instance public_protocol_eq_dec : EqDecision public_protocol.
Proof. solve_decision. Defined.

(** The messages of [fail], and an error thrown by a conversion. *)
Inductive protocol_error : Type :=
  | NotPublicManifest
  | ProtocolNotObject
  | ProtocolField
  | ProtocolMethods
  | ProtocolFlag
  | ProtocolPath.

(** [value.methods] when it is a non-empty unique list of known methods. *)
Fixpoint method_texts (l : list js) : option (list jstr) :=
  match l with
  | [] => Some []
  | Str m :: l => if one_of m METHODS then cons m <$> method_texts l else None
  | _ => None
  end.

Definition protocol_methods (value : js) : option (list jstr) :=
  match prop "methods" value with
  | Arr l =>
      ms ← method_texts l;
      if negb (length ms =? 0) && (length (remove_dups ms) =? length ms) then Some ms else None
  | _ => None
  end.

Definition protocol_fields : list jstr := ["methods"; "allowLoopbackRedirects"; "allowCors"].

(** [value[key] !== undefined && typeof value[key] !== 'boolean'] *)
Definition bad_flag (key : jstr) (value : js) : bool :=
  match prop key value with
  | Undefined | Bool _ => false
  | _ => true
  end.

(** [s.replace(/\*$/, '')] *)
Definition strip_star (s : jstr) : jstr := if ends_with s "*" then drop_last 1 s else s.

(** Lexicographic order of code units: what [sort] uses by default. *)
Fixpoint unit_le (a b : jstr) : bool :=
  match a, b with
  | [], _ => true
  | _ :: _, [] => false
  | c :: a, d :: b => (c <? d)%N || ((c =? d)%N && unit_le a b)
  end.

(** The selector of an admitted agent-port path, [null] when parsing throws. *)
Definition owned_selector (path : jstr) : option selector :=
  match parseAgentPortSelector (strip_star path) [] with
  | Ok s => s
  | Err _ => None
  end.

Definition normalizePublicProtocol (value : js) (a : access) (source path routeKey : jstr) :
    result protocol_error (option public_protocol) :=
  match value with
  | Undefined => Ok None
  | _ =>
      if negb (jeqb source "manifest") || negb (bool_decide (a = Public)) then Err NotPublicManifest
      else
        match value with
        | Obj fields =>
            if existsb (fun key => negb (one_of key protocol_fields)) (map_keys fields) then
              Err ProtocolField
            else
              match protocol_methods value with
              | None => Err ProtocolMethods
              | Some ms =>
                  if bad_flag "allowLoopbackRedirects" value || bad_flag "allowCors" value then
                    Err ProtocolFlag
                  else
                    match owned_selector path with
                    | Some s =>
                        if negb (jeqb (sel_agent s) routeKey) || negb (truthy (sel_suffix s)) ||
                           jeqb (sel_suffix s) "/" then Err ProtocolPath
                        else
                          Ok (Some (PublicProtocol (stable_sort unit_le ms)
                            (is_bool (prop "allowLoopbackRedirects" value) true)
                            (is_bool (prop "allowCors" value) true)))
                    | None => Err ProtocolPath
                    end
              end
        | _ => Err ProtocolNotObject
        end
  end.

(** [String(method || 'GET').toUpperCase()] *)
Definition method_name (method : jstr) : jstr := to_upper (sor method "GET").

Definition isPublicMethodAllowed (protocol : option public_protocol) (method : jstr) : bool :=
  let normalized := method_name method in
  match protocol with
  | Some p => one_of normalized (pp_methods p)
  | None => jeqb normalized "GET" || jeqb normalized "HEAD"
  end.
