(* ===== verification/HttpRoutePolicy.v ===== *)
(** The HTTP route access policy: [src/cli/server/policy/HttpRouteAccessPolicy.js]
    with [moreRestrictiveHttpRouteDecision] of [.../HttpRouteAccessDecision.js]. *)

From stdpp Require Import prelude.
From Stdlib Require Import NArith.
From S2P Require Import Prelude.
From S2P Require Import JsString.
From S2P Require Import JsNumber.
From S2P Require Import JsMap.
From S2P Require Import JsValue.
From S2P Require Import AgentPort.
From S2P Require Import HttpRoutePath.

Local Open Scope js_scope.

(** ** Entries *)

(** A normalized entry.  An empty [guestScope] or [guestScopeParam] is an
    absent property. *)
Record entry : Type := Entry {
  e_path : jstr;
  e_access : access;
  e_routeKey : jstr;
  e_source : jstr;
  e_publicProtocol : option public_protocol;
  e_guestScope : jstr;
  e_guestScopeParam : jstr
}.

Inductive entry_problem : Type :=
  | EntryNotObject
  | EntryEnabled
  | EntryAccess
  | EntryPath (e : path_error)
  | EntryRouteKey
  | EntryRouteKeyMissing
  | EntryGuestScope
  | EntryGuestScopeParam
  | EntryGuestScopeParamAccess
  | EntryProtocol (e : protocol_error).

(** [HTTP_ROUTE_POLICY_INVALID], or an error of the language. *)
Inductive policy_error : Type :=
  | HTTP_ROUTE_POLICY_INVALID (problem : entry_problem)
  | PolicyJs (e : js_error).

Definition invalidEntry (strict : bool) (problem : entry_problem) : result policy_error (option entry) :=
  if strict then Err (HTTP_ROUTE_POLICY_INVALID problem) else Ok None.

Definition lift_js {A} (r : result js_error A) : result policy_error A :=
  match r with
  | Ok a => Ok a
  | Err e => Err (PolicyJs e)
  end.

(** [/^[A-Za-z][A-Za-z0-9_-]{0,63}$/] *)
Definition GUEST_SCOPE_PARAM (s : jstr) : bool :=
  match s with
  | c :: r => is_alpha c && forallb (fun c => is_alnum c || has_unit c "_-") r && (length r <=? 63)
  | [] => false
  end.

(** [v === undefined ? '' : String(v || '').trim()] *)
Definition optional_text (v : js) : result policy_error jstr :=
  match v with
  | Undefined => Ok []
  | _ => lift_js (trimmed_text v)
  end.

Definition is_undefined (v : js) : bool :=
  match v with
  | Undefined => true
  | _ => false
  end.

(** [typeof v === 'string' && v.trim()] *)
Definition text_present (v : js) : bool :=
  match v with
  | Str s => truthy (trim s)
  | _ => false
  end.

Definition is_text (v : js) : bool :=
  match v with
  | Str _ => true
  | _ => false
  end.

(** From the route key on, the path and access being known. *)
Definition normalize_entry_tail (v : js) (source : jstr) (strict : bool) (a : access)
    (normalized : normalized_path) : result policy_error (option entry) :=
  let explicitRouteKey := prop "routeKey" v in
  if negb (is_undefined explicitRouteKey) && negb (text_present explicitRouteKey) then
    invalidEntry strict EntryRouteKey
  else
    let routeKey := trim (sor (str_or explicitRouteKey []) (routeKeyForPath (np_path normalized))) in
    if negb (truthy routeKey) then invalidEntry strict EntryRouteKeyMissing
    else
      let scope := prop "guestScope" v in
      guestScope ← optional_text scope;
      if negb (is_undefined scope) && (negb (is_text scope) || negb (truthy guestScope)) then
        invalidEntry strict EntryGuestScope
      else
        let param := prop "guestScopeParam" v in
        guestScopeParam ← optional_text param;
        if negb (is_undefined param) && (negb (is_text param) || negb (GUEST_SCOPE_PARAM guestScopeParam))
        then invalidEntry strict EntryGuestScopeParam
        else if truthy guestScopeParam && (negb (bool_decide (a = Guest)) || negb (truthy guestScope))
        then invalidEntry strict EntryGuestScopeParamAccess
        else
          match normalizePublicProtocol (prop "publicProtocol" v) a source (np_path normalized) routeKey with
          | Err e => invalidEntry strict (EntryProtocol e)
          | Ok publicProtocol =>
              if is_bool (prop "enabled" v) false then Ok None
              else
                src ← lift_js (to_string (js_or (prop "source" v) (Str source)));
                Ok (Some (Entry (np_path normalized) a routeKey src publicProtocol guestScope guestScopeParam))
          end.

Definition normalizeHttpRoutePolicyEntry (v : js) (source : jstr) (strict : bool) :
    result policy_error (option entry) :=
  if negb (is_plain v) then invalidEntry strict EntryNotObject
  else if match prop "enabled" v with Undefined | Bool _ => false | _ => true end then
    invalidEntry strict EntryEnabled
  else
    a ← lift_js (normalizeHttpRouteAccess (prop "access" v));
    match a with
    | None => invalidEntry strict EntryAccess
    | Some a =>
        path ← lift_js (trimmed_text (prop "path" v));
        match normalize_text path true with
        | Err e => invalidEntry strict (EntryPath e)
        | Ok normalized => normalize_entry_tail v source strict a normalized
        end
    end.

(** ** Decisions *)

(** A decision object: an entry, a route default, or a denial with its status
    and code.  Absent properties are [None] or the empty text. *)
Record decision : Type := Decision {
  d_access : access;
  d_status : option Z;
  d_code : jstr;
  d_routeKey : jstr;
  d_source : jstr;
  d_path : jstr;
  d_publicProtocol : option public_protocol;
  d_guestScope : jstr;
  d_guestScopeParam : jstr
}.

Definition noHttpRouteAccess : decision := Decision NoAccess None [] [] [] [] None [] [].

Definition deny (status : Z) (code routeKey source : jstr) : decision :=
  Decision Deny (Some status) code routeKey source [] None [] [].

Definition unroutableDecision : decision := deny 404 "UNROUTABLE_PATH" [] "policy".
Definition providersUnboundDecision : decision := deny 503 "POLICY_PROVIDERS_UNBOUND" [] "policy".

Definition entry_decision (e : entry) : decision :=
  Decision (e_access e) None [] (e_routeKey e) (e_source e) (e_path e) (e_publicProtocol e)
    (e_guestScope e) (e_guestScopeParam e).

Definition moreRestrictiveHttpRouteDecision (left right : decision) : decision :=
  if RANK (d_access left) <? RANK (d_access right) then right else left.

Definition applyPublicWriteGuard (d : decision) (method : jstr) : decision :=
  if bool_decide (d_access d = Public) && negb (isPublicMethodAllowed (d_publicProtocol d) method) then
    deny 403 "PUBLIC_ROUTE_WRITE_DENIED" (d_routeKey d) (d_source d)
  else d.

(** ** The policy object *)

(** What a route-default provider is asked, and may answer. *)
Definition default_provider : Type := jstr -> jstr -> jstr -> option decision.

(** [_repo.listHttpRoutes()] and the two providers.  A provider that is not
    bound is [None]. *)
Record policy : Type := Policy {
  p_corrupt : bool;
  p_entries : list js;
  p_manifestRouteProvider : option (list js);
  p_routeDefaultProvider : option default_provider
}.

Inductive bind_error : Type :=
  | AlreadyBound
  | ProvidersRequired.

(** A provider that is no function is [None]. *)
Definition bindProviders (manifest : option (list js)) (routeDefault : option default_provider) :
    stateM policy bind_error unit := fun p =>
  match p_manifestRouteProvider p, p_routeDefaultProvider p with
  | None, None =>
      match manifest, routeDefault with
      | Some _, Some _ => (Ok tt, Policy (p_corrupt p) (p_entries p) manifest routeDefault)
      | _, _ => (Err ProvidersRequired, p)
      end
  | _, _ => (Err AlreadyBound, p)
  end.

Definition hasProviders (p : policy) : bool :=
  match p_manifestRouteProvider p, p_routeDefaultProvider p with
  | Some _, Some _ => true
  | _, _ => false
  end.

Definition normalizedRequest (pathname : js) : jstr :=
  match normalize pathname false with
  | Ok n => np_path n
  | Err _ => []
  end.

(** The entries of one origin that survive normalization. *)
Fixpoint normalized_entries (source : jstr) (l : list js) : result policy_error (list entry) :=
  match l with
  | [] => Ok []
  | v :: l =>
      e ← normalizeHttpRoutePolicyEntry v source false;
      es ← normalized_entries source l;
      Ok match e with
         | Some e => e :: es
         | None => es
         end
  end.

(** [_iterPolicyEntries], run to its end. *)
Definition iterPolicyEntries (p : policy) (manifest : list js) : result policy_error (list entry) :=
  stored ← (if p_corrupt p then Ok [] else normalized_entries "policy" (p_entries p));
  declared ← normalized_entries "manifest" manifest;
  Ok (stored ++ declared).

(** The loop over the matching entries. *)
Definition most_restrictive (requestPath : jstr) (entries : list entry) : decision :=
  fold_left (fun d e =>
    if matches requestPath (e_path e) then moreRestrictiveHttpRouteDecision d (entry_decision e) else d)
    entries noHttpRouteAccess.

(** The part of [evaluate] after the entries are known. *)
Definition decide_request (entries : list entry) (routeDefault : default_provider)
    (requestPath method routeKey : jstr) : decision :=
  let d := most_restrictive requestPath entries in
  let d :=
    if bool_decide (d_access d = NoAccess) then
      let derivedRouteKey := sor routeKey (routeKeyForPath requestPath) in
      default noHttpRouteAccess (routeDefault requestPath method derivedRouteKey)
    else d in
  applyPublicWriteGuard d method.

Definition evaluate (p : policy) (pathname : js) (method routeKey : jstr) : result policy_error decision :=
  match p_manifestRouteProvider p, p_routeDefaultProvider p with
  | Some manifest, Some routeDefault =>
      let requestPath := normalizedRequest pathname in
      if negb (truthy requestPath) then Ok unroutableDecision
      else
        entries ← iterPolicyEntries p manifest;
        Ok (decide_request entries routeDefault requestPath method routeKey)
  | _, _ => Ok providersUnboundDecision
  end.
