(* ===== verification/HttpRouteCompiler.v ===== *)
(** Compilation of an HTTP policy into partitions of each namespace:
    [src/cli/server/policy/HttpRoutePolicyCompiler.js]. *)

From stdpp Require Import prelude.
From Stdlib Require Import NArith.
From S2P Require Import Prelude.
From S2P Require Import JsString.
From S2P Require Import JsNumber.
From S2P Require Import JsMap.
From S2P Require Import JsValue.
From S2P Require Import AgentPort.
From S2P Require Import HttpRoutePath.
From S2P Require Import HttpRoutePolicy.

Local Open Scope js_scope.

(** Errors by code; [HTTP_ROUTE_POLICY_INVALID] of the compiler itself is
    [CompileInvalid]. *)
Inductive compile_error : Type :=
  | CompileEntry (e : policy_error)
  | CompileInvalid
  | HTTP_ROUTE_POLICY_TIE
  | PRIVATE_HTTP_POLICY_INVALID.

Definition lift_policy {A} (r : result policy_error A) : result compile_error A :=
  match r with
  | Ok a => Ok a
  | Err e => Err (CompileEntry e)
  end.

(** [v?.k] followed by [String(... || d).trim()] *)
Definition text_of (v d : js) : result compile_error jstr := lift_policy (lift_js (trimmed_text (js_or v d))).

Definition normalizeRouteDefault (value : js) (routeKey : jstr) : result compile_error decision :=
  text ← text_of (optional "access" value) (Str []);
  match access_value (to_lower text) with
  | None => Err CompileInvalid
  | Some a =>
      selectedRouteKey ← text_of (optional "routeKey" value) (Str routeKey);
      if negb (truthy selectedRouteKey) then Err CompileInvalid
      else
        guestScope ← lift_policy (optional_text (optional "guestScope" value));
        if negb (is_undefined (optional "guestScope" value)) && negb (truthy guestScope) then
          Err CompileInvalid
        else
          source ← lift_policy (lift_js (to_string (js_or (optional "source" value) (Str "routeDefault"))));
          Ok (Decision a None [] selectedRouteKey source [] None guestScope [])
  end.

(** ** Partitions of a namespace *)

Definition path_core (path : jstr) : jstr :=
  if ends_with path "/*" then drop_last 2 path else path.

Definition entryCore (e : entry) : jstr := path_core (e_path e).

(** [core === root || core.startsWith(`${root}/`)] *)
Definition under (root core : jstr) : bool := jeqb core root || starts_with core (root ++ "/").

Definition entryIntersectsNamespace (e : entry) (root : jstr) : bool :=
  let core := entryCore e in
  if ends_with (e_path e) "/*" then under root core || starts_with root (core ++ "/")
  else under root core.

Definition joinPath (segments : list jstr) : jstr := "/" ++ join "/" segments.

(** [set.add(s)] on the elements of a [Set] in insertion order. *)
Definition set_add (s : jstr) (l : list jstr) : list jstr := if one_of s l then l else l ++ [s].

(** The prefixes of length [from], [from + 1], ... of a segment list. *)
Definition core_boundaries (from : nat) (segments : list jstr) : list jstr :=
  (fun k => joinPath (take k segments)) <$> seq from (S (length segments) - from).

Definition boundary_cores (root : jstr) (entries : list entry) : list jstr :=
  bfilter (under root) (entryCore <$> bfilter (fun e => entryIntersectsNamespace e root) entries).

Definition boundaries (root : jstr) (cores : list jstr) : list jstr :=
  let rootSegments := path_segments root in
  fold_left (fun acc core =>
    fold_left (fun acc b => set_add b acc)
      (core_boundaries (S (length rootSegments)) (path_segments core)) acc)
    cores [root].

(** The child segment of [core] below [base], when there is one. *)
Definition child_of (base core : jstr) : jstr :=
  if starts_with core (base ++ "/") then
    default [] (head (split_on 47 (drop (S (length base)) core)))
  else [].

Definition used_children (base : jstr) (cores : list jstr) : list jstr :=
  bfilter truthy (child_of base <$> cores).

Definition gap_name (suffix : nat) : jstr :=
  match suffix with
  | O => "__ploinky_partition_gap__"
  | _ => "__ploinky_partition_gap_" ++ string_of_Z (Z.of_nat suffix) ++ "__"
  end.

(** The [while] loop: the first name that is not used, from [suffix] on. *)
Fixpoint gap_from (fuel : nat) (used : list jstr) (suffix : nat) : jstr :=
  match fuel with
  | O => gap_name suffix
  | S fuel => if one_of (gap_name suffix) used then gap_from fuel used (S suffix) else gap_name suffix
  end.

Definition gap_candidate (used : list jstr) : jstr := gap_from (S (length used)) used 0.

(** [left.localeCompare(right)] belongs to the host: only its sign is used. *)
Class Collation := localeCompare : jstr -> jstr -> Z.

Section Compiler.
Context `{Collation}.

(** [leftDepth - rightDepth || left.localeCompare(right)] is at most zero. *)
Definition representative_le (left right : jstr) : bool :=
  let depth s := Z.of_nat (length (split_on 47 s)) in
  let d := (depth left - depth right)%Z in
  if (d =? 0)%Z then (localeCompare left right <=? 0)%Z else (d <? 0)%Z.

Definition representativePaths (root : jstr) (entries : list entry) : list jstr :=
  let boundaryCores := boundary_cores root entries in
  let bs := boundaries root boundaryCores in
  let representatives :=
    fold_left (fun acc base =>
      set_add (base ++ "/" ++ gap_candidate (used_children base boundaryCores)) acc) bs bs in
  stable_sort representative_le representatives.

(** ** Decisions of a partition *)

(** What [executionMetadata] returns; [metadataKey] is its JSON text, and two
    such objects have the same text exactly when they are equal. *)
Inductive metadata : Type :=
  | MetaPublic (protocol : option public_protocol)
  | MetaGuest (guestScope guestScopeParam : jstr)
  | MetaAuthenticated (routeKey : jstr).

#[export] Instance metadata_eq_dec : EqDecision metadata.
Proof. solve_decision. Defined.

Definition executionMetadata (d : decision) : metadata :=
  match d_access d with
  | Public => MetaPublic (d_publicProtocol d)
  | Guest => MetaGuest (sor (d_guestScope d) ("http-route:" ++ d_routeKey d)) (d_guestScopeParam d)
  | _ => MetaAuthenticated (d_routeKey d)
  end.

(** [{ ...d, ...executionMetadata(d) }] *)
Definition with_metadata (d : decision) : decision :=
  match executionMetadata d with
  | MetaPublic _ => d
  | MetaGuest scope _ =>
      Decision (d_access d) (d_status d) (d_code d) (d_routeKey d) (d_source d) (d_path d)
        (d_publicProtocol d) scope (d_guestScopeParam d)
  | MetaAuthenticated routeKey =>
      Decision Authenticated (d_status d) (d_code d) routeKey (d_source d) (d_path d)
        (d_publicProtocol d) (d_guestScope d) (d_guestScopeParam d)
  end.

Definition methodDecision (winner : decision) (method : jstr) : decision :=
  applyPublicWriteGuard winner method.

Definition PARTITION_METHODS : list jstr :=
  ["GET"; "HEAD"; "POST"; "OPTIONS"; "PUT"; "PATCH"; "DELETE"; "TRACE"; "CONNECT"].

Record partition : Type := Partition {
  pt_representative : jstr;
  pt_matching : list entry;
  pt_winner : decision;
  pt_methods : list (jstr * decision)
}.

(** A matching provider as the partition lists it: without its protocol. *)
Definition provider_view (e : entry) : entry :=
  Entry (e_path e) (e_access e) (e_routeKey e) (e_source e) None (e_guestScope e) (e_guestScopeParam e).

Definition partition_of (representative : jstr) (matching : list entry) (winner : decision) : partition :=
  Partition representative (provider_view <$> matching) (with_metadata winner)
    ((fun method => (method, methodDecision winner method)) <$> PARTITION_METHODS).

Definition evaluateRepresentative (entries : list entry) (routeDefault : decision) (representative : jstr) :
    result compile_error partition :=
  let matching := bfilter (fun e => matches representative (e_path e)) entries in
  let rank := foldr Nat.max 0 (RANK ∘ e_access <$> matching) in
  match bfilter (fun e => RANK (e_access e) =? rank) matching with
  | first :: tied =>
      let winner := entry_decision first in
      let expected := executionMetadata winner in
      if existsb (fun e => negb (bool_decide (executionMetadata (entry_decision e) = expected)))
           (first :: tied)
      then Err HTTP_ROUTE_POLICY_TIE
      else Ok (partition_of representative matching winner)
  | [] => Ok (partition_of representative matching routeDefault)
  end.

(** ** Namespaces *)

Record namespace : Type := Namespace {
  ns_id : jstr;
  ns_kind : jstr;
  ns_routeKey : jstr;
  ns_slug : jstr;
  ns_prefix : jstr;
  ns_requireAuthenticated : bool;
  ns_partitions : list partition
}.

Definition authenticated_everywhere (p : partition) : bool :=
  forallb (fun e => bool_decide (d_access e.2 = Authenticated)) (pt_methods p).

Definition compile_namespace (entries : list entry) (defaults : jmap jstr decision)
    (seen : list jstr) (v : js) : result compile_error namespace :=
  id ← text_of (optional "id" v) (Str []);
  routeKey ← text_of (optional "routeKey" v) (Str []);
  prefix ← lift_policy (lift_js (to_string (js_or (optional "prefix" v) (Str []))));
  match normalize_text prefix false with
  | Err _ => Err CompileInvalid
  | Ok normalized =>
      if negb (truthy id) || one_of id seen || negb (truthy routeKey) then Err CompileInvalid
      else
        match map_get routeKey defaults with
        | None => Err CompileInvalid
        | Some routeDefault =>
            partitions ← mapM_result (evaluateRepresentative entries routeDefault)
                           (representativePaths (np_path normalized) entries);
            let private := is_bool (prop "requireAuthenticated" v) true in
            if private && negb (forallb authenticated_everywhere partitions) then
              Err PRIVATE_HTTP_POLICY_INVALID
            else
              kind ← lift_policy (lift_js (to_string (js_or (prop "kind" v) (Str "route"))));
              slug ← lift_policy (lift_js (if js_truthy (prop "slug" v) then to_string (prop "slug" v) else Ok []));
              Ok (Namespace id kind routeKey slug (np_path normalized) private partitions)
        end
  end.

(** [namespaces.map(...)] with the identifiers seen so far. *)
Fixpoint compile_namespaces (entries : list entry) (defaults : jmap jstr decision)
    (seen : list jstr) (l : list js) : result compile_error (list namespace) :=
  match l with
  | [] => Ok []
  | v :: l =>
      ns ← compile_namespace entries defaults seen v;
      nss ← compile_namespaces entries defaults (ns_id ns :: seen) l;
      Ok (ns :: nss)
  end.

Record compiled_policy : Type := CompiledPolicy {
  cp_entries : list entry;
  cp_routeDefaults : jmap jstr decision;
  cp_namespaces : list namespace
}.

(** [normalizeHttpRoutePolicyEntry(entry, String(entry?.source || 'policy'),
    { strict: true })] *)
Definition compile_entry (v : js) : result compile_error (option entry) :=
  source ← lift_policy (lift_js (to_string (js_or (optional "source" v) (Str "policy"))));
  lift_policy (normalizeHttpRoutePolicyEntry v source true).

Definition compile_default (e : jstr * js) : result compile_error (jstr * decision) :=
  d ← normalizeRouteDefault e.2 e.1; Ok (e.1, d).

Definition compileHttpRoutePolicy (entries namespaces : list js) (routeDefaults : list (jstr * js)) :
    result compile_error compiled_policy :=
  normalized ← mapM_result compile_entry entries;
  let normalizedEntries := omap id normalized in
  normalizedDefaults ← mapM_result compile_default routeDefaults;
  compiled ← compile_namespaces normalizedEntries normalizedDefaults [] namespaces;
  Ok (CompiledPolicy normalizedEntries normalizedDefaults compiled).
End Compiler.
