(* ===== verification/HttpRouteFacts.v ===== *)
(** Facts about policy paths read as lists of segments, about the boundaries
    of a namespace and about the representatives of its partitions. *)

From stdpp Require Import prelude.
From Stdlib Require Import NArith.
From S2P Require Import Prelude.
From S2P Require Import JsString.
From S2P Require Import JsDecimal.
From S2P Require Import JsMap.
From S2P Require Import JsValue.
From S2P Require Import AgentPort.
From S2P Require Import HttpRoutePath.
From S2P Require Import HttpRoutePolicy.
From S2P Require Import HttpRouteCompiler.

Local Open Scope js_scope.

(** ** Segments *)

Definition segs (p : jstr) : list jstr := split_on 47 p.

Lemma segs_inj a b : segs a = segs b -> a = b.
Proof. apply split_on_inj. Qed.

Lemma segs_app a b : segs (a ++ "/" ++ b) = segs a ++ segs b.
Proof. apply split_on_app. Qed.

Lemma segs_plain s : 47%N ∉ s -> segs s = [s].
Proof. intros H. by apply split_on_None, index_of_None. Qed.

(** [core === root || core.startsWith(root + '/')] compares segment lists. *)
Lemma under_segs root core : under root core = true <-> segs root `prefix_of` segs core.
Proof.
  unfold under. rewrite orb_true_iff, jeqb_eq, starts_with_spec. split.
  - intros [->|[r ->]]; [done|]. rewrite <- app_assoc, segs_app. by apply prefix_app_r.
  - intros [l Hl]. destruct (decide (l = [])) as [->|Hne].
    + left. rewrite app_nil_r in Hl. by apply segs_inj.
    + right. exists (join "/" l). apply segs_inj. rewrite <- app_assoc, segs_app.
      rewrite Hl. f_equal. symmetry. apply split_join; [done|].
      apply Forall_forall. intros w Hw Hin.
      assert (Forall (fun w => 47%N ∉ w) (segs core)) as Hall by apply split_on_pieces.
      rewrite Forall_forall in Hall. apply (Hall w); [|done]. rewrite Hl. set_solver.
Qed.

(** A wildcard entry matches what is under its core, any other its path. *)
Lemma matches_core p path :
  matches p path = if ends_with path "/*" then under (path_core path) p else jeqb p path.
Proof. unfold matches, path_core. by destruct (ends_with path "/*"). Qed.

(** ** Clean paths: absolute, no empty segment, no trailing slash. *)

Definition clean_path (p : jstr) : bool :=
  match segs p with
  | [] :: ws => negb (length ws =? 0) && forallb truthy ws
  | _ => false
  end.

Lemma clean_segs p : clean_path p = true -> exists ws : list jstr, segs p = [] :: ws /\ Forall (fun w : jstr => w <> []) ws /\ ws <> [].
Proof.
  unfold clean_path. destruct (segs p) as [|[] ws]; try done.
  intros [Hn Hw]%andb_true_iff. exists ws. split_and!; [done| |by destruct ws].
  apply Forall_forall. intros w Hin. rewrite forallb_forall in Hw.
  apply truthy_true, Hw. by apply list_elem_of_In.
Qed.

Lemma bfilter_truthy ws : Forall (fun w : jstr => w <> []) ws -> bfilter truthy ws = ws.
Proof.
  intros H. apply bfilter_all. intros w Hw. rewrite Forall_forall in H. by apply truthy_true, H.
Qed.

Lemma clean_path_segments p ws :
  segs p = [] :: ws -> Forall (fun w : jstr => w <> []) ws -> path_segments p = ws.
Proof. intros Hs Hw. unfold path_segments. fold (segs p). rewrite Hs. simpl. by apply bfilter_truthy. Qed.

Lemma segs_joinPath ws :
  ws <> [] -> Forall (fun w => 47%N ∉ w) ws -> segs (joinPath ws) = [] :: ws.
Proof.
  intros Hne Hw. unfold joinPath, segs. change ("/" ++ join "/" ws) with ([] ++ [47%N] ++ join [47%N] ws).
  rewrite split_on_app. simpl. by rewrite split_join.
Qed.

Lemma segs_pieces p : Forall (fun w => 47%N ∉ w) (segs p).
Proof. apply split_on_pieces. Qed.

(** ** Sets in insertion order *)

Lemma elem_of_set_add x s l : x ∈ set_add s l <-> x ∈ l \/ x = s.
Proof.
  unfold set_add. destruct (one_of s l) eqn:Hs.
  - apply one_of_elem in Hs. split; [by left|]. by intros [?| ->].
  - set_solver.
Qed.

Lemma elem_of_fold_add {B} (f : B -> jstr) x (l : list B) acc :
  x ∈ fold_left (fun acc b => set_add (f b) acc) l acc <-> x ∈ acc \/ exists b, b ∈ l /\ x = f b.
Proof.
  revert acc. induction l as [|b l IH]; intros acc; simpl.
  - split; [by left|]. intros [?|(b & Hb & _)]; [done|]. set_solver.
  - rewrite IH, elem_of_set_add. split.
    + intros [[?| ->]|(b' & ? & ->)]; [by left| |]; right; eexists; (split; [|done]); set_solver.
    + intros [?|(b' & Hb & ->)]; [by left; left|].
      apply elem_of_cons in Hb as [->|Hb]; [by left; right|]. right. eauto.
Qed.

(** ** Boundaries *)

Lemma elem_of_core_boundaries b from ws :
  b ∈ core_boundaries from ws <-> exists k, from <= k <= length ws /\ b = joinPath (take k ws).
Proof.
  unfold core_boundaries. rewrite list_elem_of_fmap. split.
  - intros (k & -> & Hk). apply elem_of_seq in Hk. exists k. split; [lia|done].
  - intros (k & Hk & ->). exists k. split; [done|]. apply elem_of_seq. lia.
Qed.

Lemma elem_of_boundaries b root cores :
  b ∈ boundaries root cores <->
  b = root \/ exists core, core ∈ cores /\
    b ∈ core_boundaries (S (length (path_segments root))) (path_segments core).
Proof.
  unfold boundaries. set (from := S (length (path_segments root))). clearbody from.
  assert (forall acc, b ∈ fold_left (fun acc core =>
      fold_left (fun acc b => set_add b acc) (core_boundaries from (path_segments core)) acc) cores acc <->
    b ∈ acc \/ exists core, core ∈ cores /\ b ∈ core_boundaries from (path_segments core)) as H.
  { induction cores as [|c cores IH]; intros acc; simpl.
    - split; [by left|]. intros [?|(c & Hc & _)]; [done|]. set_solver.
    - rewrite IH, (elem_of_fold_add id). split.
      + intros [[?|(b' & ? & ->)]|(c' & ? & ?)]; [by left| |]; right; eexists; (split; [|done]); set_solver.
      + intros [?|(c' & Hc & Hb)]; [by left; left|].
        apply elem_of_cons in Hc as [->|Hc]; [left; right; by exists b|]. right. eauto. }
  rewrite H. by rewrite list_elem_of_singleton.
Qed.

(** A clean core under the root is itself a boundary. *)
Lemma core_boundary root core cores :
  core ∈ cores -> clean_path root = true -> clean_path core = true -> under root core = true ->
  core ∈ boundaries root cores.
Proof.
  intros Hin Hr Hc Hu. apply elem_of_boundaries.
  destruct (clean_segs _ Hr) as (rs & Hrs & Hrw & _), (clean_segs _ Hc) as (ws & Hws & Hww & Hne).
  apply under_segs in Hu. rewrite Hrs, Hws in Hu. destruct Hu as [l Hl]. simplify_eq/=.
  destruct (decide (l = [])) as [->|Hl].
  - left. apply segs_inj. by rewrite Hrs, Hws, app_nil_r.
  - right. exists core. split; [done|].
    rewrite (clean_path_segments root rs), (clean_path_segments core (rs ++ l)) by done.
    apply elem_of_core_boundaries. exists (length (rs ++ l)). split.
    + rewrite length_app. destruct l; [done|simpl; lia].
    + rewrite firstn_all. apply segs_inj. rewrite Hws, segs_joinPath; [done|done|].
      pose proof (segs_pieces core) as Hp. rewrite Hws in Hp. by inversion Hp.
Qed.

(** Boundaries lie under the root. *)
Lemma boundary_under root cores b :
  clean_path root = true -> (forall core, core ∈ cores -> clean_path core = true /\ under root core = true) ->
  b ∈ boundaries root cores -> under root b = true.
Proof.
  intros Hr Hcores Hb. apply under_segs. apply elem_of_boundaries in Hb as [->|(core & Hin & Hb)]; [done|].
  destruct (Hcores core Hin) as [Hc Hu].
  destruct (clean_segs _ Hr) as (rs & Hrs & Hrw & _), (clean_segs _ Hc) as (ws & Hws & Hww & Hne).
  rewrite (clean_path_segments root rs), (clean_path_segments core ws) in Hb by done.
  apply elem_of_core_boundaries in Hb as (k & Hk & ->).
  apply under_segs in Hu. rewrite Hrs, Hws in Hu. destruct Hu as [l Hl]. simplify_eq/=.
  rewrite segs_joinPath, Hrs, take_app_ge by
    first [lia | apply Forall_take; pose proof (segs_pieces core) as Hp; rewrite Hws in Hp; by inversion Hp
          | destruct k; [lia|by destruct rs, l]].
  by apply prefix_cons, prefix_app_r.
Qed.

(** ** The gap segment *)

Lemma gap_name_suffix n : n <> 0 ->
  exists ds, gap_name n = "__ploinky_partition_gap_" ++ ds ++ "__" /\
    decimal_value ds = Z.of_nat n /\ forallb is_digit ds = true /\ ds <> [].
Proof.
  intros Hn. destruct (string_of_N_spec (N.of_nat n)) as (ds & He & Hv & Hd & Hne). exists ds.
  split_and!; [|lia|done|done]. destruct n as [|n]; [done|]. unfold gap_name.
  assert (string_of_Z (Z.of_nat (S n)) = ds) as ->; [|done].
  rewrite <- He. unfold string_of_Z. simpl Z.of_nat. f_equal.
Qed.

Lemma gap_name_inj n m : gap_name n = gap_name m -> n = m.
Proof.
  assert (forall k, k <> 0 -> gap_name 0 <> gap_name k) as H0.
  { intros k Hk. destruct (gap_name_suffix k Hk) as (ds & -> & _ & Hd & Hne).
    destruct ds as [|d ds]; [done|]. intros [= <- _]. done. }
  destruct (decide (n = 0)) as [->|Hn], (decide (m = 0)) as [->|Hm]; try done.
  - intros H. by destruct (H0 m Hm).
  - intros H. by destruct (H0 n Hn).
  - destruct (gap_name_suffix n Hn) as (ds & -> & Hv & _), (gap_name_suffix m Hm) as (es & -> & Hw & _).
    intros H%app_inv_head%app_inv_tail. subst. lia.
Qed.

Lemma gap_name_plain n : 47%N ∉ gap_name n /\ gap_name n <> [].
Proof.
  destruct (decide (n = 0)) as [->|Hn].
  - split; [|done]. apply has_unit_false. by vm_compute.
  - destruct (gap_name_suffix n Hn) as (ds & -> & _ & Hd & _). split; [|done].
    rewrite !not_elem_of_app. split_and!.
    + apply has_unit_false. by vm_compute.
    + intros Hin. rewrite forallb_forall in Hd. apply list_elem_of_In in Hin.
      by specialize (Hd _ Hin).
    + apply has_unit_false. by vm_compute.
Qed.

Lemma gap_from_spec fuel used n :
  (exists k, n <= k /\ gap_from fuel used n = gap_name k /\ gap_name k ∉ used) \/
  (forall k, n <= k < n + fuel -> gap_name k ∈ used).
Proof.
  revert n. induction fuel as [|fuel IH]; intros n; simpl; [right; lia|].
  destruct (one_of (gap_name n) used) eqn:Hu.
  - destruct (IH (S n)) as [(k & ? & ? & ?)|Hall]; [left; exists k; split_and!; [lia|done|done]|].
    right. intros k Hk. destruct (decide (k = n)) as [->|]; [by apply one_of_elem|]. apply Hall. lia.
  - left. exists n. split_and!; [lia|done|]. intros Hin%one_of_elem. congruence.
Qed.

(** The loop ends: among [length used + 1] names one is free. *)
Lemma gap_candidate_fresh used : exists k, gap_candidate used = gap_name k /\ gap_name k ∉ used.
Proof.
  unfold gap_candidate.
  destruct (gap_from_spec (S (length used)) used 0) as [(k & _ & ? & ?)|Hall]; [eauto|].
  exfalso. set (names := gap_name <$> seq 0 (S (length used))).
  assert (NoDup names) as Hnd.
  { apply NoDup_fmap_2_strong; [|apply NoDup_seq]. intros x y _ _. apply gap_name_inj. }
  assert (names ⊆+ used) as Hsub.
  { apply NoDup_submseteq; [done|]. intros x (k & -> & Hk)%list_elem_of_fmap.
    apply elem_of_seq in Hk. apply Hall. lia. }
  apply submseteq_length in Hsub. unfold names in Hsub.
  rewrite length_fmap, length_seq in Hsub. lia.
Qed.

(** ** Representatives *)

Section Representatives.
Context `{Collation}.
Context (root : jstr) (entries : list entry).

Definition cores_of : list jstr := boundary_cores root entries.
Definition bounds_of : list jstr := boundaries root cores_of.

Lemma elem_of_boundary_cores core :
  core ∈ cores_of <-> exists e, e ∈ entries /\ core = entryCore e /\ under root core = true.
Proof.
  unfold cores_of, boundary_cores. rewrite elem_of_bfilter, list_elem_of_fmap.
  setoid_rewrite elem_of_bfilter. split.
  - intros [(e & -> & He & _) Hu]. eauto.
  - intros (e & He & -> & Hu). split; [|done]. exists e. split_and!; [done|done|].
    unfold entryIntersectsNamespace. rewrite Hu. by destruct (ends_with (e_path e) "/*").
Qed.

Lemma elem_of_representativePaths r :
  r ∈ representativePaths root entries <->
  r ∈ bounds_of \/
  exists b, b ∈ bounds_of /\ r = b ++ "/" ++ gap_candidate (used_children b cores_of).
Proof.
  unfold representativePaths. rewrite stable_sort_Permutation.
  by rewrite (elem_of_fold_add (fun b => b ++ "/" ++ gap_candidate (used_children b (boundary_cores root entries)))).
Qed.

(** The hypotheses of the partition theorem: the namespace root and every
    core below it are clean. *)
Definition clean_namespace : Prop :=
  clean_path root = true /\
  forall e, e ∈ entries -> under root (entryCore e) = true -> clean_path (entryCore e) = true.

Definition clean_namespaceb : bool :=
  clean_path root &&
  forallb (fun e => negb (under root (entryCore e)) || clean_path (entryCore e)) entries.

Lemma clean_namespaceb_spec : clean_namespaceb = true -> clean_namespace.
Proof.
  unfold clean_namespaceb, clean_namespace. intros [Hr He]%andb_true_iff. split; [done|].
  intros e Hin Hu. rewrite forallb_forall in He. apply list_elem_of_In in Hin.
  specialize (He e Hin). by rewrite Hu in He.
Qed.

Context (Hclean : clean_namespace).

Lemma core_is_boundary e :
  e ∈ entries -> under root (entryCore e) = true -> entryCore e ∈ bounds_of.
Proof.
  intros He Hu. destruct Hclean as [Hr Hc].
  apply core_boundary; [|done|by apply Hc|done]. apply elem_of_boundary_cores. eauto.
Qed.

Lemma bound_under b : b ∈ bounds_of -> under root b = true.
Proof.
  intros Hb. destruct Hclean as [Hr Hc]. eapply boundary_under; [done| |done].
  intros core (e & He & -> & Hu)%elem_of_boundary_cores. split; [by apply Hc|done].
Qed.

(** The longest boundary at or above a path of the namespace. *)
Lemma longest_boundary p :
  under root p = true ->
  exists b, b ∈ bounds_of /\ under b p = true /\
    forall b', b' ∈ bounds_of -> under b' p = true -> length (segs b') <= length (segs b).
Proof.
  intros Hp. apply (list_argmax (fun b => under b p) (fun b => length (segs b)) _ root); [|done].
  apply elem_of_boundaries. by left.
Qed.

(** A wildcard core or an exact path that reaches below the longest boundary
    is no entry of the namespace. *)
Lemma core_above p b e :
  under root p = true -> e ∈ entries -> under (entryCore e) p = true ->
  under b p = true -> under root b = true ->
  (forall b', b' ∈ bounds_of -> under b' p = true -> length (segs b') <= length (segs b)) ->
  segs (entryCore e) `prefix_of` segs b.
Proof.
  rewrite !under_segs. intros Hp He Hc Hb Hrb Hmax.
  destruct (prefix_weak_total _ _ _ Hc Hp) as [Hcr|Hrc]; [by etrans|].
  assert (length (segs (entryCore e)) <= length (segs b)) as Hlen.
  { apply Hmax; [|by apply under_segs]. apply core_is_boundary; [done|by apply under_segs]. }
  destruct (prefix_weak_total _ _ _ Hc Hb) as [|Hbc]; [done|].
  by rewrite (prefix_length_eq _ _ Hbc Hlen).
Qed.

Lemma gap_unused b e :
  e ∈ entries -> b ∈ bounds_of ->
  segs (entryCore e) <> segs b ++ [gap_candidate (used_children b cores_of)].
Proof.
  intros He Hb Heq. pose proof (bound_under b Hb) as Hrb.
  assert (under root (entryCore e) = true) as Hu.
  { apply under_segs. rewrite Heq. apply under_segs in Hrb. by apply prefix_app_r. }
  destruct (gap_candidate_fresh (used_children b cores_of)) as (k & Hk & Hfresh).
  destruct (gap_name_plain k) as [Hp Hne]. rewrite Hk in Heq.
  apply Hfresh. unfold used_children. apply elem_of_bfilter. split; [|by apply truthy_true].
  apply list_elem_of_fmap. exists (entryCore e). split; [|apply elem_of_boundary_cores; eauto].
  assert (entryCore e = b ++ "/" ++ gap_name k) as ->.
  { apply segs_inj. by rewrite Heq, segs_app, (segs_plain (gap_name k)). }
  unfold child_of. assert (starts_with (b ++ "/" ++ gap_name k) (b ++ "/") = true) as ->.
  { apply starts_with_spec. exists (gap_name k). by rewrite <- app_assoc. }
  replace (S (length b)) with (length (b ++ "/")) by (rewrite length_app; simpl; lia).
  rewrite (app_assoc b "/"), drop_app_length. fold (segs (gap_name k)). by rewrite segs_plain.
Qed.

(** Every path of the namespace has a representative that the same entries
    match. *)
Lemma representative_exists p :
  under root p = true ->
  exists r, r ∈ representativePaths root entries /\
    forall e, e ∈ entries -> matches r (e_path e) = matches p (e_path e).
Proof.
  intros Hp. destruct (longest_boundary p Hp) as (b & Hb & Hbp & Hmax).
  pose proof (bound_under b Hb) as Hrb.
  destruct (decide (p = b)) as [->|Hne].
  { exists b. split; [|done]. apply elem_of_representativePaths. by left. }
  set (gap := gap_candidate (used_children b cores_of)).
  exists (b ++ "/" ++ gap). split; [apply elem_of_representativePaths; right; by exists b|].
  assert (segs (b ++ "/" ++ gap) = segs b ++ [gap]) as Hr.
  { rewrite segs_app. f_equal. unfold gap.
    destruct (gap_candidate_fresh (used_children b cores_of)) as (k & -> & _).
    apply segs_plain, gap_name_plain. }
  intros e He. pose proof (gap_unused b e He Hb) as Hgap. fold gap in Hgap.
  pose proof (core_above p b e) as Habove.
  apply eq_true_iff_eq. rewrite !matches_core. unfold entryCore, path_core in *.
  destruct (ends_with (e_path e) "/*") eqn:Hw.
  - rewrite !under_segs in *. rewrite Hr. split.
    + intros [l Hl]. destruct l as [|x l _] using rev_ind; [by rewrite app_nil_r in Hl|].
      rewrite app_assoc in Hl. apply app_inj_tail in Hl as [Hl _]. etrans; [|done].
      by exists l.
    + intros Hc. apply prefix_app_r. by apply Habove.
  - rewrite !jeqb_eq. split.
    + intros Heq. by rewrite <- Heq, Hr in Hgap.
    + intros ->. destruct Hne. apply segs_inj. apply (anti_symm prefix); [|by apply under_segs].
      apply Habove; try done. by apply under_segs.
Qed.
End Representatives.
