(* ===== verification/HttpRouteTheorems.v ===== *)
(** The theorems about HTTP route access: which decision a request gets, and
    that the compiled partitions of a namespace predict it. *)

From stdpp Require Import prelude.
From Stdlib Require Import NArith.
From S2P Require Import Prelude.
From S2P Require Import JsString.
From S2P Require Import JsNumber.
From S2P Require Import JsMap.
From S2P Require Import JsValue.
From S2P Require Import AgentPort.
From S2P Require Import HttpRoutePath.
From S2P Require Import HttpRoutePolicy.
From S2P Require Import HttpRouteCompiler.
From S2P Require Import HttpRouteFacts.

Local Open Scope js_scope.

(** ** The prevailing entry *)

Notation rank e := (RANK (e_access e)).

(** [w] is the first of the entries of greatest rank in [l]. *)
Definition prevails (l : list entry) (w : decision) : Prop :=
  exists l1 e l2, l = l1 ++ e :: l2 /\ w = entry_decision e /\
    (forall e', e' ∈ l1 -> rank e' < rank e) /\ (forall e', e' ∈ l2 -> rank e' <= rank e).

Definition more (d : decision) (e : entry) : decision :=
  moreRestrictiveHttpRouteDecision d (entry_decision e).

Lemma fold_more l d :
  (fold_left more l d = d /\ forall e, e ∈ l -> rank e <= RANK (d_access d)) \/
  (prevails l (fold_left more l d) /\ RANK (d_access d) < RANK (d_access (fold_left more l d))).
Proof.
  revert d. induction l as [|x l IH]; intros d; simpl.
  - left. split; [done|]. intros e He. by apply not_elem_of_nil in He.
  - unfold more at 2 4 6, moreRestrictiveHttpRouteDecision. simpl.
    destruct (Nat.ltb_spec (RANK (d_access d)) (rank x)) as [Hlt|Hge].
    + right. destruct (IH (entry_decision x)) as [[-> Hall]|[(l1 & e & l2 & -> & -> & H1 & H2) Hr]].
      * split; [|done]. exists [], x, l. split_and!; try done. intros e' He. by apply not_elem_of_nil in He.
      * simpl in *. split; [|lia]. exists (x :: l1), e, l2. split_and!; try done.
        intros e' [->|He]%elem_of_cons; [done|by apply H1].
    + destruct (IH d) as [[-> Hall]|[(l1 & e & l2 & -> & Hw & H1 & H2) Hr]].
      * left. split; [done|]. intros e [->|He]%elem_of_cons; [done|by apply Hall].
      * right. split; [|done]. rewrite Hw in Hr |- *. simpl in Hr. exists (x :: l1), e, l2. split_and!; try done.
        intros e' [->|He]%elem_of_cons; [lia|by apply H1].
Qed.

Definition matching (path : jstr) (es : list entry) : list entry :=
  bfilter (fun e => matches path (e_path e)) es.

Lemma most_restrictive_matching path es :
  most_restrictive path es = fold_left more (matching path es) noHttpRouteAccess.
Proof.
  unfold most_restrictive, matching. generalize noHttpRouteAccess.
  induction es as [|e es IH]; intros d; simpl; [done|].
  by destruct (matches path (e_path e)); simpl; rewrite IH.
Qed.

(** Entries as normalization returns them: one of the three classes. *)
Definition classed (e : entry) : Prop := e_access e ∈ HTTP_ROUTE_ACCESS_VALUES.

Lemma classed_rank e : classed e -> 1 <= rank e <= 3.
Proof. unfold classed. destruct (e_access e); simpl; intros H; try lia; set_solver. Qed.

Lemma most_restrictive_spec path es :
  Forall classed es ->
  (matching path es = [] /\ most_restrictive path es = noHttpRouteAccess) \/
  (prevails (matching path es) (most_restrictive path es) /\
   d_access (most_restrictive path es) <> NoAccess).
Proof.
  intros Hes. rewrite most_restrictive_matching.
  destruct (fold_more (matching path es) noHttpRouteAccess) as [[-> Hall]|[Hp Hr]].
  - left. split; [|done]. destruct (matching path es) as [|e l] eqn:Hm; [done|].
    assert (e ∈ es) as He by (eapply elem_of_bfilter; unfold matching in Hm; rewrite Hm; left).
    rewrite Forall_forall in Hes. pose proof (classed_rank e (Hes e He)).
    specialize (Hall e ltac:(left)). simpl in Hall. lia.
  - right. split; [done|]. intros Hn. rewrite Hn in Hr. simpl in Hr. lia.
Qed.

(** ** Normalized entries *)

Lemma access_value_in t a : access_value t = Some a -> a ∈ HTTP_ROUTE_ACCESS_VALUES.
Proof. intros H. by apply find_first_Some in H as [? _]. Qed.

Lemma invalidEntry_None strict problem e : invalidEntry strict problem <> Ok (Some e).
Proof. by destruct strict. Qed.

Lemma normalize_entry_tail_Some v source strict a n e :
  normalize_entry_tail v source strict a n = Ok (Some e) -> e_access e = a /\ e_path e = np_path n.
Proof.
  unfold normalize_entry_tail. intros H.
  repeat match type of H with
  | (if ?b then _ else _) = _ => destruct b
  | invalidEntry _ _ = _ => by destruct (invalidEntry_None _ _ _ H)
  | mbind _ ?m = _ => destruct m; [|done]; cbn [mbind result_bind] in H
  | match ?m with _ => _ end = _ => destruct m
  end; by simplify_eq/=.
Qed.

Lemma normalized_entry v source strict e :
  normalizeHttpRoutePolicyEntry v source strict = Ok (Some e) ->
  classed e /\ exists raw n, normalize_text raw true = Ok n /\ e_path e = np_path n.
Proof.
  unfold normalizeHttpRoutePolicyEntry. intros H.
  destruct (negb (is_plain v)); [by destruct (invalidEntry_None _ _ _ H)|].
  destruct (match prop "enabled" v with Undefined | Bool _ => false | _ => true end);
    [by destruct (invalidEntry_None _ _ _ H)|].
  destruct (lift_js (normalizeHttpRouteAccess (prop "access" v))) as [[a|]|] eqn:Ha; cbn [mbind result_bind] in H;
    [|by destruct (invalidEntry_None _ _ _ H)|done].
  destruct (lift_js (trimmed_text (prop "path" v))) as [path|]; cbn [mbind result_bind] in H; [|done].
  destruct (normalize_text path true) as [n|] eqn:Hn; [|by destruct (invalidEntry_None _ _ _ H)].
  apply normalize_entry_tail_Some in H as [<- Hp]. split; [|by exists path, n].
  unfold normalizeHttpRouteAccess in Ha. destruct (trimmed_text _) as [t|]; simplify_eq/=.
  by eapply access_value_in.
Qed.

Lemma normalized_entries_classed source l es :
  normalized_entries source l = Ok es -> Forall classed es.
Proof.
  revert es. induction l as [|v l IH]; intros es; simpl; [by intros [= <-]|].
  destruct (normalizeHttpRoutePolicyEntry v source false) as [e|] eqn:He; [|done]. simpl.
  destruct (normalized_entries source l) as [es'|]; [|done]. simpl. intros [= <-].
  destruct e as [e|]; [|by apply IH]. constructor; [|by apply IH].
  by destruct (normalized_entry _ _ _ _ He).
Qed.

Lemma iterPolicyEntries_classed p manifest es :
  iterPolicyEntries p manifest = Ok es -> Forall classed es.
Proof.
  unfold iterPolicyEntries.
  destruct (if p_corrupt p then Ok [] else normalized_entries "policy" (p_entries p)) as [l|] eqn:Hl; [|done].
  simpl. destruct (normalized_entries "manifest" manifest) as [k|] eqn:Hk; [|done]. simpl. intros [= <-].
  apply Forall_app. split; [|by eapply normalized_entries_classed].
  destruct (p_corrupt p); [by simplify_eq|by eapply normalized_entries_classed].
Qed.

(** ** Evaluation *)

Lemma normalize_core_Ok value w n :
  normalize_core value w = Ok n -> isInternal (np_path n) = false /\ (np_isWildcard n = true -> w = true).
Proof.
  unfold normalize_core. intros H.
  destruct (ends_with value "/*" && negb w) eqn:Hw; [done|].
  repeat match type of H with
  | (if ?b then Err _ else _) = _ => destruct b eqn:?; [done|]
  end.
  simplify_eq/=. split; [done|]. intros Hv. rewrite Hv in Hw. by destruct w.
Qed.

Lemma normalize_text_Ok raw w n : normalize_text raw w = Ok n -> isInternal (np_path n) = false.
Proof.
  unfold normalize_text. intros H.
  repeat match type of H with
  | (if ?b then Err _ else _) = _ => destruct b; [done|]
  end. by apply normalize_core_Ok in H as [? _].
Qed.

Lemma normalizedRequest_external pathname :
  normalizedRequest pathname = [] \/ isInternal (normalizedRequest pathname) = false.
Proof.
  unfold normalizedRequest, normalize. destruct pathname; try by left.
  destruct (normalize_text s false) as [n|] eqn:Hn; [|by left]. right. by eapply normalize_text_Ok.
Qed.

(** The decision before the write guard: the prevailing entry among those that
    match, or what the route-default provider answers. *)
Definition chosen (es : list entry) (routeDefault : default_provider) (path method routeKey : jstr)
    (w : decision) : Prop :=
  prevails (matching path es) w \/
  (matching path es = [] /\
   w = default noHttpRouteAccess (routeDefault path method (sor routeKey (routeKeyForPath path)))).

Lemma decide_request_chosen es routeDefault path method routeKey :
  Forall classed es ->
  exists w, chosen es routeDefault path method routeKey w /\
    decide_request es routeDefault path method routeKey = applyPublicWriteGuard w method.
Proof.
  intros Hes. unfold decide_request, chosen.
  destruct (most_restrictive_spec path es Hes) as [[Hm ->]|[Hp Hn]].
  - rewrite bool_decide_true by done. eauto.
  - rewrite bool_decide_false by done. eauto.
Qed.

(** The methods a public protocol may name. *)
Lemma method_texts_known l ms : method_texts l = Some ms -> forall m, m ∈ ms -> m ∈ METHODS.
Proof.
  revert ms. induction l as [|v l IH]; intros ms; cbn [method_texts]; [by intros [= <-] m Hm%not_elem_of_nil|].
  destruct v; try done. destruct (one_of s METHODS) eqn:Hs; [|done]. apply one_of_elem in Hs.
  intros (ms' & Hms & ->)%fmap_Some m Hm.
  apply elem_of_cons in Hm as [->|Hm]; [done|by apply (IH ms')].
Qed.

Lemma normalizePublicProtocol_known v a source path routeKey pp :
  normalizePublicProtocol v a source path routeKey = Ok (Some pp) ->
  a = Public /\ source = "manifest" /\ forall m, m ∈ pp_methods pp -> m ∈ ["GET"; "HEAD"; "POST"; "OPTIONS"].
Proof.
  intros E. unfold normalizePublicProtocol in E. destruct v as [| | | | | |l|fields]; [done|..];
    (destruct (negb (jeqb source "manifest") || negb (bool_decide (a = Public))) eqn:Hb; [done|]); try done.
  apply orb_false_iff in Hb as [->%negb_false_iff%jeqb_eq ->%negb_false_iff%bool_decide_eq_true].
  split; [done|split; [done|]]. destruct (existsb _ _); [done|].
  destruct (protocol_methods (Obj fields)) as [ms|] eqn:Hp; [|done]. destruct (_ || _); [done|].
  destruct (owned_selector path) as [sel|]; [|done]. destruct (_ || _); [done|]. injection E as <-.
  intros m. cbn [pp_methods]. rewrite stable_sort_Permutation. unfold protocol_methods in Hp.
  destruct (prop "methods" (Obj fields)) as [| | | | | |l|]; try done.
  apply bind_Some in Hp as (ms' & Hms & Hp). destruct (_ && _); [|done]. injection Hp as <-.
  by eapply method_texts_known.
Qed.

(** Entries with a protocol are public entries of manifests. *)
Definition protocol_known (e : entry) : Prop :=
  forall pp, e_publicProtocol e = Some pp ->
    e_access e = Public /\ forall m, m ∈ pp_methods pp -> m ∈ ["GET"; "HEAD"; "POST"; "OPTIONS"].

Lemma normalize_entry_tail_protocol v source strict a n e :
  normalize_entry_tail v source strict a n = Ok (Some e) -> protocol_known e.
Proof.
  unfold normalize_entry_tail. intros H.
  repeat match type of H with
  | (if ?b then _ else _) = _ => destruct b
  | invalidEntry _ _ = _ => by destruct (invalidEntry_None _ _ _ H)
  | mbind _ ?m = _ => destruct m; [|done]; cbn [mbind result_bind] in H
  | match ?m with _ => _ end = _ => destruct m eqn:?
  end; simplify_eq/=; try done. intros pp Hpp. cbn [e_publicProtocol e_access] in *. subst.
  edestruct normalizePublicProtocol_known as (? & _ & ?); [eassumption|]. by split.
Qed.

Lemma normalized_entry_protocol v source strict e :
  normalizeHttpRoutePolicyEntry v source strict = Ok (Some e) -> protocol_known e.
Proof.
  unfold normalizeHttpRoutePolicyEntry. intros H.
  repeat match type of H with
  | (if ?b then _ else _) = _ => destruct b
  | invalidEntry _ _ = _ => by destruct (invalidEntry_None _ _ _ H)
  | mbind _ ?m = _ => destruct m; [|done]; cbn [mbind result_bind] in H
  | normalize_entry_tail _ _ _ _ _ = _ => by eapply normalize_entry_tail_protocol
  | match ?m with _ => _ end = _ => destruct m
  end.
Qed.

Lemma normalized_entries_protocol source l es :
  normalized_entries source l = Ok es -> Forall protocol_known es.
Proof.
  revert es. induction l as [|v l IH]; intros es; simpl; [by intros [= <-]|].
  destruct (normalizeHttpRoutePolicyEntry v source false) as [e|] eqn:He; [|done]. simpl.
  destruct (normalized_entries source l) as [es'|]; [|done]. simpl. intros [= <-].
  destruct e as [e|]; [|by apply IH]. constructor; [|by apply IH]. by eapply normalized_entry_protocol.
Qed.

Lemma iterPolicyEntries_protocol p manifest es :
  iterPolicyEntries p manifest = Ok es -> Forall protocol_known es.
Proof.
  unfold iterPolicyEntries. intros (stored & Hs & (declared & Hd & [= <-])%result_bind_Ok)%result_bind_Ok.
  apply Forall_app. split; [|by eapply normalized_entries_protocol].
  destruct (p_corrupt p); [by simplify_eq|by eapply normalized_entries_protocol].
Qed.

(** The requests a public decision is for: reading ones, or those its protocol names. *)
Definition open_to (protocol : option public_protocol) (method : jstr) : Prop :=
  match protocol with
  | None => method = "GET" \/ method = "HEAD"
  | Some pp => method ∈ pp_methods pp
  end.

(** [d] is the decision [w], unless [w] is public and not for this method. *)
Definition guarded (w : decision) (method : jstr) (d : decision) : Prop :=
  (d_access w = Public -> open_to (d_publicProtocol w) method) /\ d = w \/
  d_access w = Public /\ ~ open_to (d_publicProtocol w) method /\
    d = Decision Deny (Some 403%Z) "PUBLIC_ROUTE_WRITE_DENIED" (d_routeKey w) (d_source w) [] None [] [].

Lemma isPublicMethodAllowed_open protocol method :
  isPublicMethodAllowed protocol method = true <-> open_to protocol (to_upper (sor method "GET")).
Proof.
  unfold isPublicMethodAllowed, method_name, open_to. destruct protocol as [pp|]; [apply one_of_elem|].
  by rewrite orb_true_iff, !jeqb_eq.
Qed.

Lemma guard_guarded w method : guarded w (to_upper (sor method "GET")) (applyPublicWriteGuard w method).
Proof.
  unfold guarded, applyPublicWriteGuard. case_bool_decide as Ha; simpl; [|by left; split].
  destruct (isPublicMethodAllowed (d_publicProtocol w) method) eqn:Hp; simpl.
  - left. split; [|done]. intros _. by apply isPublicMethodAllowed_open.
  - right. split_and!; [done| |done]. rewrite <- isPublicMethodAllowed_open, Hp. done.
Qed.

(** C4. A decision of the bound policy is fail-closed: a request path that
    does not normalize to a policy-controlled path is denied with 404, every
    other gets the first of the most restrictive stored or manifest entries
    that match it, or the route default when none matches, unless this is public and
    not for the method: without a protocol a public decision is for GET and HEAD, with
    one for the methods it names, which for an entry are among GET, HEAD, POST
    and OPTIONS; every other method is denied with 403.  A missing method
    counts as GET, and letter case does not matter. *)
Theorem evaluate_most_restrictive p pathname method routeKey manifest routeDefault d :
  p_manifestRouteProvider p = Some manifest -> p_routeDefaultProvider p = Some routeDefault ->
  evaluate p pathname method routeKey = Ok d ->
  (normalizedRequest pathname = [] /\ d = unroutableDecision) \/
  exists es w, let path := normalizedRequest pathname in
    path <> [] /\ isInternal path = false /\ iterPolicyEntries p manifest = Ok es /\
    chosen es routeDefault path method routeKey w /\ guarded w (to_upper (sor method "GET")) d /\
    (forall pp m, matching path es <> [] -> d_publicProtocol w = Some pp -> m ∈ pp_methods pp ->
       m ∈ ["GET"; "HEAD"; "POST"; "OPTIONS"]).
Proof.
  intros Hm Hd. unfold evaluate. rewrite Hm, Hd.
  destruct (truthy (normalizedRequest pathname)) eqn:Ht; simpl.
  - destruct (iterPolicyEntries p manifest) as [es|] eqn:Hes; [|done]. simpl. intros [= <-].
    destruct (decide_request_chosen es routeDefault (normalizedRequest pathname) method routeKey)
      as (w & Hw & ->); [by eapply iterPolicyEntries_classed|].
    right. apply truthy_true in Ht. destruct (normalizedRequest_external pathname); [done|].
    exists es, w. split_and!; [done..|apply guard_guarded|]. intros pp m Hne Hpp Hin.
    destruct Hw as [(l1 & e & l2 & Hl & -> & _)|[? _]]; [|done].
    pose proof (iterPolicyEntries_protocol _ _ _ Hes) as Hall. rewrite Forall_forall in Hall.
    refine (proj2 (Hall e _ pp Hpp) m Hin). apply (elem_of_bfilter (fun e => matches (normalizedRequest pathname) (e_path e))).
    fold (matching (normalizedRequest pathname) es). rewrite Hl. set_solver.
  - apply truthy_false in Ht. intros [= <-]. by left.
Qed.

Definition sample_entries : list js :=
  [Obj [("path", Str "/shop/docs/*"); ("access", Str "public")];
   Obj [("path", Str "/shop/*"); ("access", Str " Guest "); ("guestScope", Str "shop")]].

Definition sample_policy : policy :=
  Policy false sample_entries (Some []) (Some (fun _ _ _ => None)).

Theorem evaluate_most_restrictive_witness :
  evaluate sample_policy (Str "/shop/docs/a") "GET" [] =
    Ok (Decision Guest None [] "shop" "policy" "/shop/*" None "shop" []) /\
  (normalizedRequest (Str "/shop/docs/a") = [] \/
   isInternal (normalizedRequest (Str "/shop/docs/a")) = false).
Proof.
  assert (evaluate sample_policy (Str "/shop/docs/a") "GET" [] =
    Ok (Decision Guest None [] "shop" "policy" "/shop/*" None "shop" [])) as H by by vm_compute.
  split; [exact H|].
  destruct (evaluate_most_restrictive sample_policy (Str "/shop/docs/a") "GET" [] [] (fun _ _ _ => None) _
    eq_refl eq_refl H) as [[? _]|(es & w & _ & ? & _)]; auto.
Defined.

(** ** Partitions *)

Lemma max_rank l e :
  e ∈ l -> (forall e', e' ∈ l -> rank e' <= rank e) -> foldr Nat.max 0 (RANK ∘ e_access <$> l) = rank e.
Proof.
  assert (forall k m, (forall e', e' ∈ k -> rank e' <= m) -> foldr Nat.max 0 (RANK ∘ e_access <$> k) <= m) as Hle.
  { intros k m. induction k as [|x k IH]; csimpl; [lia|]. intros Hk.
    pose proof (Hk x ltac:(left)) as Hx. rewrite Nat.max_lub_iff. split; [done|].
    apply IH. intros e' He. apply Hk. by right. }
  intros Hin Hmax. apply Nat.le_antisymm; [by apply Hle|].
  clear Hmax. induction Hin as [x l|x y l _ IH]; csimpl; unfold compose in *; lia.
Qed.

(** The first entry of maximal rank is the head of the tied ones. *)
Lemma prevails_head l w :
  prevails l w ->
  exists e tied, bfilter (fun e => RANK (e_access e) =? foldr Nat.max 0 (RANK ∘ e_access <$> l)) l = e :: tied /\
    w = entry_decision e.
Proof.
  intros (l1 & e & l2 & -> & -> & H1 & H2).
  rewrite (max_rank (l1 ++ e :: l2) e).
  - exists e, (bfilter (fun e' => rank e' =? rank e) l2). split; [|done].
    rewrite bfilter_app. simpl. rewrite Nat.eqb_refl.
    assert (bfilter (fun e' => rank e' =? rank e) l1 = []) as ->; [|done].
    clear H2. induction l1 as [|x l1 IH]; simpl; [done|].
    pose proof (H1 x ltac:(left)) as Hx. destruct (Nat.eqb_spec (rank x) (rank e)); [lia|].
    apply IH. intros e' He. apply H1. by right.
  - set_solver.
  - intros e' He. apply elem_of_app in He as [He|[->|He]%elem_of_cons]; [|done|by apply H2].
    specialize (H1 e' He). lia.
Qed.

(** The winner of a representative: what [most_restrictive] finds, or the
    default of the namespace. *)
Definition winner_at (es : list entry) (routeDefault : decision) (path : jstr) : decision :=
  match matching path es with
  | [] => routeDefault
  | _ => most_restrictive path es
  end.

Lemma evaluateRepresentative_Ok es routeDefault r pt :
  Forall classed es -> evaluateRepresentative es routeDefault r = Ok pt ->
  pt = partition_of r (matching r es) (winner_at es routeDefault r).
Proof.
  intros Hes. unfold evaluateRepresentative. fold (matching r es). unfold winner_at.
  destruct (most_restrictive_spec r es Hes) as [[Hm _]|[Hp _]].
  - rewrite Hm. simpl. by intros [= <-].
  - apply prevails_head in Hp as (e & tied & Hf & Hw). rewrite Hf, Hw.
    destruct (existsb _ (e :: tied)); [done|]. intros [= <-].
    destruct (matching r es) eqn:Hm; [done|]. done.
Qed.

Lemma decide_winner es routeDefault provider path method routeKey :
  Forall classed es -> truthy routeKey = true ->
  provider path method routeKey = Some routeDefault ->
  decide_request es provider path method routeKey =
  applyPublicWriteGuard (winner_at es routeDefault path) method.
Proof.
  intros Hes Hk Hp. unfold decide_request, winner_at, sor. rewrite Hk, Hp.
  destruct (most_restrictive_spec path es Hes) as [[Hm ->]|[Hprev Hn]].
  - by rewrite Hm.
  - rewrite bool_decide_false by done.
    destruct (matching path es) as [|e l] eqn:Hm; [|done].
    destruct Hprev as (l1 & e & l2 & Hl & _). by destruct l1.
Qed.

Lemma matching_ext es r p :
  (forall e, e ∈ es -> matches r (e_path e) = matches p (e_path e)) -> matching r es = matching p es.
Proof.
  unfold matching. induction es as [|e es IH]; simpl; [done|]. intros H.
  rewrite (H e) by left. rewrite IH; [done|]. intros e' He. apply H. by right.
Qed.

Lemma winner_ext es routeDefault r p :
  matching r es = matching p es -> winner_at es routeDefault r = winner_at es routeDefault p.
Proof. intros H. unfold winner_at. by rewrite !most_restrictive_matching, H. Qed.

Lemma mapM_result_elem {E A B} (f : A -> result E B) l bs a :
  mapM_result f l = Ok bs -> a ∈ l -> exists b, b ∈ bs /\ f a = Ok b.
Proof.
  revert bs. induction l as [|x l IH]; intros bs; simpl; [by intros _ ?%not_elem_of_nil|].
  destruct (f x) as [b|] eqn:Hb; [|done]. simpl.
  destruct (mapM_result f l) as [bs'|]; [|done]. simpl. intros [= <-] [->|Ha]%elem_of_cons.
  - exists b. split; [left|done].
  - destruct (IH bs' eq_refl Ha) as (b' & ? & ?). exists b'. split; [by right|done].
Qed.

(** ** Compiled namespaces *)

Section Compiled.
Context `{Collation}.

(** What compilation establishes about one namespace. *)
Definition namespace_ok (es : list entry) (defaults : jmap jstr decision) (ns : namespace) : Prop :=
  truthy (ns_routeKey ns) = true /\
  exists routeDefault, map_get (ns_routeKey ns) defaults = Some routeDefault /\
    mapM_result (evaluateRepresentative es routeDefault) (representativePaths (ns_prefix ns) es) =
      Ok (ns_partitions ns) /\
    (ns_requireAuthenticated ns = true -> forallb authenticated_everywhere (ns_partitions ns) = true).

Lemma compile_namespace_ok es defaults seen v ns :
  compile_namespace es defaults seen v = Ok ns -> namespace_ok es defaults ns.
Proof.
  unfold compile_namespace. intros H0.
  repeat match type of H0 with
  | mbind _ ?m = _ => destruct m eqn:?; [|done]; cbn [mbind result_bind] in H0
  | (if ?b then Err _ else _) = _ => destruct b eqn:?; [done|]
  | match ?m with _ => _ end = _ => destruct m eqn:?; try done
  end.
  simplify_eq/=. unfold namespace_ok. simpl. reflect_bools.
  split; [done|]. eexists. split_and!; [done|done|]. intros Hp.
  match goal with Hd : _ \/ _ |- _ => destruct Hd as [Hd|Hd]; [congruence|] end.
  by apply negb_false_iff.
Qed.

Lemma compile_namespaces_ok es defaults seen l nss ns :
  compile_namespaces es defaults seen l = Ok nss -> ns ∈ nss -> namespace_ok es defaults ns.
Proof.
  revert seen nss. induction l as [|v l IH]; intros seen nss; simpl;
    [intros [= <-]; by intros ?%not_elem_of_nil|].
  destruct (compile_namespace es defaults seen v) as [ns'|] eqn:Hns; [|done]. simpl.
  destruct (compile_namespaces es defaults _ l) as [nss'|] eqn:Hl; [|done]. simpl.
  intros [= <-] [->|Hin]%elem_of_cons; [by eapply compile_namespace_ok|]. by eapply IH.
Qed.

Lemma compile_entries_classed vs os :
  mapM_result compile_entry vs = Ok os -> Forall classed (omap id os).
Proof.
  revert os. induction vs as [|v vs IH]; intros os; simpl; [intros [= <-]; constructor|].
  destruct (compile_entry v) as [o|] eqn:Hv; [|done]. simpl.
  destruct (mapM_result compile_entry vs) as [os'|]; [|done]. simpl. intros [= <-].
  destruct o as [e|]; simpl; [|by apply IH]. constructor; [|by apply IH].
  unfold compile_entry in Hv. destruct (lift_policy (lift_js _)) as [source|]; [|done]. simpl in Hv.
  destruct (normalizeHttpRoutePolicyEntry v source true) as [[e'|]|] eqn:He; simplify_eq/=.
  by destruct (normalized_entry _ _ _ _ He).
Qed.

Lemma compile_ok entries namespaces defaults cp :
  compileHttpRoutePolicy entries namespaces defaults = Ok cp ->
  Forall classed (cp_entries cp) /\
  forall ns, ns ∈ cp_namespaces cp -> namespace_ok (cp_entries cp) (cp_routeDefaults cp) ns.
Proof.
  unfold compileHttpRoutePolicy.
  destruct (mapM_result compile_entry entries) as [os|] eqn:Hos; [|done]. simpl.
  destruct (mapM_result compile_default defaults) as [ds|]; [|done]. simpl.
  destruct (compile_namespaces _ _ _ _) as [nss|] eqn:Hnss; [|done]. simpl. intros [= <-]. simpl.
  split; [by eapply compile_entries_classed|]. intros ns Hns. by eapply compile_namespaces_ok.
Qed.

(** The provider the router binds: a look-up among the compiled defaults. *)
Definition compiled_defaults (cp : compiled_policy) : default_provider :=
  fun _ _ routeKey => map_get routeKey (cp_routeDefaults cp).

(** The partition that stands for a path of the namespace. *)
Lemma partition_for cp ns p :
  Forall classed (cp_entries cp) -> namespace_ok (cp_entries cp) (cp_routeDefaults cp) ns ->
  clean_namespace (ns_prefix ns) (cp_entries cp) -> under (ns_prefix ns) p = true ->
  exists r w, partition_of r (matching p (cp_entries cp)) w ∈ ns_partitions ns /\
    forall method, decide_request (cp_entries cp) (compiled_defaults cp) p method (ns_routeKey ns) =
      applyPublicWriteGuard w method.
Proof.
  intros Hes (Hk & dflt & Hd & Hpts & _) Hclean Hp.
  destruct (representative_exists _ _ Hclean p Hp) as (r & Hr & Hm).
  apply matching_ext in Hm. destruct (mapM_result_elem _ _ _ _ Hpts Hr) as (pt & Hin & He).
  apply evaluateRepresentative_Ok in He as ->; [|done].
  exists r, (winner_at (cp_entries cp) dflt p). rewrite <- Hm, <- (winner_ext _ _ _ _ Hm). split; [done|].
  intros method. rewrite (winner_ext _ _ _ _ Hm). by apply decide_winner.
Qed.
End Compiled.

Section Claims.
Context `{Collation}.

(** C9. The compiled partitions of a namespace are complete: when the
    namespace prefix and the paths of the entries below it have no trailing
    slash and no empty segment, every request path under the prefix has a partition that lists
    exactly the entries matching that path, and whose decision for each of the
    nine methods is the one the policy evaluates for that path at run time. *)
Theorem partitions_predict_decisions entries namespaces defaults cp ns p method :
  compileHttpRoutePolicy entries namespaces defaults = Ok cp -> ns ∈ cp_namespaces cp ->
  clean_namespace (ns_prefix ns) (cp_entries cp) -> under (ns_prefix ns) p = true ->
  method ∈ PARTITION_METHODS ->
  exists pt, pt ∈ ns_partitions ns /\
    pt_matching pt = provider_view <$> matching p (cp_entries cp) /\
    (method, decide_request (cp_entries cp) (compiled_defaults cp) p method (ns_routeKey ns)) ∈ pt_methods pt.
Proof.
  intros Hcomp Hns Hclean Hp Hmethod. apply compile_ok in Hcomp as [Hes Hok].
  destruct (partition_for cp ns p Hes (Hok ns Hns) Hclean Hp) as (r & w & Hin & Hd).
  eexists. split_and!; [exact Hin|done|]. unfold partition_of, pt_methods. apply list_elem_of_fmap.
  exists method. by rewrite Hd.
Qed.

(** C28. A private namespace is private: when compilation accepts a namespace
    that requires authentication, and neither its prefix nor the path of an entry
    below it ends in a slash or has an empty segment, then no path under its prefix and no method,
    known to the compiler or not, is decided otherwise than authenticated.  For
    entries with a trailing slash this fails ([trailing_slash_not_partitioned]). *)
Theorem private_namespace_sound entries namespaces defaults cp ns p method :
  compileHttpRoutePolicy entries namespaces defaults = Ok cp -> ns ∈ cp_namespaces cp ->
  ns_requireAuthenticated ns = true ->
  clean_namespace (ns_prefix ns) (cp_entries cp) -> under (ns_prefix ns) p = true ->
  d_access (decide_request (cp_entries cp) (compiled_defaults cp) p method (ns_routeKey ns)) = Authenticated.
Proof.
  intros Hcomp Hns Hpriv Hclean Hp. apply compile_ok in Hcomp as [Hes Hok].
  destruct (partition_for cp ns p Hes (Hok ns Hns) Hclean Hp) as (r & w & Hin & ->).
  destruct (Hok ns Hns) as (_ & _ & _ & _ & Hall).
  specialize (Hall Hpriv). rewrite forallb_forall in Hall. apply list_elem_of_In in Hin.
  specialize (Hall _ Hin). unfold authenticated_everywhere in Hall. simpl in Hall.
  apply andb_true_iff in Hall as [Hget%bool_decide_eq_true _].
  unfold methodDecision, applyPublicWriteGuard in *.
  destruct (bool_decide (d_access w = Public)) eqn:Hw; simpl in *.
  - apply bool_decide_eq_true in Hw. destruct (negb _) in Hget; simpl in Hget; congruence.
  - done.
Qed.
End Claims.

(** ** A sample policy *)

Definition unit_collation : Collation := fun a b =>
  if unit_le a b then if unit_le b a then 0%Z else (-1)%Z else 1%Z.

#[local] Existing Instance unit_collation.

Definition sample_namespaces : list js :=
  [Obj [("id", Str "agent-root:shop"); ("routeKey", Str "shop"); ("prefix", Str "/shop")];
   Obj [("id", Str "private:vault"); ("routeKey", Str "vault"); ("prefix", Str "/vault");
        ("requireAuthenticated", Bool true)]].

Definition sample_defaults : list (jstr * js) :=
  [("shop", Obj [("access", Str "public")]); ("vault", Obj [("access", Str "authenticated")])].

Definition no_policy : compiled_policy := CompiledPolicy [] [] [].
Definition no_namespace : namespace := Namespace [] [] [] [] [] false [].

Definition sample_compiled : compiled_policy :=
  or_else (compileHttpRoutePolicy sample_entries sample_namespaces sample_defaults) no_policy.

Definition sample_namespace (i : nat) : namespace := default no_namespace (cp_namespaces sample_compiled !! i).

Lemma sample_compiles :
  compileHttpRoutePolicy sample_entries sample_namespaces sample_defaults = Ok sample_compiled.
Proof. by vm_compute. Qed.

Lemma sample_namespace_in i : i < 2 -> sample_namespace i ∈ cp_namespaces sample_compiled.
Proof.
  intros Hi. apply (list_elem_of_lookup_2 _ i). unfold sample_namespace.
  destruct i as [|[|i]]; [by vm_compute|by vm_compute|lia].
Qed.

Lemma sample_clean i :
  i < 2 -> clean_namespace (ns_prefix (sample_namespace i)) (cp_entries sample_compiled).
Proof.
  intros Hi. apply clean_namespaceb_spec. destruct i as [|[|i]]; [by vm_compute|by vm_compute|lia].
Qed.

Theorem partitions_predict_decisions_witness :
  exists pt, pt ∈ ns_partitions (sample_namespace 0) /\
    pt_matching pt = provider_view <$> matching "/shop/docs/a" (cp_entries sample_compiled) /\
    ("POST", decide_request (cp_entries sample_compiled) (compiled_defaults sample_compiled)
       "/shop/docs/a" "POST" (ns_routeKey (sample_namespace 0))) ∈ pt_methods pt.
Proof.
  refine (partitions_predict_decisions sample_entries sample_namespaces sample_defaults sample_compiled
    (sample_namespace 0) "/shop/docs/a" "POST" sample_compiles
    (sample_namespace_in 0 ltac:(lia)) (sample_clean 0 ltac:(lia)) _ _).
  - by vm_compute.
  - apply one_of_elem. by vm_compute.
Defined.

Theorem private_namespace_sound_witness :
  d_access (decide_request (cp_entries sample_compiled) (compiled_defaults sample_compiled)
    "/vault/a/b" "PROPFIND" (ns_routeKey (sample_namespace 1))) = Authenticated.
Proof.
  refine (private_namespace_sound sample_entries sample_namespaces sample_defaults sample_compiled
    (sample_namespace 1) "/vault/a/b" "PROPFIND" sample_compiles
    (sample_namespace_in 1 ltac:(lia)) _ (sample_clean 1 ltac:(lia)) _).
  - by vm_compute.
  - by vm_compute.
Defined.

(** ** Paths with a trailing slash *)

Definition slash_entries : list js := [Obj [("path", Str "/vault/x/"); ("access", Str "public")]].

Definition slash_namespaces : list js :=
  [Obj [("id", Str "private:vault"); ("routeKey", Str "vault"); ("prefix", Str "/vault");
        ("requireAuthenticated", Bool true)]].

Definition slash_policy (cp : compiled_policy) : policy :=
  Policy false slash_entries (Some []) (Some (compiled_defaults cp)).

(** The partitions miss a path with a trailing slash: an entry that makes
    exactly [/vault/x/] public passes the check that the namespace [/vault] is
    authenticated everywhere, because the boundary of the entry is read as
    [/vault/x]; yet a request for [/vault/x/] is decided public. *)
Theorem trailing_slash_not_partitioned :
  exists cp d, compileHttpRoutePolicy slash_entries slash_namespaces sample_defaults = Ok cp /\
    forallb ns_requireAuthenticated (cp_namespaces cp) = true /\
    under "/vault" "/vault/x/" = true /\
    evaluate (slash_policy cp) (Str "/vault/x/") "GET" "vault" = Ok d /\ d_access d = Public.
Proof.
  exists (or_else (compileHttpRoutePolicy slash_entries slash_namespaces sample_defaults) no_policy).
  exists (Decision Public None [] "vault" "policy" "/vault/x/" None [] []).
  split_and!; by vm_compute.
Qed.
