(* ===== verification/PolicyRepository.v ===== *)
(** The router policy document: the persistence interface
    [src/cli/server/policy/PolicyStateStore.js], the repository with its read
    cache [.../PolicyStateRepository.js] and the in-memory store
    [.../InMemoryPolicyStateStore.js]. *)

From stdpp Require Import prelude relations.
From Stdlib Require Import NArith.
From S2P Require Import Prelude.
From S2P Require Import JsString.
From S2P Require Import JsNumber.
From S2P Require Import JsMap.
From S2P Require Import JsValue.

Local Open Scope js_scope.

(** ** The store interface

    What an operation throws is not looked at: a thrown error is [Err tt].
    [read] returns the [document] property, [undefined] when nothing is found. *)
Class PolicyStateStore (S : Type) : Type := {
  currentVersion : S -> result unit (option jstr);
  read : S -> result unit js;
  write : js -> S -> result unit jstr * S
}.

(** What a reader of the store sees: its failure, nothing persisted, or a document. *)
Definition observed {S} `{PolicyStateStore S} (s : S) : result unit (option (result unit js)) :=
  match currentVersion s with
  | Err _ => Err tt
  | Ok None => Ok None
  | Ok (Some _) => Ok (Some (read s))
  end.

(** The contract of the interface's documentation, the meaning of a version apart.
    [store_step] is any change of the persisted document, by this process or another.
    A write that throws may have replaced the document or not, but not in part. *)
Class StoreContract (S : Type) `{PolicyStateStore S} : Type := {
  store_step : S -> S -> Prop;
  version_nonempty s v : currentVersion s = Ok (Some v) -> v <> [];
  write_step d s : store_step s (snd (write d s));
  write_read d s v : is_plain d = true -> fst (write d s) = Ok v ->
    read (snd (write d s)) = Ok d /\ currentVersion (snd (write d s)) = Ok (Some v);
  write_atomic d s : is_plain d = true ->
    observed (snd (write d s)) = observed s \/ observed (snd (write d s)) = Ok (Some (Ok d))
}.

(** Its demand on versions: the same version is the same document.  A version made of
    a time and a size, as that of the file store, does not meet it when the document
    is replaced by one of the same size within the resolution of the clock. *)
Class ExactVersions (S : Type) `{StoreContract S} : Prop :=
  version_identifies s s' v :
    rtc store_step s s' -> currentVersion s = Ok (Some v) -> currentVersion s' = Ok (Some v) ->
    read s = read s'.

(** ** The document *)

Definition SCHEMA : jstr := "router-policy".
Definition MCP_ACCESS_VALUES : list jstr := ["authenticated"; "internal"; "admin"].
Definition ROUTE_ACCESS_VALUES : list jstr := ["public"; "guest"; "authenticated"].

Record policy_state : Type := PolicyState {
  httpRoutes : list js;
  mcpTools : list js
}.

Definition emptyState : policy_state := PolicyState [] [].

(** The object [{ schema, httpRoutes, mcpTools }] that is written. *)
Definition state_document (s : policy_state) : js :=
  Obj [("schema", Str SCHEMA); ("httpRoutes", Arr (httpRoutes s)); ("mcpTools", Arr (mcpTools s))].

(** A property that is a non-empty string. *)
Definition text_prop (k : jstr) (v : js) : bool :=
  match prop k v with
  | Str s => truthy s
  | _ => false
  end.

Definition valid_mcp_entry (v : js) : bool :=
  js_truthy v && text_prop "agent" v && text_prop "tool" v &&
  match prop "access" v with
  | Str a => one_of a MCP_ACCESS_VALUES
  | _ => false
  end.

Definition valid_http_entry (v : js) : bool :=
  js_truthy v && text_prop "path" v &&
  match trimmed_text (prop "access" v) with
  | Ok a => one_of (to_lower a) ROUTE_ACCESS_VALUES
  | Err _ => false
  end.

(** [None] when it throws. *)
Definition validateState (parsed : js) : option policy_state :=
  match parsed with
  | Obj _ =>
      if negb (is_str (prop "schema" parsed) SCHEMA) then None
      else
        match prop "httpRoutes" parsed, prop "mcpTools" parsed with
        | Arr http, Arr mcp =>
            if forallb valid_mcp_entry mcp && forallb valid_http_entry http
            then Some (PolicyState http mcp) else None
        | _, _ => None
        end
  | _ => None
  end.

Definition text_of_prop (k : jstr) (v : js) : jstr := str_or (prop k v) [].

(** [`${agent} ${tool}`] *)
Definition mcp_key (agent tool : jstr) : jstr := agent ++ " " ++ tool.

Definition index_mcp (l : list js) : jmap jstr js :=
  fold_left (fun m v => map_set (mcp_key (text_of_prop "agent" v) (text_of_prop "tool" v)) v m) l [].

Definition index_http (l : list js) : jmap jstr js :=
  fold_left (fun m v => map_set (text_of_prop "path" v) v m) l [].

(** ** The repository *)

(** [{ ok: true, state, index }] or [{ ok: false, corrupt: true }]; the index
    is [buildIndex(state)]. *)
Inductive loaded : Type :=
  | Loaded (state : policy_state) (mcp http : jmap jstr js)
  | Corrupt.

Definition buildIndex (s : policy_state) : loaded :=
  Loaded s (index_mcp (mcpTools s)) (index_http (httpRoutes s)).

Record repository (S : Type) : Type := Repository {
  r_store : S;
  r_cache : option loaded;
  r_cacheKey : jstr
}.

Arguments Repository {S}.
Arguments r_store {S}.
Arguments r_cache {S}.
Arguments r_cacheKey {S}.

(** An entry, the marker [{ corrupt: true }], or [null]. *)
Inductive lookup : Type :=
  | Entry_corrupt
  | Entry_missing
  | Entry_found (v : js).

Inductive mutate_error : Type :=
  | POLICY_PERSISTENCE_ERROR
  | InvalidState
  | StoreFailed.

Section Repository.
Context {S : Type} `{PolicyStateStore S}.

Definition newRepository (s : S) : repository S := Repository s None [].

Definition from_document (doc : result unit js) : loaded :=
  match doc with
  | Ok d =>
      match validateState d with
      | Some s => buildIndex s
      | None => Corrupt
      end
  | Err _ => Corrupt
  end.

Definition load (r : repository S) : loaded * repository S :=
  let keep l key := (l, Repository (r_store r) (Some l) key) in
  match currentVersion (r_store r) with
  | Err _ => keep Corrupt []
  | Ok None => keep (buildIndex emptyState) []
  | Ok (Some version) =>
      match r_cache r with
      | Some c =>
          if jeqb (r_cacheKey r) version then (c, r)
          else keep (from_document (read (r_store r))) version
      | None => keep (from_document (read (r_store r))) version
      end
  end.

Definition invalidate (r : repository S) : repository S := Repository (r_store r) None [].

Definition isCorrupt (r : repository S) : bool * repository S :=
  let '(l, r) := load r in
  (match l with
   | Corrupt => true
   | Loaded _ _ _ => false
   end, r).

Definition snapshot (r : repository S) : loaded * repository S := load r.

Definition lookup_in (m : jmap jstr js) (k : jstr) : lookup :=
  match map_get k m with
  | Some v => Entry_found v
  | None => Entry_missing
  end.

Definition getMcpToolEntry (agent tool : jstr) (r : repository S) : lookup * repository S :=
  let '(l, r) := load r in
  (match l with
   | Corrupt => Entry_corrupt
   | Loaded _ mcp _ => lookup_in mcp (mcp_key agent tool)
   end, r).

Definition getHttpRouteEntry (normalizedPath : jstr) (r : repository S) : lookup * repository S :=
  let '(l, r) := load r in
  (match l with
   | Corrupt => Entry_corrupt
   | Loaded _ _ http => lookup_in http normalizedPath
   end, r).

(** [{ corrupt, entries }]; [None] is the corrupt answer with no entries. *)
Definition listMcpTools (r : repository S) : option (list js) * repository S :=
  let '(l, r) := load r in
  (match l with
   | Corrupt => None
   | Loaded s _ _ => Some (mcpTools s)
   end, r).

Definition listHttpRoutes (r : repository S) : option (list js) * repository S :=
  let '(l, r) := load r in
  (match l with
   | Corrupt => None
   | Loaded s _ _ => Some (httpRoutes s)
   end, r).

(** [updater] works on a clone and returns the state to persist. *)
Definition mutate (updater : policy_state -> policy_state) :
    stateM (repository S) mutate_error policy_state := fun r =>
  let '(l, r) := load r in
  match l with
  | Corrupt => (Err POLICY_PERSISTENCE_ERROR, r)
  | Loaded s _ _ =>
      match validateState (state_document (updater s)) with
      | None => (Err InvalidState, r)
      | Some validated =>
          match write (state_document validated) (r_store r) with
          | (Ok _, st) => (Ok validated, invalidate (Repository st (r_cache r) (r_cacheKey r)))
          | (Err _, st) => (Err StoreFailed, Repository st (r_cache r) (r_cacheKey r))
          end
      end
  end.
End Repository.

(** ** The in-memory store *)

Record memory_store : Type := MemoryStore {
  m_document : option js;
  m_version : N
}.

(** A document of JSON data is its own deep copy; a falsy one is none. *)
Definition newMemoryStore (document : option js) : memory_store :=
  match document with
  | Some d => if js_truthy d then MemoryStore (Some d) 1 else MemoryStore None 0
  | None => MemoryStore None 0
  end.

#[export] Instance memory_policy_store : PolicyStateStore memory_store := {
  currentVersion s :=
    Ok (match m_document s with
        | Some _ => Some (string_of_N (m_version s))
        | None => None
        end);
  read s :=
    Ok (match m_document s with
        | Some d => d
        | None => Undefined
        end);
  write d s :=
    let version := (m_version s + 1)%N in
    (Ok (string_of_N version), MemoryStore (if js_truthy d then Some d else None) version)
}.
