(* ===== verification/McpToolPolicy.v ===== *)
(** Who may call which tool: [src/cli/server/policy/McpToolPolicy.js] and
    [.../Caller.js], over the policy repository. *)

From stdpp Require Import prelude.
From Stdlib Require Import NArith.
From S2P Require Import Prelude.
From S2P Require Import JsString.
From S2P Require Import JsNumber.
From S2P Require Import JsMap.
From S2P Require Import JsValue.
From S2P Require Import AgentPort.
From S2P Require Import HttpRoutePath.
From S2P Require Import HttpRoutePolicy.
From S2P Require Import PolicyRepository.

Local Open Scope js_scope.

(** ** Callers *)

Inductive caller_kind : Type :=
  | AgentCaller
  | UserCaller
  | GuestCaller
  | NoCaller.

#[export] Instance caller_kind_eq_dec : EqDecision caller_kind.
Proof. solve_decision. Defined.

Record caller : Type := Caller {
  c_kind : caller_kind;
  c_id : jstr;
  c_roles : list jstr;
  c_isAdmin : bool;
  c_delegatedUser : js;
  c_delegatedTool : jstr;
  c_sourceAgentId : jstr
}.

(** [String(v || '')] *)
Definition text_or_empty (v : js) : result js_error jstr := to_string (js_or v (Str [])).

Definition request_roles (v : js) : result js_error (list jstr) :=
  match v with
  | Arr l =>
      ts ← mapM_result trimmed_text l; Ok (bfilter truthy (to_lower <$> ts))
  | _ => Ok []
  end.

Definition fromRequest (req : js) : result js_error caller :=
  let delegated := optional "delegatedAgentVerified" req in
  let user := optional "user" req in
  if is_truthy_object delegated && js_truthy (prop "callerPrincipal" delegated) then
    let delegation := optional "delegation" (optional "userDelegation" delegated) in
    id ← to_string (prop "callerPrincipal" delegated);
    tool ← text_or_empty (optional "tool" delegation);
    source ← text_or_empty (js_or (optional "sourceAgentId" delegation) (prop "callerPrincipal" delegated));
    Ok (Caller AgentCaller id [] false
          (js_or (optional "user" (optional "userDelegation" delegated)) Null) tool source)
  else if is_truthy_object user then
    roles ← request_roles (prop "roles" user);
    let isGuest := one_of "guest" roles in
    id ← text_or_empty (prop "id" user);
    Ok (Caller (if isGuest then GuestCaller else UserCaller) id roles
          (negb isGuest && one_of "admin" roles) Null [] [])
  else Ok (Caller NoCaller [] [] false Null [] []).

(** ** Access classes of tools *)

Inductive tool_access : Type :=
  | ToolAuthenticated
  | ToolInternal
  | ToolAdmin.

#[export] Instance tool_access_eq_dec : EqDecision tool_access.
Proof. solve_decision. Defined.

Definition tool_access_text (a : tool_access) : jstr :=
  match a with
  | ToolAuthenticated => "authenticated"
  | ToolInternal => "internal"
  | ToolAdmin => "admin"
  end.

Definition ACCESS_TAGS : list jstr := ["authenticated"; "internal"; "admin"].

Inductive tag_problem : Type :=
  | UnknownTag (tag : jstr)
  | InternalAdmin.

(** The loop over the tags, then the classification. *)
Definition classify_tags (l : list jstr) : result tag_problem tool_access :=
  match find_first (fun tag => negb (one_of tag ACCESS_TAGS)) l with
  | Some tag => Err (UnknownTag tag)
  | None =>
      if one_of "internal" l && one_of "admin" l then Err InternalAdmin
      else if one_of "internal" l then Ok ToolInternal
      else if one_of "admin" l then Ok ToolAdmin
      else Ok ToolAuthenticated
  end.

Definition accessFromTags (tags : js) : result js_error (result tag_problem tool_access) :=
  l ← request_roles tags; Ok (classify_tags l).

(** ** Bootstrapping defaults *)

Record tool_default : Type := ToolDefault {
  td_agent : jstr;
  td_tool : jstr;
  td_access : tool_access
}.

Definition default_entry (now : jstr) (d : tool_default) : js :=
  Obj [("agent", Str (td_agent d)); ("tool", Str (td_tool d));
       ("access", Str (tool_access_text (td_access d))); ("source", Str "mcp-config");
       ("enabled", Bool true); ("createdAt", Str now); ("createdBy", Str "router:boot");
       ("updatedAt", Str now); ("updatedBy", Str "router:boot")].

Definition entry_key (v : js) : jstr := mcp_key (text_of_prop "agent" v) (text_of_prop "tool" v).

(** One default: pushed unless its key was seen. *)
Definition add_default (now : jstr) (acc : list js * list jstr * nat) (d : tool_default) :
    list js * list jstr * nat :=
  let '(tools, seen, added) := acc in
  let key := mcp_key (td_agent d) (td_tool d) in
  if one_of key seen then acc
  else (tools ++ [default_entry now d], key :: seen, S added).

Definition add_defaults (now : jstr) (defaults : list tool_default) (tools : list js) :
    list js * list jstr * nat :=
  fold_left (add_default now) defaults (tools, entry_key <$> tools, 0).

(** One tool of a configuration file: skipped without a name or with invalid
    tags. *)
Definition tool_name (v : js) : jstr := str_or (optional "name" v) [].

Definition tool_default_of (agentName : jstr) (tool : js) : result js_error (option tool_default) :=
  let toolName := tool_name tool in
  if negb (truthy toolName) then Ok None
  else
    classified ← accessFromTags (prop "tags" tool);
    Ok match classified with
       | Ok a => Some (ToolDefault agentName toolName a)
       | Err _ => None
       end.

(** [collectDefaults]; a route comes with the tools its [mcp-config.json]
    lists, none when the file cannot be read. *)
Fixpoint collectDefaults (routes : list (jstr * js * list js)) : result js_error (list tool_default) :=
  match routes with
  | [] => Ok []
  | (routeKey, route, tools) :: routes =>
      agentName ← trimmed_text (js_or (Str routeKey) (optional "agent" route));
      ds ← (if truthy agentName then mapM_result (tool_default_of agentName) tools else Ok []);
      rest ← collectDefaults routes;
      Ok (omap id ds ++ rest)
  end.

(** ** Decisions *)

Inductive tool_code : Type :=
  | TOOL_PERSISTENCE_ERROR
  | AGENT_POLICY_DENIED
  | ADMIN_REQUIRED
  | AUTH_REQUIRED.

(** [Allow] carries the access class as stored and the delegated flag. *)
Inductive tool_decision : Type :=
  | Allow (access : js) (delegated : bool)
  | Refuse (code : tool_code) (status : Z).

Definition allows (d : tool_decision) : bool :=
  match d with
  | Allow _ _ => true
  | Refuse _ _ => false
  end.

Definition decide_tool (entry : lookup) (tool : jstr) (c : caller) : tool_decision :=
  let denied := Refuse AGENT_POLICY_DENIED 403 in
  match entry with
  | Entry_corrupt => Refuse TOOL_PERSISTENCE_ERROR 500
  | Entry_missing => denied
  | Entry_found v =>
      if js_truthy (prop "corrupt" v) then Refuse TOOL_PERSISTENCE_ERROR 500
      else if is_bool (prop "enabled" v) false then denied
      else
        let access := prop "access" v in
        match c_kind c with
        | AgentCaller =>
            if is_truthy_object (c_delegatedUser c) then
              if is_str access "authenticated" && jeqb (c_delegatedTool c) tool then Allow access true
              else denied
            else if is_str access "internal" then Allow access false else denied
        | UserCaller | GuestCaller =>
            if is_str access "authenticated" then Allow access false
            else if is_str access "admin" then
              if c_isAdmin c then Allow access false else Refuse ADMIN_REQUIRED 403
            else denied
        | NoCaller => Refuse AUTH_REQUIRED 401
        end
  end.

Definition evaluateResource (c : caller) : option (tool_code * Z) :=
  match c_kind c with
  | UserCaller | GuestCaller => None
  | AgentCaller => Some (AGENT_POLICY_DENIED, 403%Z)
  | NoCaller => Some (AUTH_REQUIRED, 401%Z)
  end.

Section McpToolPolicy.
Context {S : Type} `{PolicyStateStore S}.

(** A persistence failure is logged and reported as what was added so far. *)
Definition bootstrapDefaults (now : jstr) (defaults : list tool_default) (r : repository S) :
    nat * repository S :=
  match defaults with
  | [] => (0, r)
  | _ =>
      let updater (s : policy_state) :=
        PolicyState (httpRoutes s) (add_defaults now defaults (mcpTools s)).1.1 in
      (match fst (load r) with
       | Corrupt => 0
       | Loaded s _ _ => snd (add_defaults now defaults (mcpTools s))
       end, snd (mutate updater r))
  end.

Definition evaluate_tool (agent tool : jstr) (c : caller) (r : repository S) :
    tool_decision * repository S :=
  let '(entry, r) := getMcpToolEntry agent tool r in
  (decide_tool entry tool c, r).

Definition filterTools (agent : jstr) (tools : js) (c : caller) (r : repository S) :
    list js * repository S :=
  match tools with
  | Arr (t :: ts) =>
      let '(l, r) := snapshot r in
      (bfilter (fun t =>
         let name := tool_name t in
         if truthy name then
           allows (decide_tool
             match l with
             | Corrupt => Entry_corrupt
             | Loaded _ mcp _ => lookup_in mcp (mcp_key agent name)
             end name c)
         else false) (t :: ts), r)
  | _ => ([], r)
  end.
End McpToolPolicy.
