(* ===== verification/PolicyCommands.v ===== *)
(** The commands that administer the policy document:
    [src/cli/server/policy/commands/PolicyCommand.js],
    [.../commands/httpRouteCommands.js], [.../commands/mcpPolicyCommands.js],
    [.../PolicyCommandRegistry.js] and the two phases of an invocation in
    [.../PolicyCommandInvoker.js]. *)

From stdpp Require Import prelude.
From Stdlib Require Import NArith.
From S2P Require Import Prelude.
From S2P Require Import JsString.
From S2P Require Import JsNumber.
From S2P Require Import JsMap.
From S2P Require Import JsValue.
From S2P Require Import AgentPort.
From S2P Require Import HttpRoutePath.
From S2P Require Import HttpRoutePolicy.
From S2P Require Import PolicyRepository.

Local Open Scope js_scope.

(** ** Contexts and results *)

(** [ctx]: the request body, the session's user and whether it is an
    administrator. *)
Record context : Type := Context {
  cx_body : js;
  cx_user : js;
  cx_isAdmin : bool
}.

(** [{ ok: true, status, data }] or [{ ok: false, status, error }]; the audit
    line is not a result of the command. *)
Inductive command_result : Type :=
  | CommandOk (status : Z) (data : js)
  | CommandFail (status : Z) (code : jstr).

Definition command_ok (r : command_result) : bool :=
  match r with
  | CommandOk _ _ => true
  | CommandFail _ _ => false
  end.

(** An authorization step: pass, or fail with a result. *)
Definition authorized (r : option command_result) : bool :=
  match r with
  | None => true
  | Some _ => false
  end.

Definition actorId (c : context) : result js_error jstr :=
  let id := optional "id" (cx_user c) in
  if js_truthy id then t ← to_string id; Ok ("user:" ++ t) else Ok "user:unknown".

(** [o[k] = v] on an own property list. *)
Definition set_prop (k : jstr) (v : js) (o : js) : js :=
  match o with
  | Obj l => Obj (map_set k v l)
  | _ => o
  end.

(** [for (const [k, v] of ...) o[k] = v] *)
Definition set_props (l : list (jstr * js)) (o : js) : js :=
  fold_left (fun o e => set_prop e.1 e.2 o) l o.

(** Change the first element that satisfies [f], or append [v]. *)
Fixpoint update_or_push (f : js -> bool) (g : js -> js) (v : js) (l : list js) : list js :=
  match l with
  | [] => [v]
  | x :: l => if f x then g x :: l else x :: update_or_push f g v l
  end.

Definition persistence_error : command_result := CommandFail 500 "POLICY_PERSISTENCE_ERROR".

Definition body_prop (k : jstr) (c : context) : js := optional k (cx_body c).

(** [norm.path]: [undefined] when normalization failed. *)
Definition normalized_body_path (c : context) : js :=
  match normalize (body_prop "path" c) true with
  | Ok n => Str (np_path n)
  | Err _ => Undefined
  end.

(** A class of error thrown by a conversion of the request body escapes the
    command: [Err]. *)
Notation outcome A := (result js_error A).

Section Commands.
Context {S : Type} `{PolicyStateStore S}.

(** What the owning agent is asked about a grant: agent, path, access, verb
    and user.  Only an affirmative answer counts. *)
Context (authorize_share : jstr -> jstr -> jstr -> jstr -> js -> bool).

(** ** HTTP route commands *)

Definition owningAgentForPath (normalizedPath : jstr) : jstr := routeKeyForPath normalizedPath.

Definition authorizeMutation (c : context) (verb access : jstr) : option command_result :=
  match normalize (body_prop "path" c) true with
  | Err e => Some (CommandFail 400 (path_error_code e))
  | Ok n =>
      if cx_isAdmin c then None
      else if authorize_share (owningAgentForPath (np_path n)) (np_path n) access (to_lower verb) (cx_user c)
      then None
      else Some (CommandFail 403 "FORBIDDEN")
  end.

Definition invalid_access : command_result := CommandFail 400 "INVALID_ACCESS".

Definition set_authorize (c : context) : outcome (option command_result) :=
  a ← normalizeHttpRouteAccess (body_prop "access" c);
  Ok match a with
     | None => Some invalid_access
     | Some a => authorizeMutation c "Changing" (access_text a)
     end.

Definition has_path (path : js) (v : js) : bool :=
  match path with
  | Str p => is_str (prop "path" v) p
  | _ => is_undefined (prop "path" v)
  end.

Definition enabled_flag (c : context) : js := Bool (negb (is_bool (body_prop "enabled" c) false)).

Definition set_route (path : js) (a : access) (enabled : js) (now actor : jstr) (s : policy_state) :
    policy_state :=
  PolicyState
    (update_or_push (has_path path)
       (set_props [("access", Str (access_text a)); ("enabled", enabled);
                   ("updatedAt", Str now); ("updatedBy", Str actor)])
       (Obj [("path", path); ("access", Str (access_text a)); ("enabled", enabled);
             ("createdAt", Str now); ("createdBy", Str actor);
             ("updatedAt", Str now); ("updatedBy", Str actor)])
       (httpRoutes s))
    (mcpTools s).

Definition set_execute (c : context) (now : jstr) (r : repository S) :
    outcome command_result * repository S :=
  match normalizeHttpRouteAccess (body_prop "access" c), actorId c with
  | Err e, _ => (Err e, r)
  | Ok None, _ => (Ok invalid_access, r)
  | Ok (Some _), Err e => (Err e, r)
  | Ok (Some a), Ok actor =>
      let path := normalized_body_path c in
      match mutate (set_route path a (enabled_flag c) now actor) r with
      | (Ok _, r) => (Ok (CommandOk 200 (Obj [("path", path); ("access", Str (access_text a))])), r)
      | (Err _, r) => (Ok persistence_error, r)
      end
  end.

(** [existing?.access || ''], as text. *)
Definition existing_access (entry : lookup) : outcome jstr :=
  match entry with
  | Entry_found v => to_string (js_or (prop "access" v) (Str []))
  | _ => Ok []
  end.

Definition remove_authorize (c : context) (r : repository S) :
    outcome (option command_result) * repository S :=
  match normalize (body_prop "path" c) true with
  | Err e => (Ok (Some (CommandFail 400 (path_error_code e))), r)
  | Ok n =>
      let '(existing, r) := getHttpRouteEntry (np_path n) r in
      match existing with
      | Entry_corrupt => (Ok (Some persistence_error), r)
      | _ => (a ← existing_access existing; Ok (authorizeMutation c "Removing" a), r)
      end
  end.

Definition remove_route (path : js) (s : policy_state) : policy_state :=
  PolicyState (bfilter (fun v => negb (has_path path v)) (httpRoutes s)) (mcpTools s).

Definition remove_execute (c : context) (r : repository S) : outcome command_result * repository S :=
  let path := normalized_body_path c in
  let found :=
    match fst (load r) with
    | Loaded s _ _ => length (httpRoutes (remove_route path s)) <? length (httpRoutes s)
    | Corrupt => false
    end in
  match mutate (remove_route path) r with
  | (Ok _, r) =>
      (Ok (if found then CommandOk 200 (Obj [("path", path)]) else CommandFail 404 "POLICY_ENTRY_NOT_FOUND"), r)
  | (Err _, r) => (Ok persistence_error, r)
  end.

Definition list_routes (r : repository S) : command_result * repository S :=
  let '(entries, r) := listHttpRoutes r in
  (match entries with
   | Some l => CommandOk 200 (Obj [("httpRoutes", Arr l)])
   | None => persistence_error
   end, r).

(** [http.route.check]: the normalized path, the method and the decision. *)
Definition check_execute (p : policy) (c : context) :
    result policy_error (result command_result (jstr * jstr * decision)) :=
  match normalize (body_prop "path" c) false with
  | Err e => Ok (Err (CommandFail 400 (path_error_code e)))
  | Ok n =>
      text ← lift_js (to_string (js_or (body_prop "method" c) (Str "GET")));
      d ← evaluate p (Str (np_path n)) (to_upper text) [];
      Ok (Ok (np_path n, to_upper text, d))
  end.

(** ** MCP policy commands *)

Definition mcp_authorize (c : context) : option command_result :=
  if cx_isAdmin c then None else Some (CommandFail 403 "ADMIN_REQUIRED").

Definition has_tool (agent tool : jstr) (v : js) : bool :=
  is_str (prop "agent" v) agent && is_str (prop "tool" v) tool.

Definition set_tool (agent tool access now actor : jstr) (s : policy_state) : policy_state :=
  PolicyState (httpRoutes s)
    (update_or_push (has_tool agent tool)
       (set_props [("access", Str access); ("source", Str "admin"); ("enabled", Bool true);
                   ("updatedAt", Str now); ("updatedBy", Str actor)])
       (Obj [("agent", Str agent); ("tool", Str tool); ("access", Str access); ("source", Str "admin");
             ("enabled", Bool true); ("createdAt", Str now); ("createdBy", Str actor);
             ("updatedAt", Str now); ("updatedBy", Str actor)])
       (mcpTools s)).

Definition mcp_set_execute (c : context) (now : jstr) (r : repository S) :
    outcome command_result * repository S :=
  let fields :=
    agent ← trimmed_text (body_prop "agent" c);
    tool ← trimmed_text (body_prop "tool" c);
    access ← trimmed_text (body_prop "access" c);
    Ok (agent, tool, access) in
  match fields with
  | Err e => (Err e, r)
  | Ok (agent, tool, access) =>
      if negb (truthy agent) || negb (truthy tool) then (Ok (CommandFail 400 "INVALID_PATH"), r)
      else if negb (one_of access MCP_ACCESS_VALUES) then (Ok (CommandFail 400 "UNKNOWN_COMMAND"), r)
      else
        match actorId c with
        | Err e => (Err e, r)
        | Ok actor =>
            match mutate (set_tool agent tool access now actor) r with
            | (Ok _, r) =>
                (Ok (CommandOk 200 (Obj [("agent", Str agent); ("tool", Str tool); ("access", Str access)])), r)
            | (Err _, r) => (Ok persistence_error, r)
            end
        end
  end.

Definition mcp_get_execute (c : context) (r : repository S) : outcome command_result * repository S :=
  match trimmed_text (body_prop "agent" c), trimmed_text (body_prop "tool" c) with
  | Ok agent, Ok tool =>
      let '(entry, r) := getMcpToolEntry agent tool r in
      (Ok match entry with
          | Entry_corrupt => persistence_error
          | Entry_missing => CommandFail 404 "POLICY_ENTRY_NOT_FOUND"
          | Entry_found v =>
              if js_truthy (prop "corrupt" v) then persistence_error else CommandOk 200 (Obj [("entry", v)])
          end, r)
  | Err e, _ | _, Err e => (Err e, r)
  end.

Definition mcp_list_execute (r : repository S) : command_result * repository S :=
  let '(entries, r) := listMcpTools r in
  (match entries with
   | Some l => CommandOk 200 (Obj [("mcpTools", Arr l)])
   | None => persistence_error
   end, r).

(** ** The registry and one invocation *)

Inductive command : Type :=
  | HttpRouteSet
  | HttpRouteRemove
  | HttpRouteList
  | McpPolicySet
  | McpPolicyGet
  | McpPolicyList.

Definition command_name (c : command) : jstr :=
  match c with
  | HttpRouteSet => "http.route.set"
  | HttpRouteRemove => "http.route.remove"
  | HttpRouteList => "http.route.list"
  | McpPolicySet => "mcp.policy.set"
  | McpPolicyGet => "mcp.policy.get"
  | McpPolicyList => "mcp.policy.list"
  end.

Definition authorize (cmd : command) (c : context) (r : repository S) :
    outcome (option command_result) * repository S :=
  match cmd with
  | HttpRouteSet => (set_authorize c, r)
  | HttpRouteRemove => remove_authorize c r
  | HttpRouteList => (Ok None, r)
  | McpPolicySet | McpPolicyGet | McpPolicyList => (Ok (mcp_authorize c), r)
  end.

Definition execute (cmd : command) (c : context) (now : jstr) (r : repository S) :
    outcome command_result * repository S :=
  match cmd with
  | HttpRouteSet => set_execute c now r
  | HttpRouteRemove => remove_execute c r
  | HttpRouteList => let '(a, r) := list_routes r in (Ok a, r)
  | McpPolicySet => mcp_set_execute c now r
  | McpPolicyGet => mcp_get_execute c r
  | McpPolicyList => let '(a, r) := mcp_list_execute r in (Ok a, r)
  end.

(** ** Invocations

    [result = await command.authorize(ctx); if (result.ok) result = await
    command.execute(ctx)]: an invocation whose authorization passed waits, at least for
    the owning agent's answer, while others run and the document changes. *)
Record invocations : Type := Invocations {
  iv_repository : repository S;
  iv_waiting : list (command * context)
}.

(** Up to the answer: the result if authorization fails, or the invocation waits. *)
Definition begin_invoke (cmd : command) (c : context) (s : invocations) :
    option (outcome command_result) * invocations :=
  match authorize cmd c (iv_repository s) with
  | (Err e, r) => (Some (Err e), Invocations r (iv_waiting s))
  | (Ok (Some failure), r) => (Some (Ok failure), Invocations r (iv_waiting s))
  | (Ok None, r) => (None, Invocations r (iv_waiting s ++ [(cmd, c)]))
  end.

(** The rest of the invocation that waits at [i]. *)
Definition resume_invoke (i : nat) (now : jstr) (s : invocations) :
    option (outcome command_result) * invocations :=
  match iv_waiting s !! i with
  | Some (cmd, c) =>
      let '(out, r) := execute cmd c now (iv_repository s) in
      (Some out, Invocations r (delete i (iv_waiting s)))
  | None => (None, s)
  end.
End Commands.
