(* ===== verification/PolicyTheorems.v ===== *)
(** The theorems about the policy document: the repository never serves a stale
    or invalid document, tools are called only by admitted callers, and the
    document changes only by authorized commands. *)

From stdpp Require Import prelude relations.
From Stdlib Require Import NArith.
From S2P Require Import Prelude.
From S2P Require Import JsString.
From S2P Require Import JsDecimal.
From S2P Require Import JsNumber.
From S2P Require Import JsMap.
From S2P Require Import JsValue.
From S2P Require Import HttpRoutePath.
From S2P Require Import HttpRoutePolicy.
From S2P Require Import PolicyRepository.
From S2P Require Import McpToolPolicy.
From S2P Require Import PolicyCommands.

Local Open Scope js_scope.

(** ** The in-memory store honours the contract *)

(** Writes change the document, and always the counter. *)
Inductive memory_step : memory_store -> memory_store -> Prop :=
  | MemoryWrite d s : memory_step s (snd (write d s)).

Lemma memory_steps_version s s' :
  rtc memory_step s s' -> s = s' \/ (m_version s < m_version s')%N.
Proof.
  induction 1 as [s|s t u [d s'] _ IH]; [by left|]. right. simpl in *.
  destruct IH as [<-|IH]; simpl in *; lia.
Qed.

#[refine, export] Instance memory_contract : StoreContract memory_store := {
  store_step := memory_step
}.
Proof.
  - intros s v. unfold currentVersion. simpl. destruct (m_document s); intros [= <-].
    by destruct (string_of_N_spec (m_version s)) as (ds & -> & _ & _ & ?).
  - constructor.
  - intros d s v Hd. destruct d; try done. intros [= <-]. by split.
  - intros d s Hd. right. by destruct d.
Defined.

#[export] Instance memory_versions : ExactVersions memory_store.
Proof.
  intros s s' v Hs. destruct (memory_steps_version _ _ Hs) as [->|Hlt]; [done|].
  unfold currentVersion. simpl. destruct (m_document s), (m_document s'); try done.
  intros [= <-] [= H%string_of_N_inj]. lia.
Qed.

Section Repository.
Context {S : Type} `{StoreContract S}.
Implicit Types (r : repository S) (s : S).

(** ** The cache *)

(** What the persisted document means now. *)
Definition fresh s : loaded :=
  match currentVersion s with
  | Err _ => Corrupt
  | Ok None => buildIndex emptyState
  | Ok (Some _) => from_document (read s)
  end.

(** A cached view was built from a document the store held under the cached
    version; an empty key never names a version. *)
Definition cache_inv r : Prop :=
  forall c, r_cache r = Some c -> r_cacheKey r <> [] ->
  exists s0, rtc store_step s0 (r_store r) /\ currentVersion s0 = Ok (Some (r_cacheKey r)) /\
    c = from_document (read s0).

Lemma load_store r : r_store (snd (load r)) = r_store r.
Proof. unfold load. repeat case_match; done. Qed.

(** A load answers what the document meant when it had the version it has now. *)
Lemma load_version r : cache_inv r ->
  cache_inv (snd (load r)) /\
  exists s0, rtc store_step s0 (r_store r) /\ currentVersion s0 = currentVersion (r_store r) /\
    fst (load r) = fresh s0.
Proof.
  intros Hinv.
  assert (forall c k, (currentVersion (r_store r) = Ok (Some k) -> c = from_document (read (r_store r))) ->
    (k = [] \/ currentVersion (r_store r) = Ok (Some k)) -> cache_inv (Repository (r_store r) (Some c) k)) as Hnew.
  { intros c k Hc Hk c' [= <-] Hne. destruct Hk as [->|Hk]; [done|]. exists (r_store r). by split_and!; auto. }
  assert (forall l k, l = fresh (r_store r) -> cache_inv (Repository (r_store r) (Some l) k) ->
    cache_inv (Repository (r_store r) (Some l) k) /\
    exists s0, rtc store_step s0 (r_store r) /\ currentVersion s0 = currentVersion (r_store r) /\ l = fresh s0) as Hnow.
  { intros l k Hl Hk. split; [done|]. by exists (r_store r). }
  unfold load. destruct (currentVersion (r_store r)) as [[v|]|] eqn:Hv.
  - assert (from_document (read (r_store r)) = fresh (r_store r)) as Hfresh by (unfold fresh; by rewrite Hv).
    destruct (r_cache r) as [c|] eqn:Hc; [|by apply Hnow; [|apply Hnew; auto]].
    destruct (jeqb (r_cacheKey r) v) eqn:Hk; [|by apply Hnow; [|apply Hnew; auto]].
    apply jeqb_eq in Hk. subst v. destruct (Hinv c Hc) as (s0 & Hs & Hv0 & ->); [by eapply version_nonempty|].
    split; [done|]. exists s0. split_and!; [done..|]. unfold fresh. by rewrite Hv0.
  - apply Hnow; [unfold fresh; by rewrite Hv|]. apply Hnew; auto. done.
  - apply Hnow; [unfold fresh; by rewrite Hv|]. apply Hnew; auto. done.
Qed.

Lemma cache_inv_step r s' : store_step (r_store r) s' -> cache_inv r ->
  cache_inv (Repository s' (r_cache r) (r_cacheKey r)).
Proof.
  intros Hstep Hinv c Hc Hk. simpl in *. destruct (Hinv c Hc Hk) as (s0 & Hs & Hv & He).
  exists s0. split_and!; [|done|done]. by eapply rtc_r.
Qed.

Lemma cache_inv_empty s key : cache_inv (Repository s None key).
Proof. by intros c. Qed.

(** What happens to a repository: its own operations, and writes of the store
    by anyone else in between. *)
Inductive repo_step : repository S -> repository S -> Prop :=
  | StepLoad r : repo_step r (snd (load r))
  | StepMutate r updater : repo_step r (snd (mutate updater r))
  | StepInvalidate r : repo_step r (invalidate r)
  | StepOutside r s' : store_step (r_store r) s' ->
      repo_step r (Repository s' (r_cache r) (r_cacheKey r)).

Lemma mutate_cache_inv updater r : cache_inv r -> cache_inv (snd (mutate updater r)).
Proof.
  intros Hinv. destruct (load_version r Hinv) as [Hinv1 _]. unfold mutate.
  destruct (load r) as [l r1]. simpl in Hinv1. destruct l as [s m h|]; [|done].
  destruct (validateState _) as [v|]; [|done].
  pose proof (write_step (state_document v) (r_store r1)) as Hw.
  destruct (write _ _) as [[t|] st]; simpl in *; [apply cache_inv_empty|].
  by apply cache_inv_step.
Qed.

Lemma reachable_cache_inv s r : rtc repo_step (newRepository s) r -> cache_inv r.
Proof.
  intros Hr. assert (cache_inv (newRepository s)) as Hinit by apply cache_inv_empty.
  induction Hr as [|r1 r2 r3 Hstep _ IH]; [done|]. apply IH.
  destruct Hstep; [by apply load_version|by apply mutate_cache_inv|apply cache_inv_empty|by apply cache_inv_step].
Qed.
(** With exact versions, that is what it means now. *)
Lemma load_spec `{!ExactVersions S} r : cache_inv r ->
  fst (load r) = fresh (r_store r) /\ cache_inv (snd (load r)) /\ r_store (snd (load r)) = r_store r.
Proof.
  intros Hinv. destruct (load_version r Hinv) as (Hinv' & s0 & Hs & Hv & Hl).
  split_and!; [|done|apply load_store]. rewrite Hl. unfold fresh. rewrite Hv.
  destruct (currentVersion (r_store r)) as [[v|]|] eqn:E; [|done|done].
  by rewrite (version_identifies s0 (r_store r) v).
Qed.

(** C26. The repository is never stale.  The store is any that meets its documented
    contract.  After any sequence of the repository's own loads, transactions and
    invalidations, and of writes to the store by others, a load answers what the
    persisted document meant at some time when the store had the version it has
    now - corrupt when the store fails or the document is invalid, empty when there
    is none.  When the store's versions are exact, as the contract demands, that is
    what the document means now. *)
Theorem document_never_stale s r :
  rtc repo_step (newRepository s) r ->
  (exists s0, rtc store_step s0 (r_store r) /\ currentVersion s0 = currentVersion (r_store r) /\
     fst (load r) = fresh s0) /\
  (ExactVersions S -> fst (load r) = fresh (r_store r)).
Proof.
  intros Hr%reachable_cache_inv. split; [by apply load_version|]. intros Hexact. by apply load_spec.
Qed.

End Repository.

(** ** Documents *)

Lemma validateState_Some d s :
  validateState d = Some s ->
  prop "httpRoutes" d = Arr (httpRoutes s) /\ prop "mcpTools" d = Arr (mcpTools s) /\
  forallb valid_mcp_entry (mcpTools s) = true /\ forallb valid_http_entry (httpRoutes s) = true.
Proof.
  unfold validateState. destruct d; try done. destruct (negb _); [done|].
  destruct (prop "httpRoutes" (Obj l)) as [| | | | | |http|]; try done.
  destruct (prop "mcpTools" (Obj l)) as [| | | | | |mcp|]; try done.
  destruct (_ && _) eqn:Hv; intros [= <-]. apply andb_true_iff in Hv as [? ?]. by split_and!.
Qed.

Lemma validateState_document s v : validateState (state_document s) = Some v -> v = s.
Proof.
  intros Hv. apply validateState_Some in Hv as (Hh & Hm & _). destruct s as [h m], v as [h' m'].
  unfold state_document in *. simpl in Hh, Hm.
  assert (prop "httpRoutes" (state_document (PolicyState h m)) = Arr h) as H1 by (vm_compute; reflexivity).
  assert (prop "mcpTools" (state_document (PolicyState h m)) = Arr m) as H2 by (vm_compute; reflexivity).
  unfold state_document in H1, H2. simpl in H1, H2. congruence.
Qed.

Lemma validateState_again s v : validateState (state_document s) = Some v ->
  validateState (state_document v) = Some v.
Proof. intros H. by rewrite (validateState_document _ _ H) at 1; rewrite H. Qed.

(** ** Transactions *)

#[local] Arguments validateState : simpl never.

Section Transactions.
Context {S : Type} `{ExactVersions S}.
Implicit Types (r : repository S) (s : S).

Lemma fresh_Loaded s st m h : fresh s = Loaded st m h -> fresh s = buildIndex st.
Proof.
  unfold fresh. destruct (currentVersion s) as [[v|]|]; try done; [|by intros [= <- <- <-]].
  unfold from_document. destruct (read s) as [d|]; [|done].
  destruct (validateState d); [|done]. by intros [= <- <- <-].
Qed.

(** The outcome of a transaction, told by the documents before and after. *)
Definition transaction (updater : policy_state -> policy_state) (before after : S)
    (res : result mutate_error policy_state) : Prop :=
  match res with
  | Ok v => exists old, fresh before = buildIndex old /\ v = updater old /\
      fresh after = buildIndex v /\ validateState (state_document v) = Some v
  | Err POLICY_PERSISTENCE_ERROR => fresh before = Corrupt /\ after = before
  | Err InvalidState => after = before /\ exists old, fresh before = buildIndex old /\
      validateState (state_document (updater old)) = None
  | Err StoreFailed => exists old, fresh before = buildIndex old /\
      validateState (state_document (updater old)) = Some (updater old) /\
      (fresh after = fresh before \/ fresh after = buildIndex (updater old))
  end.

Lemma fresh_observed s : fresh s =
  match observed s with
  | Err _ => Corrupt
  | Ok None => buildIndex emptyState
  | Ok (Some doc) => from_document doc
  end.
Proof. unfold fresh, observed. by destruct (currentVersion s) as [[v|]|]. Qed.

Lemma mutate_spec updater r : cache_inv r ->
  transaction updater (r_store r) (r_store (snd (mutate updater r))) (fst (mutate updater r)).
Proof.
  intros Hinv. destruct (load_spec r Hinv) as (Hl & _ & Hst). unfold mutate.
  destruct (load r) as [l r1]. simpl in Hl, Hst. rewrite <- Hst.
  destruct l as [st m h|]; simpl.
  - rewrite <- Hst in Hl. pose proof (fresh_Loaded _ _ _ _ (eq_sym Hl)) as Hf.
    destruct (validateState (state_document (updater st))) as [v|] eqn:Hv; simpl; [|eauto].
    pose proof (validateState_document _ _ Hv). subst v.
    pose proof (write_read (state_document (updater st)) (r_store r1)) as Hwr. unfold transaction.
    pose proof (write_atomic (state_document (updater st)) (r_store r1) eq_refl) as Hwa.
    destruct (write (state_document (updater st)) (r_store r1)) as [[t|[]] s']; simpl in *.
    + exists st. destruct (Hwr t eq_refl eq_refl) as [Hread Hver].
      split_and!; [done|done| |done]. unfold fresh. rewrite Hver, Hread. simpl. by rewrite Hv.
    + exists st. split_and!; [done|done|]. rewrite !fresh_observed.
      destruct Hwa as [-> | ->]; [by left|right]. simpl. by rewrite Hv.
  - rewrite Hst. by rewrite Hl.
Qed.

(** Transactions are atomic and fail closed: a corrupt document is never
    overwritten, an update that would make it invalid changes nothing,
    after a success the document is exactly the update of the one before, and
    valid, and after a failure of the store it is the one before or the update. *)
Theorem transactions_fail_closed s r updater :
  rtc repo_step (newRepository s) r ->
  transaction updater (r_store r) (r_store (snd (mutate updater r))) (fst (mutate updater r)).
Proof. intros Hr. by apply mutate_spec, (reachable_cache_inv s). Qed.
End Transactions.

(** ** A sample document *)

Definition sample_tool : js :=
  Obj [("agent", Str "shop"); ("tool", Str "search"); ("access", Str "internal")].

Definition sample_document : js := state_document (PolicyState [] [sample_tool]).
Definition other_document : js := state_document (PolicyState [] []).

Definition sample_store : memory_store := newMemoryStore (Some sample_document).

(** Loaded once, then the document replaced behind the repository's back. *)
Definition replaced_store : memory_store := snd (write other_document sample_store).

Definition stale_repository : repository memory_store :=
  Repository replaced_store (Some (from_document (Ok sample_document))) "1".

Lemma stale_reachable : rtc repo_step (newRepository sample_store) stale_repository.
Proof.
  eapply rtc_l; [apply StepLoad|]. eapply rtc_l; [|apply rtc_refl].
  assert (snd (load (newRepository sample_store)) =
    Repository sample_store (Some (from_document (Ok sample_document))) "1") as -> by by vm_compute.
  apply (StepOutside (Repository sample_store _ _) replaced_store). constructor.
Qed.

Theorem document_never_stale_witness : fst (load stale_repository) = fresh replaced_store.
Proof. exact (proj2 (document_never_stale sample_store stale_repository stale_reachable) _). Defined.

Theorem transactions_fail_closed_witness :
  transaction (fun s => PolicyState (httpRoutes s) [sample_tool; Null]) replaced_store
    (r_store (snd (mutate (fun s => PolicyState (httpRoutes s) [sample_tool; Null]) stale_repository)))
    (fst (mutate (fun s => PolicyState (httpRoutes s) [sample_tool; Null]) stale_repository)).
Proof. exact (transactions_fail_closed sample_store stale_repository _ stale_reachable). Defined.
