(* ===== verification/McpPolicyTheorems.v ===== *)
(** The theorems about tool access: which calls are admitted, that bootstrapped
    defaults never override the policy, and that only authorized commands
    change it. *)

From stdpp Require Import prelude relations.
From Stdlib Require Import NArith.
From S2P Require Import Prelude.
From S2P Require Import JsString.
From S2P Require Import JsDecimal.
From S2P Require Import JsNumber.
From S2P Require Import JsMap.
From S2P Require Import JsValue.
From S2P Require Import HttpRoutePath.
From S2P Require Import HttpRoutePolicy.
From S2P Require Import PolicyRepository.
From S2P Require Import McpToolPolicy.
From S2P Require Import PolicyCommands.
From S2P Require Import PolicyTheorems.

Local Open Scope js_scope.

(** ** Indexes *)

(** The last entry of a key wins. *)
Lemma index_last (f : js -> jstr) l k acc :
  map_get k (fold_left (fun m v => map_set (f v) v m) l acc) =
  match find_first (fun v => jeqb (f v) k) (rev l) with
  | Some v => Some v
  | None => map_get k acc
  end.
Proof.
  induction l as [|v l IH] using rev_ind; [done|].
  rewrite fold_left_app, rev_app_distr. cbn [fold_left rev app find_first].
  rewrite map_get_set. destruct (jeqb (f v) k) eqn:Hk.
  - apply jeqb_eq in Hk. by rewrite decide_True.
  - apply jeqb_neq in Hk. rewrite decide_False by congruence. exact IH.
Qed.

Lemma first_unit_inj (c : N) (a b t u : jstr) :
  c ∉ a -> c ∉ b -> a ++ c :: t = b ++ c :: u -> a = b /\ t = u.
Proof.
  revert b. induction a as [|d a IH]; intros [|e b] Ha Hb; simpl.
  - by intros [= ->].
  - intros [= -> _]. by destruct Hb; left.
  - intros [= -> _]. by destruct Ha; left.
  - intros [= -> Heq]. apply not_elem_of_cons in Ha as [_ Ha]. apply not_elem_of_cons in Hb as [_ Hb].
    by destruct (IH b Ha Hb Heq) as [-> ->].
Qed.

(** Agent names without a space make policy keys unambiguous. *)
Lemma mcp_key_inj a b t u : 32%N ∉ a -> 32%N ∉ b -> mcp_key a t = mcp_key b u -> a = b /\ t = u.
Proof. apply first_unit_inj. Qed.

Definition entry_for (agent tool : jstr) (v : js) : bool :=
  jeqb (text_of_prop "agent" v) agent && jeqb (text_of_prop "tool" v) tool.

Lemma find_first_ext {A} (f g : A -> bool) l :
  (forall x, x ∈ l -> f x = g x) -> find_first f l = find_first g l.
Proof.
  induction l as [|x l IH]; simpl; [done|]. intros H. rewrite (H x) by left.
  rewrite IH; [done|]. intros y Hy. apply H. by right.
Qed.

Definition spaceless (l : list js) : Prop := forall v, v ∈ l -> 32%N ∉ text_of_prop "agent" v.

Lemma index_entry l agent tool :
  32%N ∉ agent -> spaceless l ->
  map_get (mcp_key agent tool) (index_mcp l) = find_first (entry_for agent tool) (rev l).
Proof.
  intros Ha Hl. unfold index_mcp. rewrite (index_last entry_key). simpl.
  rewrite (find_first_ext _ (entry_for agent tool)).
  - by destruct (find_first _ _).
  - intros v Hv. unfold entry_for, entry_key. apply eq_true_iff_eq.
    rewrite andb_true_iff, !jeqb_eq. split; [|by intros [-> ->]].
    apply mcp_key_inj; [|done]. apply Hl.
    by apply list_elem_of_In, in_rev, list_elem_of_In.
Qed.

(** ** Decisions *)

Inductive permitted (c : caller) (tool : jstr) : jstr -> Prop :=
  | PermitSession : c_kind c = UserCaller \/ c_kind c = GuestCaller -> permitted c tool "authenticated"
  | PermitAdmin : c_kind c = UserCaller -> c_isAdmin c = true -> permitted c tool "admin"
  | PermitAgent : c_kind c = AgentCaller -> is_truthy_object (c_delegatedUser c) = false ->
      permitted c tool "internal"
  | PermitDelegated : c_kind c = AgentCaller -> is_truthy_object (c_delegatedUser c) = true ->
      c_delegatedTool c = tool -> permitted c tool "authenticated".

Lemma fromRequest_guest req c :
  fromRequest req = Ok c -> c_isAdmin c = true -> c_kind c = UserCaller.
Proof.
  unfold fromRequest. intros H.
  repeat match type of H with
  | mbind _ ?m = _ => destruct m; [|done]; cbn [mbind result_bind] in H
  | (if ?b then _ else _) = _ => destruct b
  end; simplify_eq/=; try done.
  by destruct (one_of "guest" _).
Qed.

Definition active (v : js) : Prop :=
  js_truthy (prop "corrupt" v) = false /\ is_bool (prop "enabled" v) false = false.

Lemma decide_tool_allows e tool c :
  (c_isAdmin c = true -> c_kind c = UserCaller) ->
  allows (decide_tool e tool c) = true <->
  exists v a, e = Entry_found v /\ active v /\ prop "access" v = Str a /\ permitted c tool a.
Proof.
  intros Hadm. split.
  - unfold decide_tool, active. destruct e as [| |v]; try done. intros H. exists v.
    destruct (js_truthy (prop "corrupt" v)); [done|]. destruct (is_bool _ false); [done|].
    destruct (c_kind c) eqn:Hk; [| | |done].
    + destruct (is_truthy_object _) eqn:Hd.
      * destruct (_ && _) eqn:Hb in H; [|done]. apply andb_true_iff in Hb as [Ha%is_str_eq Ht%jeqb_eq].
        eexists. split_and!; [done|done|done|exact Ha|by apply PermitDelegated].
      * destruct (is_str _ _) eqn:Ha in H; [|done]. apply is_str_eq in Ha.
        eexists. split_and!; [done|done|done|exact Ha|by apply PermitAgent].
    + destruct (is_str _ "authenticated") eqn:Ha.
      { apply is_str_eq in Ha. eexists. split_and!; [done|done|done|exact Ha|by apply PermitSession; auto]. }
      destruct (is_str _ "admin") eqn:Ha2; [|done]. destruct (c_isAdmin c) eqn:Hc; [|done].
      apply is_str_eq in Ha2. eexists. split_and!; [done|done|done|exact Ha2|by apply PermitAdmin].
    + destruct (is_str _ "authenticated") eqn:Ha.
      { apply is_str_eq in Ha. eexists. split_and!; [done|done|done|exact Ha|by apply PermitSession; auto]. }
      destruct (is_str _ "admin"); [|done]. destruct (c_isAdmin c); [|done]. by specialize (Hadm eq_refl).
  - intros (v & a & -> & [Hc He] & Ha & Hp). unfold decide_tool. rewrite Hc, He, Ha.
    destruct Hp as [[-> | ->] | -> Hadmin | -> Hd | -> Hd Ht].
    1, 2: by rewrite (proj2 (is_str_eq (Str "authenticated") "authenticated") eq_refl).
    + assert (is_str (Str "admin") "authenticated" = false) as -> by by vm_compute.
      by rewrite (proj2 (is_str_eq (Str "admin") "admin") eq_refl), Hadmin.
    + rewrite Hd. by rewrite (proj2 (is_str_eq (Str "internal") "internal") eq_refl).
    + rewrite Hd, (proj2 (is_str_eq (Str "authenticated") "authenticated") eq_refl), Ht.
      by rewrite (proj2 (jeqb_eq tool tool) eq_refl).
Qed.

(** ** Claims about calls *)

Section Calls.
Context {S : Type} `{ExactVersions S}.
Implicit Types (r : repository S) (s : S).

Lemma lookup_fresh agent tool r :
  cache_inv r ->
  fst (getMcpToolEntry agent tool r) =
  match fresh (r_store r) with
  | Loaded _ mcp _ => lookup_in mcp (mcp_key agent tool)
  | Corrupt => Entry_corrupt
  end.
Proof.
  intros Hinv. destruct (load_spec r Hinv) as (<- & _ & _). unfold getMcpToolEntry.
  by destruct (load r) as [[] ?].
Qed.

(** The stored entry a call is decided by: the last one for the agent and the
    tool, active, with an access class that permits the caller. *)
Definition admitting (before : S) (agent tool : jstr) (c : caller) : Prop :=
  exists st v a, fresh before = buildIndex st /\
    find_first (entry_for agent tool) (rev (mcpTools st)) = Some v /\
    active v /\ prop "access" v = Str a /\ permitted c tool a.

(** Every stored agent name is free of spaces. *)
Definition unambiguous (before : S) : Prop :=
  forall st, fresh before = buildIndex st -> spaceless (mcpTools st).

(** C22. For an agent whose name has no space, and a document in which no agent's
    name has one (an entry is keyed by agent, a space and tool), a tool call is
    admitted exactly when the current document has, for this agent and this tool, a last entry that is enabled and whose class
    permits the caller: any session for [authenticated], an administrator who
    is no guest for [admin], an agent acting for itself for [internal], an agent
    acting for a user only for the very tool delegated to it; without such an
    entry, or when the document is corrupt, it is refused. *)
Theorem tool_call_admitted s r agent tool req c :
  rtc repo_step (newRepository s) r -> fromRequest req = Ok c ->
  32%N ∉ agent -> unambiguous (r_store r) ->
  allows (fst (evaluate_tool agent tool c r)) = true <-> admitting (r_store r) agent tool c.
Proof.
  intros Hr Hc Ha Hs. pose proof (reachable_cache_inv s r Hr) as Hinv.
  unfold evaluate_tool. pose proof (lookup_fresh agent tool r Hinv) as Hl.
  destruct (getMcpToolEntry agent tool r) as [e r1]. simpl in *. subst e.
  rewrite decide_tool_allows by (intros; by eapply fromRequest_guest).
  unfold admitting. destruct (fresh (r_store r)) as [st m h|] eqn:Hf.
  - pose proof (fresh_Loaded _ _ _ _ Hf) as Hb. rewrite Hf in Hb.
    assert (spaceless (mcpTools st)) as Hsp by (apply Hs; congruence).
    injection Hb as -> ->. unfold lookup_in. rewrite index_entry by done. split.
    + intros (v & a & Hv & Hact & Hacc & Hp). exists st, v, a.
      destruct (find_first _ _); [|done]. by injection Hv as ->.
    + intros (st' & v & a & [= <-] & -> & Hact & Hacc & Hp). exists v, a. by split_and!.
  - split; [by intros (v & a & ? & _)|]. by intros (st & v & a & ? & _).
Qed.
End Calls.

Definition sample_request : js :=
  Obj [("delegatedAgentVerified", Obj [("callerPrincipal", Str "agent:repo/shop")])].

Definition sample_caller : caller :=
  Caller AgentCaller "agent:repo/shop" [] false Null [] "agent:repo/shop".

Theorem tool_call_admitted_witness :
  allows (fst (evaluate_tool "shop" "search" sample_caller (newRepository sample_store))) = true <->
  admitting sample_store "shop" "search" sample_caller.
Proof.
  apply (tool_call_admitted sample_store (newRepository sample_store) "shop" "search" sample_request).
  - apply rtc_refl.
  - by vm_compute.
  - apply has_unit_false. by vm_compute.
  - intros st Hst. change (fresh sample_store = buildIndex st) in Hst.
    assert (fresh sample_store = buildIndex (PolicyState [] [sample_tool])) as Hf by by vm_compute.
    rewrite Hf in Hst. injection Hst as <- _ _. intros v ->%list_elem_of_singleton.
    apply has_unit_false. by vm_compute.
Defined.

(** ** Bootstrapped defaults *)

Definition default_key (d : tool_default) : jstr := mcp_key (td_agent d) (td_tool d).

Lemma default_entry_key now d : entry_key (default_entry now d) = default_key d.
Proof. reflexivity. Qed.

#[local] Opaque default_entry entry_key.

Lemma keys_snoc now d l : entry_key <$> l ++ [default_entry now d] = (entry_key <$> l) ++ [default_key d].
Proof. rewrite fmap_app. by rewrite <- (default_entry_key now d). Qed.

(** What bootstrapping appends to a list of entries. *)
Record appended (now : jstr) (defaults : list tool_default) (tools new : list js) : Prop := {
  ap_defaults : forall v, v ∈ new -> exists d, d ∈ defaults /\ v = default_entry now d;
  ap_absent : forall v, v ∈ new -> entry_key v ∉ entry_key <$> tools;
  ap_nodup : NoDup (entry_key <$> new);
  ap_covered : forall d, d ∈ defaults -> default_key d ∈ entry_key <$> tools ++ new
}.

Lemma add_defaults_spec now defaults tools :
  exists new, (add_defaults now defaults tools).1.1 = tools ++ new /\
    (add_defaults now defaults tools).2 = length new /\
    (forall k, k ∈ (add_defaults now defaults tools).1.2 <-> k ∈ entry_key <$> tools ++ new) /\
    appended now defaults tools new.
Proof.
  unfold add_defaults. induction defaults as [|d ds IH] using rev_ind.
  - exists []. split_and!; [by rewrite app_nil_r|done|by intros k; rewrite app_nil_r|].
    constructor; try (intros ? Hx; by apply not_elem_of_nil in Hx). constructor.
  - rewrite fold_left_app. destruct IH as (new & Ht & Ha & Hs & [H1 H2 H3 H4]).
    destruct (fold_left _ ds _) as [[tools' seen] added]. simpl in *. subst tools' added.
    fold (default_key d). destruct (one_of (default_key d) seen) eqn:Hseen; simpl.
    + apply one_of_elem in Hseen. exists new. split_and!; [done|done|done|]. constructor; try done.
      * intros v Hv. destruct (H1 v Hv) as (d' & ? & ?). exists d'. set_solver.
      * intros d' [Hd| ->%list_elem_of_singleton]%elem_of_app; [by apply H4|by apply Hs].
    + assert (default_key d ∉ entry_key <$> tools ++ new) as Hn.
      { intros Hk%Hs%one_of_elem. congruence. }
      exists (new ++ [default_entry now d]). rewrite app_assoc. split_and!; [done|rewrite length_app; simpl; lia| |].
      * intros k. rewrite keys_snoc, elem_of_app, elem_of_cons, Hs. set_solver.
      * constructor.
        -- intros v [Hv| ->%list_elem_of_singleton]%elem_of_app; [|exists d; set_solver].
           destruct (H1 v Hv) as (d' & ? & ?). exists d'. set_solver.
        -- intros v [Hv| ->%list_elem_of_singleton]%elem_of_app; [by apply H2|].
           rewrite default_entry_key. rewrite fmap_app in Hn. set_solver.
        -- rewrite keys_snoc. apply NoDup_app. split_and!; [done| |apply NoDup_singleton].
           intros k Hk ->%list_elem_of_singleton. rewrite fmap_app in Hn. set_solver.
        -- intros d' [Hd| ->%list_elem_of_singleton]%elem_of_app.
           ++ rewrite app_assoc, keys_snoc. apply elem_of_app. left. by apply H4.
           ++ rewrite app_assoc, keys_snoc. set_solver.
Qed.

(** A default that names its agent and tool makes a valid entry. *)
Definition named (d : tool_default) : Prop := td_agent d <> [] /\ td_tool d <> [].

Lemma default_entry_valid now d : named d -> valid_mcp_entry (default_entry now d) = true.
Proof.
  intros [Ha%truthy_true Ht%truthy_true].
  assert (valid_mcp_entry (default_entry now d) =
    truthy (td_agent d) && truthy (td_tool d) &&
    one_of (tool_access_text (td_access d)) MCP_ACCESS_VALUES) as -> by reflexivity.
  rewrite Ha, Ht. by destruct (td_access d).
Qed.

Lemma fresh_valid {S} `{PolicyStateStore S} (s : S) st :
  fresh s = buildIndex st ->
  forallb valid_mcp_entry (mcpTools st) = true /\ forallb valid_http_entry (httpRoutes st) = true.
Proof.
  unfold fresh. destruct (currentVersion s) as [[v|]|]; [|by intros [= <- _ _]|done].
  unfold from_document. destruct (read s) as [d|]; [|done].
  destruct (validateState d) as [st'|] eqn:Hd; [|done]. intros [= <- _ _].
  by apply validateState_Some in Hd as (_ & _ & ? & ?).
Qed.

Lemma validateState_valid st :
  forallb valid_mcp_entry (mcpTools st) = true -> forallb valid_http_entry (httpRoutes st) = true ->
  validateState (state_document st) = Some st.
Proof.
  intros Hm Hh. assert (validateState (state_document st) =
    if forallb valid_mcp_entry (mcpTools st) && forallb valid_http_entry (httpRoutes st)
    then Some (PolicyState (httpRoutes st) (mcpTools st)) else None) as -> by reflexivity.
  rewrite Hm, Hh. by destruct st.
Qed.

Section Bootstrap.
Context {S : Type} `{ExactVersions S}.




(** Bootstrapping adds the missing tools and nothing else: on a valid
    document it reports how many entries it adds; unless the store fails to
    write, the new document is the old one with, for every default whose agent
    and tool had no entry, one default entry appended; an entry that was there,
    such as one an administrator edited, is kept as it is. On a corrupt
    document it adds and changes nothing. *)
Theorem bootstrap_keeps_policy s (r : repository S) now defaults added r' :
  rtc repo_step (newRepository s) r -> Forall named defaults ->
  bootstrapDefaults now defaults r = (added, r') ->
  (fresh (r_store r) = Corrupt /\ added = 0 /\ r_store r' = r_store r) \/
  exists st new, fresh (r_store r) = buildIndex st /\ added = length new /\
    appended now defaults (mcpTools st) new /\
    (fresh (r_store r') = buildIndex (PolicyState (httpRoutes st) (mcpTools st ++ new)) \/
     fresh (r_store r') = fresh (r_store r)).
Proof.
  intros Hr Hnamed. pose proof (reachable_cache_inv s r Hr) as Hinv.
  unfold bootstrapDefaults. destruct (load_spec r Hinv) as (Hl & _ & _).
  destruct defaults as [|d0 ds].
  { intros [= <- <-]. destruct (fresh (r_store r)) as [st m h|] eqn:Hf; [|by left]. right.
    exists st, []. pose proof (fresh_Loaded _ _ _ _ Hf) as Hb. rewrite <- Hf.
    split_and!; [done|done| |by right]. constructor; try (intros ? Hx; by apply not_elem_of_nil in Hx). constructor. }
  set (defaults := d0 :: ds) in *. rewrite Hl.
  set (updater := fun s : policy_state => _). intros [= <- <-].
  pose proof (mutate_spec updater r Hinv) as Ht. destruct (mutate updater r) as [res r1]. simpl in *.
  destruct (fresh (r_store r)) as [st m h|] eqn:Hf.
  - right. pose proof (fresh_Loaded _ _ _ _ Hf) as Hb. rewrite Hf in Hb.
    destruct (add_defaults_spec now defaults (mcpTools st)) as (new & Hn & Hlen & _ & Hap).
    exists st, new. split_and!; [done|done|done|].
    unfold transaction in Ht. rewrite Hf in Ht. destruct res as [v|[| |]].
    + left. destruct Ht as (old & Ho & -> & Hfr & _). rewrite Hb in Ho. injection Ho as <- _ _.
      rewrite Hfr. unfold updater. by rewrite Hn.
    + by destruct Ht.
    + exfalso. destruct Ht as (_ & old & Ho & Hv). rewrite Hb in Ho. injection Ho as <- _ _.
      rewrite Hb in Hf. destruct (fresh_valid _ _ Hf) as [Hvm Hvh].
      unfold updater in Hv. rewrite Hn, validateState_valid in Hv; [done| |done].
      simpl. rewrite forallb_app, Hvm. simpl. apply forallb_forall. intros v Hv'%list_elem_of_In.
      destruct (ap_defaults _ _ _ _ Hap v Hv') as (d & Hd & ->). apply default_entry_valid.
      rewrite Forall_forall in Hnamed. by apply Hnamed.
    + destruct Ht as (old & Ho & _ & [Hs | Hafter]); [by right|left].
      rewrite Hb in Ho. injection Ho as <- _ _. rewrite Hafter. unfold updater. by rewrite Hn.
  - left. unfold transaction in Ht. rewrite Hf in Ht. destruct res as [v|[| |]].
    + by destruct Ht as (old & ? & _).
    + by destruct Ht.
    + by destruct Ht as (_ & old & ? & _).
    + by destruct Ht as (old & ? & _).
Qed.
End Bootstrap.

Definition sample_defaults : list tool_default :=
  [ToolDefault "shop" "search" ToolAdmin; ToolDefault "shop" "order" ToolAuthenticated].

Definition bootstrapped : nat * repository memory_store :=
  bootstrapDefaults "2026-01-01T00:00:00.000Z" sample_defaults (newRepository sample_store).

Theorem bootstrap_keeps_policy_witness :
  (fresh sample_store = Corrupt /\ 1 = 0 /\ r_store (snd bootstrapped) = sample_store) \/
  exists st new, fresh sample_store = buildIndex st /\ 1 = length new /\
    appended "2026-01-01T00:00:00.000Z" sample_defaults (mcpTools st) new /\
    (fresh (r_store (snd bootstrapped)) = buildIndex (PolicyState (httpRoutes st) (mcpTools st ++ new)) \/
     fresh (r_store (snd bootstrapped)) = fresh sample_store).
Proof.
  apply (bootstrap_keeps_policy sample_store (newRepository sample_store)
    "2026-01-01T00:00:00.000Z" sample_defaults 1 (snd bootstrapped)).
  - apply rtc_refl.
  - by repeat constructor.
  - by vm_compute.
Defined.

(** ** Commands *)






Section Commands.
Context {S : Type} `{ExactVersions S}.
Implicit Types (r : repository S).
























(** ** The repository throughout *)











End Commands.


(** An agent that approves public documentation paths. *)
Definition sample_share (agent path a verb : jstr) (user : js) : bool :=
  jeqb agent "shop" && starts_with path "/shop/docs" && jeqb a "public".






(** ** A removal of another class than the approved one

    The agent is asked about the class the entry has when the command is authorized.
    While it answers, the class changes, and the command removes the entry all the same. *)
Definition remove_context : context := Context (Obj [("path", Str "/shop/docs")]) (Obj [("id", Str "u1")]) false.

Definition route_document (access : jstr) : js :=
  state_document (PolicyState [Obj [("path", Str "/shop/docs"); ("access", Str access)]] []).

Definition asked_removal : option (result js_error command_result) * invocations (S := memory_store) :=
  begin_invoke sample_share HttpRouteRemove remove_context
    (Invocations (newRepository (newMemoryStore (Some (route_document "public")))) []).

Definition changed_meanwhile : invocations (S := memory_store) :=
  let s := asked_removal.2 in
  let r := iv_repository s in
  Invocations (Repository (snd (write (route_document "authenticated") (r_store r))) (r_cache r) (r_cacheKey r))
    (iv_waiting s).

Theorem removal_of_another_class :
  asked_removal.1 = None /\
  authorize sample_share HttpRouteRemove remove_context (iv_repository changed_meanwhile) =
    (Ok (Some (CommandFail 403 "FORBIDDEN")),
     snd (load (iv_repository changed_meanwhile))) /\
  fst (resume_invoke 0 "2026-01-02T00:00:00.000Z" changed_meanwhile) =
    Some (Ok (CommandOk 200 (Obj [("path", Str "/shop/docs")]))).
Proof. by vm_compute. Qed.
