(* ===== verification/HttpRouteProviders.v ===== *)
(** Routes an agent's manifest declares: [src/cli/server/policy/HttpRouteProviders.js]. *)

From stdpp Require Import prelude.
From Stdlib Require Import NArith.
From S2P Require Import Prelude.
From S2P Require Import JsString.
From S2P Require Import JsNumber.
From S2P Require Import JsMap.
From S2P Require Import JsValue.
From S2P Require Import JsUri.
From S2P Require Import AgentPort.
From S2P Require Import HttpRoutePath.
From S2P Require Import HttpRoutePolicy.
From S2P Require Import JsDecimal.
From S2P Require Import AgentPortTheorems.
From S2P Require Import HttpRouteCompiler.
From S2P Require Import HttpRouteFacts.

Local Open Scope js_scope.

(** ** Route specifications of a manifest *)

(** The own properties a spread copies; those of an array are indices, which
    no route field is named after. *)
Definition spread (v : js) : list (jstr * js) :=
  match v with
  | Obj l => l
  | _ => []
  end.

(** [{ path: key, ...value }] or [{ path: key, access: String(value || '') }] *)
Definition entry_spec (e : jstr * js) : result js_error js :=
  let '(key, value) := e in
  if js_truthy value && is_object value then
    Ok (Obj (fold_left (fun m p => map_set p.1 p.2 m) (spread value) [("path", Str key)]))
  else
    a ← to_string (js_or value (Str []));
    Ok (Obj [("path", Str key); ("access", Str a)]).

Definition asRouteSpecs (manifest : js) : result js_error (list js) :=
  match optional "httpRoutes" (optional "routerAccess" manifest) with
  | Arr l => Ok l
  | Obj l => mapM_result entry_spec l
  | _ => Ok []
  end.

(** ** One declared route *)

Inductive route_problem : Type :=
  | INVALID_ROUTE_KEY
  | INVALID_FIELD
  | INVALID_ACCESS
  | INVALID_GUEST_SCOPE
  | INVALID_GUEST_SCOPE_PARAM
  | INVALID_PUBLIC_PROTOCOL
  | ROUTE_OWNERSHIP_MISMATCH
  | ROOT_PATH
  | INTERNAL_ROUTE
  | RoutePath (e : path_error)
  | RouteSelector (e : selector_error).

(** [{ ok: false, code, error }] or the fields of [{ ok: true, ... }]. *)
Notation route_result := (result js_error (result route_problem entry)).

Definition problem (p : route_problem) : route_result := Ok (Err p).

(** The access class, guest scope and guest parameter of a specification. *)
Definition route_access (spec : js) : result js_error (option access) :=
  if has_own "access" spec then normalizeHttpRouteAccess (optional "access" spec)
  else Ok (Some Authenticated).

(** [v === undefined ? '' : String(v || '').trim()] *)
Definition declared_text (v : js) : result js_error jstr :=
  match v with
  | Undefined => Ok []
  | _ => trimmed_text v
  end.

Definition manifest_entry (path : jstr) (a : access) (routeKey : jstr) (p : option public_protocol)
    (guestScope guestScopeParam : jstr) : entry :=
  Entry path a routeKey "manifest" p guestScope guestScopeParam.

(** [path.slice(0, -1)] of a wildcard path, the path otherwise. *)
Definition selector_path (path : jstr) : jstr :=
  if ends_with path "/*" then drop_last 1 path else path.

(** The branch of the agent-port convention. *)
Definition convention_route (spec : js) (routeKey agentRelativePath : jstr) (a : access)
    (guestScope guestScopeParam : jstr) : route_result :=
  match normalize_text agentRelativePath true with
  | Err e => problem (RoutePath e)
  | Ok n =>
      match parseAgentPortSelector (selector_path (np_path n)) [] with
      | Err e => problem (RouteSelector e)
      | Ok None => problem ROUTE_OWNERSHIP_MISMATCH
      | Ok (Some s) =>
          if negb (jeqb (sel_agent s) routeKey) then problem ROUTE_OWNERSHIP_MISMATCH
          else
            match normalizePublicProtocol (prop "publicProtocol" spec) a "manifest" (np_path n) routeKey with
            | Err _ => problem INVALID_PUBLIC_PROTOCOL
            | Ok p => Ok (Ok (manifest_entry (np_path n) a routeKey p guestScope guestScopeParam))
            end
      end
  end.

(** The branch of paths relative to the agent's route. *)
Definition relative_route (spec : js) (routeKey agentRelativePath : jstr) (a : access)
    (guestScope guestScopeParam : jstr) : route_result :=
  if negb (is_undefined (optional "publicProtocol" spec)) then problem INVALID_PUBLIC_PROTOCOL
  else if jeqb agentRelativePath "/" || jeqb agentRelativePath "/*" then problem ROOT_PATH
  else if hasInternalAgentSegment agentRelativePath then problem INTERNAL_ROUTE
  else
    encoded ← encodeURIComponent routeKey;
    match normalize_text ("/" ++ encoded ++ agentRelativePath) true with
    | Err e => problem (RoutePath e)
    | Ok n => Ok (Ok (manifest_entry (np_path n) a routeKey None guestScope guestScopeParam))
    end.

Definition convention_prefix : jstr := "/" ++ AGENT_PORT_ROUTE.

(** [path.startsWith('/') ? path : '/' + path] *)
Definition absolute (rawPath : jstr) : jstr :=
  if starts_with rawPath "/" then rawPath else "/" ++ rawPath.

Definition normalizeManifestHttpRouteAccess (spec : js) (routeKey : jstr) : route_result :=
  let normalizedRouteKey := trim routeKey in
  if negb (truthy normalizedRouteKey) then problem INVALID_ROUTE_KEY
  else if has_own "mode" spec then problem INVALID_FIELD
  else
    a ← route_access spec;
    match a with
    | None => problem INVALID_ACCESS
    | Some a =>
        let scope := optional "guestScope" spec in
        guestScope ← declared_text scope;
        if negb (is_undefined scope) && (negb (is_text scope) || negb (truthy guestScope)) then
          problem INVALID_GUEST_SCOPE
        else
          let param := optional "guestScopeParam" spec in
          guestScopeParam ← declared_text param;
          if negb (is_undefined param) && (negb (is_text param) || negb (GUEST_SCOPE_PARAM guestScopeParam))
          then problem INVALID_GUEST_SCOPE_PARAM
          else if truthy guestScopeParam && (negb (bool_decide (a = Guest)) || negb (truthy guestScope))
          then problem INVALID_GUEST_SCOPE_PARAM
          else
            rawPath ← trimmed_text (optional "path" spec);
            let agentRelativePath := absolute rawPath in
            if jeqb agentRelativePath convention_prefix ||
               starts_with agentRelativePath (convention_prefix ++ "/")
            then convention_route spec normalizedRouteKey agentRelativePath a guestScope guestScopeParam
            else relative_route spec normalizedRouteKey agentRelativePath a guestScope guestScopeParam
    end.

(** ** All routes *)

(** The entries of one manifest: invalid specifications are skipped. *)
Fixpoint manifest_entries (routeKey : jstr) (specs : list js) : result js_error (list entry) :=
  match specs with
  | [] => Ok []
  | spec :: specs =>
      r ← normalizeManifestHttpRouteAccess spec routeKey;
      es ← manifest_entries routeKey specs;
      Ok match r with
         | Ok e => e :: es
         | Err _ => es
         end
  end.

(** The manifest of a route is the one passed in, else the file of the route's
    agent; [null] when it cannot be read. *)
Definition manifest_source : Type := jstr -> js -> js.

Fixpoint collectManifestHttpRouteAccess (manifest_of : manifest_source) (routes : list (jstr * js)) :
    result js_error (list entry) :=
  match routes with
  | [] => Ok []
  | (routeKey, route) :: routes =>
      es ← (if negb (js_truthy route) || js_truthy (prop "disabled" route) then Ok []
            else
              let manifest := manifest_of routeKey route in
              if js_truthy manifest then
                specs ← asRouteSpecs manifest; manifest_entries routeKey specs
              else Ok []);
      rest ← collectManifestHttpRouteAccess manifest_of routes;
      Ok (es ++ rest)
  end.

(** The theorem that a manifest can only declare routes of its own agent. *)

(** ** Texts *)

Lemma trim_start_app (s r : jstr) c : is_space c = false -> trim_start (s ++ c :: r) = trim_start s ++ c :: r.
Proof.
  intros Hc. induction s as [|d s IH]; simpl; [by rewrite Hc|]. by destruct (is_space d).
Qed.

(** A unit that is no white space stops trimming from both sides. *)
Lemma trim_end_app (a b : jstr) c : is_space c = false -> trim_end (a ++ c :: b) = a ++ c :: trim_end b.
Proof.
  intros Hc. unfold trim_end. rewrite rev_app_distr. simpl. rewrite <- app_assoc. simpl.
  rewrite trim_start_app by done. rewrite rev_app_distr. simpl. rewrite rev_involutive.
  by rewrite <- app_assoc.
Qed.

Lemma before_app (a b : jstr) c : c ∉ a -> before c (a ++ b) = a ++ before c b.
Proof.
  intros Ha. unfold before. apply index_of_None in Ha. rewrite index_of_app_None by done.
  destruct (index_of c b) as [i|]; simpl; [|done].
  rewrite take_app_ge by lia. by rewrite Nat.add_comm, Nat.add_sub.
Qed.

Lemma before_without (s : jstr) c : c ∉ before c s.
Proof.
  unfold before. destruct (index_of c s) as [i|] eqn:Hi; [by apply index_of_Some in Hi as (_ & ? & _)|].
  by apply index_of_None.
Qed.

(** Percent-encoding writes neither a question mark nor a slash. *)
Definition uri_safe (c : N) : Prop := c <> 63%N /\ c <> 47%N.

Lemma hex_digit_safe n : uri_safe (hex_digit n).
Proof. unfold uri_safe, hex_digit. destruct (N.ltb_spec n 10); lia. Qed.

Lemma percent_safe l : Forall uri_safe (l ≫= percent).
Proof.
  induction l as [|b l IH]; [constructor|]. rewrite bind_cons. apply Forall_app. split; [|done].
  unfold percent. by repeat constructor; try apply hex_digit_safe.
Qed.

Lemma unreserved_safe c : uri_unreserved c = true -> uri_safe c.
Proof. intros H. unfold uri_safe. split; intros ->; by vm_compute in H. Qed.

Lemma encode_safe s t : encodeURIComponent s = Ok t -> Forall uri_safe t.
Proof.
  remember (length s) as n eqn:Hn. revert s t Hn. induction n as [n IH] using lt_wf_ind.
  intros s t -> H. destruct s as [|c r]; simpl in H; [simplify_eq; constructor|].
  destruct (uri_unreserved c) eqn:Hu.
  { destruct (encodeURIComponent r) as [t'|] eqn:Ht; [|done]. simplify_eq/=. constructor.
    - by apply unreserved_safe.
    - eapply (IH (length r)); [simpl; lia|done|done]. }
  destruct (is_low_surrogate c); [done|]. destruct (is_high_surrogate c).
  - destruct r as [|d r']; [done|]. destruct (is_low_surrogate d); [|done].
    destruct (encodeURIComponent r') as [t'|] eqn:Ht; [|done]. simplify_eq/=.
    apply Forall_app. split; [apply percent_safe|]. eapply (IH (length r')); [simpl; lia|done|done].
  - destruct (encodeURIComponent r) as [t'|] eqn:Ht; [|done]. simplify_eq/=.
    apply Forall_app. split; [apply percent_safe|]. eapply (IH (length r)); [simpl; lia|done|done].
Qed.

Lemma drop_last_app (s suffix : jstr) :
  ends_with s suffix = true -> s = drop_last (length suffix) s ++ suffix.
Proof.
  unfold ends_with. rewrite starts_with_spec. intros [r Hr]. apply (f_equal (@rev N)) in Hr.
  rewrite rev_involutive, rev_app_distr, rev_involutive in Hr. subst s. unfold drop_last.
  rewrite length_app, Nat.add_sub. by rewrite take_app_length.
Qed.

(** ** Normalized paths *)

(** Normalization cuts off the query and white space, and nothing else. *)
Lemma normalize_text_path raw w n : normalize_text raw w = Ok n -> np_path n = before 63 (trim raw).
Proof.
  unfold normalize_text. intros H.
  repeat match type of H with
  | (if ?b then Err _ else _) = _ => destruct b; [done|]
  end.
  unfold normalize_core in H. set (value := before 63 (trim raw)) in *. clearbody value.
  destruct (ends_with value "/*") eqn:Hw; simpl in H.
  - destruct (negb w); [done|]. apply drop_last_app in Hw.
    change (length "/*") with 2 in Hw. set (core := drop_last 2 value) in *. clearbody core. subst value.
    destruct core as [|c core]; simpl sor in H.
    + by vm_compute in H.
    + repeat match type of H with
      | (if ?b then Err _ else _) = _ => destruct b; [done|]
      end. by injection H as <-.
  - repeat match type of H with
    | (if ?b then Err _ else _) = _ => destruct b; [done|]
    end. by injection H as <-.
Qed.

(** ** Ownership *)

(** The request paths an agent with this route key owns. *)
Definition owned (routeKey p : jstr) : Prop :=
  (exists encoded, encodeURIComponent routeKey = Ok encoded /\ under ("/" ++ encoded) p = true) \/
  under (convention_prefix ++ "/" ++ routeKey) p = true.

Lemma under_trans a b c : under a b = true -> under b c = true -> under a c = true.
Proof. rewrite !under_segs. intros; by etrans. Qed.

Lemma path_core_spec path : path = if ends_with path "/*" then path_core path ++ "/*" else path_core path.
Proof.
  unfold path_core. destruct (ends_with path "/*") eqn:Hw; [|done]. by apply drop_last_app in Hw.
Qed.

Lemma matches_under p path : matches p path = true -> under (path_core path) p = true.
Proof.
  rewrite matches_core. unfold path_core. destruct (ends_with path "/*"); [done|].
  intros ->%jeqb_eq. unfold under. by rewrite jeqb_refl.
Qed.

(** A core below a prefix that ends before its last slash. *)
Lemma core_under prefix rest path :
  path = prefix ++ "/" ++ rest -> under prefix (path_core path) = true.
Proof.
  intros Hp. apply under_segs. pose proof (path_core_spec path) as Hc.
  destruct (ends_with path "/*").
  - assert (segs path = segs (path_core path) ++ [[42%N]]) as Hs.
    { rewrite Hc at 1. exact (segs_app (path_core path) [42%N]). }
    rewrite Hp in Hs at 1. rewrite segs_app in Hs.
    destruct (segs rest) as [|x l _] eqn:Hr using rev_ind; [by destruct (split_on_nonempty 47 rest)|].
    rewrite app_assoc in Hs. apply app_inj_tail in Hs as [<- _]. by apply prefix_app_r.
  - rewrite <- Hc, Hp, segs_app. by apply prefix_app_r.
Qed.

(** A relative route: the expanded path starts with the encoded route key. *)
Lemma relative_route_owned spec k rel a scope param e :
  starts_with rel "/" = true ->
  relative_route spec k rel a scope param = Ok (Ok e) ->
  e_routeKey e = k /\ e_access e = a /\
  exists encoded rest, encodeURIComponent k = Ok encoded /\ e_path e = ("/" ++ encoded) ++ "/" ++ rest.
Proof.
  intros [rest ->]%starts_with_spec. unfold relative_route. intros H.
  repeat match type of H with
  | (if ?b then problem _ else _) = _ => destruct b; [done|]
  end.
  destruct (encodeURIComponent k) as [encoded|] eqn:He; [|done]. cbn [mbind result_bind] in H.
  destruct (normalize_text _ true) as [n|] eqn:Hn; [|done]. injection H as <-.
  split_and!; [done|done|]. apply normalize_text_path in Hn.
  exists encoded, (before 63 (trim_end rest)). split; [done|]. cbn [e_path manifest_entry]. rewrite Hn.
  change (trim ("/" ++ encoded ++ "/" ++ rest)) with (trim_end (47%N :: encoded ++ 47%N :: rest)).
  rewrite (app_comm_cons encoded), trim_end_app by done.
  change (47%N :: encoded) with ("/" ++ encoded). change (47%N :: trim_end rest) with ("/" ++ trim_end rest).
  rewrite app_assoc, before_app; [by rewrite <- app_assoc|].
  apply encode_safe in He. rewrite Forall_forall in He. rewrite !not_elem_of_app.
  split_and!; try (apply has_unit_false; by vm_compute).
  intros Hin. by destruct (He _ Hin).
Qed.

(** The convention branch: the path selects an agent port of this very key. *)
Lemma convention_route_owned spec k rel a scope param e :
  convention_route spec k rel a scope param = Ok (Ok e) ->
  e_routeKey e = k /\ 63%N ∉ e_path e /\
  exists s, parseAgentPortSelector (selector_path (e_path e)) [] = Ok (Some s) /\ sel_agent s = k.
Proof.
  unfold convention_route. intros H.
  destruct (normalize_text rel true) as [n|] eqn:Hn; [|done].
  destruct (parseAgentPortSelector _ []) as [[s|]|] eqn:Hs; try done.
  destruct (jeqb (sel_agent s) k) eqn:Hk; [|done]. apply jeqb_eq in Hk. simpl in H.
  destruct (normalizePublicProtocol _ _ _ _ _); [|done]. injection H as <-.
  split_and!; [done| |by exists s]. cbn [e_path manifest_entry].
  rewrite (normalize_text_path _ _ _ Hn). apply before_without.
Qed.

(** The text of an accepted selector, as far as its port. *)
Lemma selector_prefix t s :
  parseAgentPortSelector t [] = Ok (Some s) -> 63%N ∉ t ->
  exists rest : list jstr, segs t = [[]; AGENT_PORT_ROUTE; sel_agent s; sel_canonicalPort s] ++ rest /\
    sel_canonicalPort s <> [].
Proof.
  intros (rawPath & query & rawAgent & rawPort & sfx & segs' & tr & agent & Ht & Hs & Hd & Hk &
    Hp & _ & _ & _ & _ & ->)%parse_accepts Hq.
  pose proof (accepted_agent _ _ Hd Hk) as ->. simpl. exists sfx.
  rewrite splitRawTarget_eq in Ht. destruct (origin_form t) eqn:Ho; [|done].
  apply index_of_None in Hq. rewrite Hq in Ht. injection Ht as -> _.
  unfold origin_form in Ho. apply andb_true_iff in Ho as [Hst _].
  apply starts_with_spec in Hst as [raw Hraw]. subst rawPath.
  change (drop 1 ("/" ++ raw)) with raw in Hs. split; [|by destruct rawPort].
  transitivity (segs [] ++ segs raw); [exact (segs_app [] raw)|]. unfold segs. by rewrite Hs.
Qed.

Lemma convention_core_under path s :
  parseAgentPortSelector (selector_path path) [] = Ok (Some s) -> 63%N ∉ path ->
  under (convention_prefix ++ "/" ++ sel_agent s) (path_core path) = true.
Proof.
  intros Hs Hq. apply under_segs.
  destruct (selector_prefix _ _ Hs) as (rest & Hseg & Hport).
  { unfold selector_path, drop_last. destruct (ends_with _ _); [|done].
    intros Hin. apply Hq. rewrite <- (take_drop (length path - 1) path). apply elem_of_app. by left. }
  destruct (selector_canonical _ _ _ Hs) as [Hk _ _ _ _ _ _].
  assert (segs (convention_prefix ++ "/" ++ sel_agent s) = [[]; AGENT_PORT_ROUTE; sel_agent s]) as ->.
  { rewrite segs_app, (segs_plain (sel_agent s)); [by vm_compute|]. intros Hin.
    apply route_key_unreserved in Hk. rewrite forallb_forall in Hk.
    apply list_elem_of_In in Hin. by specialize (Hk _ Hin). }
  pose proof (path_core_spec path) as Hc. unfold selector_path in Hseg.
  destruct (ends_with path "/*") eqn:Hw.
  - assert (drop_last 1 path = path_core path ++ "/" ++ []) as Hd.
    { rewrite Hc at 1. unfold drop_last. rewrite length_app.
      change (path_core path ++ "/*") with (path_core path ++ [47%N] ++ [42%N]).
      rewrite app_assoc. change (length "/*") with 2.
      rewrite <- Nat.add_sub_assoc by lia. simpl.
      rewrite take_app_le by (rewrite length_app; simpl; lia).
      rewrite take_ge by (rewrite length_app; simpl; lia). done. }
    rewrite Hd, segs_app in Hseg. change (segs []) with [[] : jstr] in Hseg.
    destruct rest as [|x l _] using rev_ind.
    + rewrite app_nil_r in Hseg. change [[]; AGENT_PORT_ROUTE; sel_agent s; sel_canonicalPort s]
        with ([[]; AGENT_PORT_ROUTE; sel_agent s] ++ [sel_canonicalPort s]) in Hseg.
      apply app_inj_tail in Hseg as [_ Hnil]. by rewrite <- Hnil in Hport.
    + rewrite app_assoc in Hseg. apply app_inj_tail in Hseg as [-> _].
      by exists (sel_canonicalPort s :: l).
  - rewrite <- Hc, Hseg. by exists (sel_canonicalPort s :: rest).
Qed.

(** ** One specification *)

Lemma absolute_slash s : starts_with (absolute s) "/" = true.
Proof. unfold absolute. by destruct (starts_with s "/") eqn:Hs. Qed.

Lemma manifest_route_owned spec routeKey e p :
  normalizeManifestHttpRouteAccess spec routeKey = Ok (Ok e) -> matches p (e_path e) = true ->
  e_routeKey e = trim routeKey /\ owned (trim routeKey) p.
Proof.
  unfold normalizeManifestHttpRouteAccess. intros H Hm%matches_under.
  repeat match type of H with
  | (if ?b then problem _ else _) = _ => destruct b; [done|]
  | mbind _ ?m = _ => destruct m; [|done]; cbn [mbind result_bind] in H
  | match ?a with Some _ => _ | None => problem _ end = _ => destruct a; [|done]
  end.
  match type of H with (if ?b then _ else _) = _ => destruct b end.
  - apply convention_route_owned in H as (Hk & Hq & s & Hs & Hsk). split; [done|]. right.
    rewrite <- Hsk. eapply under_trans; [by apply convention_core_under|done].
  - apply relative_route_owned in H as (Hk & _ & encoded & rest & He & Hp); [|apply absolute_slash].
    split; [done|]. left. exists encoded. split; [done|].
    eapply under_trans; [by eapply core_under|done].
Qed.

Lemma manifest_entries_owned routeKey specs es e :
  manifest_entries routeKey specs = Ok es -> e ∈ es ->
  exists spec, normalizeManifestHttpRouteAccess spec routeKey = Ok (Ok e).
Proof.
  revert es. induction specs as [|spec specs IH]; intros es; simpl; [by intros [= <-] ?%not_elem_of_nil|].
  destruct (normalizeManifestHttpRouteAccess spec routeKey) as [r|] eqn:Hr; [|done]. simpl.
  destruct (manifest_entries routeKey specs) as [es'|]; [|done]. simpl. intros [= <-] He.
  destruct r as [e'|]; [|by eapply IH]. apply elem_of_cons in He as [->|He]; [eauto|by eapply IH].
Qed.

(** Agents declare access only for what is theirs: every entry collected
    from the manifests of the routes carries the key of a route that is
    enabled, and every request path the entry matches, wildcards included, lies
    under that route's own prefix or under its agent-port prefix. *)
Theorem manifest_routes_owned manifest_of routes es e p :
  collectManifestHttpRouteAccess manifest_of routes = Ok es -> e ∈ es -> matches p (e_path e) = true ->
  exists routeKey route, (routeKey, route) ∈ routes /\ js_truthy route = true /\
    js_truthy (prop "disabled" route) = false /\ e_routeKey e = trim routeKey /\ owned (trim routeKey) p.
Proof.
  intros Hc He Hm. revert es Hc He.
  induction routes as [|[routeKey route] routes IH]; intros es; simpl; [by intros [= <-] ?%not_elem_of_nil|].
  match goal with |- mbind _ ?m = _ -> _ => destruct m as [es1|] eqn:Hes; [|done] end. cbn [mbind result_bind].
  destruct (collectManifestHttpRouteAccess manifest_of routes) as [es2|]; [|done]. simpl.
  intros [= <-] [He|He]%elem_of_app.
  - exists routeKey, route. destruct (js_truthy route) eqn:Ht; simpl in Hes; [|by simplify_eq; apply not_elem_of_nil in He].
    destruct (js_truthy (prop "disabled" route)); [by simplify_eq; apply not_elem_of_nil in He|].
    destruct (js_truthy (manifest_of routeKey route)); [|by simplify_eq; apply not_elem_of_nil in He].
    destruct (asRouteSpecs _) as [specs|]; [|done]. simpl in Hes.
    destruct (manifest_entries_owned _ _ _ _ Hes He) as (spec & Hspec).
    destruct (manifest_route_owned _ _ _ _ Hspec Hm) as [Hk Ho]. split_and!; [by left|done|done|done|done].
  - destruct (IH es2 eq_refl He) as (k & r & Hin & H). exists k, r. split; [by right|done].
Qed.

Definition sample_routes : list (jstr * js) := [("shop", Obj [("hostPort", Num (Fin 8101))])].

Definition sample_manifest (routeKey : jstr) (route : js) : js :=
  Obj [("routerAccess", Obj [("httpRoutes",
    Obj [("docs/*", Str "public");
         ("/base-agent-additional-server/shop/7000/app/*", Obj [("access", Str "guest")])])])].

Definition sample_route_entries : list entry :=
  [Entry "/shop/docs/*" Public "shop" "manifest" None [] [];
   Entry "/base-agent-additional-server/shop/7000/app/*" Guest "shop" "manifest" None [] []].

Theorem manifest_routes_owned_witness :
  exists routeKey route, (routeKey, route) ∈ sample_routes /\ js_truthy route = true /\
    js_truthy (prop "disabled" route) = false /\
    e_routeKey (Entry "/shop/docs/*" Public "shop" "manifest" None [] []) = trim routeKey /\
    owned (trim routeKey) "/shop/docs/a".
Proof.
  apply (manifest_routes_owned sample_manifest sample_routes sample_route_entries
    (Entry "/shop/docs/*" Public "shop" "manifest" None [] []) "/shop/docs/a").
  - by vm_compute.
  - left.
  - by vm_compute.
Defined.
