(* ===== verification/NetworkContract.v ===== *)
(** The network contract of a manifest: [src/cli/sandbox/networkContract.js].

    A canonical network is a value of [network]; [network_js] is the object the
    code holds for it.  An error is the check that failed: paths and messages
    are not represented.  SHA-256 belongs to the host. *)

From stdpp Require Import prelude.
From Stdlib Require Import NArith.
From S2P Require Import Prelude.
From S2P Require Import JsString.
From S2P Require Import JsNumber.
From S2P Require Import JsMap.
From S2P Require Import JsValue.

Local Open Scope js_scope.

Definition NETWORK_MODES : list jstr := ["default"; "none"; "host"; "bridge"].
Definition NETWORK_SCHEMA_VERSION : jstr := "2".
Definition NETWORK_FIELDS : list jstr := ["mode"; "attachments"].
Definition ATTACHMENT_FIELDS : list jstr := ["name"; "primary"].

Inductive network_error : Type :=
  | NotAnObject
  | UnsupportedField (key : jstr)
  | BadMode
  | AttachmentsWithoutBridge
  | AttachmentsMissing
  | BadAttachmentName
  | DuplicateAttachment (name : jstr)
  | PrimaryNotBoolean
  | NotOnePrimary
  | ProfilesNotAnObject
  | AliasEmpty
  | AliasTooLong
  | AliasCollision (alias attachment prior current : jstr)
  | NoneWithAgentServer
  | NoneWithOpenPorts
  | NoneWithNetworkReadiness
  | HostModeRequired (mode : jstr)
  | NetworkJs (e : js_error).

Notation networkR := (result network_error).

Record attachment : Type := Attachment {
  at_name : jstr;
  at_primary : bool
}.

Inductive network : Type :=
  | Isolated (mode : jstr)
  | Bridged (attachments : list attachment).

Definition network_mode (n : network) : jstr :=
  match n with
  | Isolated mode => mode
  | Bridged _ => "bridge"
  end.

Definition attachment_js (a : attachment) : js :=
  Obj (if at_primary a then [("name", Str (at_name a)); ("primary", Bool true)] else [("name", Str (at_name a))]).

Definition network_js (n : network) : js :=
  match n with
  | Isolated mode => Obj [("mode", Str mode)]
  | Bridged l => Obj [("mode", Str "bridge"); ("attachments", Arr (attachment_js <$> l))]
  end.

(** ** Canonical form *)

(** [[a-z0-9]] and [[a-z0-9-]] *)
Definition label_edge (c : N) : bool := is_lower c || is_digit c.
Definition label_unit (c : N) : bool := label_edge c || (c =? 45)%N.

(** [DNS_LABEL.test(s)] *)
Definition DNS_LABEL (s : jstr) : bool :=
  match s with
  | [] => false
  | c :: _ => label_edge c && label_edge (List.last s 0%N) && forallb label_unit s && (length s <=? 63)
  end.

Definition objectAt (v : js) : networkR (list (jstr * js)) :=
  match v with
  | Obj l => Ok l
  | _ => Err NotAnObject
  end.

Fixpoint rejectUnknownFields (keys allowed : list jstr) : networkR unit :=
  match keys with
  | [] => Ok tt
  | key :: keys => if one_of key allowed then rejectUnknownFields keys allowed else Err (UnsupportedField key)
  end.

(** [typeof v === 'string' ? v.trim() : ''] *)
Definition string_trim (v : js) : jstr :=
  match v with
  | Str s => trim s
  | _ => []
  end.

Definition is_boolean (v : js) : bool :=
  match v with
  | Bool _ => true
  | _ => false
  end.

(** The body of the [map] over the attachments, the names before it known. *)
Definition canonical_attachment (names : list jstr) (raw : js) : networkR attachment :=
  l ← objectAt raw;
  _ ← rejectUnknownFields (map_keys l) ATTACHMENT_FIELDS;
  let name := string_trim (prop "name" raw) in
  if negb (DNS_LABEL name) then Err BadAttachmentName
  else if one_of name names then Err (DuplicateAttachment name)
  else if map_has "primary" l && negb (is_boolean (prop "primary" raw)) then Err PrimaryNotBoolean
  else Ok (Attachment name (is_bool (prop "primary" raw) true)).

Fixpoint canonical_attachments (names : list jstr) (raws : list js) : networkR (list attachment) :=
  match raws with
  | [] => Ok []
  | raw :: raws =>
      a ← canonical_attachment names raw;
      l ← canonical_attachments (names ++ [at_name a]) raws;
      Ok (a :: l)
  end.

Definition primary_count (l : list attachment) : nat := length (bfilter at_primary l).

Definition canonicalizeNetwork (v : js) : networkR network :=
  match v with
  | Undefined => Ok (Isolated "default")
  | _ =>
      l ← objectAt v;
      _ ← rejectUnknownFields (map_keys l) NETWORK_FIELDS;
      let mode := string_trim (prop "mode" v) in
      if negb (one_of mode NETWORK_MODES) then Err BadMode
      else if negb (jeqb mode "bridge") then
        if map_has "attachments" l then Err AttachmentsWithoutBridge else Ok (Isolated mode)
      else
        match prop "attachments" v with
        | Arr (raw :: raws) =>
            attachments ← canonical_attachments [] (raw :: raws);
            if primary_count attachments =? 1 then Ok (Bridged attachments) else Err NotOnePrimary
        | _ => Err AttachmentsMissing
        end
  end.

(** ** Manifests *)

(** [manifest && typeof manifest === 'object' && !Array.isArray(manifest)
    ? manifest : {}] *)
Definition source_of (manifest : js) : js := if is_plain manifest then manifest else Obj [].

Definition effectiveManifestNetwork (manifest : js) (profileName : jstr) : networkR network :=
  let source := source_of manifest in
  root ← canonicalizeNetwork (prop "network" source);
  let profile := optional profileName (prop "profiles" source) in
  if negb (js_truthy profile) || negb (has_own "network" profile) then Ok root
  else canonicalizeNetwork (prop "network" profile).

Fixpoint validate_profiles (profiles : list (jstr * js)) : networkR unit :=
  match profiles with
  | [] => Ok tt
  | (_, profile) :: profiles =>
      _ ← (if is_plain profile && has_own "network" profile then
             _ ← canonicalizeNetwork (prop "network" profile); Ok tt
           else Ok tt);
      validate_profiles profiles
  end.

Definition validateManifestNetworks (manifest : js) : networkR unit :=
  let source := source_of manifest in
  _ ← canonicalizeNetwork (prop "network" source);
  match prop "profiles" source with
  | Undefined => Ok tt
  | Obj l => validate_profiles l
  | _ => Err ProfilesNotAnObject
  end.

(** ** Aliases *)

(** [s.replace(/[^a-z0-9-]+/g, '-')], [inside] a run of other units. *)
Fixpoint dash_runs (inside : bool) (s : jstr) : jstr :=
  match s with
  | [] => []
  | c :: r =>
      if label_unit c then c :: dash_runs false r
      else if inside then dash_runs true r else 45%N :: dash_runs true r
  end.

Fixpoint strip_start (s : jstr) : jstr :=
  match s with
  | c :: r => if (c =? 45)%N then strip_start r else s
  | [] => []
  end.

Definition strip_dashes (s : jstr) : jstr := rev (strip_start (rev (strip_start s))).

Definition deriveNetworkAlias (canonicalAgentId : jstr) : networkR jstr :=
  let alias := strip_dashes (dash_runs false (to_lower canonicalAgentId)) in
  if negb (truthy alias) then Err AliasEmpty
  else if 63 <? length alias then Err AliasTooLong
  else Ok alias.

(** [crypto.createHash('sha256').update(s).digest('hex')] *)
Class Sha256 := sha256_hex : jstr -> jstr.

Notation alias_scopes := (jmap jstr (jmap jstr jstr)).

Section Hashes.
Context `{Sha256}.

Definition logical_attachments (contract : network) (instanceKey : jstr) : list attachment :=
  match contract with
  | Bridged l => l
  | Isolated mode =>
      if jeqb mode "none" || jeqb mode "host" then []
      else [Attachment ("default-" ++ take 12 (sha256_hex instanceKey)) true]
  end.

Definition logicalNetworkAttachments (v : js) (instanceKey : jstr) : networkR (list attachment) :=
  contract ← canonicalizeNetwork v; Ok (logical_attachments contract instanceKey).

(** ** The hash of a contract *)

Definition quoted (s : jstr) : jstr := [34%N] ++ s ++ [34%N].

(** [JSON.stringify] of a canonical network, whose texts need no escapes. *)
Definition attachment_json (a : attachment) : jstr :=
  "{" ++ quoted "name" ++ ":" ++ quoted (at_name a) ++
  (if at_primary a then "," ++ quoted "primary" ++ ":true" else []) ++ "}".

Definition network_json (n : network) : jstr :=
  "{" ++ quoted "mode" ++ ":" ++ quoted (network_mode n) ++
  match n with
  | Isolated _ => []
  | Bridged l => "," ++ quoted "attachments" ++ ":[" ++ join "," (attachment_json <$> l) ++ "]"
  end ++ "}".

Definition networkContractHash (v : js) : networkR jstr :=
  canonical ← canonicalizeNetwork v;
  Ok (sha256_hex
    ("{" ++ quoted "schemaVersion" ++ ":" ++ quoted NETWORK_SCHEMA_VERSION ++
     "," ++ quoted "runtimePolicy" ++ ":" ++ quoted "box-host-gateway-v1" ++
     "," ++ quoted "network" ++ ":" ++ network_json canonical ++ "}")).

(** ** Preflight *)

(** What the preflight reads of a node; [pf_agentRef] is
    [node.agentRef || node.id]. *)
Record preflight_node : Type := PreflightNode {
  pf_agentRef : jstr;
  pf_canonicalAgentId : jstr;
  pf_instanceKey : jstr;
  pf_network : js
}.

Definition prior_of (scopes : alias_scopes) (name alias : jstr) : jstr :=
  match map_get name scopes with
  | Some scope => default [] (map_get alias scope)
  | None => []
  end.

(** [if (!scopes.has(name)) scopes.set(name, new Map());
     scopes.get(name).set(alias, ref)] *)
Definition claim (name alias ref : jstr) (scopes : alias_scopes) : alias_scopes :=
  map_set name (map_set alias ref (default [] (map_get name scopes))) scopes.

Fixpoint claim_attachments (alias ref : jstr) (l : list attachment) (scopes : alias_scopes) :
    networkR alias_scopes :=
  match l with
  | [] => Ok scopes
  | a :: l =>
      let prior := prior_of scopes (at_name a) alias in
      if truthy prior then Err (AliasCollision alias (at_name a) prior ref)
      else claim_attachments alias ref l (claim (at_name a) alias ref scopes)
  end.

Definition preflight_one (n : preflight_node) (scopes : alias_scopes) : networkR alias_scopes :=
  network ← canonicalizeNetwork (pf_network n);
  alias ← deriveNetworkAlias (pf_canonicalAgentId n);
  attachments ← logicalNetworkAttachments (network_js network) (pf_instanceKey n);
  claim_attachments alias (sor (pf_agentRef n) alias) attachments scopes.

Fixpoint preflight_loop (l : list preflight_node) (scopes : alias_scopes) : networkR unit :=
  match l with
  | [] => Ok tt
  | n :: l => scopes ← preflight_one n scopes; preflight_loop l scopes
  end.

Definition preflightNetworkAliases (nodes : list preflight_node) : networkR unit := preflight_loop nodes [].
End Hashes.

(** ** Startup *)

Definition network_text (v : js) : networkR jstr :=
  match trimmed_text v with
  | Ok s => Ok s
  | Err e => Err (NetworkJs e)
  end.

Definition readiness_protocol (value : jstr) : bool :=
  one_of value ["mcp"; "http"; "https"; "tcp"] || starts_with value "http://" ||
  starts_with value "https://" || starts_with value "tcp:".

Definition readinessIsNetworkDependent (manifest : js) : networkR bool :=
  let readiness := js_or (optional "readiness" manifest) (Obj []) in
  let healthReadiness := js_or (optional "readiness" (optional "health" manifest)) (Obj []) in
  values ← mapM_result network_text
    [prop "protocol" readiness; prop "type" readiness; prop "url" readiness;
     prop "protocol" healthReadiness; prop "type" healthReadiness; prop "url" healthReadiness;
     prop "port" healthReadiness];
  Ok (existsb (fun v => readiness_protocol (to_lower v)) values).

Definition has_agent_server (manifest : js) : networkR bool :=
  start ← network_text (optional "start" manifest);
  if negb (truthy start) then Ok true
  else
    run ← network_text (js_or (optional "agent" manifest) (optional "run" (optional "commands" manifest)));
    Ok (truthy run).

(** [openPorts !== undefined && (!Array.isArray(openPorts) || openPorts.length > 0)] *)
Definition opens_ports (openPorts : js) : bool :=
  match openPorts with
  | Undefined | Arr [] => false
  | _ => true
  end.

Definition assertNetworkStartupCompatibility (manifest profileConfig network : js) : networkR js :=
  contract ← canonicalizeNetwork network;
  if negb (jeqb (network_mode contract) "none") then Ok (network_js contract)
  else
    executionHasAgentServer ← has_agent_server manifest;
    let openPorts := js_nullish (optional "openPorts" profileConfig) (optional "openPorts" manifest) in
    if executionHasAgentServer : bool then Err NoneWithAgentServer
    else if opens_ports openPorts then Err NoneWithOpenPorts
    else
      dependent ← readinessIsNetworkDependent manifest;
      if dependent : bool then Err NoneWithNetworkReadiness else Ok (network_js contract).

Definition assertHostSandboxNetworkCompatibility (v : js) : networkR js :=
  contract ← canonicalizeNetwork v;
  if jeqb (network_mode contract) "host" then Ok (network_js contract)
  else Err (HostModeRequired (network_mode contract)).
