(* ===== verification/NetworkTheorems.v ===== *)
(** What the network contract promises: its canonical form is stable, and the
    preflight admits a workspace exactly if no two claims of an alias collide. *)

From stdpp Require Import prelude.
From Stdlib Require Import NArith.
From S2P Require Import Prelude.
From S2P Require Import JsString.
From S2P Require Import JsNumber.
From S2P Require Import JsMap.
From S2P Require Import JsValue.
From S2P Require Import NetworkContract.

Local Open Scope js_scope.

(** ** Labels *)

Lemma label_edge_not_space c : label_edge c = true -> is_space c = false.
Proof.
  unfold label_edge, is_space, is_lower, is_digit. intros Hc.
  apply orb_true_iff in Hc. rewrite !andb_true_iff, !N.leb_le in Hc.
  apply not_true_is_false. rewrite !orb_true_iff, !andb_true_iff, !N.leb_le, !N.eqb_eq. lia.
Qed.

Lemma trim_start_edge c r : label_edge c = true -> trim_start (c :: r) = c :: r.
Proof. intros Hc%label_edge_not_space. simpl. by rewrite Hc. Qed.

Lemma last_rev (s : list N) c : List.last (c :: s) 0%N = List.hd 0%N (rev (c :: s)).
Proof.
  induction s as [|d s IH] using rev_ind; [done|].
  rewrite app_comm_cons, List.last_last, rev_app_distr. done.
Qed.

(** A label has no white space to trim. *)
Lemma trim_label s : DNS_LABEL s = true -> trim s = s.
Proof.
  destruct s as [|c s]; [done|]. unfold DNS_LABEL. rewrite last_rev.
  intros (((Hc & Hl)%andb_true_iff & _)%andb_true_iff & _)%andb_true_iff.
  unfold trim, trim_end. rewrite trim_start_edge by done.
  destruct (rev (c :: s)) as [|d r] eqn:Hr; [by apply (f_equal length) in Hr; rewrite length_rev in Hr|].
  rewrite trim_start_edge by done. by rewrite <- Hr, rev_involutive.
Qed.

#[local] Arguments trim : simpl never.
#[local] Arguments DNS_LABEL : simpl never.
#[local] Arguments one_of : simpl never.
#[local] Arguments primary_count : simpl never.

(** ** Canonical networks *)

Record canonical_list (names : list jstr) (l : list attachment) : Prop := {
  ca_labels : Forall (fun a => DNS_LABEL (at_name a) = true) l;
  ca_nodup : NoDup (at_name <$> l);
  ca_fresh : Forall (fun a => at_name a ∉ names) l
}.

Inductive canonical : network -> Prop :=
  | canonical_isolated mode :
      one_of mode NETWORK_MODES = true -> mode <> "bridge" -> canonical (Isolated mode)
  | canonical_bridged l :
      canonical_list [] l -> primary_count l = 1 -> canonical (Bridged l).

Lemma canonical_attachment_ok names raw a :
  canonical_attachment names raw = Ok a -> DNS_LABEL (at_name a) = true /\ at_name a ∉ names.
Proof.
  unfold canonical_attachment. destruct (objectAt raw) as [l|]; [|done]. cbn [mbind result_bind].
  destruct (rejectUnknownFields _ _) as [[]|]; [|done].
  destruct (DNS_LABEL _) eqn:Hl; [|done]. destruct (one_of _ names) eqn:Hn; [done|].
  destruct (_ && _); [done|]. intros [= <-]. split; [done|].
  intros Hin%one_of_elem. simpl in Hin. congruence.
Qed.

Lemma canonical_attachments_ok names raws l :
  canonical_attachments names raws = Ok l -> canonical_list names l.
Proof.
  revert names l. induction raws as [|raw raws IH]; intros names l; simpl.
  { intros [= <-]. split; constructor. }
  destruct (canonical_attachment names raw) as [a|] eqn:Ha; [|done].
  cbn [mbind result_bind].
  destruct (canonical_attachments (names ++ [at_name a]) raws) as [l'|] eqn:Hl; [|done]. intros [= <-].
  apply canonical_attachment_ok in Ha as [Hd Hn]. destruct (IH _ _ Hl) as [H1 H2 H3].
  rewrite Forall_forall in H3. split.
  - by constructor.
  - simpl. constructor; [|done]. intros (b & Hb & Hin)%list_elem_of_fmap. apply (H3 b Hin). set_solver.
  - constructor; [done|]. apply Forall_forall. intros b Hb Hbn. apply (H3 b Hb). set_solver.
Qed.

Lemma canonicalize_canonical v n : canonicalizeNetwork v = Ok n -> canonical n.
Proof.
  destruct v as [| | | | | | |l]; try done.
  { intros [= <-]. by constructor. }
  unfold canonicalizeNetwork. cbn [objectAt mbind result_bind].
  destruct (rejectUnknownFields _ _) as [[]|]; [|done].
  destruct (one_of _ NETWORK_MODES) eqn:Hm; [|done]. cbn [negb].
  destruct (jeqb _ "bridge") eqn:Hb; cbn [negb]; cycle 1.
  { destruct (map_has "attachments" l); [done|]. intros [= <-]. constructor; [done|]. by apply jeqb_neq. }
  destruct (prop "attachments" (Obj l)) as [| | | | | |[|raw raws]|]; try done.
  destruct (canonical_attachments [] (raw :: raws)) as [k|] eqn:Hk; [|done]. cbn.
  destruct (primary_count k =? 1) eqn:Hp; [|done]. intros [= <-].
  constructor; [by eapply canonical_attachments_ok|]. by apply Nat.eqb_eq.
Qed.

Lemma canonical_attachment_js names a :
  DNS_LABEL (at_name a) = true -> at_name a ∉ names ->
  canonical_attachment names (attachment_js a) = Ok a.
Proof.
  intros Hl Hn. destruct a as [name primary]. simpl in *.
  assert (one_of name names = false) as Ho by (apply not_true_is_false; by rewrite one_of_elem).
  unfold canonical_attachment, attachment_js. cbn [at_primary at_name].
  destruct primary; cbn [objectAt mbind result_bind];
    (replace (rejectUnknownFields _ _) with (Ok (E := network_error) tt) by done);
    [change (prop "name" _) with (Str name)|change (prop "name" _) with (Str name)];
    cbn [string_trim]; rewrite trim_label, Hl, Ho by done; done.
Qed.

Lemma canonical_attachments_js names l :
  canonical_list names l -> canonical_attachments names (attachment_js <$> l) = Ok l.
Proof.
  revert names. induction l as [|a l IH]; intros names [H1 H2 H3]; [done|].
  apply Forall_cons in H1 as [Hl H1]. apply NoDup_cons in H2 as [Hnew H2].
  apply Forall_cons in H3 as [Hf H3]. rewrite Forall_forall in H3.
  cbn [fmap list_fmap canonical_attachments]. rewrite canonical_attachment_js by done.
  cbn [mbind result_bind]. rewrite IH; [done|]. split; [done|done|]. apply Forall_forall. intros b Hb.
  rewrite not_elem_of_app. split; [by apply H3|].
  intros Heq%list_elem_of_singleton. apply Hnew. rewrite <- Heq. by apply list_elem_of_fmap_2.
Qed.

Lemma canonicalize_bridge raw raws :
  canonicalizeNetwork (Obj [("mode", Str "bridge"); ("attachments", Arr (raw :: raws))]) =
    (attachments ← canonical_attachments [] (raw :: raws);
     if primary_count attachments =? 1 then Ok (Bridged attachments) else Err NotOnePrimary).
Proof. reflexivity. Qed.

(** The canonical form is stable: what [canonicalizeNetwork] returns is
    accepted and returned unchanged when it is canonicalized again, as every
    consumer of a contract does. *)
Lemma canonicalize_stable v n : canonicalizeNetwork v = Ok n -> canonicalizeNetwork (network_js n) = Ok n.
Proof.
  intros [mode Hm Hb|l Hl Hp]%canonicalize_canonical.
  - unfold canonicalizeNetwork, network_js. cbn [objectAt mbind result_bind map_keys].
    apply one_of_elem in Hm as Hin. unfold NETWORK_MODES in Hin.
    repeat (apply elem_of_cons in Hin as [->|Hin]; [first [done | by vm_compute]|]). by apply not_elem_of_nil in Hin.
  - destruct l as [|a l]; [done|]. unfold network_js. cbn [fmap list_fmap]. rewrite canonicalize_bridge.
    change (attachment_js a :: _) with (attachment_js <$> a :: l).
    rewrite canonical_attachments_js by done. cbn [mbind result_bind]. by rewrite Hp.
Qed.

(** ** Claims of aliases *)

Section Preflight.
Context `{Sha256}.
Implicit Types (n : preflight_node) (s : alias_scopes).

(** The names a node takes part in, each with its alias there. *)
Definition claims_of n : list (jstr * jstr) :=
  match canonicalizeNetwork (pf_network n), deriveNetworkAlias (pf_canonicalAgentId n) with
  | Ok contract, Ok alias => (fun a => (at_name a, alias)) <$> logical_attachments contract (pf_instanceKey n)
  | _, _ => []
  end.

(** Its network is valid and its name makes an alias. *)
Definition admissible n : Prop :=
  is_ok (canonicalizeNetwork (pf_network n)) = true /\
  is_ok (deriveNetworkAlias (pf_canonicalAgentId n)) = true.

(** [s] records the claims of [seen]. *)
Definition records s (seen : list (jstr * jstr)) : Prop :=
  forall name alias, truthy (prior_of s name alias) = true <-> (name, alias) ∈ seen.

Lemma claim_prior s name alias ref name' alias' :
  prior_of (claim name alias ref s) name' alias' =
    if decide (name' = name /\ alias' = alias) then ref else prior_of s name' alias'.
Proof.
  unfold prior_of, claim. rewrite map_get_set. destruct (decide (name' = name)) as [->|Hn].
  - rewrite map_get_set. destruct (decide (alias' = alias)) as [->|Ha].
    + by rewrite decide_True.
    + rewrite decide_False by tauto. by destruct (map_get name s).
  - by rewrite decide_False by tauto.
Qed.

Lemma claim_records s seen name alias ref :
  truthy ref = true -> records s seen -> records (claim name alias ref s) (seen ++ [(name, alias)]).
Proof.
  intros Hr Hs name' alias'. rewrite claim_prior, elem_of_app, list_elem_of_singleton.
  specialize (Hs name' alias').
  case_decide as Hd; [destruct Hd as [-> ->]|]; naive_solver.
Qed.

(** A list of attachments is claimed exactly if none of them is taken. *)
Lemma claim_attachments_spec alias ref l s seen :
  truthy ref = true -> records s seen -> NoDup seen ->
  let pairs := (fun a => (at_name a, alias)) <$> l in
  match claim_attachments alias ref l s with
  | Ok s' => records s' (seen ++ pairs) /\ NoDup (seen ++ pairs)
  | Err _ => ~ NoDup (seen ++ pairs)
  end.
Proof.
  intros Hr. revert s seen. induction l as [|a l IH]; intros s seen Hs Hd; simpl.
  { by rewrite app_nil_r. }
  destruct (truthy (prior_of s (at_name a) alias)) eqn:Hp.
  - apply Hs in Hp. intros Hnd. apply NoDup_app in Hnd as (_ & Hdis & _). apply (Hdis _ Hp). by left.
  - assert ((at_name a, alias) ∉ seen) as Hnew.
    { intros Hin%Hs. congruence. }
    specialize (IH _ _ (claim_records _ _ (at_name a) alias ref Hr Hs)).
    cbv zeta in IH. rewrite <- app_assoc in IH. apply IH. apply NoDup_app. split_and!; [done| |apply NoDup_singleton].
    by intros x Hx ->%list_elem_of_singleton.
Qed.

Lemma alias_truthy id alias : deriveNetworkAlias id = Ok alias -> truthy alias = true.
Proof.
  unfold deriveNetworkAlias. destruct (truthy _) eqn:Ht; [|done]. simpl.
  destruct (63 <? _); [done|]. by intros [= <-].
Qed.

Lemma preflight_one_spec n s seen :
  records s seen -> NoDup seen ->
  match preflight_one n s with
  | Ok s' => admissible n /\ records s' (seen ++ claims_of n) /\ NoDup (seen ++ claims_of n)
  | Err _ => ~ (admissible n /\ NoDup (seen ++ claims_of n))
  end.
Proof.
  intros Hs Hd. unfold preflight_one, claims_of, admissible, logicalNetworkAttachments.
  destruct (canonicalizeNetwork (pf_network n)) as [contract|] eqn:Hc; [|simpl; naive_solver].
  cbn [mbind result_bind].
  destruct (deriveNetworkAlias (pf_canonicalAgentId n)) as [alias|] eqn:Ha; [|simpl; naive_solver].
  rewrite (canonicalize_stable _ _ Hc). cbn [mbind result_bind is_ok].
  pose proof (claim_attachments_spec alias (sor (pf_agentRef n) alias)
    (logical_attachments contract (pf_instanceKey n)) s seen) as Hspec.
  assert (truthy (sor (pf_agentRef n) alias) = true) as Hr.
  { unfold sor. destruct (truthy (pf_agentRef n)) eqn:?; [done|]. by eapply alias_truthy. }
  specialize (Hspec Hr Hs Hd). destruct (claim_attachments _ _ _ _); naive_solver.
Qed.

Lemma preflight_loop_spec l s seen :
  records s seen -> NoDup seen ->
  preflight_loop l s = Ok tt <-> Forall admissible l /\ NoDup (seen ++ (l ≫= claims_of)).
Proof.
  revert s seen. induction l as [|n l IH]; intros s seen Hs Hd; simpl.
  { rewrite app_nil_r. naive_solver. }
  pose proof (preflight_one_spec n s seen Hs Hd) as Hone.
  rewrite Forall_cons, app_assoc. destruct (preflight_one n s) as [s'|e]; cbn [mbind result_bind].
  - destruct Hone as (Ha & Hs' & Hd'). rewrite (IH s' _ Hs' Hd'). tauto.
  - split; [done|]. intros [[Ha _] Hnd]. exfalso. apply Hone. split; [done|].
    by apply NoDup_app in Hnd as (? & _ & _).
Qed.

Lemma preflight_admits nodes :
  preflightNetworkAliases nodes = Ok tt <-> Forall admissible nodes /\ NoDup (nodes ≫= claims_of).
Proof.
  unfold preflightNetworkAliases. rewrite (preflight_loop_spec nodes [] []); [done| |constructor].
  intros name alias. split; [done|]. by intros ?%not_elem_of_nil.
Qed.

(** C36. The preflight admits a workspace exactly if every network is valid,
    every agent has an alias, and no alias is claimed twice on a network: two
    agents that share a network never answer to the same name. *)
Theorem preflight_exact nodes :
  preflightNetworkAliases nodes = Ok tt <-> Forall admissible nodes /\ NoDup (nodes ≫= claims_of).
Proof. apply preflight_admits. Qed.
End Preflight.
