(* ===== verification/ManifestContract.v ===== *)
(** What a manifest declares about authentication and startup:
    [src/cli/utils/manifestAuth.js] and
    [src/cli/utils/runtime/manifestStartup.js]. *)

From stdpp Require Import prelude.
From Stdlib Require Import NArith.
From S2P Require Import Prelude.
From S2P Require Import JsString.
From S2P Require Import JsNumber.
From S2P Require Import JsMap.
From S2P Require Import JsValue.

Local Open Scope js_scope.

(** ** Objects *)

(** [{ ...v }]: the own enumerable properties of [v], in order. *)
Definition spread (v : js) : list (jstr * js) :=
  match v with
  | Obj l => l
  | Arr l => imap (fun i x => (string_of_N (N.of_nat i), x)) l
  | Str s => imap (fun i c => (string_of_N (N.of_nat i), Str [c])) s
  | _ => []
  end.

(** [{ ...a, ...b }] *)
Definition merge_props (a b : list (jstr * js)) : list (jstr * js) :=
  fold_left (fun m e => map_set e.1 e.2 m) b a.

(** ** Authentication *)

Inductive auth_error : Type :=
  | LocalPassword
  | LocalAuthRoles
  | SsoWithGuest
  | UnknownAuthMode
  | AuthJs (e : js_error).

Notation authR := (result auth_error).

(** [[,\n;]] *)
Definition directive_separator (c : N) : bool := ((c =? 44) || (c =? 10) || (c =? 59))%N.

(** The pieces between separators, empty ones included. *)
Fixpoint pieces_from (s piece : jstr) : list jstr :=
  match s with
  | [] => [piece]
  | c :: r => if directive_separator c then piece :: pieces_from r [] else pieces_from r (piece ++ [c])
  end.

Fixpoint authDirectives (v : js) : list jstr :=
  match v with
  | Arr l =>
      (fix all (l : list js) : list jstr :=
         match l with
         | [] => []
         | x :: r => authDirectives x ++ all r
         end) l
  | Str s => bfilter truthy ((fun p => to_lower (trim p)) <$> pieces_from s [])
  | _ => []
  end.

(** [/^pwd(?:\s|$)/.test(s)] *)
Definition pwd_directive (s : jstr) : bool :=
  starts_with s "pwd" &&
  match drop 3 s with
  | [] => true
  | c :: _ => is_space c
  end.

Definition resolveManifestAuthMode (manifest : js) : authR jstr :=
  let directives := authDirectives (optional "ploinky" manifest) in
  if existsb pwd_directive directives || has_own "pwd" manifest then Err LocalPassword
  else if has_own "localAuthRoles" (optional "routerAccess" manifest) then Err LocalAuthRoles
  else
    let guest := is_bool (optional "guest" manifest) true in
    if one_of "sso enable" directives then
      if guest then Err SsoWithGuest else Ok "sso"
    else Ok (if guest then "guest" else "none").

Definition auth_policy (mode : jstr) : js := Obj [("mode", Str mode)].

Definition resolveAgentAuthPolicy (manifest configuredPolicy : js) : authR js :=
  manifestMode ← resolveManifestAuthMode manifest;
  if jeqb manifestMode "sso" then Ok (auth_policy "sso")
  else if negb (js_truthy configuredPolicy) then Ok (auth_policy manifestMode)
  else
    match to_string (js_or (prop "mode" configuredPolicy) (Str "none")) with
    | Err e => Err (AuthJs e)
    | Ok text =>
        let mode := to_lower (trim text) in
        if one_of mode ["local"; "pwd"] then Err LocalPassword
        else if negb (one_of mode ["none"; "guest"; "sso"]) then Err UnknownAuthMode
        else Ok (Obj (merge_props (spread configuredPolicy) [("mode", Str mode)]))
    end.

(** A declared identity provider cannot be overridden by saved settings. *)
Lemma sso_is_mandatory manifest configuredPolicy :
  resolveManifestAuthMode manifest = Ok "sso" ->
  resolveAgentAuthPolicy manifest configuredPolicy = Ok (auth_policy "sso").
Proof. unfold resolveAgentAuthPolicy. by intros ->. Qed.

(** ** Startup *)

Inductive startup : Type :=
  | AUTOMATIC_STARTUP
  | MANUAL_STARTUP.

Inductive startup_error : Type :=
  | BadStartup
  | AgentManifestUnreadable
  | StartupJs (e : js_error).

Definition resolveManifestStartup (manifest : js) : result startup_error startup :=
  match optional "startup" manifest with
  | Undefined => Ok AUTOMATIC_STARTUP
  | Str s =>
      if jeqb s "automatic" then Ok AUTOMATIC_STARTUP
      else if jeqb s "manual" then Ok MANUAL_STARTUP
      else Err BadStartup
  | _ => Err BadStartup
  end.

Record manual_entry : Type := ManualEntry {
  me_name : jstr;
  me_routeKey : js
}.

Record startup_partition : Type := StartupPartition {
  sp_automatic : list jstr;
  sp_activeManual : list manual_entry;
  sp_inactiveManual : list manual_entry
}.

Section Startup.
(** [loadManifest(record, name)], [None] when it throws, and
    [isRuntimeRunning(name, record)], which the caller passes. *)
Context (loadManifest : js -> jstr -> option js) (isRuntimeRunning : jstr -> js -> bool).

Definition add_automatic (name : jstr) (p : startup_partition) : startup_partition :=
  StartupPartition (sp_automatic p ++ [name]) (sp_activeManual p) (sp_inactiveManual p).

Definition add_manual (running : bool) (e : manual_entry) (p : startup_partition) : startup_partition :=
  if running then StartupPartition (sp_automatic p) (sp_activeManual p ++ [e]) (sp_inactiveManual p)
  else StartupPartition (sp_automatic p) (sp_activeManual p) (sp_inactiveManual p ++ [e]).

Definition place_agent (registry : js) (name : jstr) (p : startup_partition) :
    result startup_error startup_partition :=
  let record := prop name registry in
  if negb (js_truthy (optional "agentName" record)) || negb (js_truthy (optional "repoName" record)) then
    Ok (add_automatic name p)
  else
    match loadManifest record name with
    | None => Err AgentManifestUnreadable
    | Some manifest =>
        startup ← resolveManifestStartup manifest;
        Ok match startup with
           | AUTOMATIC_STARTUP => add_automatic name p
           | MANUAL_STARTUP =>
               add_manual (isRuntimeRunning name record)
                 (ManualEntry name (js_or (prop "alias" record) (prop "agentName" record))) p
           end
    end.

Fixpoint place_agents (registry : js) (graphRegistryNames names : list jstr) (p : startup_partition) :
    result startup_error startup_partition :=
  match names with
  | [] => Ok p
  | name :: names =>
      p ← (if one_of name graphRegistryNames then Ok p else place_agent registry name p);
      place_agents registry graphRegistryNames names p
  end.

Definition partitionAdditionalStartupAgents (registry : js) (names graphRegistryNames : list jstr) :
    result startup_error startup_partition :=
  place_agents registry graphRegistryNames names (StartupPartition [] [] []).

(** The names a partition holds. *)
Definition placed (p : startup_partition) : list jstr :=
  sp_automatic p ++ (me_name <$> sp_activeManual p) ++ (me_name <$> sp_inactiveManual p).

Lemma place_agent_placed registry name p p' :
  place_agent registry name p = Ok p' -> placed p' ≡ₚ name :: placed p.
Proof.
  assert (placed (add_automatic name p) ≡ₚ name :: placed p) as Ha.
  { unfold placed. simpl. rewrite <- app_assoc. symmetry. apply Permutation_middle. }
  unfold place_agent. destruct (_ || _); [by intros [= <-]|].
  destruct (loadManifest _ _) as [manifest|]; [|done].
  destruct (resolveManifestStartup manifest) as [[|]|]; cbn [mbind result_bind]; [by intros [= <-]| |done].
  intros [= <-]. unfold placed, add_manual. destruct (isRuntimeRunning _ _); simpl.
  - rewrite fmap_app, <- app_assoc. simpl. rewrite !app_assoc. symmetry. apply Permutation_middle.
  - rewrite fmap_app. simpl. by rewrite !app_assoc, <- Permutation_cons_append.
Qed.

(** Every agent outside the graph is placed, once. *)
Lemma partition_complete registry names graphRegistryNames p :
  partitionAdditionalStartupAgents registry names graphRegistryNames = Ok p ->
  placed p ≡ₚ bfilter (fun name => negb (one_of name graphRegistryNames)) names.
Proof.
  unfold partitionAdditionalStartupAgents.
  enough (forall q, place_agents registry graphRegistryNames names q = Ok p ->
    placed p ≡ₚ placed q ++ bfilter (fun name => negb (one_of name graphRegistryNames)) names) as H
    by (intros Hp; by apply H in Hp).
  induction names as [|name names IH]; intros q; simpl; [intros [= <-]; by rewrite app_nil_r|].
  destruct (one_of name graphRegistryNames); simpl; [apply IH|].
  destruct (place_agent registry name q) as [q'|] eqn:Hq; [|done]. cbn [mbind result_bind].
  intros Hp%IH. rewrite Hp, (place_agent_placed _ _ _ _ Hq). simpl. apply Permutation_middle.
Qed.
End Startup.

Definition shouldMonitorManifestRuntime (manifest : js) (hasRoute : bool) : result startup_error bool :=
  startup ← resolveManifestStartup manifest;
  Ok match startup with
     | AUTOMATIC_STARTUP => true
     | MANUAL_STARTUP => hasRoute
     end.

(** ** Routes *)

Fixpoint delete_routes (inactiveManual : list manual_entry) (routes : list (jstr * js)) :
    result js_error (list (jstr * js)) :=
  match inactiveManual with
  | [] => Ok routes
  | e :: inactiveManual =>
      routeKey ← trimmed_text (me_routeKey e);
      delete_routes inactiveManual (if truthy routeKey then map_delete routeKey routes else routes)
  end.

Definition removeInactiveManualRoutes (routes : js) (inactiveManual : list manual_entry) :
    result js_error (list (jstr * js)) :=
  delete_routes inactiveManual (spread (js_or routes (Obj []))).

Definition finalizeStartupRoutes (snapshotRoutes persistedRoutes : js) (inactiveManual : list manual_entry) :
    result js_error (list (jstr * js)) :=
  delete_routes inactiveManual
    (merge_props (spread (js_or snapshotRoutes (Obj []))) (spread (js_or persistedRoutes (Obj [])))).
