(* ===== verification/JsBytes.v ===== *)
(** Bytes of Node's [Buffer]: UTF-8 encoding and decoding of strings
    ([Buffer.from(s, 'utf8')], [buffer.toString('utf8')]), base64, and their
    round trips. *)

From stdpp Require Import prelude.
From Stdlib Require Import NArith.
From S2P Require Import Prelude.
From S2P Require Import JsString.
From S2P Require Import JsUri.

Local Open Scope N_scope.

(** A byte is an [N] below 256. *)
Definition bytes : Type := list N.

Definition byte_ok (b : N) : bool := b <? 256.

(** ** Encoding *)

(** U+FFFD, which stands for what has no code point. *)
Definition replacement : N := 65533.

(** [Buffer.from(s, 'utf8')]: a lone surrogate is written as U+FFFD. *)
Fixpoint utf8_bytes (s : jstr) : bytes :=
  match s with
  | [] => []
  | c :: r =>
      if is_high_surrogate c then
        match r with
        | d :: r' =>
            if is_low_surrogate d then utf8_of (surrogate_pair c d) ++ utf8_bytes r'
            else utf8_of replacement ++ utf8_bytes r
        | [] => utf8_of replacement
        end
      else if is_low_surrogate c then utf8_of replacement ++ utf8_bytes r
      else utf8_of c ++ utf8_bytes r
  end.

(** ** Decoding *)

(** The decoder of the Encoding Standard: [needed] continuation bytes are
    missing, the next one between [lo] and [hi], and [cp] are the bits so far.  A
    byte that does not fit ends the sequence with U+FFFD and is read again. *)
Fixpoint utf8_loop (cp : N) (needed : nat) (lo hi : N) (bs : bytes) : jstr :=
  match bs with
  | [] =>
      match needed with
      | O => []
      | S _ => [replacement]
      end
  | b :: r =>
      let start :=
        if b <? 128 then b :: utf8_loop 0 0 128 191 r
        else if (194 <=? b) && (b <=? 223) then utf8_loop (b - 192) 1 128 191 r
        else if (224 <=? b) && (b <=? 239) then
          utf8_loop (b - 224) 2 (if b =? 224 then 160 else 128) (if b =? 237 then 159 else 191) r
        else if (240 <=? b) && (b <=? 244) then
          utf8_loop (b - 240) 3 (if b =? 240 then 144 else 128) (if b =? 244 then 143 else 191) r
        else replacement :: utf8_loop 0 0 128 191 r in
      match needed with
      | O => start
      | S n =>
          if (lo <=? b) && (b <=? hi) then
            let cp' := cp * 64 + (b - 128) in
            match n with
            | O => utf16_of cp' ++ utf8_loop 0 0 128 191 r
            | S _ => utf8_loop cp' n 128 191 r
            end
          else replacement :: start
      end
  end.

(** [buffer.toString('utf8')] *)
Definition utf8_text (bs : bytes) : jstr := utf8_loop 0 0 128 191 bs.

Example utf8_texts :
  utf8_text (utf8_bytes [97; 8364; 55357; 56832; 55357]) = [97; 8364; 55357; 56832; 65533] /\
  utf8_text [240; 159; 152; 65; 192; 175; 237; 160; 128] = [65533; 65; 65533; 65533; 65533; 65533; 65533].
Proof. by vm_compute. Qed.

(** ** Round trip *)

(** Units of 16 bits, surrogates only in pairs. *)
Fixpoint well_formed (s : jstr) : bool :=
  match s with
  | [] => true
  | c :: r =>
      if is_high_surrogate c then
        match r with
        | d :: r' => is_low_surrogate d && well_formed r'
        | [] => false
        end
      else negb (is_low_surrogate c) && (c <? 65536) && well_formed r
  end.

(** Decide a comparison of the goal by arithmetic. *)
Ltac decide_units :=
  repeat match goal with
  | |- context [(?a <? ?b)%N] => first [rewrite (proj2 (N.ltb_lt a b)) by lia | rewrite (proj2 (N.ltb_ge a b)) by lia]
  | |- context [(?a <=? ?b)%N] => first [rewrite (proj2 (N.leb_le a b)) by lia | rewrite (proj2 (N.leb_gt a b)) by lia]
  end; cbn [andb].

(** A code point that is no surrogate. *)
Definition scalar (cp : N) : Prop := cp < 1114112 /\ ~ (55296 <= cp < 57344).

(** The steps of the decoder. *)
Lemma utf8_lead_2 b r : 194 <= b <= 223 -> utf8_text (b :: r) = utf8_loop (b - 192) 1 128 191 r.
Proof. intros H. unfold utf8_text. cbn [utf8_loop]. by decide_units. Qed.

Lemma utf8_lead_3 b r : 224 <= b <= 239 ->
  utf8_text (b :: r) =
  utf8_loop (b - 224) 2 (if b =? 224 then 160 else 128) (if b =? 237 then 159 else 191) r.
Proof. intros H. unfold utf8_text. cbn [utf8_loop]. by decide_units. Qed.

Lemma utf8_lead_4 b r : 240 <= b <= 244 ->
  utf8_text (b :: r) =
  utf8_loop (b - 240) 3 (if b =? 240 then 144 else 128) (if b =? 244 then 143 else 191) r.
Proof. intros H. unfold utf8_text. cbn [utf8_loop]. by decide_units. Qed.

Lemma utf8_more cp n lo hi c r : lo <= 128 + c <= hi ->
  utf8_loop cp (S (S n)) lo hi (128 + c :: r) = utf8_loop (cp * 64 + c) (S n) 128 191 r.
Proof. intros H. cbn [utf8_loop]. decide_units. do 2 f_equal. lia. Qed.

Lemma utf8_last cp lo hi c r : lo <= 128 + c <= hi ->
  utf8_loop cp 1 lo hi (128 + c :: r) = utf16_of (cp * 64 + c) ++ utf8_text r.
Proof. intros H. cbn [utf8_loop]. decide_units. do 2 f_equal. lia. Qed.

(** The base-64 digits of a code point. *)
Lemma split_64 cp : exists q c, cp / 64 = q /\ cp mod 64 = c /\ cp = 64 * q + c /\ c < 64.
Proof. exists (cp / 64), (cp mod 64). split_and!; [done..|apply N.div_mod'|by apply N.mod_lt]. Qed.

Lemma utf8_one cp r : cp < 128 -> utf8_text (utf8_of cp ++ r) = utf16_of cp ++ utf8_text r.
Proof. intros H. unfold utf8_of, utf16_of, utf8_text. decide_units. cbn [app utf8_loop]. by decide_units. Qed.

Lemma utf8_two cp r : 128 <= cp < 2048 -> utf8_text (utf8_of cp ++ r) = utf16_of cp ++ utf8_text r.
Proof.
  intros H. destruct (split_64 cp) as (a & b & Ha & Hb & He & Hlt).
  unfold utf8_of. decide_units. rewrite Ha, Hb. cbn [app].
  rewrite utf8_lead_2, utf8_last by lia. do 2 f_equal. lia.
Qed.

Lemma utf8_three cp r :
  2048 <= cp < 65536 -> ~ (55296 <= cp < 57344) -> utf8_text (utf8_of cp ++ r) = utf16_of cp ++ utf8_text r.
Proof.
  intros H Hs. destruct (split_64 cp) as (q & c & Hq & Hc & He & Hlt).
  destruct (split_64 q) as (a & b & Ha & Hb & He' & Hlt').
  unfold utf8_of. decide_units. replace (cp / 4096) with a by (by rewrite <- Ha, <- Hq, N.Div0.div_div).
  rewrite Hq, Hc, Hb. cbn [app].
  rewrite utf8_lead_3, utf8_more, utf8_last; [do 2 f_equal; lia|lia| |lia].
  destruct (N.eqb_spec (224 + a) 224), (N.eqb_spec (224 + a) 237); lia.
Qed.

Lemma utf8_four cp r :
  65536 <= cp < 1114112 -> utf8_text (utf8_of cp ++ r) = utf16_of cp ++ utf8_text r.
Proof.
  intros H. destruct (split_64 cp) as (q & c & Hq & Hc & He & Hlt).
  destruct (split_64 q) as (p & b & Hp & Hb & He' & Hlt').
  destruct (split_64 p) as (d & a & Hd & Ha & He2 & Hlt2).
  unfold utf8_of. decide_units.
  replace (cp / 4096) with p by (by rewrite <- Hp, <- Hq, N.Div0.div_div).
  replace (cp / 262144) with d by (by rewrite <- Hd, <- Hp, <- Hq, !N.Div0.div_div).
  rewrite Hq, Hc, Hb, Ha. cbn [app].
  rewrite utf8_lead_4, !utf8_more, utf8_last; [do 2 f_equal; lia|lia|lia| |lia].
  destruct (N.eqb_spec (240 + d) 240), (N.eqb_spec (240 + d) 244); lia.
Qed.

Lemma utf8_scalar cp r : scalar cp -> utf8_text (utf8_of cp ++ r) = utf16_of cp ++ utf8_text r.
Proof.
  intros [H Hs]. destruct (N.lt_ge_cases cp 128); [by apply utf8_one|].
  destruct (N.lt_ge_cases cp 2048); [by apply utf8_two|].
  destruct (N.lt_ge_cases cp 65536); [by apply utf8_three|by apply utf8_four].
Qed.

Lemma utf16_pair c d :
  is_high_surrogate c = true -> is_low_surrogate d = true ->
  scalar (surrogate_pair c d) /\ utf16_of (surrogate_pair c d) = [c; d].
Proof.
  unfold is_high_surrogate, is_low_surrogate, surrogate_pair, utf16_of, scalar.
  intros [H1%N.leb_le H2%N.leb_le]%andb_true_iff [H3%N.leb_le H4%N.leb_le]%andb_true_iff.
  split; [lia|]. decide_units.
  replace (65536 + (c - 55296) * 1024 + (d - 56320) - 65536) with ((d - 56320) + (c - 55296) * 1024) by lia.
  rewrite N.div_add, N.Div0.mod_add, N.div_small, N.mod_small by lia. f_equal; [lia|f_equal; lia].
Qed.

Lemma utf16_unit c :
  is_high_surrogate c = false -> is_low_surrogate c = false -> c < 65536 ->
  scalar c /\ utf16_of c = [c].
Proof.
  unfold is_high_surrogate, is_low_surrogate, utf16_of, scalar. intros H1 H2 H3.
  split; [|by decide_units].
  apply andb_false_iff in H1 as [H1%N.leb_gt|H1%N.leb_gt], H2 as [H2%N.leb_gt|H2%N.leb_gt]; lia.
Qed.

(** Decoding inverts encoding, whatever follows. *)
Lemma utf8_round_trip s r : well_formed s = true -> utf8_text (utf8_bytes s ++ r) = s ++ utf8_text r.
Proof.
  remember (length s) as n eqn:Hn. revert s Hn. induction n as [n IH] using lt_wf_ind. intros s Hn. destruct s as [|c s]; [done|].
  cbn [well_formed utf8_bytes]. destruct (is_high_surrogate c) eqn:Hc.
  - destruct s as [|d s]; [done|]. intros [Hd Hs]%andb_true_iff. rewrite Hd.
    destruct (utf16_pair c d Hc Hd) as [Hp Ht].
    rewrite <- app_assoc, utf8_scalar, Ht by done. simpl. f_equal. f_equal.
    apply (IH (length s)); [simpl in Hn; lia|done|done].
  - destruct (is_low_surrogate c) eqn:Hl; [done|]. intros [Hw%N.ltb_lt Hs]%andb_true_iff.
    destruct (utf16_unit c Hc Hl Hw) as [Hp Ht].
    rewrite <- app_assoc, utf8_scalar, Ht by done. simpl. f_equal.
    apply (IH (length s)); [simpl in Hn; lia|done|done].
Qed.

Lemma utf8_text_bytes s : well_formed s = true -> utf8_text (utf8_bytes s) = s.
Proof.
  intros H. pose proof (utf8_round_trip s [] H) as E. rewrite !app_nil_r in E.
  by rewrite E.
Qed.

Lemma utf8_bytes_inj s t :
  well_formed s = true -> well_formed t = true -> utf8_bytes s = utf8_bytes t -> s = t.
Proof. intros Hs Ht E. by rewrite <- (utf8_text_bytes s Hs), <- (utf8_text_bytes t Ht), E. Qed.

(** Encoding distributes over well-formed text. *)
Lemma utf8_bytes_app s t : well_formed s = true -> utf8_bytes (s ++ t) = utf8_bytes s ++ utf8_bytes t.
Proof.
  remember (length s) as n eqn:Hn. revert s Hn. induction n as [n IH] using lt_wf_ind. intros s Hn. destruct s as [|c s]; [done|].
  cbn [well_formed utf8_bytes app]. destruct (is_high_surrogate c) eqn:Hc.
  - destruct s as [|d s]; [done|]. intros [Hd Hs]%andb_true_iff. cbn [app]. rewrite Hd.
    rewrite (IH (length s)), app_assoc; [done|simpl in Hn; lia|done|done].
  - destruct (is_low_surrogate c) eqn:Hl; [done|]. intros [_ Hs]%andb_true_iff.
    rewrite (IH (length s)), app_assoc; [done|simpl in Hn; lia|done|done].
Qed.

Lemma well_formed_app s t : well_formed s = true -> well_formed t = true -> well_formed (s ++ t) = true.
Proof.
  remember (length s) as n eqn:Hn. revert s Hn. induction n as [n IH] using lt_wf_ind. intros s Hn. destruct s as [|c s]; [done|].
  cbn [well_formed app]. destruct (is_high_surrogate c).
  - destruct s as [|d s]; [done|]. cbn [app]. intros [-> Hs]%andb_true_iff Ht.
    apply (IH (length s)); [simpl in Hn; lia|done|done|done].
  - intros [-> Hs]%andb_true_iff Ht. apply (IH (length s)); [simpl in Hn; lia|done|done|done].
Qed.

(** ** Base64 *)

Definition base64_unit (v : N) : N :=
  if v <? 26 then 65 + v
  else if v <? 52 then 71 + v
  else if v <? 62 then v - 4
  else if v =? 62 then 43 else 47.

Definition base64_value (c : N) : option N :=
  if (65 <=? c) && (c <=? 90) then Some (c - 65)
  else if (97 <=? c) && (c <=? 122) then Some (c - 71)
  else if (48 <=? c) && (c <=? 57) then Some (c + 4)
  else if c =? 43 then Some 62
  else if c =? 47 then Some 63
  else None.

Definition is_base64 (c : N) : bool := bool_decide (is_Some (base64_value c)).

(** [buffer.toString('base64')] *)
Fixpoint base64_encode (bs : bytes) : jstr :=
  match bs with
  | [] => []
  | [a] => [base64_unit (a / 4); base64_unit (a mod 4 * 16); 61; 61]
  | [a; b] => [base64_unit (a / 4); base64_unit (a mod 4 * 16 + b / 16); base64_unit (b mod 16 * 4); 61]
  | a :: b :: c :: r =>
      base64_unit (a / 4) :: base64_unit (a mod 4 * 16 + b / 16) :: base64_unit (b mod 16 * 4 + c / 64)
      :: base64_unit (c mod 64) :: base64_encode r
  end.

(** [/^(?:[A-Za-z0-9+/]{4})*(?:[A-Za-z0-9+/]{2}==|[A-Za-z0-9+/]{3}=)?$/] *)
Fixpoint base64_text (s : jstr) : bool :=
  match s with
  | [] => true
  | a :: b :: c :: d :: r =>
      is_base64 a && is_base64 b &&
      (is_base64 c && is_base64 d && base64_text r
       || match r with
          | [] => (d =? 61) && (is_base64 c || (c =? 61))
          | _ => false
          end)
  | _ => false
  end.

(** [Buffer.from(s, 'base64')] for a text of that form: the bits that fill no
    byte are dropped. *)
Fixpoint base64_decode (s : jstr) : bytes :=
  match s with
  | a :: b :: c :: d :: r =>
      let v x := default 0 (base64_value x) in
      if d =? 61 then
        if c =? 61 then [v a * 4 + v b / 16]
        else [v a * 4 + v b / 16; v b mod 16 * 16 + v c / 4]
      else
        v a * 4 + v b / 16 :: v b mod 16 * 16 + v c / 4 :: v c mod 4 * 64 + v d :: base64_decode r
  | _ => []
  end.

Lemma base64_digits :
  forallb (fun i => let v := N.of_nat i in
    bool_decide (base64_value (base64_unit v) = Some v) && negb (base64_unit v =? 61)) (seq 0 64) = true.
Proof. by vm_compute. Qed.

Lemma base64_unit_value v : v < 64 -> base64_value (base64_unit v) = Some v /\ (base64_unit v =? 61) = false.
Proof.
  intros Hv. pose proof base64_digits as H. rewrite forallb_forall in H.
  assert (In (N.to_nat v) (seq 0 64)) as Hin by (apply in_seq; lia).
  specialize (H _ Hin). cbv beta zeta in H. rewrite N2Nat.id in H.
  by apply andb_true_iff in H as [H1%bool_decide_eq_true H2%negb_true_iff].
Qed.

Lemma is_base64_unit v : v < 64 -> is_base64 (base64_unit v) = true.
Proof. intros Hv. unfold is_base64. by rewrite (proj1 (base64_unit_value v Hv)). Qed.

(** Induction by groups of three bytes. *)
Lemma bytes_ind_3 (P : list N -> Prop) :
  P [] -> (forall a, P [a]) -> (forall a b, P [a; b]) -> (forall a b c r, P r -> P (a :: b :: c :: r)) ->
  forall bs, P bs.
Proof.
  intros H0 H1 H2 H3. fix IH 1. intros [|a [|b [|c r]]]; [done..|]. apply H3, IH.
Qed.

(** Two numbers in one: [n * r + q] for [q < n]. *)
Lemma pack_div n r q : q < n -> (r * n + q) / n = r.
Proof. intros Hq. rewrite N.div_add_l by lia. rewrite N.div_small by done. lia. Qed.

Lemma pack_mod n r q : q < n -> (r * n + q) mod n = q.
Proof. intros Hq. rewrite N.add_comm, N.Div0.mod_add. by apply N.mod_small. Qed.

(** A byte cut in two. *)
Lemma cut n m a : n <> 0 -> a < n * m -> exists q r, a / n = q /\ a mod n = r /\ a = q * n + r /\ q < m /\ r < n.
Proof.
  intros Hn Ha. exists (a / n), (a mod n). pose proof (N.div_mod a n Hn). pose proof (N.mod_lt a n Hn).
  split_and!; [done..|lia| |done]. apply N.Div0.div_lt_upper_bound; lia.
Qed.

Ltac cut_byte a n m H :=
  let q := fresh "q" in let r := fresh "r" in let Hq := fresh in let Hr := fresh in
  destruct (cut n m a) as (q & r & Hq & Hr & ? & ? & ?); [done|exact H|rewrite ?Hq, ?Hr; clear Hq Hr].

Lemma base64_round_trip bs :
  forallb byte_ok bs = true -> base64_text (base64_encode bs) = true /\ base64_decode (base64_encode bs) = bs.
Proof.
  induction bs as [|a|a b|a b c r IH] using bytes_ind_3; [done| | |]; cbn [forallb]; unfold byte_ok at 1.
  - intros [Ha%N.ltb_lt _]%andb_true_iff. cbn [base64_encode base64_text base64_decode].
    cut_byte a 4 64 Ha.
    destruct (base64_unit_value q) as [-> _]; [lia|]. destruct (base64_unit_value (r * 16)) as [-> _]; [lia|].
    rewrite !is_base64_unit by lia. cbn [from_option id]. change (61 =? 61) with true. cbn iota. rewrite N.div_mul by done. subst a. by split.
  - intros [Ha%N.ltb_lt [Hb%N.ltb_lt _]%andb_true_iff]%andb_true_iff.
    cbn [base64_encode base64_text base64_decode]. cut_byte a 4 64 Ha. cut_byte b 16 16 Hb.
    destruct (base64_unit_value q) as [-> _]; [lia|]. destruct (base64_unit_value (r * 16 + q0)) as [-> _]; [lia|].
    destruct (base64_unit_value (r0 * 4)) as [-> Hne]; [lia|].
    rewrite !is_base64_unit, Hne by lia. cbn [from_option id]. change (61 =? 61) with true. cbn iota. rewrite pack_div, pack_mod, N.div_mul by done.
    subst a b. by split; [rewrite orb_true_r|].
  - intros [Ha%N.ltb_lt [Hb%N.ltb_lt [Hc%N.ltb_lt Hr]%andb_true_iff]%andb_true_iff]%andb_true_iff.
    destruct (IH Hr) as [IHt IHd]. cbn [base64_encode base64_text base64_decode].
    cut_byte a 4 64 Ha. cut_byte b 16 16 Hb. cut_byte c 64 4 Hc.
    destruct (base64_unit_value q) as [-> _]; [lia|]. destruct (base64_unit_value (r0 * 16 + q0)) as [-> _]; [lia|].
    destruct (base64_unit_value (r1 * 4 + q1)) as [-> _]; [lia|]. destruct (base64_unit_value r2) as [-> Hne]; [lia|].
    rewrite !is_base64_unit, Hne, IHt, IHd by lia. cbn [from_option id]. change (61 =? 61) with true. cbn iota. rewrite !pack_div, !pack_mod by done.
    subst a b c. by split.
Qed.
