(* ===== verification/JsJson.v ===== *)
(** [JSON.stringify] of data: the texts ECMA-262 prescribes, without
    indentation and without [toJSON] (data holds no functions). *)

From stdpp Require Import prelude.
From Stdlib Require Import NArith.
From S2P Require Import Prelude.
From S2P Require Import JsString.
From S2P Require Import JsNumber.
From S2P Require Import JsMap.
From S2P Require Import JsValue.
From S2P Require Import JsDecimal.
From S2P Require Import JsUri.
From S2P Require Import JsBytes.

Local Open Scope js_scope.

(** A lower-case hexadecimal digit. *)
Definition hex_unit (d : N) : N := if (d <? 10)%N then (48 + d)%N else (87 + d)%N.

(** The escape [\uXXXX] of a unit. *)
Definition unicode_escape (c : N) : jstr :=
  [92; 117; hex_unit (c / 4096 mod 16); hex_unit (c / 256 mod 16); hex_unit (c / 16 mod 16);
   hex_unit (c mod 16)]%N.

Definition json_unit (c : N) : jstr :=
  if (c =? 34)%N then [92; 34]%N
  else if (c =? 92)%N then [92; 92]%N
  else if (c =? 8)%N then [92; 98]%N
  else if (c =? 9)%N then [92; 116]%N
  else if (c =? 10)%N then [92; 110]%N
  else if (c =? 12)%N then [92; 102]%N
  else if (c =? 13)%N then [92; 114]%N
  else if (c <? 32)%N then unicode_escape c
  else [c].

(** The units between the quotes: a lone surrogate is escaped. *)
Fixpoint json_units (s : jstr) : jstr :=
  match s with
  | [] => []
  | c :: r =>
      if is_high_surrogate c then
        match r with
        | d :: r' =>
            if is_low_surrogate d then c :: d :: json_units r'
            else unicode_escape c ++ json_units r
        | [] => unicode_escape c
        end
      else if is_low_surrogate c then unicode_escape c ++ json_units r
      else json_unit c ++ json_units r
  end.

Definition json_quote (s : jstr) : jstr := 34%N :: json_units s ++ [34%N].

(** [None] is [undefined], which has no text. *)
Fixpoint json_text (v : js) : option jstr :=
  match v with
  | Undefined => None
  | Null => Some "null"
  | Bool b => Some (if b then "true" else "false")
  | Num (Fin z) => Some (string_of_Z z)
  | Num _ => Some "null"
  | Frac text => Some text
  | Str s => Some (json_quote s)
  | Arr l =>
      Some ("[" ++ join "," ((fix texts (l : list js) : list jstr :=
        match l with
        | [] => []
        | x :: r => default "null" (json_text x) :: texts r
        end) l) ++ "]")
  | Obj l =>
      Some ("{" ++ join "," ((fix texts (l : list (jstr * js)) : list jstr :=
        match l with
        | [] => []
        | (k, x) :: r =>
            match json_text x with
            | Some t => (json_quote k ++ ":" ++ t) :: texts r
            | None => texts r
            end
        end) l) ++ "}")
  end.

(** [JSON.stringify(v)] where [v] is not [undefined]. *)
Definition json_stringify (v : js) : jstr := default "undefined" (json_text v).

(** Texts of JSON tokens are self-delimiting: a quoted string or the text of a
    number is determined by any text that starts with it.  Also induction on
    values, and the data that JSON can hold. *)

(** ** Induction on values *)

Section Induction.
Variable P : js -> Prop.
Hypotheses (Hundefined : P Undefined) (Hnull : P Null) (Hbool : forall b, P (Bool b))
  (Hnum : forall n, P (Num n)) (Hfrac : forall t, P (Frac t)) (Hstr : forall s, P (Str s))
  (Harr : forall l, Forall P l -> P (Arr l)) (Hobj : forall l, Forall (fun e => P e.2) l -> P (Obj l)).

Fixpoint js_nested_ind (v : js) : P v :=
  match v with
  | Undefined => Hundefined
  | Null => Hnull
  | Bool b => Hbool b
  | Num n => Hnum n
  | Frac t => Hfrac t
  | Str s => Hstr s
  | Arr l => Harr l ((fix items (l : list js) : Forall P l :=
      match l with
      | [] => List.Forall_nil _
      | x :: r => @List.Forall_cons _ _ x r (js_nested_ind x) (items r)
      end) l)
  | Obj l => Hobj l ((fix fields (l : list (jstr * js)) : Forall (fun e => P e.2) l :=
      match l with
      | [] => List.Forall_nil _
      | e :: r => @List.Forall_cons _ (fun e => P e.2) e r (js_nested_ind e.2) (fields r)
      end) l)
  end.
End Induction.

(** ** Strings *)

(** The units a string consists of have 16 bits. *)
Definition units_ok (s : jstr) : bool := forallb (fun c => (c <? 65536)%N) s.

(** The text of a quoted string, read up to its closing quote. *)
Definition hex_code (a b c d : N) : option N :=
  x ← hex_value a; y ← hex_value b; z ← hex_value c; w ← hex_value d;
  Some (((x * 16 + y) * 16 + z) * 16 + w)%N.

Definition simple_escape (e : N) : N :=
  (if e =? 98 then 8 else if e =? 116 then 9 else if e =? 110 then 10
   else if e =? 102 then 12 else if e =? 114 then 13 else e)%N.

Fixpoint read_units (t : jstr) : option (jstr * jstr) :=
  match t with
  | [] => None
  | c :: r =>
      if (c =? 34)%N then Some ([], r)
      else if (c =? 92)%N then
        match r with
        | [] => None
        | e :: r' =>
            if (e =? 117)%N then
              match r' with
              | a :: b :: c :: d :: r'' =>
                  u ← hex_code a b c d; '(s, x) ← read_units r''; Some (u :: s, x)
              | _ => None
              end
            else '(s, x) ← read_units r'; Some (simple_escape e :: s, x)
        end
      else '(s, x) ← read_units r; Some (c :: s, x)
  end.

Lemma hex_value_unit d : (d < 16)%N -> hex_value (hex_unit d) = Some d.
Proof.
  intros H. assert (forallb (fun d => bool_decide (hex_value (hex_unit d) = Some d)) (N.of_nat <$> seq 0 16) = true)
    as Hall by by vm_compute.
  rewrite forallb_forall in Hall. specialize (Hall d). apply bool_decide_eq_true in Hall; [done|].
  apply list_elem_of_In, list_elem_of_fmap. exists (N.to_nat d). split; [lia|]. apply elem_of_seq. lia.
Qed.

Lemma read_escape c r : (c < 65536)%N ->
  read_units (unicode_escape c ++ r) = '(s, x) ← read_units r; Some (c :: s, x).
Proof.
  intros H. unfold unicode_escape. cbn [app read_units N.eqb Pos.eqb]. unfold hex_code.
  rewrite !hex_value_unit by (by apply N.mod_lt). cbn [mbind option_bind].
  replace (c / 4096)%N with (c / 16 / 16 / 16)%N by (by rewrite !N.Div0.div_div).
  replace (c / 256)%N with (c / 16 / 16)%N by (by rewrite !N.Div0.div_div).
  assert (c / 16 / 16 / 16 < 16)%N as Hb by (repeat apply N.Div0.div_lt_upper_bound; lia).
  rewrite (N.mod_small (c / 16 / 16 / 16)) by done.
  pose proof (N.div_mod' c 16). pose proof (N.div_mod' (c / 16) 16). pose proof (N.div_mod' (c / 16 / 16) 16).
  assert ((((c / 16 / 16 / 16) * 16 + (c / 16 / 16) mod 16) * 16 + (c / 16) mod 16) * 16 + c mod 16 = c)%N as -> by lia.
  done.
Qed.

Lemma read_unit c r : (c < 65536)%N ->
  read_units (json_unit c ++ r) = '(s, x) ← read_units r; Some (c :: s, x).
Proof.
  intros H. unfold json_unit.
  repeat match goal with
  | |- context [(c =? ?n)%N] => destruct (N.eqb_spec c n) as [->|]; [reflexivity|]
  end.
  destruct (c <? 32)%N; [by apply read_escape|]. cbn [app read_units].
  by rewrite (proj2 (N.eqb_neq c 34)), (proj2 (N.eqb_neq c 92)).
Qed.

Lemma read_plain c r : (128 <= c)%N -> read_units (c :: r) = '(s, x) ← read_units r; Some (c :: s, x).
Proof. intros H. cbn [read_units]. by rewrite (proj2 (N.eqb_neq c 34)), (proj2 (N.eqb_neq c 92)) by lia. Qed.

Lemma surrogate_units c : is_high_surrogate c = true \/ is_low_surrogate c = true -> (128 <= c)%N.
Proof.
  unfold is_high_surrogate, is_low_surrogate. rewrite !andb_true_iff, !N.leb_le. lia.
Qed.

(** Reading back inverts writing, whatever follows the quote. *)
Lemma read_json_units s x : units_ok s = true -> read_units (json_units s ++ 34%N :: x) = Some (s, x).
Proof.
  remember (length s) as n eqn:Hn. revert s Hn. induction n as [n IH] using lt_wf_ind. intros s Hn.
  destruct s as [|c s]; [done|]. unfold units_ok. cbn [forallb json_units].
  intros [Hc%N.ltb_lt Hs]%andb_true_iff.
  assert (forall s', length s' < n -> units_ok s' = true -> read_units (json_units s' ++ 34%N :: x) = Some (s', x))
    as Hrec by eauto.
  assert (read_units (json_units s ++ 34%N :: x) = Some (s, x)) as Hs' by (apply Hrec; [simpl in Hn; lia|done]).
  destruct (is_high_surrogate c) eqn:Hh.
  - destruct s as [|d s]; [by rewrite read_escape|].
    destruct (is_low_surrogate d) eqn:Hd; [|by rewrite <- app_assoc, read_escape, Hs'].
    cbn [app]. rewrite !read_plain by (apply surrogate_units; auto).
    cbn [forallb] in Hs. apply andb_true_iff in Hs as [_ Hs].
    by rewrite Hrec; [|simpl in Hn; lia|].
  - destruct (is_low_surrogate c); rewrite <- app_assoc; [by rewrite read_escape, Hs'|by rewrite read_unit, Hs'].
Qed.

Lemma json_quote_prefix s t x y :
  units_ok s = true -> units_ok t = true -> json_quote s ++ x = json_quote t ++ y -> s = t /\ x = y.
Proof.
  intros Hs Ht E. unfold json_quote in E. injection E as E. rewrite <- !app_assoc in E. simpl in E.
  pose proof (read_json_units s x Hs) as E1. pose proof (read_json_units t y Ht) as E2.
  rewrite E, E2 in E1. by injection E1 as -> ->.
Qed.

(** A quoted string has no lone surrogates, so its UTF-8 is faithful. *)
Definition plain_unit (c : N) : bool := (c <? 55296)%N.

Lemma well_formed_plain s r : forallb plain_unit s = true -> well_formed (s ++ r) = well_formed r.
Proof.
  induction s as [|c s IH]; [done|]. cbn [forallb app well_formed].
  intros [Hc%N.ltb_lt Hs]%andb_true_iff. unfold is_high_surrogate, is_low_surrogate. decide_units. by apply IH.
Qed.

Lemma hex_unit_plain d : (d < 16)%N -> plain_unit (hex_unit d) = true.
Proof. intros H. unfold hex_unit, plain_unit. case_match; apply N.ltb_lt; lia. Qed.

Lemma unicode_escape_plain c : forallb plain_unit (unicode_escape c) = true.
Proof. unfold unicode_escape. cbn [forallb]. by rewrite !hex_unit_plain by (by apply N.mod_lt). Qed.

Lemma json_units_well_formed s r : units_ok s = true -> well_formed (json_units s ++ r) = well_formed r.
Proof.
  remember (length s) as n eqn:Hn. revert s Hn. induction n as [n IH] using lt_wf_ind. intros s Hn.
  destruct s as [|c s]; [done|]. unfold units_ok. cbn [forallb json_units].
  intros [Hc Hs]%andb_true_iff.
  assert (forall s', length s' < n -> units_ok s' = true -> well_formed (json_units s' ++ r) = well_formed r)
    as Hrec by eauto.
  assert (well_formed (json_units s ++ r) = well_formed r) as Hs' by (apply Hrec; [simpl in Hn; lia|done]).
  destruct (is_high_surrogate c) eqn:Hh.
  - destruct s as [|d s]; [by rewrite well_formed_plain by apply unicode_escape_plain|].
    destruct (is_low_surrogate d) eqn:Hd;
      [|by rewrite <- app_assoc, well_formed_plain by apply unicode_escape_plain].
    cbn [app well_formed]. rewrite Hh, Hd. simpl.
    cbn [forallb] in Hs. apply andb_true_iff in Hs as [_ Hs]. apply Hrec; [simpl in Hn; lia|done].
  - destruct (is_low_surrogate c) eqn:Hl; rewrite <- app_assoc.
    + by rewrite well_formed_plain by apply unicode_escape_plain.
    + unfold json_unit. repeat (case_match; [by rewrite well_formed_plain by (try apply unicode_escape_plain; done)|]).
      cbn [app well_formed]. rewrite Hh, Hl, Hc. done.
Qed.

(** ** Numbers *)

(** The units of the texts of numbers: digits and [- + . e]. *)
Definition number_unit (c : N) : bool := is_digit c || one_of [c] ["-"; "+"; "."; "e"].

(** A text that a number cannot continue. *)
Definition stops (x : jstr) : bool :=
  match x with
  | [] => true
  | c :: _ => negb (number_unit c)
  end.

Lemma number_prefix a b x y :
  forallb number_unit a = true -> forallb number_unit b = true -> stops x = true -> stops y = true ->
  a ++ x = b ++ y -> a = b /\ x = y.
Proof.
  revert b. induction a as [|c a IH]; intros [|d b]; cbn [forallb app].
  - done.
  - intros _ [Hd _]%andb_true_iff Hx _ ->. simpl in Hx. by rewrite Hd in Hx.
  - intros [Hc _]%andb_true_iff _ _ Hy <-. simpl in Hy. by rewrite Hc in Hy.
  - intros [_ Ha]%andb_true_iff [_ Hb]%andb_true_iff Hx Hy [= -> E].
    by destruct (IH b Ha Hb Hx Hy E) as [-> ->].
Qed.

Lemma string_of_Z_negative p : string_of_Z (Zneg p) = 45%N :: string_of_N (Npos p).
Proof. done. Qed.

Lemma string_of_Z_units z : forallb (fun c => is_digit c || (c =? 45)%N) (string_of_Z z) = true.
Proof.
  assert (forall n, forallb (fun c => is_digit c || (c =? 45)%N) (string_of_N n) = true) as Hn.
  { intros n. destruct (string_of_N_spec n) as (ds & -> & _ & Hd & _).
    rewrite forallb_forall in Hd |- *. intros c Hc. by rewrite Hd. }
  destruct z; [apply (Hn 0%N)|apply (Hn (Npos _))|]. simpl. apply Hn.
Qed.

Lemma string_of_Z_inj z w : string_of_Z z = string_of_Z w -> z = w.
Proof.
  assert (forall n r, string_of_N n <> 45%N :: r) as Hno.
  { intros n r E. destruct (string_of_N_spec n) as (ds & Hds & _ & Hd & _). rewrite <- Hds, E in Hd. done. }
  assert (forall u, string_of_Z u = match u with Zneg p => 45%N :: string_of_N (Npos p) | _ => string_of_N (Z.to_N u) end)
    as Hu by (by intros []).
  rewrite !Hu. destruct z, w; intros E; try (by apply Hno in E); try (by symmetry in E; apply Hno in E);
    try (apply string_of_N_inj in E; lia). injection E as E. apply string_of_N_inj in E. by injection E as ->.
Qed.
