(* ===== verification/CanonicalHash.v ===== *)
(** Digests of data in canonical form, as the runtime policy and the hardware
    limits take them: [canonicalize] of
    [src/cli/sandbox/docker/containerRuntimePolicy.js], [canonical] and [hex64]
    of [src/cli/sandbox/hardwareLimits/requestedLimits.mjs]. *)

From stdpp Require Import prelude.
From Stdlib Require Import NArith.
From S2P Require Import Prelude.
From S2P Require Import JsString.
From S2P Require Import JsNumber.
From S2P Require Import JsMap.
From S2P Require Import JsValue.
From S2P Require Import JsJson.
From S2P Require Import HttpRoutePath.
From S2P Require Import NetworkContract.

Local Open Scope js_scope.

(** Keys in order, at every level. *)
Fixpoint canonical (value : js) : js :=
  match value with
  | Arr l => Arr ((fix items (l : list js) : list js :=
                     match l with
                     | [] => []
                     | x :: r => canonical x :: items r
                     end) l)
  | Obj l =>
      Obj (stable_sort (fun a b => unit_le a.1 b.1)
        ((fix fields (l : list (jstr * js)) : list (jstr * js) :=
            match l with
            | [] => []
            | (k, x) :: r => (k, canonical x) :: fields r
            end) l))
  | _ => value
  end.

Definition hex64 `{Sha256} (value : js) : jstr := sha256_hex (json_stringify (canonical value)).
