(* ===== verification/CpuQuota.v ===== *)
(** CPU limits as exact decimals: [src/cli/sandbox/hardwareLimits/cpuQuota.mjs].
    A value is a number of hundredths of a CPU; the quota of the period of
    100000 microseconds is computed from it by integer arithmetic, and a quota
    the engine reports is compared with it. *)

From stdpp Require Import prelude.
From Stdlib Require Import NArith.
From S2P Require Import Prelude.
From S2P Require Import JsString.
From S2P Require Import JsNumber.
From S2P Require Import JsValue.
From S2P Require Import JsMap.
From S2P Require Import JsDecimal.

Local Open Scope js_scope.

Definition CPU_PERIOD_US : Z := 100000.
Definition MIN_DECLARED_CPU_HUNDREDTHS : Z := 1.
Definition MIN_ADMINISTRATOR_CPU_HUNDREDTHS : Z := 5.

(** [/^(\d+)(?:\.(\d+))?$/]: the digits before and after the point, the latter
    empty when there is no point. *)
Definition DECIMAL (text : jstr) : option (jstr * jstr) :=
  let whole := take_digits text in
  match whole, drop (length whole) text with
  | [], _ => None
  | _, [] => Some (whole, [])
  | _, 46%N :: fraction => if is_decimal fraction then Some (whole, fraction) else None
  | _, _ => None
  end.

(** [s.replace(/0+$/, '')] *)
Definition strip_zeros (s : jstr) : jstr :=
  rev ((fix strip (s : jstr) : jstr :=
          match s with
          | 48%N :: r => strip r
          | _ => s
          end) (rev s)).

(** [s.replace(/^0+(?=\d)/, '')] on digits: one digit at least is left. *)
Fixpoint strip_leading_zeros (s : jstr) : jstr :=
  match s with
  | 48%N :: (_ :: _) as r => strip_leading_zeros r
  | _ => s
  end.

(** [s.padEnd(2, '0')], [s.padStart(2, '0')] *)
Definition pad_end (s : jstr) : jstr := s ++ repeat 48%N (2 - length s).
Definition pad_start (s : jstr) : jstr := repeat 48%N (2 - length s) ++ s.

(** The decimal text of a number without an exponent: [String(n)] has one from
    [10 ^ 21] on, and a fraction may have one. *)
Definition numberText (value : js) : option jstr :=
  match value with
  | Num (Fin z) => if (10 ^ 21 <=? Z.abs z)%Z then None else Some (string_of_Z z)
  | Frac text => if has_unit 101 text || has_unit 69 text then None else Some text
  | _ => None
  end.

Inductive cpus_reason : Type :=
  | NotNumber
  | NotDecimal
  | TooPrecise
  | TooLarge
  | BelowMinimum (minimumHundredths : Z).

Inductive admission : Type :=
  | Accepted (hundredths : Z) (canonical : jstr)
  | Rejected (reason : cpus_reason).

(** The decimal that is rendered after [--cpus] and hashed. *)
Definition canonical_cpus (hundredths : Z) : jstr :=
  let rest := strip_zeros (pad_start (string_of_Z (hundredths mod 100))) in
  let whole := string_of_Z (hundredths / 100) in
  if truthy rest then whole ++ "." ++ rest else whole.

(** The value of a decimal once it is split. *)
Definition decimal_cpus (minimumHundredths : Z) (digits fractionDigits : jstr) : admission :=
  let fraction := strip_zeros fractionDigits in
  if 2 <? length fraction then Rejected TooPrecise
  else
    let whole := strip_leading_zeros digits in
    if 9 <? length whole then Rejected TooLarge
    else
      let hundredths := (decimal_value whole * 100 + decimal_value (pad_end fraction))%Z in
      if negb (is_safe_integer (Fin (hundredths * 1000))) then Rejected TooLarge
      else if (hundredths <? minimumHundredths)%Z then Rejected (BelowMinimum minimumHundredths)
      else Accepted hundredths (canonical_cpus hundredths).

Definition admitted_text (minimumHundredths : Z) (text : option jstr) : admission :=
  match text with
  | Some t =>
      match DECIMAL t with
      | Some (digits, fraction) => decimal_cpus minimumHundredths digits fraction
      | None => Rejected NotDecimal
      end
  | None => Rejected NotDecimal
  end.

Definition parseAdmittedCpus (minimumHundredths : Z) (value : js) : admission :=
  match value with
  | Str s => admitted_text minimumHundredths (Some (trim s))
  | Num (Fin _) | Frac _ => admitted_text minimumHundredths (numberText value)
  | _ => Rejected NotNumber
  end.

(** The quota in microseconds at the period; a value that is not accepted is a
    thrown [RangeError]. *)
Definition cpuQuotaFor (value : js) : result js_error Z :=
  match parseAdmittedCpus MIN_DECLARED_CPU_HUNDREDTHS value with
  | Accepted hundredths _ => Ok (hundredths * 1000)%Z
  | Rejected _ => Err RangeError
  end.

Definition integer (value : js) : result js_error (option Z) :=
  text ← trimmed_nullish value;
  Ok (if negb (is_decimal text) then None
      else if is_safe_integer (Fin (decimal_value text)) then Some (decimal_value text) else None).

(** The period must be exactly the period, and the quota [N] or [N - 1]. *)
Definition cpuQuotaMatches (quota period desired : js) : result js_error bool :=
  observedQuota ← integer quota;
  match parseAdmittedCpus MIN_DECLARED_CPU_HUNDREDTHS desired, observedQuota with
  | Accepted hundredths _, Some observed =>
      observedPeriod ← integer period;
      match observedPeriod with
      | Some p =>
          let exact := (hundredths * 1000)%Z in
          Ok ((p =? CPU_PERIOD_US)%Z && ((observed =? exact)%Z || (observed =? exact - 1)%Z))
      | None => Ok false
      end
  | _, _ => Ok false
  end.

(** The text of a [cpu.max] file: quota and period. *)
Definition cpuMaxMatches (cpuMax desired : js) : result js_error bool :=
  text ← trimmed_nullish cpuMax;
  match split_on 32 (collapse_spaces text) with
  | [quota; period] => cpuQuotaMatches (Str quota) (Str period) desired
  | _ => Ok false
  end.

(** [NanoCpus] is the quota times 10000. *)
Definition nanoCpusMatches (nanoCpus desired : js) : result js_error bool :=
  nano ← integer nanoCpus;
  match nano with
  | Some n =>
      if (n mod 10000 =? 0)%Z
      then cpuQuotaMatches (Num (Fin (n / 10000))) (Num (Fin CPU_PERIOD_US)) desired
      else Ok false
  | None => Ok false
  end.

(** Exactness of CPU limits: a value is accepted when it is a whole number of
    hundredths, and never rounded; its canonical text denotes it again; and a
    quota read back from the engine identifies it. *)

(** ** Decimal texts *)

(** The text with whole part [w] and fraction [f]. *)
Definition cpus_text (w f : jstr) : jstr := if truthy f then w ++ "." ++ f else w.

Lemma DECIMAL_spec t w f :
  DECIMAL t = Some (w, f) <-> is_decimal w = true /\ forallb is_digit f = true /\ t = cpus_text w f.
Proof.
  unfold DECIMAL, cpus_text, is_decimal. split.
  - destruct (take_digits_prefix t) as [Hd Ht].
    destruct (take_digits t) as [|c ds] eqn:Hw; [done|].
    destruct (drop (length (c :: ds)) t) as [|p r]; [intros [= <- <-]|].
    { rewrite app_nil_r in Ht. by split_and!. }
    destruct (decide (p = 46%N)) as [->|Hp].
    + case_match eqn:Hf; intros [= <- <-]. apply andb_true_iff in Hf as [Hf1 Hf2].
      split_and!; [done|done|by rewrite Hf1].
    + assert (forall A (a b : A), match p with 46%N => a | _ => b end = b) as ->; [|done].
      intros A a b. destruct p as [|p]; [done|].
      do 6 (destruct p as [p|p|]; try done).
  - intros (Hw & Hf & ->). apply andb_true_iff in Hw as [Hw1 Hw2].
    destruct (truthy f) eqn:Hn.
    + assert (take_digits (w ++ "." ++ f) = w) as -> by by apply take_digits_app.
      assert (drop (length w) (w ++ "." ++ f) = "." ++ f) as Hdr by apply (drop_app_length w).
      destruct w as [|c w]; [done|]. rewrite Hdr. simpl. by rewrite Hn, Hf.
    + apply truthy_false in Hn as ->. pose proof (take_digits_app w [] Hw2 I) as Ht.
      rewrite app_nil_r in Ht. rewrite Ht.
      assert (drop (length w) w = []) as Hdr by apply (drop_all w).
      destruct w as [|c w]; [done|]. by rewrite Hdr.
Qed.

Lemma strip_zeros_spec s :
  exists k, s = strip_zeros s ++ repeat 48%N k /\
    forall r, strip_zeros s <> r ++ [48%N].
Proof.
  unfold strip_zeros. set (strip := fix strip (s : jstr) : jstr := _).
  assert (forall s : jstr, exists k, s = repeat 48%N k ++ strip s /\ forall r, strip s <> 48%N :: r) as H.
  { clear s. induction s as [|c s (k & Hs & Hn)]; [by exists 0|].
    destruct (decide (c = 48%N)) as [->|Hc].
    - exists (S k). simpl. by rewrite <- Hs.
    - exists 0. assert (strip (c :: s) = c :: s) as ->.
      { simpl. destruct c as [|p]; [done|]. do 6 (destruct p as [p|p|]; try done). }
      split; [done|]. intros r ?. simplify_eq. }
  destruct (H (rev s)) as (k & Hs & Hn). exists k. split.
  - rewrite <- (rev_involutive s) at 1. rewrite Hs at 1. rewrite rev_app_distr. f_equal.
    clear. induction k as [|k IH]; [done|]. simpl. rewrite IH. symmetry.
    change (48%N :: repeat 48%N k) with (repeat 48%N (S k)).
    by rewrite <- (repeat_cons k 48%N).
  - intros r Hr. apply (f_equal (@rev N)) in Hr. rewrite rev_involutive, rev_app_distr in Hr.
    by apply Hn in Hr.
Qed.

Lemma decimal_value_zeros k : decimal_value (repeat 48%N k) = 0%Z.
Proof.
  induction k as [|k IH]; [done|]. change (repeat 48%N (S k)) with ([48%N] ++ repeat 48%N k).
  rewrite decimal_value_app, IH. done.
Qed.

Lemma decimal_value_pad s k :
  decimal_value (s ++ repeat 48%N k) = (decimal_value s * 10 ^ Z.of_nat k)%Z.
Proof. rewrite decimal_value_app, decimal_value_zeros, repeat_length. lia. Qed.

Lemma strip_leading_zeros_spec s :
  is_decimal s = true ->
  decimal_value (strip_leading_zeros s) = decimal_value s /\
  is_decimal (strip_leading_zeros s) = true /\
  ((9 <? length (strip_leading_zeros s)) = false <-> (decimal_value s < 10 ^ 9)%Z).
Proof.
  induction s as [|c s IH]; [done|]. intros Hd.
  destruct (decide (c = 48%N /\ s <> [])) as [[-> Hs]|Hc].
  - destruct s as [|d s]; [done|]. change (strip_leading_zeros (48%N :: d :: s)) with (strip_leading_zeros (d :: s)).
    destruct IH as (H1 & H2 & H3); [by unfold is_decimal in *; simpl in *|].
    assert (decimal_value (48%N :: d :: s) = decimal_value (d :: s)) as -> by done. done.
  - assert (strip_leading_zeros (c :: s) = c :: s) as ->.
    { destruct s as [|d s]; [by destruct c as [|p]; [|do 6 (destruct p as [p|p|]; try done)]|].
      simpl. destruct c as [|p]; [done|]. do 6 (destruct p as [p|p|]; try done).
      by destruct Hc. }
    split_and!; [done|done|]. unfold is_decimal in Hd. cbn [truthy andb] in Hd.
    rewrite Nat.ltb_ge. split; intros Hl.
    + pose proof (decimal_value_bound _ Hd) as Hb.
      assert (10 ^ Z.of_nat (length (c :: s)) <= 10 ^ 9)%Z by (apply Z.pow_le_mono_r; lia). lia.
    + destruct (decide (s = [])) as [->|Hs]; [simpl; lia|].
      assert (c <> 48%N) as Hc' by naive_solver.
      assert (canonical_decimal (c :: s) = true) as Hcan.
      { simpl in Hd. apply andb_true_iff in Hd as [Hd1 Hd2]. simpl. rewrite Hd1, Hd2, andb_true_r.
        apply negb_true_iff, N.eqb_neq. done. }
      apply canonical_decimal_value in Hcan. apply Nat2Z.inj_le.
      assert (10 ^ (Z.of_nat (length (c :: s)) - 1) < 10 ^ 9)%Z as Hp by lia.
      apply Z.pow_lt_mono_r_iff in Hp; lia.
Qed.

(** ** Admission of a value *)

(** A text with more than two significant decimals is no number of hundredths. *)
Lemma too_precise w f h :
  is_decimal w = true -> forallb is_digit f = true -> 2 < length (strip_zeros f) ->
  (h * 10 ^ Z.of_nat (length f))%Z <> (100 * decimal_value (w ++ f))%Z.
Proof.
  intros Hw Hf Hl. destruct (strip_zeros_spec f) as (k & Hk & Hn).
  remember (strip_zeros f) as g eqn:Hg0. clear Hg0. subst f.
  rewrite forallb_app in Hf. apply andb_true_iff in Hf as [Hg _].
  destruct g as [|d g'] using rev_ind; [simpl in Hl; lia|]. clear IHg'.
  rewrite length_app in Hl. simpl in Hl.
  rewrite forallb_app in Hg. simpl in Hg. rewrite andb_true_r in Hg.
  apply andb_true_iff in Hg as [_ Hd]. pose proof (digit_value_bounds d Hd) as Hb.
  assert (digit_value d <> 0)%Z as Hd0.
  { intros H0. apply (Hn g'). unfold digit_value in H0. by assert (d = 48%N) as -> by lia. }
  rewrite !app_assoc, decimal_value_pad, decimal_value_snoc, !length_app, repeat_length. simpl length.
  replace (Z.of_nat (length g' + 1 + k)) with (Z.of_nat (length g' - 2) + 3 + Z.of_nat k)%Z by lia.
  rewrite !Z.pow_add_r by lia. intros He.
  rewrite !Z.mul_assoc in He. apply Z.mul_reg_r in He; [|lia].
  set (m := (h * 10 ^ Z.of_nat (length g' - 2))%Z) in *.
  change (10 ^ 3)%Z with 1000%Z in He. lia.
Qed.

Lemma decimal_cpus_spec min w f h c :
  is_decimal w = true -> forallb is_digit f = true ->
  decimal_cpus min w f = Accepted h c <->
  (h * 10 ^ Z.of_nat (length f) = 100 * decimal_value (w ++ f))%Z /\
  (min <= h < 10 ^ 11)%Z /\ c = canonical_cpus h.
Proof.
  intros Hw Hf. unfold decimal_cpus.
  destruct (Nat.ltb_spec 2 (length (strip_zeros f))) as [Hl|Hl].
  { split; [done|]. intros (He & _). by apply too_precise in He. }
  destruct (strip_zeros_spec f) as (k & Hk & _).
  destruct (strip_leading_zeros_spec w Hw) as (Hv & _ & Hlen). rewrite Hv.
  set (g := strip_zeros f) in *.
  assert (forallb is_digit g = true) as Hg.
  { rewrite Hk, forallb_app in Hf. by apply andb_true_iff in Hf as [? _]. }
  pose proof (decimal_value_bound g Hg) as Hb. pose proof (decimal_value_nonneg g Hg) as Hb0.
  assert (0 <= decimal_value w)%Z as Hw0.
  { apply decimal_value_nonneg. unfold is_decimal in Hw. by apply andb_true_iff in Hw as [_ ?]. }
  set (F := decimal_value (pad_end g)).
  assert (F * 10 ^ Z.of_nat (length g) = 100 * decimal_value g)%Z as HF.
  { unfold F, pad_end. rewrite decimal_value_pad, <- Z.mul_assoc, <- Z.pow_add_r by lia.
    replace (Z.of_nat (2 - length g) + Z.of_nat (length g))%Z with 2%Z by lia. lia. }
  assert (0 < 10 ^ Z.of_nat (length g))%Z as Hp by (apply Z.pow_pos_nonneg; lia).
  assert (0 <= F < 100)%Z as HFb by nia.
  assert (forall h, (h * 10 ^ Z.of_nat (length f) = 100 * decimal_value (w ++ f))%Z <->
            h = decimal_value w * 100 + F)%Z as Heq.
  { intros x. rewrite Hk, app_assoc, decimal_value_pad, decimal_value_app, length_app, repeat_length.
    rewrite Nat2Z.inj_add, Z.pow_add_r by lia.
    assert (0 < 10 ^ Z.of_nat k)%Z as Hq by (apply Z.pow_pos_nonneg; lia).
    transitivity (x * (10 ^ Z.of_nat (length g) * 10 ^ Z.of_nat k) =
      (decimal_value w * 100 + F) * (10 ^ Z.of_nat (length g) * 10 ^ Z.of_nat k))%Z.
    - rewrite !Z.mul_assoc, Z.mul_add_distr_r, HF. split; intros He; lia.
    - apply Z.mul_cancel_r. lia. }
  rewrite Heq. destruct (9 <? length (strip_leading_zeros w)) eqn:H9.
  - split; [done|]. intros (-> & [_ Hh] & _). destruct Hlen as [_ Hlen].
    assert (true = false) by (apply Hlen; lia). done.
  - destruct Hlen as [Hlen _]. specialize (Hlen eq_refl). assert (is_safe_integer (Fin ((decimal_value w * 100 + F) * 1000)) = true) as ->.
    { simpl. apply Z.leb_le. unfold max_safe_integer. lia. }
    cbn [negb]. destruct (Z.ltb_spec (decimal_value w * 100 + F) min).
    + split; [done|]. intros (-> & ? & _). lia.
    + split; [intros [= <- <-]; split_and!; lia || done|]. by intros (-> & _ & ->).
Qed.

Lemma trim_cpus_text w f :
  is_decimal w = true -> forallb is_digit f = true -> trim (cpus_text w f) = cpus_text w f.
Proof.
  intros Hw Hf.
  assert (exists c r r' d, cpus_text w f = c :: r /\ c :: r = r' ++ [d] /\
            is_digit c = true /\ is_digit d = true) as (c & r & r' & d & -> & Hr & Hc & Hd).
  { unfold cpus_text. unfold is_decimal in Hw. apply andb_true_iff in Hw as [Hn Hw]. destruct w as [|c w]; [done|].
    assert (is_digit c = true) as Hc by (simpl in Hw; by apply andb_true_iff in Hw as [? _]).
    destruct (truthy f) eqn:Ht.
    - destruct f as [|d f _] using rev_ind; [done|]. rewrite forallb_app in Hf. simpl in Hf.
      rewrite andb_true_r in Hf. apply andb_true_iff in Hf as [_ Hd].
      exists c, (w ++ "." ++ f ++ [d]), ((c :: w) ++ "." ++ f), d.
      split_and!; try done. simpl. f_equal. by rewrite <- app_assoc.
    - destruct (exists_last (l := c :: w)) as (r' & d & He); [done|].
      exists c, w, r', d. split_and!; try done. rewrite He, forallb_app in Hw. simpl in Hw.
      rewrite andb_true_r in Hw. by apply andb_true_iff in Hw as [_ ?]. }
  by apply (trim_solid c r d r'); [done|apply digit_not_space..].
Qed.

Lemma canonical_fraction m : (0 <= m < 100)%Z ->
  let f := strip_zeros (pad_start (string_of_Z m)) in
  forallb is_digit f = true /\ (m * 10 ^ Z.of_nat (length f) = 100 * decimal_value f)%Z.
Proof.
  intros Hm. cbv zeta.
  assert (forallb (fun n => let m := Z.of_nat n in
    let f := strip_zeros (pad_start (string_of_Z m)) in
    forallb is_digit f && (m * 10 ^ Z.of_nat (length f) =? 100 * decimal_value f)%Z) (seq 0 100) = true)
    as H by by vm_compute.
  rewrite forallb_forall in H. specialize (H (Z.to_nat m)).
  rewrite in_seq, Z2Nat.id in H by lia. specialize (H ltac:(lia)).
  apply andb_true_iff in H as [? ?%Z.eqb_eq]. done.
Qed.

(** The canonical text of [h] hundredths, as whole part and fraction. *)
Lemma canonical_cpus_parts h : (0 <= h)%Z ->
  exists w f, canonical_cpus h = cpus_text w f /\ is_decimal w = true /\ forallb is_digit f = true /\
    (h * 10 ^ Z.of_nat (length f) = 100 * decimal_value (w ++ f))%Z.
Proof.
  intros Hh. unfold canonical_cpus. pose proof (Z.mod_pos_bound h 100 ltac:(lia)) as Hm.
  destruct (canonical_fraction _ Hm) as [Hf Hv]. cbv zeta in Hf, Hv.
  destruct (string_of_Z_spec (h / 100)) as [Hw Hwv]; [apply Z.div_pos; lia|].
  eexists _, _. split_and!; [done|exact Hw|exact Hf|].
  rewrite decimal_value_app, Hwv. pose proof (Z.div_mod h 100 ltac:(lia)). nia.
Qed.

(** The text a value is read from. *)
Definition value_text (v : js) : option jstr :=
  match v with
  | Str s => Some (trim s)
  | Num (Fin _) | Frac _ => numberText v
  | _ => None
  end.

Lemma parse_value_text min v h c :
  parseAdmittedCpus min v = Accepted h c <-> admitted_text min (value_text v) = Accepted h c.
Proof. by destruct v as [| | |[]| | | |]. Qed.

Lemma admitted_text_spec min t h c :
  admitted_text min t = Accepted h c <->
  exists w f, t = Some (cpus_text w f) /\ is_decimal w = true /\ forallb is_digit f = true /\
    (h * 10 ^ Z.of_nat (length f) = 100 * decimal_value (w ++ f))%Z /\
    (min <= h < 10 ^ 11)%Z /\ c = canonical_cpus h.
Proof.
  split.
  - destruct t as [t|]; [|done]. simpl. destruct (DECIMAL t) as [[w f]|] eqn:Ht; [|done].
    apply DECIMAL_spec in Ht as (Hw & Hf & ->). rewrite decimal_cpus_spec by done.
    intros (? & ? & ?). by exists w, f.
  - intros (w & f & -> & Hw & Hf & H). simpl.
    assert (DECIMAL (cpus_text w f) = Some (w, f)) as -> by by apply DECIMAL_spec.
    by apply decimal_cpus_spec.
Qed.

Lemma accepted_canonical min v h c : parseAdmittedCpus min v = Accepted h c -> c = canonical_cpus h.
Proof. rewrite parse_value_text, admitted_text_spec. by intros (w & f & _ & _ & _ & _ & _ & ->). Qed.

(** ** The properties *)

(** A value is accepted exactly when its decimal text denotes a whole
    number of hundredths that is within the bounds: it is never rounded.  The
    quota computed from it is the exact number of microseconds, within the
    integers a JavaScript number holds exactly. *)
Theorem cpus_exact (min : Z) (v : js) (h : Z) (c : jstr) :
  (parseAdmittedCpus min v = Accepted h c <->
   exists w f, value_text v = Some (cpus_text w f) /\ is_decimal w = true /\ forallb is_digit f = true /\
     (h * 10 ^ Z.of_nat (length f) = 100 * decimal_value (w ++ f))%Z /\
     (min <= h < 10 ^ 11)%Z /\ c = canonical_cpus h) /\
  (forall q, cpuQuotaFor v = Ok q ->
     is_safe_integer (Fin q) = true /\ (1000 <= q)%Z /\
     exists w f, value_text v = Some (cpus_text w f) /\
       (q * 10 ^ Z.of_nat (length f) = CPU_PERIOD_US * decimal_value (w ++ f))%Z).
Proof.
  split; [by rewrite parse_value_text, admitted_text_spec|].
  intros q. unfold cpuQuotaFor. destruct (parseAdmittedCpus _ v) as [h' c'|] eqn:Hp; [|done].
  intros [= <-]. apply parse_value_text, admitted_text_spec in Hp as (w & f & Ht & _ & _ & He & Hb & _).
  unfold MIN_DECLARED_CPU_HUNDREDTHS, CPU_PERIOD_US in *. split_and!.
  - simpl. apply Z.leb_le. unfold max_safe_integer. lia.
  - lia.
  - exists w, f. split; [done|]. lia.
Qed.

Example cpus_exact_witness :
  cpuQuotaFor (Str " 00.2900 ") = Ok 29000%Z /\ is_safe_integer (Fin 29000) = true.
Proof.
  assert (cpuQuotaFor (Str " 00.2900 ") = Ok 29000%Z) as H by by vm_compute.
  split; [exact H|].
  exact (proj1 (proj2 (cpus_exact 1 (Str " 00.2900 ") 29 "0.29") _ H)).
Defined.

Lemma parse_canonical min h :
  (0 <= h < 10 ^ 11)%Z -> (min <= h)%Z ->
  parseAdmittedCpus min (Str (canonical_cpus h)) = Accepted h (canonical_cpus h).
Proof.
  intros Hh Hm. destruct (canonical_cpus_parts h) as (w & f & Hc & Hw & Hf & He); [lia|].
  apply parse_value_text, admitted_text_spec. exists w, f. simpl.
  rewrite Hc at 1. rewrite trim_cpus_text by done. split_and!; lia || done.
Qed.

(** The canonical text of an accepted value denotes the value: it is
    accepted with the same number of hundredths and is its own canonical text,
    and two values have the same canonical text just when they are the same
    number of hundredths. *)
Theorem cpus_canonical_roundtrip (min : Z) (v v' : js) (h h' : Z) (c c' : jstr) :
  parseAdmittedCpus min v = Accepted h c -> parseAdmittedCpus min v' = Accepted h' c' ->
  parseAdmittedCpus min (Str c) = Accepted h c /\ (c = c' <-> h = h').
Proof.
  intros H H'.
  assert (forall u x d, parseAdmittedCpus min u = Accepted x d ->
            d = canonical_cpus x /\ parseAdmittedCpus min (Str d) = Accepted x d) as Hc.
  { intros u x d Hu. apply parse_value_text, admitted_text_spec in Hu as (w & f & _ & Hw & Hf & He & Hb & ->).
    split; [done|]. apply parse_canonical; [|lia]. split; [|lia].
    assert (0 <= decimal_value (w ++ f))%Z as H0.
    { apply decimal_value_nonneg. rewrite forallb_app, Hf, andb_true_r.
      unfold is_decimal in Hw. by apply andb_true_iff in Hw as [_ ?]. }
    assert (0 < 10 ^ Z.of_nat (length f))%Z by (apply Z.pow_pos_nonneg; lia). nia. }
  destruct (Hc _ _ _ H) as [He Hp], (Hc _ _ _ H') as [He' Hp'].
  split; [done|]. split.
  - intros ->. congruence.
  - intros ->. congruence.
Qed.

Example cpus_canonical_roundtrip_witness :
  parseAdmittedCpus 1 (Str "0.5") = Accepted 50 "0.5" /\ ("0.5"%js = "0.5"%js <-> 50%Z = 50%Z).
Proof.
  refine (cpus_canonical_roundtrip 1 (Frac "0.5") (Str "0.50") 50 50 "0.5" "0.5" _ _); by vm_compute.
Defined.

(** ** Comparison with what the engine reports *)

Lemma trimmed_nullish_decimal z : (0 <= z)%Z ->
  trimmed_nullish (Num (Fin z)) = Ok (string_of_Z z) /\
  trimmed_nullish (Str (string_of_Z z)) = Ok (string_of_Z z).
Proof.
  intros Hz. destruct (string_of_Z_spec z Hz) as [Hd _].
  assert (trim (string_of_Z z) = string_of_Z z) as Ht by by apply (trim_cpus_text (string_of_Z z) []).
  unfold trimmed_nullish. simpl. by rewrite Ht.
Qed.

Lemma integer_decimal z : (0 <= z <= max_safe_integer)%Z ->
  integer (Num (Fin z)) = Ok (Some z) /\ integer (Str (string_of_Z z)) = Ok (Some z).
Proof.
  intros Hz. destruct (trimmed_nullish_decimal z) as [H1 H2]; [lia|].
  destruct (string_of_Z_spec z) as [Hd Hv]; [lia|].
  unfold integer. rewrite H1, H2. simpl. rewrite Hd, Hv. simpl.
  assert ((Z.abs z <=? max_safe_integer)%Z = true) as -> by (apply Z.leb_le; lia). done.
Qed.

Lemma quota_matches_spec q p d :
  cpuQuotaMatches q p d = Ok true <->
  exists h c x, parseAdmittedCpus MIN_DECLARED_CPU_HUNDREDTHS d = Accepted h c /\
    integer q = Ok (Some x) /\ integer p = Ok (Some CPU_PERIOD_US) /\ (x = h * 1000 \/ x = h * 1000 - 1)%Z.
Proof.
  unfold cpuQuotaMatches. destruct (integer q) as [[x|]|] eqn:Hq; simpl.
  - destruct (parseAdmittedCpus _ d) as [h c|r]; [|by split; [|intros (?&?&?&?&_)]].
    destruct (integer p) as [[y|]|] eqn:Hp; simpl.
    + split.
      * intros [= H]. apply andb_true_iff in H as [->%Z.eqb_eq H].
        apply orb_true_iff in H. rewrite !Z.eqb_eq in H. by exists h, c, x.
      * intros (? & ? & ? & [= <- <-] & [= <-] & [= ->] & H). f_equal.
        rewrite Z.eqb_refl. simpl. apply orb_true_iff. by rewrite !Z.eqb_eq.
    + by split; [|intros (?&?&?&_&_&?&_)].
    + by split; [|intros (?&?&?&_&_&?&_)].
  - split; [by destruct (parseAdmittedCpus _ d)|by intros (?&?&?&_&?&_)].
  - by split; [|intros (?&?&?&_&?&_)].
Qed.

Lemma split_words a b :
  forallb is_digit a = true -> forallb is_digit b = true -> a <> [] ->
  split_on 32 (collapse_spaces (a ++ " " ++ b)) = [a; b].
Proof.
  intros Ha Hb Hn.
  assert (forall s, forallb is_digit s = true -> collapse_spaces s = s /\ index_of 32 s = None) as Hs.
  { clear. induction s as [|c s IH]; [done|]. simpl. intros [Hc H]%andb_true_iff.
    destruct (IH H) as [-> ->]. rewrite (digit_not_space c Hc).
    destruct (N.eqb_spec c 32) as [->|]; [done|]. done. }
  assert (collapse_spaces (a ++ " " ++ b) = a ++ " " ++ b) as ->.
  { clear Hn. induction a as [|c a IH].
    - destruct (Hs b Hb) as [Hcb _]. destruct b as [|d b]; [done|].
      simpl in Hb. apply andb_true_iff in Hb as [Hd _].
      change (collapse_spaces ("" ++ " " ++ d :: b)) with (if is_space d then collapse_spaces (d :: b) else 32%N :: collapse_spaces (d :: b)).
      rewrite (digit_not_space d Hd).
      exact (f_equal (cons 32%N) Hcb).
    - simpl in Ha. apply andb_true_iff in Ha as [Hc Ha]. simpl. rewrite (digit_not_space c Hc).
      f_equal. by apply IH. }
  rewrite (split_on_app 32 a b), !split_on_None by by apply Hs. done.
Qed.

(** A quota the engine reports matches a limit when the period is the
    period and the quota is the exact one or one less, which is how the engine
    truncates; the texts of [cpu.max] and the number [NanoCpus] are read as
    that comparison; and a reported quota never matches two different limits. *)
Theorem reported_quota_identifies (q p : Z) (d d' : js) :
  (0 <= q <= max_safe_integer)%Z -> (0 <= p <= max_safe_integer)%Z ->
  let direct := cpuQuotaMatches (Num (Fin q)) (Num (Fin p)) d in
  (direct = Ok true <->
   exists h c, parseAdmittedCpus MIN_DECLARED_CPU_HUNDREDTHS d = Accepted h c /\
     p = CPU_PERIOD_US /\ (q = h * 1000 \/ q = h * 1000 - 1)%Z) /\
  cpuMaxMatches (Str (string_of_Z q ++ " " ++ string_of_Z p)) d = direct /\
  (p = CPU_PERIOD_US -> (q * 10000 <= max_safe_integer)%Z ->
   nanoCpusMatches (Num (Fin (q * 10000))) d = direct) /\
  (direct = Ok true -> cpuQuotaMatches (Num (Fin q)) (Num (Fin p)) d' = Ok true ->
   parseAdmittedCpus MIN_DECLARED_CPU_HUNDREDTHS d = parseAdmittedCpus MIN_DECLARED_CPU_HUNDREDTHS d').
Proof.
  intros Hq Hp. cbv zeta.
  destruct (integer_decimal q Hq) as [Iq Sq], (integer_decimal p Hp) as [Ip Sp].
  assert (forall d, cpuQuotaMatches (Num (Fin q)) (Num (Fin p)) d = Ok true <->
   exists h c, parseAdmittedCpus MIN_DECLARED_CPU_HUNDREDTHS d = Accepted h c /\
     p = CPU_PERIOD_US /\ (q = h * 1000 \/ q = h * 1000 - 1)%Z) as Hd.
  { intros e. rewrite quota_matches_spec, Iq, Ip. split.
    - intros (h & c & x & ? & [= <-] & [= <-] & ?). by exists h, c.
    - intros (h & c & ? & -> & ?). by exists h, c, q. }
  split; [apply Hd|]. split; [|split].
  - unfold cpuMaxMatches.
    destruct (string_of_Z_spec q) as [Dq _], (string_of_Z_spec p) as [Dp _]; try lia.
    unfold is_decimal in Dq, Dp. apply andb_true_iff in Dq as [Nq Dq], Dp as [Np Dp].
    assert (trim (string_of_Z q ++ " " ++ string_of_Z p) = string_of_Z q ++ " " ++ string_of_Z p) as Ht.
    { clear -Nq Np Dq Dp. destruct (string_of_Z q) as [|c a]; [done|].
      destruct (exists_last (l := string_of_Z p)) as (b & e & He); [by destruct (string_of_Z p)|].
      rewrite He in Dp |- *. rewrite forallb_app in Dp. simpl in Dp, Dq. rewrite andb_true_r in Dp.
      apply andb_true_iff in Dp as [_ Dp], Dq as [Dq _].
      apply (trim_solid c (a ++ " " ++ b ++ [e]) e ((c :: a) ++ " " ++ b)); try by apply digit_not_space.
      simpl. f_equal. by rewrite <- app_assoc. }
    unfold trimmed_nullish. cbn [js_nullish to_string mbind result_bind]. rewrite Ht.
    rewrite split_words by (done || by apply truthy_true).
    unfold cpuQuotaMatches. by rewrite Sq, Iq, Sp, Ip.
  - intros -> Hn. unfold nanoCpusMatches.
    destruct (integer_decimal (q * 10000)) as [-> _]; [lia|].
    cbn [mbind result_bind]. rewrite Z.mod_mul, Z.div_mul by lia. done.
  - intros (h & c & Ha & _ & Hx)%Hd (h' & c' & Ha' & _ & Hx')%Hd.
    assert (h = h') as -> by lia. rewrite Ha, Ha'. f_equal.
    by rewrite (accepted_canonical _ _ _ _ Ha), (accepted_canonical _ _ _ _ Ha').
Qed.

(** 0.29 CPUs: Podman reports 28999 for the exact 29000. *)
Example reported_quota_identifies_witness :
  cpuMaxMatches (Str "28999 100000") (Frac "0.29") =
    cpuQuotaMatches (Num (Fin 28999)) (Num (Fin 100000)) (Frac "0.29") /\
  nanoCpusMatches (Num (Fin (28999 * 10000))) (Frac "0.29") =
    cpuQuotaMatches (Num (Fin 28999)) (Num (Fin 100000)) (Frac "0.29").
Proof.
  destruct (reported_quota_identifies 28999 100000 (Frac "0.29") (Str "0.29"))
    as (_ & Hmax & Hnano & _); [unfold max_safe_integer; lia..|].
  split; [exact Hmax|]. apply Hnano; unfold max_safe_integer; lia || done.
Defined.
