(* ===== verification/JsDouble.v ===== *)
(** Double-precision numbers where a decision needs them: the value of a decimal
    text, quotients and products, correctly rounded as IEEE 754 prescribes. *)

From Stdlib Require Import ZArith Floats.SpecFloat.
From stdpp Require Import prelude.
From S2P Require Import Prelude.
From S2P Require Import JsString.
From S2P Require Import JsNumber.
From S2P Require Import JsValue.
From S2P Require Import JsUri.

Local Open Scope js_scope.

Definition double : Type := spec_float.

(** [n / d], correctly rounded, for [0 <= n] and [0 < d]; exact integers are the
    case [d = 1]. *)
Definition double_ratio (n d : Z) : double :=
  match n, d with
  | Zpos n, Zpos d => SFdiv 53 1024 (S754_finite false n 0) (S754_finite false d 0)
  | _, _ => S754_zero false
  end.

(** [Number(w + '.' + f)] for digits. *)
Definition double_of_decimal (w f : jstr) : double :=
  double_ratio (decimal_value (w ++ f)) (10 ^ Z.of_nat (length f)).

Definition double_mul : double -> double -> double := SFmul 53 1024.

(** [Math.floor(x)] of a number that is not negative, as an integer when finite. *)
Definition double_floor (x : double) : jnum :=
  match x with
  | S754_zero _ => Fin 0
  | S754_finite false m e => Fin (if (0 <=? e)%Z then Zpos m * 2 ^ e else Zpos m / 2 ^ (- e))%Z
  | S754_finite true m e => Fin (- (if (0 <=? e)%Z then Zpos m * 2 ^ e else (Zpos m + 2 ^ (- e) - 1) / 2 ^ (- e)))%Z
  | S754_infinity false => PosInf
  | S754_infinity true => NegInf
  | S754_nan => NaN
  end.

Definition double_finite (x : double) : bool :=
  match x with
  | S754_zero _ | S754_finite _ _ _ => true
  | _ => false
  end.

(** [Number.isInteger(x)] *)
Definition double_is_integer (x : double) : bool :=
  match x with
  | S754_zero _ => true
  | S754_finite _ m e => (0 <=? e)%Z || (Zpos m mod 2 ^ (- e) =? 0)%Z
  | _ => false
  end.

(** [x > y], [x < y] *)
Definition double_lt (x y : double) : bool := SFltb x y.
Definition double_gt (x y : double) : bool := SFltb y x.

Definition double_div : double -> double -> double := SFdiv 53 1024.

(** [Math.min(x, y)] of numbers that are not negative. *)
Definition double_min (x y : double) : double := if double_lt y x then y else x.

(** ** Text

    [String(x)] of a positive number: the shortest decimal that reads back as
    [x], the closest one where there are several. *)

(** [x = m / d]. *)
Definition double_quotient (m : positive) (e : Z) : Z * Z :=
  if (0 <=? e)%Z then (Zpos m * 2 ^ e, 1)%Z else (Zpos m, 2 ^ (- e))%Z.

(** [num / den < 1]: the zeros after the point, with fuel for the smallest
    number there is. *)
Fixpoint leading_zeros (fuel : nat) (num den : Z) : Z :=
  match fuel with
  | O => 0
  | S fuel => if (den <=? num * 10)%Z then 0 else 1 + leading_zeros fuel (num * 10) den
  end.

(** The [n] with [10 ^ (n - 1) <= num / den < 10 ^ n]. *)
Definition decimal_exponent (num den : Z) : Z :=
  if (den <=? num)%Z then Z.of_nat (length (string_of_Z (num / den))) else (- leading_zeros 400 num den)%Z.

(** The number [s * 10 ^ j]. *)
Definition scaled_double (s j : Z) : double := double_ratio (s * 10 ^ Z.max 0 j) (10 ^ Z.max 0 (- j)).

(** The digits and their exponent, from [k] digits on. *)
Fixpoint shortest_digits (fuel : nat) (x : double) (num den n k : Z) : Z * Z :=
  let j := (n - k)%Z in
  let a := (num * 10 ^ Z.max 0 (- j))%Z in
  let b := (den * 10 ^ Z.max 0 j)%Z in
  let lo := (a / b)%Z in
  let hi := (lo + 1)%Z in
  let okLo := SFeqb (scaled_double lo j) x in
  let okHi := SFeqb (scaled_double hi j) x in
  if okLo && okHi then ((if (2 * a <=? (2 * lo + 1) * b)%Z then lo else hi), j)
  else if okLo then (lo, j)
  else if okHi then (hi, j)
  else
    match fuel with
    | O => (lo, j)
    | S fuel => shortest_digits fuel x num den n (k + 1)
    end.

Definition zeros (z : Z) : jstr := repeat 48%N (Z.to_nat z).

Fixpoint drop_zeros (s : jstr) : jstr :=
  match s with
  | 48%N :: r => drop_zeros r
  | _ => s
  end.

Definition strip_trailing_zeros (s : jstr) : jstr := rev (drop_zeros (rev s)).

(** Digits [ds] with the point after the first [n] of them. *)
Definition decimal_text (ds : jstr) (n : Z) : jstr :=
  let k := Z.of_nat (length ds) in
  if (k <=? n)%Z && (n <=? 21)%Z then ds ++ zeros (n - k)
  else if (0 <? n)%Z && (n <=? 21)%Z then take (Z.to_nat n) ds ++ [46%N] ++ drop (Z.to_nat n) ds
  else if (-6 <? n)%Z && (n <=? 0)%Z then [48%N; 46%N] ++ zeros (- n) ++ ds
  else
    let e := (n - 1)%Z in
    take 1 ds ++ (if (k =? 1)%Z then [] else 46%N :: drop 1 ds) ++ [101%N; (if (0 <=? e)%Z then 43%N else 45%N)] ++
    string_of_Z (Z.abs e).

Definition double_text (x : double) : jstr :=
  match x with
  | S754_finite false m e =>
      let '(num, den) := double_quotient m e in
      let n := decimal_exponent num den in
      let '(s, j) := shortest_digits 16 x num den n 1 in
      let text := string_of_Z s in
      let ds := strip_trailing_zeros text in
      decimal_text ds (Z.of_nat (length text) + j)
  | _ => [48%N]
  end.

Example double_texts :
  double_text (double_ratio 1 3) = "0.3333333333333333" /\
  double_text (double_ratio 29 100) = "0.29" /\
  double_text (double_ratio 5 2) = "2.5" /\
  double_text (double_ratio (10 ^ 23) 1) = "1e+23" /\
  double_text (double_ratio 1200 1) = "1200" /\
  double_text (double_ratio 1 (10 ^ 7)) = "1e-7" /\
  double_text (S754_finite false 1 (-1074)) = "5e-324" /\
  double_text (double_ratio 123456789012345680000 1) = "123456789012345680000" /\
  double_text (double_ratio 3 (10 ^ 6)) = "0.000003".
Proof. by vm_compute. Qed.

(** Numbers that may have fractions: an integer (or an infinity or NaN) as
    [JsNumber] has it, or a double that is none; with [Number(v)] of any
    datum. *)

(** [Dbl x]: [x] is finite and no integer. *)
Inductive real : Type :=
  | Int (n : jnum)
  | Dbl (x : double).

(** The integer a double is. *)
Definition double_integer (x : double) : Z :=
  match x with
  | S754_finite s m e =>
      let n := (if (0 <=? e)%Z then Zpos m * 2 ^ e else Zpos m / 2 ^ (- e))%Z in
      if s then (- n)%Z else n
  | _ => 0
  end.

Definition real_of_double (x : double) : real :=
  match x with
  | S754_nan => Int NaN
  | S754_infinity false => Int PosInf
  | S754_infinity true => Int NegInf
  | _ => if double_is_integer x then Int (Fin (double_integer x)) else Dbl x
  end.

Definition double_of_Z (z : Z) : double :=
  match z with
  | Zneg p => SFopp (double_ratio (Zpos p) 1)
  | _ => double_ratio z 1
  end.

Definition double_of_real (r : real) : double :=
  match r with
  | Int NaN => S754_nan
  | Int PosInf => S754_infinity false
  | Int NegInf => S754_infinity true
  | Int (Fin z) => double_of_Z z
  | Dbl x => x
  end.

(** ** Arithmetic

    Integers are computed exactly, as everywhere in the library; with a fraction
    the operation rounds. *)

Definition jmul (a b : jnum) : jnum :=
  let sign c := match c with NaN => 0 | NegInf => -1 | Fin z => Z.sgn z | PosInf => 1 end%Z in
  match a, b with
  | NaN, _ | _, NaN => NaN
  | Fin x, Fin y => Fin (x * y)
  | _, _ =>
      match (sign a * sign b)%Z with
      | Z0 => NaN
      | Zpos _ => PosInf
      | Zneg _ => NegInf
      end
  end.

Definition lift_real (exact : jnum -> jnum -> jnum) (rounded : double -> double -> double) (a b : real) : real :=
  match a, b with
  | Int x, Int y => Int (exact x y)
  | _, _ => real_of_double (rounded (double_of_real a) (double_of_real b))
  end.

Definition real_add : real -> real -> real := lift_real jadd (SFadd 53 1024).
Definition real_sub : real -> real -> real := lift_real jsub (SFsub 53 1024).
Definition real_mul : real -> real -> real := lift_real jmul (SFmul 53 1024).

(** [a < b], [a <= b] *)
Definition real_lt (a b : real) : bool :=
  match a, b with
  | Int x, Int y => jlt x y
  | _, _ => SFltb (double_of_real a) (double_of_real b)
  end.

Definition real_le (a b : real) : bool :=
  match a, b with
  | Int x, Int y => jle x y
  | _, _ => SFleb (double_of_real a) (double_of_real b)
  end.

Definition real_finite (a : real) : bool :=
  match a with
  | Int n => is_finite n
  | Dbl _ => true
  end.

(** [Math.max(1, a)] *)
Definition real_max_1 (a : real) : real :=
  match a with
  | Int n => Int (jmax (Fin 1) n)
  | Dbl x => if SFltb (double_of_Z 1) x then a else Int (Fin 1)
  end.

(** ** Numbers in strings *)

(** The digits at the start of a text and what follows them. *)
Definition digit_run (s : jstr) : jstr * jstr := (take_digits s, drop (length (take_digits s)) s).

(** [m * 10 ^ e], correctly rounded; outside the exponents of doubles it is zero
    or an infinity. *)
Definition decimal_real (m e : Z) : real :=
  if (m =? 0)%Z then Int (Fin 0)
  else if (400 <? e)%Z then Int PosInf
  else if (e + Z.of_nat (length (string_of_Z m)) <? -400)%Z then Int (Fin 0)
  else real_of_double (double_ratio (m * 10 ^ Z.max 0 e) (10 ^ Z.max 0 (- e))).

(** A sign and digits after [e] or [E]. *)
Definition exponent_part (s : jstr) : option Z :=
  match s with
  | [] => Some 0%Z
  | c :: r =>
      if (c =? 101)%N || (c =? 69)%N then
        let '(neg, ds) :=
          match r with
          | 43%N :: r => (false, r)
          | 45%N :: r => (true, r)
          | _ => (false, r)
          end in
        if is_decimal ds then Some (if neg : bool then - decimal_value ds else decimal_value ds)%Z else None
      else None
  end.

(** StrUnsignedDecimalLiteral, [Infinity] apart. *)
Definition unsigned_decimal (s : jstr) : option real :=
  let '(whole, r) := digit_run s in
  let '(frac, r) :=
    match r with
    | 46%N :: r => digit_run r
    | _ => ([], r)
    end in
  if truthy (whole ++ frac) then
    e ← exponent_part r; Some (decimal_real (decimal_value (whole ++ frac)) (e - Z.of_nat (length frac)))
  else None.

Definition negate_real (a : real) : real :=
  match a with
  | Int n => Int (jneg n)
  | Dbl x => Dbl (SFopp x)
  end.

(** The value of digits in a base. *)
Definition radix_value (base : N) (s : jstr) : option Z :=
  if truthy s then
    foldl (fun acc c =>
      a ← acc; d ← hex_value c;
      if (d <? base)%N then Some (a * Z.of_N base + Z.of_N d)%Z else None) (Some 0%Z) s
  else None.

(** [Number(s)] for a string. *)
Definition number_of_string (s : jstr) : real :=
  let t := trim s in
  let signed r := if jeqb r "Infinity" then Some (Int PosInf) else unsigned_decimal r in
  default (Int NaN)
    match t with
    | [] => Some (Int (Fin 0))
    | 43%N :: r => signed r
    | 45%N :: r => negate_real <$> signed r
    | 48%N :: c :: r =>
        let base :=
          if (c =? 120)%N || (c =? 88)%N then Some 16%N
          else if (c =? 111)%N || (c =? 79)%N then Some 8%N
          else if (c =? 98)%N || (c =? 66)%N then Some 2%N
          else None in
        match base with
        | Some b => (fun z => Int (Fin z)) <$> radix_value b r
        | None => signed t
        end
    | _ => signed t
    end.

(** [Number(v)] *)
Definition number_of (v : js) : result js_error real :=
  match v with
  | Undefined => Ok (Int NaN)
  | Null => Ok (Int (Fin 0))
  | Bool b => Ok (Int (Fin (if b then 1 else 0)))
  | Num n => Ok (Int n)
  | Frac text => Ok (number_of_string text)
  | Str s => Ok (number_of_string s)
  | Arr _ | Obj _ => s ← to_string v; Ok (number_of_string s)
  end.

Example numbers :
  number_of_string " 12 " = Int (Fin 12) /\ number_of_string "1e3" = Int (Fin 1000) /\
  number_of_string "-0x10" = Int NaN /\ number_of_string "0x1F" = Int (Fin 31) /\
  number_of_string "1.5" = Dbl (S754_finite false 6755399441055744 (-52)) /\
  number_of_string "1e400" = Int PosInf /\ number_of_string "." = Int NaN /\
  number_of_string "-2.50e1" = Int (Fin (-25)) /\ number_of_string "12px" = Int NaN /\
  real_add (number_of_string "0.5") (number_of_string "1.5") = Int (Fin 2).
Proof. by vm_compute. Qed.

(** ** Integers *)

Lemma jmax_Z a b : jmax (Fin a) (Fin b) = Fin (Z.max a b).
Proof. unfold jmax, jlt. destruct (Z.ltb_spec a b); f_equal; lia. Qed.

Lemma real_add_Z a b : real_add (Int (Fin a)) (Int (Fin b)) = Int (Fin (a + b)).
Proof. done. Qed.

Lemma real_sub_Z a b : real_sub (Int (Fin a)) (Int (Fin b)) = Int (Fin (a - b)).
Proof. done. Qed.

Lemma real_mul_Z a b : real_mul (Int (Fin a)) (Int (Fin b)) = Int (Fin (a * b)).
Proof. done. Qed.

Lemma real_max_1_Z a : real_max_1 (Int (Fin a)) = Int (Fin (Z.max 1 a)).
Proof. unfold real_max_1. by rewrite jmax_Z. Qed.

#[export] Hint Rewrite real_add_Z real_sub_Z real_mul_Z real_max_1_Z : reals.
