(* ===== verification/DoubleExact.v ===== *)
(** Percentages in doubles are exact: [Math.floor(p * n / 100 / 2 ** 20)] is the
    integer quotient as long as [p * n] is below [2 ** 53], although the
    division by 100 rounds. *)

From Stdlib Require Import ZArith Lia Floats.SpecFloat.
From stdpp Require Import prelude.
From S2P Require Import Prelude.
From S2P Require Import JsNumber.
From S2P Require Import JsDouble.

Local Open Scope Z_scope.

(** ** Digits *)

Lemma digits_log2 m : Zpos (digits2_pos m) = Z.log2 (Zpos m) + 1.
Proof.
  induction m as [m IH|m IH|]; [| |done]; cbn [digits2_pos]; rewrite Pos2Z.inj_succ, IH.
  - rewrite (Pos2Z.inj_xI m), Z.log2_succ_double; lia.
  - rewrite (Pos2Z.inj_xO m), Z.log2_double; lia.
Qed.

(** The number of binary digits. *)
Definition digits (n : Z) : Z := Z.log2 n + 1.

Lemma digits_spec n : 0 < n -> 2 ^ (digits n - 1) <= n < 2 ^ digits n.
Proof. intros Hn. unfold digits. rewrite Z.add_simpl_r. by apply Z.log2_spec in Hn. Qed.

Lemma digits_unique n d : 0 < d -> 2 ^ (d - 1) <= n < 2 ^ d -> digits n = d.
Proof. intros Hd H. unfold digits. rewrite (Z.log2_unique n (d - 1)); [lia|lia|]. by replace (Z.succ (d - 1)) with d by lia. Qed.

Lemma Zdigits2_digits n : 0 < n -> Zdigits2 n = digits n.
Proof. destruct n; try lia. intros _. apply digits_log2. Qed.

Lemma digits_pos n : 0 < n -> 0 < digits n.
Proof. intros _. unfold digits. pose proof (Z.log2_nonneg n). lia. Qed.

Lemma digits_mul_pow2 n k : 0 < n -> 0 <= k -> digits (n * 2 ^ k) = digits n + k.
Proof. intros. unfold digits. rewrite Z.log2_mul_pow2; lia. Qed.

Lemma digits_le n d : 0 < n -> n < 2 ^ d -> digits n <= d.
Proof. intros Hn Hd. unfold digits. assert (Z.log2 n < d); [|lia]. by apply Z.log2_lt_pow2. Qed.

(** ** Shifts *)

Lemma iter_pos_nat {A} (f : A -> A) n x : @SpecFloat.iter_pos A f n x = Nat.iter (Pos.to_nat n) f x.
Proof.
  revert x. induction n as [n IH|n IH|]; intros x; cbn [SpecFloat.iter_pos]; [| |done].
  - rewrite !IH, Pos2Nat.inj_xI, <- Nat.iter_add, <- Nat.iter_succ_r. f_equal. lia.
  - rewrite !IH, Pos2Nat.inj_xO, <- Nat.iter_add. f_equal. lia.
Qed.

Definition exact (m : Z) : shr_record := Build_shr_record m false false.

Lemma shr_1_exact m : 0 < m -> shr_1 (exact (2 * m)) = exact m.
Proof. by destruct m. Qed.

Lemma shr_exact m k e : 0 < m -> 0 <= k -> shr (exact (m * 2 ^ k)) e k = (exact m, e + k).
Proof.
  intros Hm Hk. destruct k as [|k|k]; [|unfold shr; f_equal|lia].
  - cbn. by rewrite Z.mul_1_r, Z.add_0_r.
  - rewrite iter_pos_nat, <- (positive_nat_Z k). generalize (Pos.to_nat k) as n. clear k Hk. intros n.
    revert m Hm. induction n as [|n IH]; intros m Hm; [cbn; by rewrite Z.mul_1_r|].
    rewrite Nat.iter_succ, Nat2Z.inj_succ, Z.pow_succ_r by lia.
    replace (m * (2 * 2 ^ Z.of_nat n)) with ((2 * m) * 2 ^ Z.of_nat n) by lia. rewrite IH by lia.
    by apply shr_1_exact.
Qed.

Lemma fexp_normal e : -1021 <= e -> fexp 53 1024 e = e - 53.
Proof. unfold fexp, emin. lia. Qed.

Lemma shr_fexp_exact m k e : 0 < m -> 0 <= k -> digits m = 53 -> -1000 <= e ->
  shr_fexp 53 1024 (m * 2 ^ k) e loc_Exact = (exact m, e + k).
Proof.
  intros Hm Hk Hd He. unfold shr_fexp. rewrite Zdigits2_digits by (apply Z.mul_pos_pos; lia).
  rewrite digits_mul_pow2, Hd, fexp_normal by lia. replace (53 + k + e - 53 - e) with k by lia. by apply shr_exact.
Qed.

(** ** Rounding *)

(** What an exact number of 53 digits and more rounds to. *)
Lemma round_exact m k e : 0 < m -> 0 <= k -> digits m = 53 -> -1000 <= e -> e + k <= 971 ->
  binary_round_aux 53 1024 false (m * 2 ^ k) e loc_Exact = S754_finite false (Z.to_pos m) (e + k).
Proof.
  intros Hm Hk Hd He Hmax. unfold binary_round_aux. rewrite shr_fexp_exact by done.
  change (round_nearest_even (shr_m (exact m)) (loc_of_shr_record (exact m))) with m.
  replace m with (m * 2 ^ 0) at 1 by lia. rewrite shr_fexp_exact by lia. cbn [shr_m exact].
  destruct m as [|m|m]; try lia. rewrite Z.add_0_r. replace (e + k <=? 1024 - 53) with true by (symmetry; apply Z.leb_le; lia).
  done.
Qed.

(** A whole number below [2 ^ 53], normalized. *)
Definition int_double (n : Z) : double :=
  S754_finite false (Z.to_pos (n * 2 ^ (53 - digits n))) (digits n - 53).

Lemma normalized n : 0 < n -> n < 2 ^ 53 -> 0 < n * 2 ^ (53 - digits n) /\ digits (n * 2 ^ (53 - digits n)) = 53.
Proof.
  intros Hn H. pose proof (digits_le n 53 Hn H). split; [apply Z.mul_pos_pos; lia|]. rewrite digits_mul_pow2; lia.
Qed.

(** A quotient, to 53 digits or 54, before it is rounded. *)
Lemma div_round m1 e1 m2 e2 s : s = 53 + digits (Zpos m2) - digits (Zpos m1) -> 0 < s ->
  -1021 <= digits (Zpos m1) + e1 - (digits (Zpos m2) + e2) ->
  SFdiv 53 1024 (S754_finite false m1 e1) (S754_finite false m2 e2) =
  binary_round_aux 53 1024 false (Zpos m1 * 2 ^ s / Zpos m2) (e1 - e2 - s) (new_location (Zpos m2) (Zpos m1 * 2 ^ s mod Zpos m2)).
Proof.
  intros -> Hs He. cbn [SFdiv xorb]. unfold SFdiv_core_binary. rewrite !Zdigits2_digits by lia.
  set (s := 53 + digits (Zpos m2) - digits (Zpos m1)) in *. rewrite fexp_normal by lia.
  rewrite Z.min_l by lia. replace (e1 - e2 - (digits (Zpos m1) + e1 - (digits (Zpos m2) + e2) - 53)) with s by lia.
  replace (digits (Zpos m1) + e1 - (digits (Zpos m2) + e2) - 53) with (e1 - e2 - s) by lia.
  assert (match s with 0 => Zpos m1 | Zpos _ => Z.shiftl (Zpos m1) s | Zneg _ => 0 end = Zpos m1 * 2 ^ s) as ->.
  { destruct s; try lia. by rewrite Z.shiftl_mul_pow2. }
  unfold Z.div, Z.modulo. by destruct (Z.div_eucl _ _).
Qed.

Lemma new_location_0 n : new_location n 0 = loc_Exact.
Proof. unfold new_location, new_location_even, new_location_odd. by destruct (Z.even n). Qed.

Lemma double_ratio_int n : 0 < n -> n < 2 ^ 53 -> double_ratio n 1 = int_double n.
Proof.
  intros Hn Hmax. pose proof (digits_le n 53 Hn Hmax). pose proof (digits_pos n Hn). destruct n as [|n|n]; try lia.
  unfold double_ratio. rewrite (div_round _ _ _ _ (54 - digits (Zpos n))); change (digits 1) with 1; try lia.
  rewrite Z.div_1_r, Z.mod_1_r, new_location_0. destruct (normalized (Zpos n)) as [Hp Hd]; [done..|].
  replace (Zpos n * 2 ^ (54 - digits (Zpos n))) with (Zpos n * 2 ^ (53 - digits (Zpos n)) * 2 ^ 1)
    by (rewrite <- Z.mul_assoc, <- Z.pow_add_r by lia; do 2 f_equal; lia).
  rewrite round_exact by lia. unfold int_double. f_equal. lia.
Qed.

Lemma mul_int a b : 0 < a -> 0 < b -> a * b < 2 ^ 53 -> double_mul (int_double a) (int_double b) = int_double (a * b).
Proof.
  intros Ha Hb Hab. assert (0 < a * b) as Hp by lia. assert (a < 2 ^ 53 /\ b < 2 ^ 53) as [Ha' Hb'] by nia.
  pose proof (digits_le _ _ Ha Ha'). pose proof (digits_le _ _ Hb Hb'). pose proof (digits_le _ _ Hp Hab).
  pose proof (digits_pos _ Ha). pose proof (digits_pos _ Hb). pose proof (digits_pos _ Hp).
  destruct (normalized a) as [Ha1 _], (normalized b) as [Hb1 _], (normalized (a * b)) as [Hp1 Hp2]; try done.
  unfold double_mul, int_double. cbn [SFmul xorb]. rewrite Pos2Z.inj_mul, !Z2Pos.id by done.
  set (k := 53 + digits (a * b) - digits a - digits b).
  assert (0 <= k) as Hk.
  { assert (2 ^ (digits a - 1 + (digits b - 1)) <= a * b) as Hlow.
    { rewrite Z.pow_add_r by lia. pose proof (digits_spec a Ha). pose proof (digits_spec b Hb). nia. }
    assert (digits a - 1 + (digits b - 1) < digits (a * b)); [|lia].
    apply (Z.pow_lt_mono_r_iff 2); [lia..|]. pose proof (digits_spec _ Hp). lia. }
  replace (a * 2 ^ (53 - digits a) * (b * 2 ^ (53 - digits b))) with (a * b * 2 ^ (53 - digits (a * b)) * 2 ^ k).
  - rewrite round_exact by lia. f_equal. lia.
  - rewrite <- (Z.mul_assoc (a * b)), <- Z.pow_add_r by lia.
    transitivity (a * b * 2 ^ ((53 - digits a) + (53 - digits b))); [do 2 f_equal; lia|]. rewrite Z.pow_add_r by lia. lia.
Qed.

(** A quotient by a MiB only moves the exponent. *)
Lemma div_mib m e : digits (Zpos m) = 53 -> -900 <= e <= 900 ->
  double_div (S754_finite false m e) (double_ratio (1024 * 1024) 1) = S754_finite false m (e - 20).
Proof.
  intros Hd He. rewrite double_ratio_int by lia.
  change (int_double (1024 * 1024)) with (S754_finite false (2 ^ 52) (-32)).
  unfold double_div. rewrite (div_round _ _ _ _ 53); rewrite ?Hd; change (digits (Zpos (2 ^ 52))) with 53; try lia.
  change (Zpos (2 ^ 52)) with (2 ^ 52). replace (Zpos m * 2 ^ 53) with (Zpos m * 2 ^ 1 * 2 ^ 52) by lia.
  rewrite Z.div_mul, Z.mod_mul, new_location_0 by lia. rewrite round_exact by lia. f_equal. lia.
Qed.

(** ** Division by 100 *)

Lemma shr_fexp_short m l e : 0 < m -> digits m <= 53 -> digits m = 53 \/ e = 0 -> -900 <= e ->
  digits m = 53 -> shr_fexp 53 1024 m e l = (shr_record_of_loc m l, e).
Proof.
  intros Hm _ _ He Hd. unfold shr_fexp. rewrite Zdigits2_digits, Hd, fexp_normal by lia.
  replace (53 + e - 53 - e) with 0 by lia. done.
Qed.

(** The last step: a mantissa of 53 digits, or [2 ^ 53]. *)
Lemma round_last m e : 2 ^ 52 <= m <= 2 ^ 53 -> -900 <= e <= 900 ->
  exists m' e', (let '(mrs, e'') := shr_fexp 53 1024 m e loc_Exact in
     match shr_m mrs with
     | Z0 => S754_zero false
     | Zpos m => if e'' <=? 1024 - 53 then S754_finite false m e'' else S754_infinity false
     | _ => S754_nan
     end) = S754_finite false m' e' /\ digits (Zpos m') = 53 /\
    ((Zpos m' = m /\ e' = e) \/ (Zpos m' * 2 = m /\ e' = e + 1)).
Proof.
  intros Hm He. destruct (decide (m = 2 ^ 53)) as [->|Hne].
  - exists (2 ^ 52)%positive, (e + 1). replace (2 ^ 53) with (2 ^ 52 * 2 ^ 1) by done.
    rewrite shr_fexp_exact by first [done|lia]. cbn [shr_m exact]. change (2 ^ 52) with (Zpos (2 ^ 52)).
    cbv iota. replace (e + 1 <=? 1024 - 53) with true by (symmetry; apply Z.leb_le; lia). split; [done|]. split; [done|]. by right.
  - assert (digits m = 53) as Hd by (apply digits_unique; lia). destruct m as [|m|m]; try lia.
    exists m, e. replace (Zpos m) with (Zpos m * 2 ^ 0) at 1 by lia. rewrite shr_fexp_exact by lia. cbn [shr_m exact].
    rewrite Z.add_0_r. replace (e <=? 1024 - 53) with true by (symmetry; apply Z.leb_le; lia). split; [done|]. split; [done|]. by left.
Qed.

(** What a quotient of 53 digits rounds to: itself, or the next one. *)
Lemma round_53 q e l : digits q = 53 -> 0 < q -> -900 <= e <= 900 ->
  exists m' e' m, binary_round_aux 53 1024 false q e l = S754_finite false m' e' /\ digits (Zpos m') = 53 /\
    q <= m <= q + 1 /\ ((Zpos m' = m /\ e' = e) \/ (Zpos m' * 2 = m /\ e' = e + 1)).
Proof.
  intros Hd Hq He. unfold binary_round_aux. rewrite shr_fexp_short by lia.
  set (m := round_nearest_even _ _).
  assert (q <= m <= q + 1) as Hm.
  { unfold m. destruct l as [|[]]; simpl; try destruct (Z.even q); lia. }
  pose proof (digits_spec q Hq) as Hs. rewrite Hd in Hs.
  destruct (round_last m e) as (m' & e' & E & ? & ?); [lia..|]. exists m', e', m. by rewrite E.
Qed.

(** What a quotient of 54 digits rounds to: its half, or the next one when it is
    odd. *)
Lemma round_54 q e l : digits q = 54 -> 0 < q -> -900 <= e <= 899 ->
  exists m' e' m, binary_round_aux 53 1024 false q e l = S754_finite false m' e' /\ digits (Zpos m') = 53 /\
    (m = q / 2 \/ (m = q / 2 + 1 /\ Z.odd q = true)) /\
    ((Zpos m' = m /\ e' = e + 1) \/ (Zpos m' * 2 = m /\ e' = e + 2)).
Proof.
  intros Hd Hq He. unfold binary_round_aux, shr_fexp. rewrite Zdigits2_digits, Hd, fexp_normal by lia.
  replace (54 + e - 53 - e) with 1 by lia. cbn [shr SpecFloat.iter_pos].
  set (m := round_nearest_even _ _).
  assert (m = q / 2 \/ (m = q / 2 + 1 /\ Z.odd q = true)) as Hm.
  { unfold m. destruct q as [|q|q]; try lia. rewrite <- Z.div2_div.
    destruct l as [|[]], q as [q|q|]; simpl; try destruct q; simpl; auto. }
  pose proof (digits_spec q Hq) as Hs. rewrite Hd in Hs.
  assert (2 ^ 52 <= q / 2 < 2 ^ 53) as Hh by (split; [apply Z.div_le_lower_bound; lia|apply Z.div_lt_upper_bound; lia]).
  destruct (round_last m (e + 1)) as (m' & e' & E & ? & H); [lia..|]. exists m', e', m.
  split; [exact E|]. split; [done|]. split; [done|]. destruct H as [H|H]; [by left|right]. lia.
Qed.

(** The floor of a mantissa at [2 ^ - j], normalized or not. *)
Lemma floor_at k m m' e' j : 1 < j -> k * 2 ^ j <= m < (k + 1) * 2 ^ j ->
  (Zpos m' = m /\ e' = - j) \/ (Zpos m' * 2 = m /\ e' = - j + 1) ->
  double_floor (S754_finite false m' e') = Fin k.
Proof.
  intros Hj Hm H. unfold double_floor.
  destruct (Z.leb_spec 0 e'); [lia|]. f_equal. destruct H as [[Hm' ->]|[Hm' ->]].
  - rewrite Z.opp_involutive. symmetry; apply Z.div_unique_pos with (Zpos m' - k * 2 ^ j); lia.
  - replace (- (- j + 1)) with (j - 1) by lia. assert (2 ^ j = 2 * 2 ^ (j - 1)) as E.
    { rewrite <- Z.pow_succ_r by lia. f_equal. lia. }
    rewrite E in Hm. symmetry; apply Z.div_unique_pos with (Zpos m' - k * 2 ^ (j - 1)); lia.
Qed.

Section Percent.
Context (n : Z) (Hn : 0 < n) (Hmax : n < 2 ^ 53).

Let f : Z := 60 - digits n.
Let q : Z := n * 2 ^ f / 100.
Let k : Z := n / (100 * 1024 ^ 2).

Lemma percent_shift : 7 <= f <= 59.
Proof. unfold f. pose proof (digits_le n 53 Hn Hmax). pose proof (digits_pos n Hn). lia. Qed.

Lemma percent_quotient :
  double_div (int_double n) (double_ratio 100 1) =
  binary_round_aux 53 1024 false q (- f) (new_location (100 * 2 ^ 46) (n * 2 ^ (53 - digits n) * 2 ^ 53 mod (100 * 2 ^ 46))).
Proof.
  pose proof percent_shift. destruct (normalized n Hn Hmax) as [Hp Hd].
  rewrite (double_ratio_int 100) by lia. change (int_double 100) with (S754_finite false (100 * 2 ^ 46) (-46)).
  unfold double_div, int_double. rewrite (div_round _ _ _ _ 53); rewrite ?Z2Pos.id, ?Hd by done;
    change (digits (Zpos (100 * 2 ^ 46))) with 53; [|unfold f in *; lia..].
  change (Zpos (100 * 2 ^ 46)) with (100 * 2 ^ 46). f_equal; [|unfold f; lia].
  replace (n * 2 ^ (53 - digits n) * 2 ^ 53) with (n * 2 ^ f * 2 ^ 46).
  - rewrite Z.div_mul_cancel_r; [done|lia|lia].
  - rewrite <- !Z.mul_assoc, <- !Z.pow_add_r by (unfold f in *; lia). do 2 f_equal. unfold f. lia.
Qed.

Lemma percent_bounds : k * 2 ^ (f + 20) <= q /\ q + 2 <= (k + 1) * 2 ^ (f + 20).
Proof.
  pose proof percent_shift as Hf. assert (2 ^ 7 <= 2 ^ f) as H7 by (apply Z.pow_le_mono_r; lia).
  assert (2 ^ (f + 20) = 2 ^ f * 1024 ^ 2) as E by (by rewrite Z.pow_add_r by lia).
  assert (k * (100 * 1024 ^ 2) <= n < (k + 1) * (100 * 1024 ^ 2)) as [Hlo Hhi].
  { unfold k. pose proof (Z.div_mod n (100 * 1024 ^ 2)) as Hdm. pose proof (Z.mod_pos_bound n (100 * 1024 ^ 2)). lia. }
  rewrite E. unfold q. split.
  - apply Z.div_le_lower_bound; [lia|]. nia.
  - assert (n * 2 ^ f / 100 < (k + 1) * (2 ^ f * 1024 ^ 2) - 1); [|lia].
    apply Z.div_lt_upper_bound; [lia|].
    assert (n * 2 ^ f <= ((k + 1) * (100 * 1024 ^ 2) - 1) * 2 ^ f) by (apply Z.mul_le_mono_nonneg_r; lia). lia.
Qed.

Lemma percent_digits : digits q = 53 \/ digits q = 54.
Proof.
  pose proof percent_shift as Hf. pose proof (digits_spec n Hn) as [Hlo Hhi].
  assert (2 ^ 59 <= n * 2 ^ f < 2 ^ 60) as [H1 H2].
  { assert (2 ^ 59 = 2 ^ (digits n - 1) * 2 ^ f) as -> by (rewrite <- Z.pow_add_r by (unfold f in *; lia); f_equal; unfold f; lia).
    assert (2 ^ 60 = 2 ^ digits n * 2 ^ f) as -> by (rewrite <- Z.pow_add_r by (unfold f in *; lia); f_equal; unfold f; lia).
    pose proof (Z.pow_pos_nonneg 2 f). nia. }
  assert (2 ^ 52 <= q) by (apply Z.div_le_lower_bound; lia).
  assert (q < 2 ^ 54) by (apply Z.div_lt_upper_bound; lia).
  destruct (Z.lt_ge_cases q (2 ^ 53)); [left|right]; apply digits_unique; lia.
Qed.

(** [Math.floor(n / 100 / 2 ** 20)] *)
Lemma percent_floor :
  double_floor (double_div (double_div (int_double n) (double_ratio 100 1)) (double_ratio (1024 * 1024) 1)) = Fin k.
Proof.
  pose proof percent_shift as Hf. destruct percent_bounds as [Hlo Hhi]. rewrite percent_quotient.
  generalize (new_location (100 * 2 ^ 46) (n * 2 ^ (53 - digits n) * 2 ^ 53 mod (100 * 2 ^ 46))) as l. intros l.
  assert (0 < q) as Hq.
  { assert (digits q = 53 \/ digits q = 54) as H by apply percent_digits. unfold digits in H.
    destruct (Z.lt_ge_cases 0 q); [done|]. rewrite Z.log2_nonpos in H by lia. lia. }
  destruct percent_digits as [Hd|Hd].
  - destruct (round_53 q (- f) l Hd Hq) as (m' & e' & m & -> & Hd' & Hm & H); [lia|].
    rewrite div_mib by (try done; lia). apply (floor_at k m m' _ (f + 20)); lia.
  - destruct (round_54 q (- f) l Hd Hq) as (m' & e' & m & -> & Hd' & Hm & H); [lia|].
    rewrite div_mib by (try done; lia). apply (floor_at k m m' _ (f + 19)); [lia| |lia].
    assert (2 ^ (f + 20) = 2 * 2 ^ (f + 19)) as E by (rewrite <- Z.pow_succ_r by lia; f_equal; lia).
    rewrite E in Hlo, Hhi. pose proof (Z.div_mod q 2). pose proof (Z.mod_pos_bound q 2).
    rewrite Zodd_mod in Hm. destruct Hm as [->|[-> Ho%Zeq_bool_eq]]; lia.
Qed.
End Percent.

Lemma percent_exact p n : 0 < p -> 0 < n -> p * n < 2 ^ 53 ->
  double_floor (double_div (double_div (double_mul (double_ratio p 1) (double_ratio n 1)) (double_ratio 100 1))
    (double_ratio (1024 * 1024) 1)) = Fin (p * n / (100 * 1024 ^ 2)).
Proof.
  intros Hp Hn Hmax. rewrite !(double_ratio_int p), (double_ratio_int n) by nia. rewrite mul_int by done.
  apply percent_floor; lia.
Qed.
