(* ===== verification/RuntimePolicy.v ===== *)
(** The policy of an agent's container: validation, layers, and the arguments
    the container is run with,
    [src/cli/sandbox/docker/containerRuntimePolicy.js]. *)

From stdpp Require Import prelude.
From Stdlib Require Import NArith.
From S2P Require Import Prelude.
From S2P Require Import JsString.
From S2P Require Import JsNumber.
From S2P Require Import JsDouble.
From S2P Require Import JsMap.
From S2P Require Import JsValue.
From S2P Require Import HttpRouteCompiler.
From S2P Require Import NetworkContract.
From S2P Require Import ManifestContract.
From S2P Require Import CanonicalHash.
From S2P Require Import CpuQuota.

Local Open Scope js_scope.

Definition ALLOWED_PLATFORMS : list jstr := ["linux/amd64"; "linux/arm64"].
Definition ALLOWED_DEVICE_TYPES : list jstr := ["cdi"; "hostDevice"].
Definition ALLOWED_HOST_DEVICE_PREFIXES : list jstr := ["/dev/kfd"; "/dev/dri"; "/dev/accel"].
Definition ALLOWED_SECURITY_OPT : list jstr := ["label=disable"].
Definition ALLOWED_IPC : list jstr := ["default"; "private"; "host"].
Definition MAX_PIDS_LIMIT : Z := 1048576.
Definition MIN_SHM_BYTES : Z := 1024 ^ 2.
Definition MAX_SHM_BYTES : Z := 16 * 1024 ^ 3.

(** A refused policy, by the code of the error, or what the language throws. *)
Inductive policy_error : Type :=
  | PolicyInvalid (* PLOINKY_LLM_RUNTIME_POLICY_INVALID *)
  | DeclarationInvalid (* PLOINKY_HARDWARE_LIMITS_DECLARATION_INVALID *)
  | PolicyThrown (e : js_error).

Notation policyR := (result policy_error).

(** [if (!b) throw new RuntimePolicyError(...)] *)
Definition ensure (b : bool) : policyR unit := if b then Ok tt else Err PolicyInvalid.

Definition policy_js {A} (r : result js_error A) : policyR A :=
  match r with
  | Ok a => Ok a
  | Err e => Err (PolicyThrown e)
  end.

(** ** Sizes *)

Definition unit_bytes (u : N) : option Z :=
  if (u =? 98)%N || (u =? 66)%N then Some 1%Z
  else if (u =? 107)%N || (u =? 75)%N then Some 1024%Z
  else if (u =? 109)%N || (u =? 77)%N then Some (1024 ^ 2)%Z
  else if (u =? 103)%N || (u =? 71)%N then Some (1024 ^ 3)%Z
  else if (u =? 116)%N || (u =? 84)%N then Some (1024 ^ 4)%Z
  else None.

(** [/^([0-9]+)([bkmgt]?)$/i] and the bytes it denotes.  The product is exact:
    rounding does not reach the range in which it is compared. *)
Definition sizeBytes (s : jstr) : option Z :=
  let ds := take_digits s in
  match ds, drop (length ds) s with
  | [], _ => None
  | _, [] => Some (decimal_value ds)
  | _, [u] => (fun f => decimal_value ds * f)%Z <$> unit_bytes u
  | _, _ => None
  end.

Definition SIZE_RE (s : jstr) : bool :=
  match sizeBytes s with
  | Some _ => true
  | None => false
  end.

Definition in_range (lo hi : Z) (z : option Z) : bool :=
  match z with
  | Some z => (lo <=? z)%Z && (z <=? hi)%Z
  | None => false
  end.

(** ** Checks *)

Definition ensurePlainObject (value : js) : policyR unit := ensure (is_plain value).

Definition own_keys (value : js) : list jstr := (spread value).*1.

Definition rejectUnknownKeys (value : js) (allowed : list jstr) : policyR unit :=
  if is_truthy_object value then ensure (forallb (fun k => one_of k allowed) (own_keys value)) else Ok tt.

Definition rejectRawArgs (value : js) : policyR unit :=
  if is_truthy_object value then ensure (negb (has_own "rawArgs" value) && negb (has_own "privileged" value))
  else Ok tt.

Definition rejectHostMountFields (value : js) : policyR unit :=
  if is_truthy_object value
  then ensure (forallb (fun banned => negb (has_own banned value)) ["volumes"; "mounts"; "binds"; "hostMounts"])
  else Ok tt.

(** [v === undefined] *)
Definition is_undefined (v : js) : bool :=
  match v with
  | Undefined => true
  | _ => false
  end.

Definition check_memory (v : js) : policyR unit :=
  if is_undefined v then Ok tt
  else
    s ← policy_js (to_string v);
    _ ← ensure (SIZE_RE s);
    ensure (in_range 1 max_safe_integer (sizeBytes s)).

Definition check_cpus (v : js) : policyR unit :=
  if is_undefined v then Ok tt
  else
    s ← policy_js (to_string v);
    match DECIMAL s with
    | None => Err PolicyInvalid
    | Some (w, f) =>
        let cpus := double_of_decimal w f in
        let quota := double_floor (double_mul cpus (double_ratio 100000 1)) in
        ensure (double_finite cpus && is_safe_integer quota && jle (Fin 1) quota)
    end.

Definition check_shm (v : js) : policyR unit :=
  if is_undefined v then Ok tt
  else
    s ← policy_js (to_string v);
    ensure (SIZE_RE s && in_range MIN_SHM_BYTES MAX_SHM_BYTES (sizeBytes s)).

Definition check_integer (lo : Z) (hi : option Z) (v : js) : policyR unit :=
  match v with
  | Num (Fin z) => ensure ((lo <=? z)%Z && match hi with Some h => (z <=? h)%Z | None => true end)
  | _ => Err PolicyInvalid
  end.

Definition check_pids (v : js) : policyR unit :=
  if is_undefined v then Ok tt else check_integer 1 (Some MAX_PIDS_LIMIT) v.

Definition check_ulimits (v : js) : policyR unit :=
  if is_undefined v then Ok tt
  else
    _ ← ensurePlainObject v;
    _ ← rejectUnknownKeys v ["memlock"];
    let memlock := prop "memlock" v in
    if is_undefined memlock then Ok tt
    else
      _ ← ensurePlainObject memlock;
      _ ← rejectUnknownKeys memlock ["soft"; "hard"];
      _ ← check_integer (-1) None (prop "soft" memlock);
      check_integer (-1) None (prop "hard" memlock).

Definition validateResources (resources : js) : policyR (option js) :=
  if is_undefined resources then Ok None
  else
    _ ← ensurePlainObject resources;
    _ ← rejectUnknownKeys resources ["memory"; "cpus"; "pidsLimit"; "shmSize"; "ulimits"];
    _ ← check_memory (prop "memory" resources);
    _ ← check_cpus (prop "cpus" resources);
    _ ← check_shm (prop "shmSize" resources);
    _ ← check_pids (prop "pidsLimit" resources);
    _ ← check_ulimits (prop "ulimits" resources);
    Ok (Some resources).

Definition HARDWARE_LIMIT_KEYS : list jstr := ["memory"; "cpus"; "pidsLimit"].

(** The declaration of an agent: its refusals have a code of their own. *)
Definition validateHardwareLimitsShape (value : js) : policyR (option js) :=
  if is_undefined value then Ok None
  else
    match
      (_ ← ensurePlainObject value;
       _ ← ensure (forallb (fun k => one_of k HARDWARE_LIMIT_KEYS) (own_keys value));
       validateResources value)
    with
    | Err PolicyInvalid => Err DeclarationInvalid
    | r => r
    end.

(** ** Devices *)

Record policy_options : Type := PolicyOptions {
  po_runtime : jstr;
  allowDockerCdi : bool;
  allowPodmanGpusFlag : bool
}.

Definition is_list_unit (c : N) : bool := is_alnum c || one_of [c] ["."; "_"; ","; "-"].
Definition is_id_unit (c : N) : bool := is_alnum c || one_of [c] ["."; "_"; "/"; "-"].

(** [/^[A-Za-z0-9._/-]+=([A-Za-z0-9._,-]+|all)$/] *)
Definition ALLOWED_CDI_RE (s : jstr) : bool :=
  match index_of 61 s with
  | Some i =>
      let a := take i s in
      let b := drop (S i) s in
      truthy a && forallb is_id_unit a && truthy b && forallb is_list_unit b
  | None => false
  end.

(** [/^all$|^device=[A-Za-z0-9._,-]+$/] *)
Definition ALLOWED_GPUS_RE (s : jstr) : bool :=
  jeqb s "all" ||
  (starts_with s "device=" && truthy (drop 7 s) && forallb is_list_unit (drop 7 s)).

Definition host_device_allowed (hostPath : jstr) : bool :=
  existsb (fun prefix => jeqb hostPath prefix || starts_with hostPath (prefix ++ "/"))
    ALLOWED_HOST_DEVICE_PREFIXES.

Definition validate_device (o : policy_options) (device : js) : policyR js :=
  _ ← ensurePlainObject device;
  _ ← rejectUnknownKeys device ["type"; "value"; "hostPath"];
  let type := prop "type" device in
  if is_str type "cdi" then
    match prop "value" device with
    | Str v =>
        _ ← ensure (ALLOWED_CDI_RE v);
        _ ← ensure (negb (jeqb (po_runtime o) "docker") || allowDockerCdi o);
        Ok device
    | _ => Err PolicyInvalid
    end
  else if is_str type "hostDevice" then
    hostPath ← policy_js (to_string (js_or (prop "hostPath" device) (Str [])));
    _ ← ensure (starts_with hostPath "/dev/");
    _ ← ensure (host_device_allowed hostPath);
    Ok device
  else Err PolicyInvalid.

Definition validateDevices (devices : js) (o : policy_options) : policyR (list js) :=
  match devices with
  | Undefined => Ok []
  | Arr l => mapM_result (validate_device o) l
  | _ => Err PolicyInvalid
  end.

Definition validateSecurityOpt (securityOpt : js) : policyR (list jstr) :=
  match securityOpt with
  | Undefined => Ok []
  | Arr l =>
      opts ← mapM_result (fun entry =>
               match entry with
               | Str s => _ ← ensure (one_of s ALLOWED_SECURITY_OPT); Ok s
               | _ => Err PolicyInvalid
               end) l;
      Ok (fold_left (fun acc s => set_add s acc) opts [])
  | _ => Err PolicyInvalid
  end.

Definition validateGpus (gpus : js) (o : policy_options) : policyR (option jstr) :=
  match gpus with
  | Undefined => Ok None
  | Str s =>
      _ ← ensure (ALLOWED_GPUS_RE s);
      _ ← ensure (negb (jeqb (po_runtime o) "podman") || allowPodmanGpusFlag o);
      Ok (Some s)
  | _ => Err PolicyInvalid
  end.

(** [set.has(v)] for an optional text: undefined is not looked up. *)
Definition optional_text (v : js) (allowed : list jstr) : policyR (option jstr) :=
  match v with
  | Undefined => Ok None
  | Str s => _ ← ensure (one_of s allowed); Ok (Some s)
  | _ => Err PolicyInvalid
  end.

(** A property that is set only when it has a value. *)
Definition field (k : jstr) (v : option js) : list (jstr * js) :=
  match v with
  | Some v => [(k, v)]
  | None => []
  end.

Definition non_empty (l : list js) : option js :=
  match l with
  | [] => None
  | _ => Some (Arr l)
  end.

(** [None] is [null]. *)
Definition validatePolicyShape (policy : js) (o : policy_options) : policyR (option js) :=
  match policy with
  | Undefined | Null => Ok None
  | _ =>
      _ ← ensurePlainObject policy;
      _ ← rejectRawArgs policy;
      _ ← rejectHostMountFields policy;
      _ ← rejectUnknownKeys policy ["platform"; "resources"; "devices"; "securityOpt"; "ipc"; "gpus"];
      platform ← optional_text (prop "platform" policy) ALLOWED_PLATFORMS;
      resources ← validateResources (prop "resources" policy);
      devices ← validateDevices (prop "devices" policy) o;
      secOpt ← validateSecurityOpt (prop "securityOpt" policy);
      ipc ← optional_text (prop "ipc" policy) ALLOWED_IPC;
      _ ← ensure (negb (match ipc with Some i => jeqb i "host" | None => false end &&
                        negb (is_undefined (optional "shmSize" (default Undefined resources)))));
      gpus ← validateGpus (prop "gpus" policy) o;
      Ok (Some (Obj (field "platform" (Str <$> platform) ++ field "resources" resources ++
        field "devices" (non_empty devices) ++ field "securityOpt" (non_empty (Str <$> secOpt)) ++
        field "ipc" (Str <$> ipc) ++ field "gpus" (Str <$> gpus))))
  end.

(** ** Layers *)

Definition policyDefaults : js := Obj [("ipc", Str "default")].

(** [out.k = v] *)
Definition set_prop (k : jstr) (v : js) (out : list (jstr * js)) : list (jstr * js) := map_set k v out.

Definition slice_or (v : js) (old : js) : js :=
  match v with
  | Arr _ => v
  | _ => js_or old (Arr [])
  end.

Definition merge_field (overlay : js) (out : list (jstr * js)) (key : jstr) : list (jstr * js) :=
  let value := prop key overlay in
  let old := prop key (Obj out) in
  if is_undefined value then out
  else if jeqb key "resources" then
    let resources := merge_props (spread (js_or old (Obj []))) (spread value) in
    let ulimits := optional "ulimits" value in
    set_prop "resources"
      (Obj (if js_truthy ulimits
            then set_prop "ulimits"
                   (Obj (merge_props (spread (js_or (prop "ulimits" (Obj resources)) (Obj []))) (spread ulimits)))
                   resources
            else resources)) out
  else if jeqb key "devices" || jeqb key "securityOpt" then set_prop key (slice_or value old) out
  else set_prop key value out.

Definition mergePolicy (base overlay : js) : js :=
  if negb (js_truthy overlay) then Obj (if js_truthy base then spread base else [])
  else Obj (fold_left (merge_field overlay) (own_keys overlay) (spread (js_or base (Obj [])))).

(** The policies of the layers, [undefined] where there is none. *)
Record policy_sources : Type := PolicySources {
  manifestPolicy : js;
  catalogPolicy : js;
  profilePolicy : js;
  overridePolicy : js
}.

Definition source_layers (s : policy_sources) : list js :=
  [manifestPolicy s; catalogPolicy s; profilePolicy s; overridePolicy s].

Definition merge_layer (merged : js) (layer : option js) : js :=
  match layer with
  | Some l => mergePolicy merged l
  | None => merged
  end.

Definition buildEffectivePolicy (s : policy_sources) (o : policy_options) : policyR js :=
  layers ← mapM_result (fun p => validatePolicyShape (js_or p Null) o) (source_layers s);
  let merged := fold_left merge_layer (Some policyDefaults :: layers) (Obj []) in
  effective ← validatePolicyShape merged o;
  Ok (default (Obj []) effective).

(** ** Arguments

    The list holds what is pushed on it: texts, and for some flags the
    property as it is. *)

Definition option_text (flag : jstr) (v : js) : policyR (list js) :=
  if js_truthy v then s ← policy_js (to_string v); Ok [Str flag; Str s] else Ok [].

Definition option_raw (flag : jstr) (v : js) : list js := if js_truthy v then [Str flag; v] else [].

Definition ulimitArgValue (memlock : js) : policyR jstr :=
  soft ← policy_js (to_string (prop "soft" memlock));
  hard ← policy_js (to_string (prop "hard" memlock));
  Ok ("memlock=" ++ soft ++ ":" ++ hard).

Definition ulimit_args (memlock : js) : policyR (list js) :=
  if js_truthy memlock then v ← ulimitArgValue memlock; Ok [Str "--ulimit"; Str v] else Ok [].

Definition device_args (dev : js) : list js :=
  if is_str (prop "type" dev) "cdi" then [Str "--device"; prop "value" dev]
  else if is_str (prop "type" dev) "hostDevice" then [Str "--device"; prop "hostPath" dev]
  else [].

Definition array_items (v : js) : list js :=
  match v with
  | Arr l => l
  | _ => []
  end.

Definition ipc_args (policy : js) : list js :=
  [Str "--ipc"; Str (if is_str (prop "ipc" policy) "host" then "host" else "private")].

Definition emitRunArgs (policy : js) (runtime : jstr) : policyR (list js) :=
  if negb (js_truthy policy) then Ok []
  else
    _ ← ensure (jeqb runtime "docker" || jeqb runtime "podman");
    let res := js_or (prop "resources" policy) (Obj []) in
    memory ← option_text "--memory" (prop "memory" res);
    cpus ← option_text "--cpus" (prop "cpus" res);
    pids ← option_text "--pids-limit" (prop "pidsLimit" res);
    shm ← option_text "--shm-size" (prop "shmSize" res);
    ulimit ← ulimit_args (optional "memlock" (prop "ulimits" res));
    Ok (option_raw "--platform" (prop "platform" policy) ++
        memory ++ cpus ++ pids ++ shm ++ ulimit ++
        concat (device_args <$> array_items (prop "devices" policy)) ++
        concat ((fun opt => [Str "--security-opt"; opt]) <$> array_items (prop "securityOpt" policy)) ++
        ipc_args policy ++
        (if jeqb runtime "docker" then option_raw "--gpus" (prop "gpus" policy) else [])).

(** The hash of a policy: empty for what is no object. *)
Definition computeRuntimePolicyHash `{Sha256} (policy : js) : jstr :=
  if is_truthy_object policy then hex64 policy else [].
