(* ===== verification/RuntimePolicyTheorems.v ===== *)
(** What an effective policy lets a container be run with. *)

From stdpp Require Import prelude.
From Stdlib Require Import NArith.
From S2P Require Import Prelude.
From S2P Require Import JsString.
From S2P Require Import JsNumber.
From S2P Require Import JsDouble.
From S2P Require Import JsMap.
From S2P Require Import JsValue.
From S2P Require Import HttpRouteCompiler.
From S2P Require Import ManifestContract.
From S2P Require Import CpuQuota.
From S2P Require Import RuntimePolicy.

Local Open Scope js_scope.

Lemma ensure_Ok b u : ensure b = Ok u <-> b = true.
Proof. destruct u, b; by split. Qed.

Ltac unbind_policy :=
  repeat match goal with
  | H : mbind _ _ = Ok _ |- _ => apply result_bind_Ok in H as (? & ? & H)
  | H : ensure _ = Ok _ |- _ => rewrite ensure_Ok in H
  | H : policy_js ?r = Ok _ |- _ =>
      destruct r eqn:?; simpl in H; [injection H as H; subst|discriminate H]
  | H : Ok _ = Ok _ |- _ => injection H as H; subst
  | H : Err _ = Ok _ |- _ => discriminate H
  end.

(** ** Valid resources *)

(** A property that is absent, or satisfies [P]. *)
Definition absent_or (P : js -> Prop) (v : js) : Prop := v = Undefined \/ P v.

Definition memory_value (v : js) : Prop :=
  exists s z, to_string v = Ok s /\ sizeBytes s = Some z /\ (1 <= z <= max_safe_integer)%Z.

Definition cpus_value (v : js) : Prop :=
  exists s w f, to_string v = Ok s /\ DECIMAL s = Some (w, f) /\
    let quota := double_floor (double_mul (double_of_decimal w f) (double_ratio 100000 1)) in
    is_safe_integer quota = true /\ jle (Fin 1) quota = true.

Definition shm_value (v : js) : Prop :=
  exists s z, to_string v = Ok s /\ sizeBytes s = Some z /\ (MIN_SHM_BYTES <= z <= MAX_SHM_BYTES)%Z.

Definition pids_value (v : js) : Prop := exists z, v = Num (Fin z) /\ (1 <= z <= MAX_PIDS_LIMIT)%Z.

Definition memlock_value (v : js) : Prop :=
  exists soft hard, prop "soft" v = Num (Fin soft) /\ prop "hard" v = Num (Fin hard) /\
    (-1 <= soft)%Z /\ (-1 <= hard)%Z.

Record resources_valid (r : js) : Prop := ResourcesValid {
  rv_plain : is_plain r = true;
  rv_memory : absent_or memory_value (prop "memory" r);
  rv_cpus : absent_or cpus_value (prop "cpus" r);
  rv_shm : absent_or shm_value (prop "shmSize" r);
  rv_pids : absent_or pids_value (prop "pidsLimit" r);
  rv_ulimits : absent_or (fun u => is_plain u = true /\ absent_or memlock_value (prop "memlock" u)) (prop "ulimits" r)
}.

Lemma is_undefined_false v : is_undefined v = false <-> v <> Undefined.
Proof. by destruct v. Qed.

Lemma in_range_Some lo hi z : in_range lo hi z = true -> exists x, z = Some x /\ (lo <= x <= hi)%Z.
Proof.
  destruct z as [x|]; [|done]. simpl. intros [H1%Z.leb_le H2%Z.leb_le]%andb_true_iff. by exists x.
Qed.

Lemma check_memory_Ok v u : check_memory v = Ok u -> absent_or memory_value v.
Proof.
  unfold check_memory. destruct (is_undefined v) eqn:Hv; [by left; destruct v|]. intros H. right. unbind_policy.
  match goal with H : in_range _ _ _ = true |- _ => apply in_range_Some in H as (z & ? & ?) end.
  by exists x, z.
Qed.

Lemma check_shm_Ok v u : check_shm v = Ok u -> absent_or shm_value v.
Proof.
  unfold check_shm. destruct (is_undefined v) eqn:Hv; [by left; destruct v|]. intros H. right. unbind_policy.
  apply andb_true_iff in H as [_ H]. apply in_range_Some in H as (z & ? & ?). by exists x, z.
Qed.

Lemma check_cpus_Ok v u : check_cpus v = Ok u -> absent_or cpus_value v.
Proof.
  unfold check_cpus. destruct (is_undefined v) eqn:Hv; [by left; destruct v|]. intros H. right. unbind_policy.
  destruct (DECIMAL x) as [[w f]|] eqn:Hd; unbind_policy.
  rewrite !andb_true_iff in H. destruct H as [[_ H1] H2]. by exists x, w, f.
Qed.

Lemma check_integer_Ok lo hi v u : check_integer lo hi v = Ok u ->
  exists z, v = Num (Fin z) /\ (lo <= z)%Z /\ forall h, hi = Some h -> (z <= h)%Z.
Proof.
  destruct v as [| | |[| |z|]| | | |]; try done. simpl. rewrite ensure_Ok, andb_true_iff, Z.leb_le.
  intros [H1 H2]. exists z. split; [done|]. split; [done|]. intros h ->. by apply Z.leb_le.
Qed.

Lemma check_pids_Ok v u : check_pids v = Ok u -> absent_or pids_value v.
Proof.
  unfold check_pids. destruct (is_undefined v) eqn:Hv; [by left; destruct v|]. intros H. right.
  apply check_integer_Ok in H as (z & -> & ? & H). exists z. split; [done|]. split; [done|by apply H].
Qed.

Lemma check_ulimits_Ok v u : check_ulimits v = Ok u ->
  absent_or (fun u => is_plain u = true /\ absent_or memlock_value (prop "memlock" u)) v.
Proof.
  unfold check_ulimits. destruct (is_undefined v) eqn:Hv; [by left; destruct v|]. intros H. right.
  unfold ensurePlainObject in H. unbind_policy. split; [done|].
  destruct (is_undefined (prop "memlock" v)) eqn:Hm; [by left; destruct (prop "memlock" v)|]. right. unbind_policy.
  match goal with H1 : check_integer _ _ _ = _, H2 : check_integer _ _ _ = _ |- _ =>
    apply check_integer_Ok in H1 as (s & ? & ? & _); apply check_integer_Ok in H2 as (h & ? & ? & _) end.
  unfold memlock_value. eauto 10.
Qed.

Lemma validateResources_Ok r r' : validateResources r = Ok (Some r') -> r' = r /\ resources_valid r.
Proof.
  unfold validateResources. destruct (is_undefined r); [done|]. unfold ensurePlainObject.
  intros H. unbind_policy. split; [done|]. constructor; [done|..].
  - by eapply check_memory_Ok.
  - by eapply check_cpus_Ok.
  - by eapply check_shm_Ok.
  - by eapply check_pids_Ok.
  - by eapply check_ulimits_Ok.
Qed.

(** ** Valid policies *)

Lemma plain_optional k v : is_plain v = true -> optional k v = prop k v.
Proof. by destruct v. Qed.

(** A device that is let in: a CDI identifier, or a path under a prefix of the
    list. *)
Inductive device_valid (dev : js) : Prop :=
  | cdi_valid v : prop "type" dev = Str "cdi" -> prop "value" dev = Str v -> ALLOWED_CDI_RE v = true ->
      device_valid dev
  | host_valid path : prop "type" dev = Str "hostDevice" ->
      to_string (js_or (prop "hostPath" dev) (Str [])) = Ok path -> host_device_allowed path = true ->
      device_valid dev.

Lemma validate_device_Ok o dev dev' : validate_device o dev = Ok dev' -> dev' = dev /\ device_valid dev.
Proof.
  unfold validate_device. intros H. unbind_policy.
  destruct (is_str (prop "type" dev) "cdi") eqn:Hc.
  - apply is_str_eq in Hc. destruct (prop "value" dev) as [| | | | |v| |] eqn:Hv; try done. unbind_policy.
    split; [done|]. by apply (cdi_valid _ v).
  - destruct (is_str (prop "type" dev) "hostDevice") eqn:Hh; [|done]. apply is_str_eq in Hh. unbind_policy.
    split; [done|]. by apply (host_valid _ x1).
Qed.

Lemma mapM_result_Forall {E A B} (f : A -> result E B) (P : A -> B -> Prop) l bs :
  (forall a b, f a = Ok b -> P a b) -> mapM_result f l = Ok bs -> Forall2 P l bs.
Proof.
  intros Hf. revert bs. induction l as [|a l IH]; intros bs; simpl; [intros [= <-]; constructor|].
  intros (b & Hb & (bs' & Hbs & [= <-])%result_bind_Ok)%result_bind_Ok. constructor; auto.
Qed.

(** A normalized policy, by its parts. *)
Definition policy_of (platform : option jstr) (resources : option js) (devices : list js) (secOpt : list jstr)
    (ipc gpus : option jstr) : js :=
  Obj (field "platform" (Str <$> platform) ++ field "resources" resources ++
    field "devices" (non_empty devices) ++ field "securityOpt" (non_empty (Str <$> secOpt)) ++
    field "ipc" (Str <$> ipc) ++ field "gpus" (Str <$> gpus)).

Record shape_valid (platform : option jstr) (resources : option js) (devices : list js) (secOpt : list jstr)
    (ipc gpus : option jstr) : Prop := ShapeValid {
  sv_platform : forall s, platform = Some s -> s ∈ ALLOWED_PLATFORMS;
  sv_resources : forall r, resources = Some r -> resources_valid r;
  sv_devices : Forall device_valid devices;
  sv_security : Forall (fun s => s ∈ ALLOWED_SECURITY_OPT) secOpt;
  sv_ipc : forall s, ipc = Some s -> s ∈ ALLOWED_IPC;
  sv_gpus : forall s, gpus = Some s -> ALLOWED_GPUS_RE s = true;
  sv_shm : ipc = Some "host" -> prop "shmSize" (default Undefined resources) = Undefined
}.

Lemma optional_text_Ok v allowed r : optional_text v allowed = Ok r ->
  (v = Undefined /\ r = None) \/ exists s, v = Str s /\ r = Some s /\ s ∈ allowed.
Proof.
  destruct v; try done; simpl; intros H; unbind_policy; [by left|]. right.
  eexists. split; [done|]. split; [done|]. by apply one_of_elem.
Qed.

Lemma set_adds_elem (l acc : list jstr) x :
  x ∈ fold_left (fun acc s => set_add s acc) l acc -> x ∈ l \/ x ∈ acc.
Proof.
  revert acc. induction l as [|y l IH]; intros acc; simpl; [by right|].
  intros [Hx|Hx]%IH; [left; apply elem_of_cons; by right|].
  unfold set_add in Hx. destruct (one_of y acc); [by right|].
  apply elem_of_app in Hx as [?| ->%list_elem_of_singleton]; [by right|left; apply list_elem_of_here].
Qed.

Lemma validatePolicyShape_Ok v o p : validatePolicyShape v o = Ok (Some p) ->
  exists platform resources devices secOpt ipc gpus,
    p = policy_of platform resources devices secOpt ipc gpus /\
    shape_valid platform resources devices secOpt ipc gpus /\
    prop "resources" v = default Undefined resources /\ (resources = None \/ exists r, resources = Some r /\ is_plain r = true).
Proof.
  assert (forall p', validatePolicyShape v o = Ok (Some p') -> is_plain v = true) as Hplain.
  { intros p'. destruct v; try done; simpl; intros H; unbind_policy; done. }
  intros H. pose proof (Hplain _ H) as Hv. destruct v as [| | | | | | |l]; try done. clear Hplain Hv.
  unfold validatePolicyShape in H. cbv iota in H. unbind_policy.
  match goal with H : optional_text _ ALLOWED_PLATFORMS = Ok ?x |- _ => rename x into platform; rename H into Hpl end.
  match goal with H : validateResources _ = Ok ?x |- _ => rename x into resources; rename H into Hre end.
  match goal with H : validateDevices _ _ = Ok ?x |- _ => rename x into devices; rename H into Hde end.
  match goal with H : validateSecurityOpt _ = Ok ?x |- _ => rename x into secOpt; rename H into Hse end.
  match goal with H : optional_text _ ALLOWED_IPC = Ok ?x |- _ => rename x into ipc; rename H into Hip end.
  match goal with H : validateGpus _ _ = Ok ?x |- _ => rename x into gpus; rename H into Hgp end.
  exists platform, resources, devices, secOpt, ipc, gpus. split; [done|]. split; [constructor|].
  - intros s ->. by destruct (optional_text_Ok _ _ _ Hpl) as [[_ ?]|(? & _ & [= ->] & ?)].
  - intros r ->. apply (validateResources_Ok _ _ Hre) || (apply validateResources_Ok in Hre as [-> V]; exact V).
  - destruct (prop "devices" (Obj l)) as [| | | | | |ds|]; try done; simpl in Hde; [injection Hde as <-; constructor|].
    apply (mapM_result_Forall _ (fun a b => b = a /\ device_valid a)) in Hde; [|apply validate_device_Ok].
    clear -Hde. induction Hde as [|a b ds devices [-> Ha] _ IH]; by constructor.
  - destruct (prop "securityOpt" (Obj l)) as [| | | | | |ss|]; try done; simpl in Hse; [injection Hse as <-; constructor|].
    apply result_bind_Ok in Hse as (opts & Ho & [= <-]).
    apply (mapM_result_Forall _ (fun a s => s ∈ ALLOWED_SECURITY_OPT)) in Ho.
    + apply Forall_forall. intros s [Hs|Hs]%set_adds_elem; [|by apply not_elem_of_nil in Hs].
      clear -Hs Ho. induction Ho as [|a b ss opts Ha _ IH]; [by apply not_elem_of_nil in Hs|].
      apply elem_of_cons in Hs as [->|?]; auto.
    + intros a s Ha. destruct a; try done. unbind_policy. by apply one_of_elem.
  - intros s ->. by destruct (optional_text_Ok _ _ _ Hip) as [[_ ?]|(? & _ & [= ->] & ?)].
  - intros s ->. destruct (prop "gpus" (Obj l)); try done. simpl in Hgp. by unbind_policy.
  - intros ->. destruct resources as [r|]; [|done]. cbn [default] in *.
    match goal with H : negb (jeqb _ _ && _) = true |- _ => rename H into Hn end.
    change (negb (true && negb (is_undefined (optional "shmSize" r))) = true) in Hn.
    assert (is_undefined (optional "shmSize" r) = true) as Hr by (by destruct (is_undefined (optional "shmSize" r))).
    change (prop "shmSize" r = Undefined).
    destruct (validateResources_Ok _ _ Hre) as [-> V]. destruct V as [V _ _ _ _ _].
    rewrite (plain_optional _ _ V) in Hr. by destruct (prop "shmSize" _).
  - destruct resources as [r|].
    + destruct (validateResources_Ok _ _ Hre) as [-> V]. split; [done|]. right. exists (prop "resources" (Obj l)).
      split; [done|apply V].
    + unfold validateResources in Hre. destruct (is_undefined (prop "resources" (Obj l))) eqn:Hu.
      * split; [by destruct (prop "resources" (Obj l))|by left].
      * unbind_policy. done.
Qed.

(** ** Arguments *)

(** The arguments an effective policy can add: a flag and its value. *)
Inductive allowed_argument : jstr * js -> Prop :=
  | platform_argument s : s ∈ ALLOWED_PLATFORMS -> allowed_argument ("--platform", Str s)
  | memory_argument s z : sizeBytes s = Some z -> (1 <= z <= max_safe_integer)%Z ->
      allowed_argument ("--memory", Str s)
  | cpus_argument s w f : DECIMAL s = Some (w, f) ->
      is_safe_integer (double_floor (double_mul (double_of_decimal w f) (double_ratio 100000 1))) = true ->
      jle (Fin 1) (double_floor (double_mul (double_of_decimal w f) (double_ratio 100000 1))) = true ->
      allowed_argument ("--cpus", Str s)
  | pids_argument z : (1 <= z <= MAX_PIDS_LIMIT)%Z -> allowed_argument ("--pids-limit", Str (string_of_Z z))
  | shm_argument s z : sizeBytes s = Some z -> (MIN_SHM_BYTES <= z <= MAX_SHM_BYTES)%Z ->
      allowed_argument ("--shm-size", Str s)
  | ulimit_argument soft hard : (-1 <= soft)%Z -> (-1 <= hard)%Z ->
      allowed_argument ("--ulimit", Str ("memlock=" ++ string_of_Z soft ++ ":" ++ string_of_Z hard))
  | cdi_argument v : ALLOWED_CDI_RE v = true -> allowed_argument ("--device", Str v)
  | host_device_argument v path : to_string v = Ok path -> host_device_allowed path = true ->
      allowed_argument ("--device", v)
  | security_argument s : s ∈ ALLOWED_SECURITY_OPT -> allowed_argument ("--security-opt", Str s)
  | ipc_argument s : one_of s ["host"; "private"] = true -> allowed_argument ("--ipc", Str s)
  | gpus_argument s : ALLOWED_GPUS_RE s = true -> allowed_argument ("--gpus", Str s).

Definition flatten (ps : list (jstr * js)) : list js := concat ((fun '(f, v) => [Str f; v]) <$> ps).

Lemma flatten_app ps qs : flatten (ps ++ qs) = flatten ps ++ flatten qs.
Proof. unfold flatten. by rewrite fmap_app, concat_app. Qed.

(** A list of arguments that consists of allowed ones. *)
Definition confined (args : list js) : Prop := exists ps, args = flatten ps /\ Forall allowed_argument ps.

Lemma confined_nil : confined [].
Proof. by exists []. Qed.

Lemma confined_pair f v : allowed_argument (f, v) -> confined [Str f; v].
Proof. intros H. exists [(f, v)]. split; [done|by constructor]. Qed.

Lemma confined_app a b : confined a -> confined b -> confined (a ++ b).
Proof.
  intros (ps & -> & Hp) (qs & -> & Hq). exists (ps ++ qs). split; [by rewrite flatten_app|by apply Forall_app].
Qed.

Lemma confined_concat {A} (f : A -> list js) l : Forall (fun a => confined (f a)) l -> confined (concat (f <$> l)).
Proof. induction 1; [apply confined_nil|by apply confined_app]. Qed.

Lemma option_text_confined flag v P : absent_or P v ->
  (P v -> exists s, to_string v = Ok s /\ allowed_argument (flag, Str s)) ->
  exists l, option_text flag v = Ok l /\ confined l.
Proof.
  intros [->|Hv] HP; unfold option_text; [exists []; split; [done|apply confined_nil]|].
  destruct (js_truthy v); [|exists []; split; [done|apply confined_nil]].
  destruct (HP Hv) as (s & -> & Ha). simpl. eexists. split; [done|by apply confined_pair].
Qed.

Lemma option_raw_confined flag (v : option js) :
  (forall a, v = Some a -> allowed_argument (flag, a)) -> confined (option_raw flag (default Undefined v)).
Proof.
  intros Hv. unfold option_raw. destruct v as [v|]; [|apply confined_nil]. simpl.
  destruct (js_truthy v); [apply confined_pair; by apply Hv|apply confined_nil].
Qed.

Lemma ulimit_confined u : absent_or (fun u => is_plain u = true /\ absent_or memlock_value (prop "memlock" u)) u ->
  exists l, ulimit_args (optional "memlock" u) = Ok l /\ confined l.
Proof.
  intros H. assert (absent_or memlock_value (optional "memlock" u)) as [->|Hm].
  { destruct H as [->|[Hp H]]; [by left|]. by destruct u. }
  - exists []. split; [done|apply confined_nil].
  - unfold ulimit_args. destruct (js_truthy _); [|exists []; split; [done|apply confined_nil]].
    destruct Hm as (soft & hard & Hs & Hh & ? & ?). unfold ulimitArgValue. rewrite Hs, Hh. simpl.
    eexists. split; [done|]. apply confined_pair. by constructor.
Qed.

Lemma resource_arguments r : resources_valid r ->
  exists memory cpus pids shm ulimit,
    option_text "--memory" (prop "memory" r) = Ok memory /\ confined memory /\
    option_text "--cpus" (prop "cpus" r) = Ok cpus /\ confined cpus /\
    option_text "--pids-limit" (prop "pidsLimit" r) = Ok pids /\ confined pids /\
    option_text "--shm-size" (prop "shmSize" r) = Ok shm /\ confined shm /\
    ulimit_args (optional "memlock" (prop "ulimits" r)) = Ok ulimit /\ confined ulimit.
Proof.
  intros [_ Hm Hc Hs Hp Hu].
  destruct (option_text_confined "--memory" _ _ Hm) as (memory & ? & ?).
  { intros (s & z & -> & ? & ?). exists s. split; [done|by econstructor]. }
  destruct (option_text_confined "--cpus" _ _ Hc) as (cpus & ? & ?).
  { intros (s & w & f & -> & ? & ? & ?). exists s. split; [done|by econstructor]. }
  destruct (option_text_confined "--pids-limit" _ _ Hp) as (pids & ? & ?).
  { intros (z & -> & ?). exists (string_of_Z z). split; [done|by econstructor]. }
  destruct (option_text_confined "--shm-size" _ _ Hs) as (shm & ? & ?).
  { intros (s & z & -> & ? & ?). exists s. split; [done|by econstructor]. }
  destruct (ulimit_confined _ Hu) as (ulimit & ? & ?).
  by exists memory, cpus, pids, shm, ulimit.
Qed.

Lemma device_confined dev : device_valid dev -> confined (device_args dev).
Proof.
  intros [v Ht Hv Ha|path Ht Hs Ha]; unfold device_args; rewrite Ht.
  - rewrite Hv. apply confined_pair. by constructor.
  - change (confined [Str "--device"; prop "hostPath" dev]). apply confined_pair.
    unfold js_or in Hs. destruct (js_truthy (prop "hostPath" dev)); [by econstructor|].
    injection Hs as <-. done.
Qed.

Lemma map_get_field k k' (v : option js) (l : list (jstr * js)) :
  map_get k (field k' v ++ l) =
  match v with
  | Some a => if bool_decide (k' = k) then Some a else map_get k l
  | None => map_get k l
  end.
Proof. by destruct v. Qed.

Section parts.
Context (platform : option jstr) (resources : option js) (devices : list js) (secOpt : list jstr)
  (ipc gpus : option jstr).

Let policy : js := policy_of platform resources devices secOpt ipc gpus.

Lemma policy_parts :
  prop "platform" policy = default Undefined (Str <$> platform) /\
  prop "resources" policy = default Undefined resources /\
  prop "devices" policy = default Undefined (non_empty devices) /\
  prop "securityOpt" policy = default Undefined (non_empty (Str <$> secOpt)) /\
  prop "ipc" policy = default Undefined (Str <$> ipc) /\
  prop "gpus" policy = default Undefined (Str <$> gpus).
Proof.
  destruct platform, resources, devices, secOpt, ipc, gpus; repeat split.
Qed.

Lemma parts_emitted runtime :
  shape_valid platform resources devices secOpt ipc gpus ->
  jeqb runtime "docker" || jeqb runtime "podman" = true ->
  exists args, emitRunArgs policy runtime = Ok args /\ confined args.
Proof.
  intros [Vp Vr Vd Vs Vi Vg _] Hrt. destruct policy_parts as (Ep & Er & Ed & Es & Ei & Eg).
  assert (resources_valid (js_or (prop "resources" policy) (Obj []))) as Hres.
  { rewrite Er. destruct resources as [r|].
    - assert (resources_valid r) as V by auto. simpl. unfold js_or.
      replace (js_truthy r) with true; [done|]. destruct V as [V]. by destruct r.
    - constructor; try (by left). done. }
  destruct (resource_arguments _ Hres) as (memory & cpus & pids & shm & ulimit & Em & Cm & Ec & Cc & Ei' & Ci & Eh & Ch & Eu & Cu).
  unfold emitRunArgs. change (js_truthy policy) with true. cbn [negb]. rewrite Hrt.
  cbn [ensure mbind result_bind]. rewrite Em, Ec, Ei', Eh, Eu. cbn [mbind result_bind].
  eexists. split; [done|]. repeat apply confined_app; try done.
  - rewrite Ep. apply option_raw_confined. intros a Ha. destruct platform; [|done].
    injection Ha as <-. constructor. by apply Vp.
  - rewrite Ed. apply confined_concat. destruct devices as [|d ds]; [by constructor|]. simpl array_items.
    eapply Forall_impl; [exact Vd|]. apply device_confined.
  - rewrite Es. apply confined_concat. destruct secOpt as [|d ds]; [by constructor|].
    change (array_items _) with (Str <$> (d :: ds)). rewrite Forall_fmap.
    eapply Forall_impl; [exact Vs|]. intros x Hx. apply confined_pair. by constructor.
  - apply confined_pair. constructor. by destruct (is_str _ _).
  - destruct (jeqb runtime "docker"); [|apply confined_nil]. rewrite Eg. apply option_raw_confined.
    intros a Ha. destruct gpus; [|done]. injection Ha as <-. constructor. by apply Vg.
Qed.
End parts.

Lemma buildEffectivePolicy_Ok s o p : buildEffectivePolicy s o = Ok p ->
  exists platform resources devices secOpt ipc gpus,
    p = policy_of platform resources devices secOpt ipc gpus /\
    shape_valid platform resources devices secOpt ipc gpus.
Proof.
  intros (layers & _ & (effective & He & [= <-])%result_bind_Ok)%result_bind_Ok.
  destruct effective as [p|].
  - apply validatePolicyShape_Ok in He as (a & b & c & d & e & f & ? & ? & _). by exists a, b, c, d, e, f.
  - exists None, None, [], [], None, None. split; [done|]. by constructor.
Qed.

(** C5. An effective policy confines the container: whatever the manifest,
    the catalog, the profile and the settings declare, if a policy is built
    from them then under docker and podman the arguments are built too, they
    are pairs of a flag and a value, every pair is one of the listed kinds
    with its value in bounds (memory and shared memory sizes, a CPU quota, a
    number of processes, a memlock limit, an allowed device, platform,
    security option, IPC mode or GPU selection), so no layer adds another flag
    or a mount; and host IPC excludes a shared memory size. *)
Theorem effective_policy_confined s o p runtime :
  buildEffectivePolicy s o = Ok p -> jeqb runtime "docker" || jeqb runtime "podman" = true ->
  (exists args, emitRunArgs p runtime = Ok args /\ confined args) /\
  (prop "ipc" p = Str "host" -> optional "shmSize" (prop "resources" p) = Undefined).
Proof.
  intros (platform & resources & devices & secOpt & ipc & gpus & -> & V)%buildEffectivePolicy_Ok Hrt.
  split; [by apply parts_emitted|].
  destruct (policy_parts platform resources devices secOpt ipc gpus) as (_ & -> & _ & _ & -> & _).
  intros Hi. destruct ipc as [i|]; [|done]. injection Hi as ->.
  pose proof (sv_shm _ _ _ _ _ _ V eq_refl) as Hs. destruct resources as [r|]; [|done].
  simpl default. rewrite plain_optional; [done|]. apply (sv_resources _ _ _ _ _ _ V r eq_refl).
Qed.

Definition sample_sources : policy_sources :=
  PolicySources
    (Obj [("resources", Obj [("memory", Str "2g"); ("cpus", Num (Fin 2)); ("pidsLimit", Num (Fin 512))]);
          ("devices", Arr [Obj [("type", Str "hostDevice"); ("hostPath", Str "/dev/dri/renderD128")]])])
    Undefined
    (Obj [("resources", Obj [("memory", Str "512m"); ("ulimits", Obj [("memlock", Obj [("soft", Num (Fin (-1))); ("hard", Num (Fin 65536))])])]);
          ("securityOpt", Arr [Str "label=disable"; Str "label=disable"])])
    (Obj [("resources", Obj [("cpus", Str "0.25")])]).

Definition sample_options : policy_options := PolicyOptions "podman" false false.

Definition sample_args : list js :=
  Str <$> ["--memory"; "512m"; "--cpus"; "0.25"; "--pids-limit"; "512"; "--ulimit"; "memlock=-1:65536";
           "--device"; "/dev/dri/renderD128"; "--security-opt"; "label=disable"; "--ipc"; "private"].

Lemma effective_policy_confined_witness :
  exists p, buildEffectivePolicy sample_sources sample_options = Ok p /\
    emitRunArgs p "podman" = Ok sample_args /\ exists args, emitRunArgs p "podman" = Ok args /\ confined args.
Proof.
  assert (exists p, buildEffectivePolicy sample_sources sample_options = Ok p /\
    emitRunArgs p "podman" = Ok sample_args) as (p & Hp & Ha) by (vm_compute; by eexists).
  exists p. split; [exact Hp|]. split; [exact Ha|].
  exact (proj1 (effective_policy_confined _ _ _ "podman" Hp eq_refl)).
Defined.

(** The prefix of a host device is checked on the text, before any path is
    resolved: a device of another kind is let in through a parent segment. *)
Example device_prefix_escapes : host_device_allowed "/dev/dri/../mem" = true.
Proof. by vm_compute. Qed.
