(* ===== verification/DeclaredLimits.v ===== *)
(** Hardware-limit declarations of an agent:
    [src/cli/sandbox/hardwareLimits/declaredLimits.mjs].  A manifest or a raw
    profile is a layer; it declares memory, cpus and pidsLimit in
    [hardwareLimits], or under the deprecated path of its runtime policy. *)

From stdpp Require Import prelude.
From Stdlib Require Import NArith Floats.SpecFloat.
From S2P Require Import Prelude.
From S2P Require Import JsString.
From S2P Require Import JsNumber.
From S2P Require Import JsDouble.
From S2P Require Import JsMap.
From S2P Require Import JsValue.
From S2P Require Import HttpRoutePath.
From S2P Require Import HttpRouteCompiler.
From S2P Require Import ManifestContract.
From S2P Require Import CpuQuota.
From S2P Require Import RuntimePolicy.

Local Open Scope js_scope.

Definition DECLARED_LIMIT_FIELDS : list jstr := ["memory"; "cpus"; "pidsLimit"].
Definition DEPRECATED_LIMITS_PATH : jstr := "llmRuntime.runtimePolicy.resources".
Definition HARDWARE_LIMITS_FIELD : jstr := "hardwareLimits".
Definition MAX_WARNING_PATHS : nat := 8.
Definition MAX_VALUE_TEXT : nat := 64.

Definition or_null (v : js) : js := if is_plain v then v else Null.

Definition neutralOf (source : js) : js := or_null (optional "hardwareLimits" source).

(** [source?.llmRuntime?.runtimePolicy] *)
Definition runtimePolicyOf (source : js) : js := optional "runtimePolicy" (optional "llmRuntime" source).

Definition legacyOf (source : js) : js := or_null (optional "resources" (runtimePolicyOf source)).

Definition declaresNeutral (source : js) : bool :=
  let neutral := neutralOf source in
  js_truthy neutral && existsb (fun field => negb (is_undefined (prop field neutral))) DECLARED_LIMIT_FIELDS.

(** [declaredMemoryBytes] of [resolve.mjs]: the bytes of a size, when they are
    a safe integer. *)
Definition declaredMemoryBytes (value : js) : result js_error (option Z) :=
  s ← to_string (js_nullish value (Str []));
  Ok (match sizeBytes s with
      | Some z => if is_safe_integer (Fin z) then Some z else None
      | None => None
      end).

(** The number of a decimal text, when it is finite. *)
Definition decimal_number (s : jstr) : option double :=
  match DECIMAL s with
  | Some (w, f) => let x := double_of_decimal w f in if double_finite x then Some x else None
  | None => None
  end.

Definition sameDeclaredValue (field : jstr) (left right : js) : result js_error bool :=
  l ← to_string left;
  r ← to_string right;
  if jeqb l r then Ok true
  else if jeqb field "memory" then
    a ← declaredMemoryBytes left;
    b ← declaredMemoryBytes right;
    Ok (match a, b with
        | Some a, Some b => (a =? b)%Z
        | _, _ => false
        end)
  else
    Ok (match decimal_number l, decimal_number r with
        | Some a, Some b =>
            if jeqb field "pidsLimit"
            then double_is_integer a && double_is_integer b && SFeqb a b
            else SFeqb a b
        | _, _ => false
        end).

Record conflict : Type := Conflict {
  cf_field : jstr;
  cf_value : jstr;
  cf_deprecatedValue : jstr
}.

Record reading : Type := Reading {
  rd_values : list (jstr * js);
  rd_deprecated : list jstr;
  rd_conflicts : list conflict
}.

Definition empty_reading : reading := Reading [] [] [].

(** One field of one layer: the loop's body. *)
Definition read_field (neutral legacy : js) (acc : reading) (field : jstr) : result js_error reading :=
  let declared := optional field neutral in
  let old := optional field legacy in
  let values :=
    if negb (is_undefined declared) then set_prop field declared (rd_values acc)
    else if negb (is_undefined old) then set_prop field old (rd_values acc)
    else rd_values acc in
  let deprecated := if is_undefined old then rd_deprecated acc else rd_deprecated acc ++ [field] in
  if is_undefined declared || is_undefined old then Ok (Reading values deprecated (rd_conflicts acc))
  else
    same ← sameDeclaredValue field declared old;
    if (same : bool) then Ok (Reading values deprecated (rd_conflicts acc))
    else
      v ← to_string declared;
      d ← to_string old;
      Ok (Reading values deprecated (rd_conflicts acc ++ [Conflict field v d])).

Fixpoint read_fields (neutral legacy : js) (acc : reading) (fields : list jstr) : result js_error reading :=
  match fields with
  | [] => Ok acc
  | field :: fields => acc ← read_field neutral legacy acc field; read_fields neutral legacy acc fields
  end.

Definition readDeclaredLimits (source : js) : result js_error reading :=
  read_fields (neutralOf source) (legacyOf source) empty_reading DECLARED_LIMIT_FIELDS.

(** [for (const field of fields) delete out[field]] *)
Definition delete_fields (l : list (jstr * js)) : list (jstr * js) :=
  fold_left (fun l field => map_delete field l) DECLARED_LIMIT_FIELDS l.

(** The policy a layer contributes, its declaration folded in. *)
Definition declaredLayerPolicy (source : js) : policyR js :=
  let policy := runtimePolicyOf source in
  let resources := optional "resources" policy in
  if negb (is_plain source) || is_undefined (prop "hardwareLimits" source) then Ok (js_or policy Null)
  else
    _ ← validateHardwareLimitsShape (prop "hardwareLimits" source);
    if negb (declaresNeutral source) then Ok (js_or policy Null)
    else if negb (is_undefined policy) && negb (is_plain policy) && negb (match policy with Null => true | _ => false end)
    then Ok policy
    else if negb (is_undefined resources) && negb (is_plain resources) then Ok policy
    else
      r ← policy_js (readDeclaredLimits source);
      let kept := delete_fields (spread (js_or resources (Obj []))) in
      Ok (Obj (merge_props (spread (js_or policy (Obj [])))
                 [("resources", Obj (merge_props kept (rd_values r)))])).

(** ** Conflicts *)

(** [/[^A-Za-z0-9._-]/g] to an underscore, and what else is kept. *)
Definition sanitized (kept : N -> bool) (n : nat) (s : jstr) : jstr :=
  take n ((fun c => if is_alnum c || kept c then c else 95%N) <$> s).

Definition is_name_unit (c : N) : bool := (c =? 46)%N || (c =? 95)%N || (c =? 45)%N.

Definition safeName (value : jstr) : jstr := sanitized is_name_unit 64 value.

Definition layered (layer : jstr) (source : js) : result js_error (list (jstr * conflict)) :=
  r ← readDeclaredLimits source; Ok ((fun c => (layer, c)) <$> rd_conflicts r).

Definition hardwareDeclarationConflicts (manifest profileConfig profileName : js) :
    result js_error (list (jstr * conflict)) :=
  own ← layered "manifest" manifest;
  let profiles := or_null (optional "profiles" manifest) in
  selected ← to_string (js_or profileName (Str []));
  if is_plain profiles && truthy selected && has_own selected profiles then
    let names := if jeqb selected "default" then ["default" : jstr] else [selected; "default"] in
    more ← mapM_result (fun name =>
             if has_own name profiles then layered ("profile " ++ safeName name) (prop name profiles) else Ok [])
             names;
    Ok (own ++ concat more)
  else
    more ← layered "profile" profileConfig;
    Ok (own ++ more).

Definition conflictOf (source : js) (field : jstr) : result js_error bool :=
  r ← readDeclaredLimits source; Ok (existsb (fun c => jeqb (cf_field c) field) (rd_conflicts r)).

(** ** Profiles *)

Definition declared_in (r : reading) (field : jstr) : bool := negb (is_undefined (prop field (Obj (rd_values r)))).

(** The merged limits and the kept conflicts, so far. *)
Definition merge_limit (defaultProfile selectedProfile : js) (base selected : reading)
    (acc : list (jstr * js) * list (jstr * js)) (field : jstr) :
    result js_error (list (jstr * js) * list (jstr * js)) :=
  let '(limits, kept) := acc in
  inSelected ← conflictOf selectedProfile field;
  inDefault ← conflictOf defaultProfile field;
  let keep conflicting :=
    (set_prop field (prop field (neutralOf conflicting)) limits,
     set_prop field (prop field (legacyOf conflicting)) kept) in
  Ok (if (inSelected : bool) then keep selectedProfile
      else if (inDefault : bool) then keep defaultProfile
      else if declared_in selected field then (set_prop field (prop field (Obj (rd_values selected))) limits, kept)
      else if declared_in base field then (set_prop field (prop field (Obj (rd_values base))) limits, kept)
      else (limits, kept)).

Fixpoint merge_limits (defaultProfile selectedProfile : js) (base selected : reading)
    (acc : list (jstr * js) * list (jstr * js)) (fields : list jstr) :
    result js_error (list (jstr * js) * list (jstr * js)) :=
  match fields with
  | [] => Ok acc
  | field :: fields =>
      acc ← merge_limit defaultProfile selectedProfile base selected acc field;
      merge_limits defaultProfile selectedProfile base selected acc fields
  end.

Definition plain_spread (v : js) : list (jstr * js) := if is_plain v then spread v else [].

Definition mergeProfileHardwareLimits (merged defaultProfile selectedProfile : js) : result js_error js :=
  base ← readDeclaredLimits defaultProfile;
  selected ← readDeclaredLimits selectedProfile;
  if negb (existsb (fun field => declared_in base field || declared_in selected field) DECLARED_LIMIT_FIELDS)
  then Ok merged
  else
    '(limits, kept) ← merge_limits defaultProfile selectedProfile base selected ([], []) DECLARED_LIMIT_FIELDS;
    let out := merge_props (spread merged) [("hardwareLimits", Obj limits)] in
    let policy := runtimePolicyOf merged in
    let inherited := or_null (optional "resources" (or_null policy)) in
    Ok (Obj (if is_plain inherited || match kept with [] => false | _ => true end
             then
               let resources := merge_props (delete_fields (plain_spread inherited)) kept in
               set_prop "llmRuntime"
                 (Obj (merge_props (plain_spread (optional "llmRuntime" merged))
                         [("runtimePolicy", Obj (merge_props (plain_spread policy) [("resources", Obj resources)]))]))
                 out
             else out)).

(** ** Messages *)

Definition boundedText (text : jstr) : jstr :=
  if MAX_VALUE_TEXT <? length text then take MAX_VALUE_TEXT text ++ [8230%N] else text.

Record refusal : Type := Refusal {
  rf_reasonCode : jstr;
  rf_reason : jstr;
  rf_fix : jstr
}.

Definition describe_conflict (entry : jstr * conflict) : jstr :=
  let '(layer, c) := entry in
  "the " ++ layer ++ " declares " ++ cf_field c ++ " as " ++ boundedText (cf_value c) ++ " in hardwareLimits " ++
  "and as " ++ boundedText (cf_deprecatedValue c) ++ " in the deprecated " ++ DEPRECATED_LIMITS_PATH.

Definition declarationConflictRefusal (conflicts : list (jstr * conflict)) : refusal :=
  let fields := fold_left (fun acc (e : jstr * conflict) => set_add (cf_field e.2) acc) conflicts [] in
  Refusal "declaration_conflict"
    ("Conflicting hardware limit declarations: " ++ join "; " (describe_conflict <$> conflicts) ++ ".")
    ("Declare " ++ join ", " fields ++ " only under hardwareLimits and remove " ++
     (if length fields =? 1 then "it" else "them") ++
     " from " ++ DEPRECATED_LIMITS_PATH ++ " in the same manifest or profile.").

(** ** Deprecated declarations *)

Definition deprecated_paths (prefix : jstr) (source : js) : result js_error (list jstr) :=
  r ← readDeclaredLimits source;
  Ok ((fun field => prefix ++ DEPRECATED_LIMITS_PATH ++ "." ++ field) <$> rd_deprecated r).

Definition deprecatedHardwareDeclarations (manifest : js) : result js_error (list jstr) :=
  if negb (is_plain manifest) then Ok []
  else
    own ← deprecated_paths [] manifest;
    let profiles := prop "profiles" manifest in
    if negb (is_plain profiles) then Ok own
    else
      more ← mapM_result (fun name => deprecated_paths ("profiles." ++ safeName name ++ ".") (prop name profiles))
               (stable_sort unit_le (own_keys profiles));
      Ok (own ++ concat more).

Record declaration_note : Type := DeclarationNote {
  dn_paths : list jstr;
  dn_omitted : nat;
  dn_replacement : jstr
}.

Definition deprecatedDeclarationNote (manifest : js) : result js_error (option declaration_note) :=
  paths ← deprecatedHardwareDeclarations manifest;
  Ok (match paths with
      | [] => None
      | _ => Some (DeclarationNote (take MAX_WARNING_PATHS paths) (length paths - MAX_WARNING_PATHS)
                     HARDWARE_LIMITS_FIELD)
      end).

(** What a warning says, and the keys of the warnings that were given. *)
Record warning_state : Type := WarningState { warned : list jstr }.

Definition warnDeprecatedHardwareDeclarations (st : warning_state) (manifest agentRef : js) :
    result js_error (option jstr * warning_state) :=
  note ← deprecatedDeclarationNote manifest;
  match note with
  | None => Ok (None, st)
  | Some note =>
      text ← to_string (js_or agentRef (Str "agent"));
      let ref := sanitized (fun c => is_name_unit c || (c =? 47)%N) 257 text in
      let omitted := string_of_N (N.of_nat (dn_omitted note)) in
      let key := ref ++ [0%N] ++ join [0%N] (dn_paths note) ++ [0%N] ++ omitted in
      if one_of key (warned st) then Ok (None, st)
      else
        let more := if dn_omitted note =? 0 then [] else " and " ++ omitted ++ " more" in
        Ok (Some ("[hardware-limits] " ++ ref ++ ": " ++ join ", " (dn_paths note) ++ more ++ " " ++
                  (if length (dn_paths note) + dn_omitted note =? 1 then "is" else "are") ++
                  " deprecated; declare memory, cpus and pidsLimit under " ++ HARDWARE_LIMITS_FIELD ++
                  " at the manifest root or in the same profile."),
            WarningState (warned st ++ [key]))
  end.

(** [setHardwareDeclarationWarningSink]: the warnings that were given are
    forgotten. *)
Definition setHardwareDeclarationWarningSink (_ : warning_state) : warning_state := WarningState [].
