(* ===== verification/LimitResolution.v ===== *)
(** The visible resources of a Box and the resolution of stored limits against
    them: [src/cli/sandbox/hardwareLimits/resolve.mjs], with [resolveMpsShare]
    of [mpsEligibility.mjs]. *)

From stdpp Require Import prelude.
From Stdlib Require Import NArith Floats.SpecFloat.
From S2P Require Import Prelude.
From S2P Require Import JsString.
From S2P Require Import JsNumber.
From S2P Require Import JsDouble.
From S2P Require Import JsMap.
From S2P Require Import JsValue.
From S2P Require Import JsJson.
From S2P Require Import NetworkContract.
From S2P Require Import CanonicalHash.
From S2P Require Import CpuQuota.
From S2P Require Import RuntimePolicy.
From S2P Require Import DeclaredLimits.

Local Open Scope js_scope.

Definition MIB : Z := 1024 * 1024.
Definition MIN_MEMORY_BYTES : Z := 64 * MIB.
Definition AGENTS_CGROUP_PARENT : jstr := "/ploinky/agents".

(** ** Observations *)

Definition is_line_end (c : N) : bool := (c =? 10)%N || (c =? 13)%N || (c =? 8232)%N || (c =? 8233)%N.

Fixpoint take_spaces (s : jstr) : jstr :=
  match s with
  | c :: r => if is_space c then c :: take_spaces r else []
  | [] => []
  end.

(** [\s*$] with the [m] flag: spaces up to the end or the end of a line. *)
Definition rest_of_line (s : jstr) : bool := (length (take_spaces s) =? length s) || existsb is_line_end (take_spaces s).

(** [MemTotal:\s+(\d+)\s+kB\s*$] at the start of [s]: the digits. *)
Definition meminfo_total_at (s : jstr) : option jstr :=
  if negb (starts_with s "MemTotal:") then None
  else
    let r := drop 9 s in
    let sp := take_spaces r in
    let r := drop (length sp) r in
    let ds := take_digits r in
    let r := drop (length ds) r in
    let sp' := take_spaces r in
    let r := drop (length sp') r in
    if truthy sp && truthy ds && truthy sp' && starts_with r "kB" && rest_of_line (drop 2 r) then Some ds else None.

(** The first line at which it matches; [start] where a line starts. *)
Fixpoint meminfo_total (start : bool) (s : jstr) : option jstr :=
  match s with
  | [] => None
  | c :: r =>
      match (if start then meminfo_total_at s else None) with
      | Some ds => Some ds
      | None => meminfo_total (is_line_end c) r
      end
  end.

Definition parseMeminfoTotal (text : js) : result js_error (option Z) :=
  s ← to_string (js_or text (Str []));
  Ok (match meminfo_total true s with
      | Some ds =>
          let bytes := (decimal_value ds * 1024)%Z in
          if is_safe_integer (Fin bytes) && (0 <? bytes)%Z then Some bytes else None
      | None => None
      end).

(** A control file of a cgroup. *)
Inductive cgroup_value : Type :=
  | Absent
  | Unreadable
  | Max
  | Finite (value : Z).

Definition safe_decimal (s : jstr) : option Z :=
  if is_decimal s && is_safe_integer (Fin (decimal_value s)) then Some (decimal_value s) else None.

Definition parseCgroupValue (raw : js) : result js_error cgroup_value :=
  match raw with
  | Undefined => Ok Absent
  | Null => Ok Unreadable
  | _ =>
      s ← to_string raw;
      let text := trim s in
      Ok (if jeqb text "max" then Max
          else match safe_decimal text with
               | Some value => Finite value
               | None => Unreadable
               end)
  end.

Inductive cpu_max : Type :=
  | CpuAbsent
  | CpuUnreadable
  | CpuUnlimited (period : Z)
  | CpuFinite (quota period : Z).

Definition positive_decimal (s : jstr) : option Z :=
  match safe_decimal s with
  | Some z => if (0 <? z)%Z then Some z else None
  | None => None
  end.

Definition parseCpuMax (raw : js) : result js_error cpu_max :=
  match raw with
  | Undefined => Ok CpuAbsent
  | Null => Ok CpuUnreadable
  | _ =>
      s ← to_string raw;
      Ok (match split_on 32 (collapse_spaces (trim s)) with
          | [first; second] =>
              match positive_decimal second with
              | None => CpuUnreadable
              | Some period =>
                  if jeqb first "max" then CpuUnlimited period
                  else match positive_decimal first with
                       | Some quota => CpuFinite quota period
                       | None => CpuUnreadable
                       end
              end
          | _ => CpuUnreadable
          end)
  end.

Inductive envelope_source : Type :=
  | FromCgroup
  | FromMeminfo
  | FromParallelism.

Record envelope : Type := Envelope {
  en_memoryBytes : Z;
  en_cpus : double;
  en_memorySource : envelope_source;
  en_cpusSource : envelope_source
}.

Inductive envelope_problem : Type :=
  | MemTotalUnreadable
  | MemoryMaxUnreadable
  | ParallelismUnreadable
  | CpuMaxUnreadable.

Record observations : Type := Observations {
  procMeminfo : js;
  memoryMax : js;
  cpuMax : js;
  cpuParallelism : jnum
}.

(** The least of what is observed; a thrown error is the outer result. *)
Definition readEnvelope (o : observations) : result js_error (result envelope_problem envelope) :=
  memTotal ← parseMeminfoTotal (procMeminfo o);
  match memTotal with
  | None => Ok (Err MemTotalUnreadable)
  | Some memTotal =>
      memoryLimit ← parseCgroupValue (memoryMax o);
      match memoryLimit, cpuParallelism o with
      | Unreadable, _ => Ok (Err MemoryMaxUnreadable)
      | _, Fin cpus =>
          if negb (is_safe_integer (Fin cpus)) || (cpus <? 1)%Z then Ok (Err ParallelismUnreadable)
          else
            cpuLimit ← parseCpuMax (cpuMax o);
            let all := double_ratio cpus 1 in
            let '(memory, memorySource) :=
              match memoryLimit with
              | Finite value => (Z.min memTotal value, if (value <? memTotal)%Z then FromCgroup else FromMeminfo)
              | _ => (memTotal, FromMeminfo)
              end in
            match cpuLimit with
            | CpuUnreadable => Ok (Err CpuMaxUnreadable)
            | CpuFinite quota period =>
                let share := double_ratio quota period in
                Ok (Ok (Envelope memory (double_min all share) memorySource
                          (if double_lt share all then FromCgroup else FromParallelism)))
            | _ => Ok (Ok (Envelope memory all memorySource FromParallelism))
            end
      | _, _ => Ok (Err ParallelismUnreadable)
      end
  end.

(** ** Stored limits *)

Inductive limit_code : Type :=
  | InvalidLimits
  | ControllerUnavailable
  | ExceedsEnvelope
  | GpuSharingUnavailable.

(** [LimitResolutionError]: its code and its message; or what else is thrown. *)
Inductive limit_error : Type :=
  | LimitProblem (code : limit_code) (message : jstr)
  | LimitThrown (e : js_error).

Notation limitR := (result limit_error).

Definition limit_js {A} (r : result js_error A) : limitR A :=
  match r with
  | Ok a => Ok a
  | Err e => Err (LimitThrown e)
  end.

(** [Math.floor(a * b / 100)] and on to a unit, in doubles. *)
Definition percent_of (percent amount : Z) : double :=
  double_div (double_mul (double_ratio percent 1) (double_ratio amount 1)) (double_ratio 100 1).

Definition floor_int (x : double) : Z :=
  match double_floor x with
  | Fin z => z
  | _ => 0%Z
  end.

Definition percent_integer (v : js) : option Z :=
  match v with
  | Num (Fin z) => if (1 <=? z)%Z && (z <=? 100)%Z then Some z else None
  | _ => None
  end.

Definition resolveMemoryPercent (percent : js) (envelopeBytes : option Z) : limitR Z :=
  match percent_integer percent with
  | None => Err (LimitProblem InvalidLimits "memoryPercent must be an integer from 1 to 100")
  | Some p =>
      match envelopeBytes with
      | Some total =>
          if negb (is_safe_integer (Fin total)) || (total <=? 0)%Z
          then Err (LimitProblem ControllerUnavailable "the Box memory envelope is unknown")
          else
            let bytes := (floor_int (double_div (percent_of p total) (double_ratio MIB 1)) * MIB)%Z in
            if (bytes <? MIN_MEMORY_BYTES)%Z
            then Err (LimitProblem InvalidLimits
                   ("memoryPercent " ++ string_of_Z p ++ " resolves to " ++ string_of_Z bytes ++
                    " bytes, below the 64 MiB minimum"))
            else Ok bytes
      | None => Err (LimitProblem ControllerUnavailable "the Box memory envelope is unknown")
      end
  end.

(** ** GPU shares *)

(** The check of the tools on the host, an error by its message, and the
    engine's text of an error of the language. *)
Class MpsTools : Type := {
  revalidateMpsTools : js -> option jstr;
  language_message : js_error -> jstr
}.

Record gpu_share : Type := GpuShare {
  gs_smPercent : Z;
  gs_vramPercent : Z;
  gs_memoryMiB : Z;
  gs_deviceUuid : js;
  gs_driverVersion : js;
  gs_wiringFingerprint : js
}.

Section Gpu.
Context `{MpsTools}.

Definition memory_mib (gpu : js) : option Z :=
  match optional "memoryMiB" gpu with
  | Num (Fin z) => if is_safe_integer (Fin z) && (0 <? z)%Z then Some z else None
  | _ => None
  end.

(** The text of a thrown [MpsError]. *)
Definition mps_error {A} (v : js) : result jstr A :=
  Err (match to_string v with
       | Ok s => s
       | Err e => language_message e
       end).

(** An error is its message. *)
Definition resolveMpsShare (policy gpu grant : js) : result jstr gpu_share :=
  if negb (js_truthy (optional "valid" grant)) || negb (is_str (optional "state" grant) "active") ||
     negb (js_truthy (optional "mps" grant))
  then mps_error (js_or (optional "mpsProblem" grant) (Str "Both host MPS tools and active GPU access are required"))
  else
    match revalidateMpsTools (prop "mps" grant) with
    | Some message => Err message
    | None =>
        let chosen := js_or policy (Obj []) in
        match percent_integer (prop "smPercent" chosen), percent_integer (prop "vramPercent" chosen) with
        | Some smPercent, Some vramPercent =>
            match is_str (optional "memoryModel" gpu) "dedicated", memory_mib gpu with
            | true, Some total =>
                let memoryMiB := floor_int (percent_of vramPercent total) in
                if (memoryMiB <? 512)%Z then Err "The GPU memory share is below the 512 MiB minimum"
                else Ok (GpuShare smPercent vramPercent memoryMiB (prop "uuid" gpu) (prop "driverVersion" gpu)
                           (prop "fingerprint" grant))
            | _, _ => Err "Dedicated GPU memory cannot be resolved"
            end
        | _, _ => Err "GPU share percentages must be integers in 1..100"
        end
    end.

Fixpoint text_within (s : jstr) (needle : jstr) : bool :=
  starts_with s needle || match s with [] => false | _ :: r => text_within r needle end.

(** [v?.includes(ref)] *)
Definition includes_ref (v : js) (ref : jstr) : result jstr bool :=
  match v with
  | Undefined | Null => Ok false
  | Arr l => Ok (existsb (fun x => is_str x ref) l)
  | Str s => Ok (text_within s ref)
  | _ => Err (language_message TypeError)
  end.

Definition share_of (policy gpu : js) (ref : jstr) : result jstr gpu_share :=
  let grant := optional "grant" gpu in
  let refuse := mps_error (js_or (optional "reason" gpu) (Str "This agent has no active, qualified Box GPU grant.")) in
  if negb (js_truthy (optional "eligible" gpu)) then refuse
  else
    granted ← includes_ref (optional "agents" grant) ref;
    if negb granted then refuse
    else
      denied ← includes_ref (optional "denied" grant) ref;
      if (denied : bool) then refuse else resolveMpsShare policy (prop "facts" gpu) (prop "grant" gpu).

Definition resolveStoredGpuShare (policy gpu : js) (ref : jstr) : limitR gpu_share :=
  match share_of policy gpu ref with
  | Ok share => Ok share
  | Err message => Err (LimitProblem GpuSharingUnavailable message)
  end.

(** ** Overrides *)

Definition reason_text (reason : cpus_reason) : jstr :=
  match reason with
  | NotNumber => "must be a decimal number"
  | NotDecimal => "must be a plain finite decimal number"
  | TooPrecise => "has more than two decimal places"
  | TooLarge => "is too large"
  | BelowMinimum m =>
      "is below the " ++ string_of_Z (m / 100) ++ "." ++ pad_start (string_of_Z (m mod 100)) ++ " minimum"
  end.

(** [Number(canonical)] *)
Definition cpus_number (canonical : jstr) : double := default (S754_nan) (decimal_number canonical).

(** [Number(envelope?.cpus)], when it is finite and positive. *)
Definition envelope_cpus (e : option envelope) : option double :=
  match e with
  | Some e => if double_finite (en_cpus e) && double_gt (en_cpus e) (double_ratio 0 1) then Some (en_cpus e) else None
  | None => None
  end.

Definition override_cpus (cpus : js) (e : option envelope) : limitR jstr :=
  match parseAdmittedCpus MIN_ADMINISTRATOR_CPU_HUNDREDTHS cpus with
  | Rejected reason =>
      s ← limit_js (to_string cpus);
      Err (LimitProblem InvalidLimits
        ("cpus " ++ take 64 s ++ " " ++ reason_text reason ++
         "; use a decimal from 0.05 with at most two decimal places"))
  | Accepted _ canonical =>
      match envelope_cpus e with
      | None => Err (LimitProblem ControllerUnavailable "the Box CPU envelope is unknown")
      | Some total =>
          if double_gt (cpus_number canonical) total then
            s ← limit_js (to_string cpus);
            Err (LimitProblem ExceedsEnvelope
              ("cpus " ++ s ++ " exceeds the Box CPU envelope of " ++ double_text total))
          else Ok canonical
      end
  end.

(** [if (v !== undefined) resources.k = f(v)] *)
Definition override_field (k : jstr) (v : js) (f : limitR jstr) : limitR (list (jstr * js)) :=
  if is_undefined v then Ok [] else s ← f; Ok [(k, Str s)].

(** [None] is [null]. *)
Definition overridePolicyFromStored (entry : js) (e : option envelope) (gpu : js) (ref : jstr) : limitR (option js) :=
  if negb (js_truthy entry) then Ok None
  else
    _ ← (if is_undefined (prop "gpu" entry) then Ok tt
         else _ ← resolveStoredGpuShare (prop "gpu" entry) gpu ref; Ok tt);
    cpus ← override_field "cpus" (prop "cpus" entry) (override_cpus (prop "cpus" entry) e);
    memory ← override_field "memory" (prop "memoryPercent" entry)
               (bytes ← resolveMemoryPercent (prop "memoryPercent" entry) (en_memoryBytes <$> e);
                Ok (string_of_Z bytes));
    let resources := cpus ++ memory in
    Ok (match resources with
        | [] => None
        | _ => Some (Obj [("resources", Obj resources)])
        end).

(** A request: the field, the value and the layer it comes from. *)
Record request : Type := Request {
  rqf_field : jstr;
  rqf_value : jstr;
  rqf_source : jstr
}.

Definition stored_request (field : jstr) (v : js) (text : result js_error jstr) : result js_error (list request) :=
  if is_undefined v then Ok [] else s ← text; Ok [Request field s "settings"].

Definition storedRequestedLimits (entry : js) : result js_error (list request) :=
  let percent := optional "memoryPercent" entry in
  let cpus := optional "cpus" entry in
  let gpu := optional "gpu" entry in
  let share k := to_string (js_nullish (optional k gpu) (Str "?")) in
  memory ← stored_request "memory" percent (s ← to_string percent; Ok (s ++ "%"));
  cpu ← stored_request "cpus" cpus (to_string cpus);
  g ← stored_request "gpu" gpu
        (sm ← share "smPercent"; vram ← share "vramPercent"; Ok (sm ++ "/" ++ vram ++ " percent"));
  Ok (memory ++ cpu ++ g).

Record override_problem : Type := OverrideProblem {
  op_reasonCode : jstr;
  op_reason : jstr;
  op_fix : jstr;
  op_requested : list request
}.

Record stored_override : Type := StoredOverride {
  so_policy : option js;
  so_gpu : option gpu_share;
  so_problem : option override_problem
}.

(** [/[\u0000-\u001f\u007f]/g] to a space. *)
Definition unsupportedGpuMemoryModelReason (name : js) : result js_error jstr :=
  s ← to_string (js_or name (Str []));
  let text := take 256 (trim ((fun c => if (c <? 32)%N || (c =? 127)%N then 32%N else c) <$> s)) in
  Ok ("GPU sharing is unsupported on this unified or unverified GPU memory model: " ++ sor text "unknown" ++ ".").

Definition UNSUPPORTED_GPU_MEMORY_MODEL_FIX : jstr :=
  "Clear the GPU share. CPU/RAM controls remain separately available.".

(** The problem an error of the resolution is reported as. *)
Definition problem_of (code : limit_code) (message : jstr) (entry gpu : js) (ref : jstr) (requested : list request) :
    result js_error override_problem :=
  match code with
  | GpuSharingUnavailable =>
      if negb (is_undefined (prop "gpu" entry)) &&
         (is_str (optional "memoryModel" gpu) "unified" || is_str (optional "memoryModel" gpu) "unknown")
      then
        reason ← unsupportedGpuMemoryModelReason (prop "name" gpu);
        Ok (OverrideProblem "gpu_sharing_unavailable" reason UNSUPPORTED_GPU_MEMORY_MODEL_FIX requested)
      else
        Ok (OverrideProblem "gpu_sharing_unavailable" (take 1024 message)
          ("Clear the GPU share in Settings, or run ploinky limits clear --agent " ++ ref ++ " on the host " ++
           "(this also clears its CPU/RAM override). CPU/RAM controls remain separately available.") requested)
  | ControllerUnavailable =>
      Ok (OverrideProblem "envelope_unknown"
        ("The Box resource envelope is unknown, so the stored hardware limit cannot be resolved: " ++
         take 512 message ++ ".")
        ("On the host run ploinky limits status, repair the reported prerequisite, then ploinky restart; " ++
         "or clear the stored limit in Settings or with ploinky limits clear --agent " ++ ref ++ " on the host.")
        requested)
  | _ =>
      Ok (OverrideProblem "exceeds_envelope"
        ("The stored hardware limit cannot be resolved against this Box: " ++ take 512 message ++ ".")
        ("Change or clear the stored limit in Settings, or run ploinky limits clear --agent " ++ ref ++ " on the host.")
        requested)
  end.

Definition resolveStoredOverride (entry : js) (e : option envelope) (gpu : js) (ref : jstr) :
    result js_error stored_override :=
  if negb (js_truthy entry) then Ok (StoredOverride None None None)
  else
    match
      (policy ← overridePolicyFromStored entry e gpu ref;
       share ← (if js_truthy (prop "gpu" entry)
                then s ← resolveStoredGpuShare (prop "gpu" entry) gpu ref; Ok (Some s) else Ok None);
       Ok (StoredOverride policy share None))
    with
    | Ok r => Ok r
    | Err (LimitThrown error) => Err error
    | Err (LimitProblem code message) =>
        requested ← storedRequestedLimits entry;
        problem ← problem_of code message entry gpu ref requested;
        Ok (StoredOverride None None (Some problem))
    end.

End Gpu.

(** ** The hash of what is applied *)

Record resolved_limits : Type := ResolvedLimits {
  rl_cpus : option jstr;
  rl_memoryBytes : option Z;
  rl_pidsLimit : option Z
}.

Record placement : Type := Placement {
  pl_cgroups : jstr;
  pl_cgroupns : jstr;
  pl_cgroupParent : jstr
}.

Definition AGENT_PLACEMENT : placement := Placement "enabled" "private" AGENTS_CGROUP_PARENT.

Definition or_null_int (z : option Z) : js :=
  match z with
  | Some z => Num (Fin z)
  | None => Null
  end.

Definition or_null_text (s : option jstr) : js :=
  match s with
  | Some s => Str s
  | None => Null
  end.

(** [undefined] is null, at every level. *)
Fixpoint nulls (value : js) : js :=
  match value with
  | Undefined => Null
  | Arr l => Arr ((fix items (l : list js) : list js :=
                     match l with
                     | [] => []
                     | x :: r => nulls x :: items r
                     end) l)
  | Obj l => Obj ((fix fields (l : list (jstr * js)) : list (jstr * js) :=
                     match l with
                     | [] => []
                     | (k, x) :: r => (k, nulls x) :: fields r
                     end) l)
  | _ => value
  end.

Definition limits_payload (resolved : resolved_limits) (p : placement) (hardSwap : bool) (gpu : js) : js :=
  Obj [("schema", Num (Fin 1));
       ("cpus", or_null_text (rl_cpus resolved));
       ("memoryBytes", or_null_int (rl_memoryBytes resolved));
       ("pidsLimit", or_null_int (rl_pidsLimit resolved));
       ("hardSwap", match rl_memoryBytes resolved with
                    | Some 0%Z | None => Null
                    | Some _ => Bool hardSwap
                    end);
       ("placement", Obj [("cgroups", Str (pl_cgroups p)); ("cgroupns", Str (pl_cgroupns p));
                          ("cgroupParent", Str (pl_cgroupParent p))]);
       ("gpu", js_nullish gpu Null)].

Definition limitsHash `{Sha256} (resolved : resolved_limits) (p : option placement) (hardSwap : bool) (gpu : js) : jstr :=
  match p with
  | None => []
  | Some p => hex64 (nulls (limits_payload resolved p hardSwap gpu))
  end.
