(* ===== verification/ProfileMerge.v ===== *)
(** Deployment profiles of an agent: how the selected profile is merged with
    the default one and how a manifest's profile is resolved,
    [src/cli/utils/runtime/profileService.js].

   Properties of objects merged with spread syntax, and of JSON objects. *)

From stdpp Require Import prelude.
From Stdlib Require Import NArith.
From S2P Require Import Prelude.
From S2P Require Import JsString.
From S2P Require Import JsNumber.
From S2P Require Import JsMap.
From S2P Require Import JsValue.
From S2P Require Import NetworkContract.
From S2P Require Import ManifestContract.
From S2P Require Import RuntimePolicy.
From S2P Require Import DeclaredLimits.

Local Open Scope js_scope.

(** An object as a literal or a parser gives it: its keys are distinct and no
    property is [undefined]. *)
Definition json_object (l : list (jstr * js)) : Prop := map_wf l /\ Forall (fun e => e.2 <> Undefined) l.

Lemma json_object_nil : json_object [].
Proof. split; constructor. Qed.

Lemma json_object_get k v l : json_object l -> map_get k l = Some v -> v <> Undefined.
Proof. intros [_ Hl] Hv%map_get_Some_in. by apply (proj1 (Forall_forall _ _) Hl (k, v)). Qed.

Lemma json_object_set k v l : json_object l -> v <> Undefined -> json_object (map_set k v l).
Proof.
  intros [Hw Hl] Hv. split; [by apply map_wf_set|]. clear Hw.
  induction l as [|[k' v'] l IH]; csimpl; [by constructor|]. apply Forall_cons in Hl as [? ?].
  case_bool_decide; constructor; auto.
Qed.

Lemma json_object_delete k l : json_object l -> json_object (map_delete k l).
Proof.
  intros [Hw Hl]. split; [by apply map_wf_delete|]. apply Forall_forall. intros e He%map_delete_sub.
  by apply (proj1 (Forall_forall _ _) Hl).
Qed.

Lemma json_object_merge a b : json_object a -> json_object b -> json_object (merge_props a b).
Proof.
  unfold merge_props. intros Ha [_ Hb]. revert a Ha.
  induction Hb as [|e b He _ IH]; intros a Ha; simpl; [done|]. apply IH. by apply json_object_set.
Qed.

(** The property of an object: [undefined] where it is absent. *)
Lemma prop_json k l : json_object l -> map_get k l = None <-> prop k (Obj l) = Undefined.
Proof.
  intros Hl. simpl. destruct (map_get k l) eqn:E; simpl; [|done].
  pose proof (json_object_get _ _ _ Hl E). split; congruence.
Qed.

Lemma merge_props_get k a b : map_wf b ->
  map_get k (merge_props a b) =
  match map_get k b with
  | Some v => Some v
  | None => map_get k a
  end.
Proof.
  unfold merge_props, map_wf. revert a. induction b as [|[k' v] b IH]; intros a; csimpl; [done|].
  rewrite NoDup_cons. intros [Hk Hb]. rewrite (IH _ Hb). case_bool_decide as H.
  - subst k'. apply map_get_None in Hk. rewrite Hk. by rewrite map_get_set_eq.
  - destruct (map_get k b); [done|]. apply map_get_set_ne. congruence.
Qed.

(** [{ ...a, ...b }.k] for a JSON object [b]. *)
Lemma merge_props_prop k a b : json_object b ->
  prop k (Obj (merge_props a b)) = match prop k (Obj b) with Undefined => prop k (Obj a) | v => v end.
Proof.
  intros Hb. simpl. rewrite (merge_props_get _ _ _ (proj1 Hb)).
  destruct (map_get k b) as [v|] eqn:E; simpl; [|done].
  pose proof (json_object_get _ _ _ Hb E). by destruct v.
Qed.

Lemma prop_set_eq k v l : prop k (Obj (map_set k v l)) = v.
Proof. simpl. by rewrite map_get_set_eq. Qed.

Lemma prop_set_ne k k' v l : k <> k' -> prop k (Obj (map_set k' v l)) = prop k (Obj l).
Proof. intros ?. simpl. by rewrite map_get_set_ne. Qed.

Lemma prop_delete_eq k l : prop k (Obj (map_delete k l)) = Undefined.
Proof. simpl. by rewrite map_get_delete_eq. Qed.

Lemma prop_delete_ne k k' l : k <> k' -> prop k (Obj (map_delete k' l)) = prop k (Obj l).
Proof. intros ?. simpl. by rewrite map_get_delete_ne. Qed.

(** In execution order. *)
Definition HOOK_NAMES : list jstr :=
  ["preinstall"; "hosthook_aftercreation"; "install"; "postinstall"; "hosthook_postinstall"].

(** ** Values of the language *)

(** The code points of a text: a surrogate pair is one. *)
Fixpoint code_points (s : jstr) : list jstr :=
  match s with
  | [] => []
  | c :: r =>
      match r with
      | d :: r' =>
          if is_high_surrogate c && is_low_surrogate d
          then [c; d] :: code_points r'
          else [c] :: code_points r
      | [] => [[c]]
      end
  end.

(** The items of [...v] in an array. *)
Definition iterated (v : js) : result js_error (list js) :=
  match v with
  | Arr l => Ok l
  | Str s => Ok (Str <$> code_points s)
  | _ => Err TypeError
  end.

(** Equality of values that were parsed apart: an object is only itself. *)
Definition same_primitive (a b : js) : bool :=
  match a, b with
  | Undefined, Undefined | Null, Null => true
  | Bool a, Bool b => Bool.eqb a b
  | Num a, Num b => bool_decide (a = b)
  | Frac a, Frac b => jeqb a b
  | Str a, Str b => jeqb a b
  | _, _ => false
  end.

(** ** Environments *)

(** The name of an entry: up to the first [=] of a text. *)
Definition getVarName (entry : js) : js :=
  match entry with
  | Str s =>
      Str (match index_of 61 s with
           | Some eqIdx => take eqIdx s
           | None => s
           end)
  | Arr _ | Obj _ => js_or (prop "name" entry) (Str [])
  | _ => Str []
  end.

Definition named (entry : js) : bool := js_truthy (getVarName entry).

(** Both environments are lists. *)
Definition merge_env_lists (defaultEnv activeEnv : list js) : list js :=
  let result := bfilter named activeEnv in
  let seenVars := getVarName <$> result in
  result ++ bfilter (fun entry => named entry && negb (existsb (same_primitive (getVarName entry)) seenVars)) defaultEnv.

(** An entry of an object, as an entry of a list. *)
Definition env_entry (key : jstr) (val : js) : result js_error js :=
  match val with
  | Obj l =>
      let rest := map_delete "name" (map_delete "varName" l) in
      let varName := prop "varName" val in
      let sourceName := prop "name" val in
      Ok (Obj (merge_props (merge_props [("name", Str key)] rest)
                 (if negb (is_undefined varName) then [("varName", varName)]
                  else if negb (is_undefined sourceName) then [("varName", sourceName)] else [])))
  | Undefined | Str [] => Ok (Str key)
  | _ => s ← to_string val; Ok (Str (key ++ "=" ++ s))
  end.

Definition env_list (env : js) : result js_error (list js) :=
  match env with
  | Arr l => Ok l
  | Obj l => mapM_result (fun e => env_entry e.1 e.2) l
  | _ => Ok []
  end.

Definition is_array (v : js) : bool :=
  match v with
  | Arr _ => true
  | _ => false
  end.

Definition mergeEnv (defaultEnv activeEnv : js) : result js_error js :=
  if negb (is_array defaultEnv) && negb (is_array activeEnv) then
    Ok (Obj (merge_props (spread (js_or defaultEnv (Obj []))) (spread (js_or activeEnv (Obj [])))))
  else
    d ← env_list defaultEnv;
    a ← env_list activeEnv;
    Ok (Arr (merge_env_lists d a)).

(** ** Profiles *)

(** [if (active[k] !== undefined) merged[k] = active[k]] *)
Definition replace_field (activeProfile : js) (merged : list (jstr * js)) (key : jstr) : list (jstr * js) :=
  let value := prop key activeProfile in
  if is_undefined value then merged else set_prop key value merged.

Definition merge_secrets (defaultProfile activeProfile : js) (merged : list (jstr * js)) :
    result js_error (list (jstr * js)) :=
  let a := prop "secrets" activeProfile in
  let d := prop "secrets" defaultProfile in
  if js_truthy a || js_truthy d then
    ds ← iterated (js_or d (Arr []));
    as_ ← iterated (js_or a (Arr []));
    Ok (set_prop "secrets" (Arr (ds ++ as_)) merged)
  else Ok merged.

Definition merge_mounts (defaultProfile activeProfile : js) (merged : list (jstr * js)) : list (jstr * js) :=
  let a := prop "mounts" activeProfile in
  if js_truthy a
  then set_prop "mounts" (Obj (merge_props (spread (prop "mounts" defaultProfile)) (spread a))) merged
  else merged.

Definition merge_env_field (defaultProfile activeProfile : js) (merged : list (jstr * js)) :
    result js_error (list (jstr * js)) :=
  let a := prop "env" activeProfile in
  if is_undefined a then Ok merged
  else env ← mergeEnv (prop "env" defaultProfile) a; Ok (set_prop "env" env merged).

Definition mergeProfiles (defaultProfile activeProfile : js) : result js_error js :=
  if negb (js_truthy defaultProfile) then Ok (js_or activeProfile (Obj []))
  else if negb (js_truthy activeProfile) || same_primitive activeProfile defaultProfile then Ok defaultProfile
  else
    merged ← merge_env_field defaultProfile activeProfile (spread defaultProfile);
    let merged := fold_left (replace_field activeProfile) HOOK_NAMES merged in
    merged ← merge_secrets defaultProfile activeProfile merged;
    let merged := merge_mounts defaultProfile activeProfile merged in
    let merged := fold_left (replace_field activeProfile) ["openPorts"; "network"; "configProviders"] merged in
    mergeProfileHardwareLimits (Obj merged) defaultProfile activeProfile.

(** ** Resolution *)

Inductive profile_error : Type :=
  | ProfileNetwork (e : network_error)
  | ProfileNotFound (profileName : jstr) (* PLOINKY_PROFILE_NOT_FOUND *)
  | DefaultProfileMissing
  | ProfileThrown (e : js_error).

Notation profileR := (result profile_error).

Definition profile_net {A} (r : networkR A) : profileR A :=
  match r with
  | Ok a => Ok a
  | Err e => Err (ProfileNetwork e)
  end.

Definition profile_js {A} (r : result js_error A) : profileR A :=
  match r with
  | Ok a => Ok a
  | Err e => Err (ProfileThrown e)
  end.

Record resolved_profile : Type := ResolvedProfile {
  rp_requestedProfileName : jstr;
  rp_resolvedProfileName : jstr;
  rp_profileConfig : js;
  rp_network : network
}.

(** [String(name || d).trim().toLowerCase()] *)
Definition profile_name (v d : js) : result js_error jstr :=
  s ← to_string (js_or v d); Ok (to_lower (trim s)).

Definition resolveManifestProfile (manifest requestedProfileName : js) (explicit : bool) : profileR resolved_profile :=
  let source := source_of manifest in
  _ ← profile_net (validateManifestNetworks source);
  let profiles := if is_plain (prop "profiles" source) then prop "profiles" source else Obj [] in
  name ← profile_js (profile_name requestedProfileName (Str "default"));
  let requestedProfile := sor name "default" in
  match own_keys profiles with
  | [] =>
      if explicit && negb (jeqb requestedProfile "default") then Err (ProfileNotFound requestedProfile)
      else
        network ← profile_net (effectiveManifestNetwork source "default");
        Ok (ResolvedProfile requestedProfile "default" Null network)
  | _ =>
      let defaultProfile := prop "default" profiles in
      if negb (js_truthy defaultProfile) then Err DefaultProfileMissing
      else
        let requestedExists := has_own requestedProfile profiles in
        if negb requestedExists && explicit then Err (ProfileNotFound requestedProfile)
        else
          let resolvedProfileName := if requestedExists then requestedProfile else "default" in
          network ← profile_net (effectiveManifestNetwork source resolvedProfileName);
          mergedProfile ← profile_js
            (if jeqb resolvedProfileName "default" then Ok defaultProfile
             else mergeProfiles defaultProfile (prop resolvedProfileName profiles));
          Ok (ResolvedProfile requestedProfile resolvedProfileName
                (Obj (merge_props (spread mergedProfile) [("network", network_js network)])) network)
  end.

(** The names of the options, of the record and of the workspace. *)
Definition resolveManifestRuntimeProfile (manifest profileName persistedProfileName fallbackProfileName : js) :
    profileR resolved_profile :=
  optionProfileName ← profile_js (profile_name profileName (Str []));
  recordProfileName ← profile_js (profile_name persistedProfileName (Str []));
  fallback ← profile_js (profile_name fallbackProfileName (Str "default"));
  let globalProfileName := sor fallback "default" in
  let explicitProfileName := sor optionProfileName recordProfileName in
  resolveManifestProfile manifest (Str (sor explicitProfileName globalProfileName)) (truthy explicitProfileName).
