(* ===== verification/ProfileTheorems.v ===== *)
(** Hardware limits across profiles, environments and the resolution of a
    profile. *)

From stdpp Require Import prelude.
From Stdlib Require Import NArith.
From S2P Require Import Prelude.
From S2P Require Import JsString.
From S2P Require Import JsNumber.
From S2P Require Import JsMap.
From S2P Require Import JsValue.
From S2P Require Import NetworkContract.
From S2P Require Import ManifestContract.
From S2P Require Import RuntimePolicy.
From S2P Require Import ProfileMerge.
From S2P Require Import DeclaredLimits.

Local Open Scope js_scope.

(** ** Readings *)

(** The neutral field wins. *)
Definition pick (declared old : js) : js := if is_undefined declared then old else declared.

Definition value_of (r : reading) (field : jstr) : js := prop field (Obj (rd_values r)).

Definition conflicting (r : reading) (field : jstr) : Prop := exists c, c ∈ rd_conflicts r /\ cf_field c = field.

(** Both places declare the field, differently. *)
Definition clash (neutral legacy : js) (field : jstr) : Prop :=
  prop field neutral <> Undefined /\ prop field legacy <> Undefined /\
  sameDeclaredValue field (prop field neutral) (prop field legacy) = Ok false.

Lemma is_undefined_true v : is_undefined v = true <-> v = Undefined.
Proof. by destruct v. Qed.

Lemma is_undefined_not v : is_undefined v = false <-> v <> Undefined.
Proof. by destruct v. Qed.

Lemma optional_is_prop k v : optional k v = prop k v.
Proof. by destruct v. Qed.

(** One step: what it adds. *)
Lemma read_field_spec neutral legacy acc field acc' :
  read_field neutral legacy acc field = Ok acc' ->
  (forall g, value_of acc' g = if decide (g = field) then
     (if is_undefined (pick (prop field neutral) (prop field legacy)) then value_of acc g
      else pick (prop field neutral) (prop field legacy)) else value_of acc g) /\
  (forall g, conflicting acc' g <-> conflicting acc g \/ (g = field /\ clash neutral legacy field)).
Proof.
  unfold read_field. rewrite !optional_is_prop. set (d := prop field neutral). set (o := prop field legacy).
  set (values := if negb (is_undefined d) then _ else _). set (deprecated := if is_undefined o then _ else _).
  assert (forall g, prop g (Obj values) = if decide (g = field) then
     (if is_undefined (pick d o) then value_of acc g else pick d o) else value_of acc g) as Hv.
  { intros g. unfold values, pick, set_prop, value_of. destruct (is_undefined d) eqn:Hd; cbn [negb];
      [destruct (is_undefined o) eqn:Ho; cbn [negb]; [by destruct (decide _)|]|rewrite Hd];
      (destruct (decide (g = field)) as [->|?]; [by rewrite prop_set_eq|by rewrite prop_set_ne]). }
  assert (forall cs, (forall g, conflicting (Reading values deprecated (rd_conflicts acc ++ cs)) g <->
    conflicting acc g \/ exists c, c ∈ cs /\ cf_field c = g)) as Hc.
  { intros cs g. unfold conflicting. simpl. setoid_rewrite elem_of_app. firstorder. }
  assert (forall cs, (clash neutral legacy field -> exists v w, cs = [Conflict field v w]) ->
    (~ clash neutral legacy field -> cs = []) ->
    clash neutral legacy field \/ ~ clash neutral legacy field ->
    forall g, conflicting (Reading values deprecated (rd_conflicts acc ++ cs)) g <->
      conflicting acc g \/ (g = field /\ clash neutral legacy field)) as HC.
  { intros cs H1 H2 H3 g. rewrite Hc. f_equiv. destruct H3 as [H3|H3].
    - destruct (H1 H3) as (v & w & ->). setoid_rewrite list_elem_of_singleton. naive_solver.
    - rewrite (H2 H3). split; [by intros (c & []%not_elem_of_nil & _)|tauto]. }
  destruct (is_undefined d || is_undefined o) eqn:Hu.
  - intros [= <-]. split; [exact Hv|]. assert (~ clash neutral legacy field) as Hn.
    { intros (H1 & H2 & _). apply is_undefined_not in H1, H2. fold d in H1. fold o in H2. by rewrite H1, H2 in Hu. }
    rewrite <- (app_nil_r (rd_conflicts acc)). apply HC; tauto.
  - apply orb_false_iff in Hu as [Hd Ho]. apply is_undefined_not in Hd, Ho.
    intros ([] & Hs & H)%result_bind_Ok.
    + injection H as <-. split; [exact Hv|]. rewrite <- (app_nil_r (rd_conflicts acc)).
      assert (~ clash neutral legacy field) as Hn by (intros (_ & _ & E); fold d o in E; congruence). apply HC; tauto.
    + apply result_bind_Ok in H as (v & _ & H). apply result_bind_Ok in H as (w & _ & [= <-]).
      split; [exact Hv|]. assert (clash neutral legacy field) as Hn by done. apply HC; [eauto|tauto|tauto].
Qed.

Lemma read_fields_spec neutral legacy fields acc r : NoDup fields ->
  read_fields neutral legacy acc fields = Ok r ->
  (forall g, value_of r g = if decide (g ∈ fields) then
     (if is_undefined (pick (prop g neutral) (prop g legacy)) then value_of acc g
      else pick (prop g neutral) (prop g legacy)) else value_of acc g) /\
  (forall g, conflicting r g <-> conflicting acc g \/ (g ∈ fields /\ clash neutral legacy g)).
Proof.
  intros Hnd. revert acc. induction Hnd as [|field fields Hf _ IH]; intros acc; cbn [read_fields].
  - intros [= <-]. split; intros g; [by rewrite decide_False by apply not_elem_of_nil|].
    split; [by left|]. by intros [?|[[]%not_elem_of_nil _]].
  - intros (acc' & [Hv Hc]%read_field_spec & [Hv' Hc']%IH)%result_bind_Ok. split; intros g.
    + rewrite Hv', !Hv. destruct (decide (g = field)) as [->|Hne].
      * rewrite decide_False by done. by rewrite decide_True by apply list_elem_of_here.
      * destruct (decide (g ∈ fields)); [by rewrite decide_True by (apply elem_of_cons; auto)|].
        rewrite decide_False; [done|]. by intros [?|?]%elem_of_cons.
    + rewrite Hc', Hc, elem_of_cons. naive_solver.
Qed.

Lemma FIELDS_NoDup : NoDup DECLARED_LIMIT_FIELDS.
Proof. by apply (bool_decide_unpack _). Qed.

Lemma empty_value g : value_of empty_reading g = Undefined.
Proof. done. Qed.

Lemma empty_conflict g : ~ conflicting empty_reading g.
Proof. by intros (c & []%not_elem_of_nil & _). Qed.

(** What a layer declares, and where it conflicts. *)
Lemma reading_spec source r : readDeclaredLimits source = Ok r ->
  forall f, f ∈ DECLARED_LIMIT_FIELDS ->
  value_of r f = pick (prop f (neutralOf source)) (prop f (legacyOf source)) /\
  (conflicting r f <-> clash (neutralOf source) (legacyOf source) f).
Proof.
  intros [Hv Hc]%read_fields_spec f Hf; [|apply FIELDS_NoDup]. split.
  - rewrite Hv, decide_True, empty_value by done.
    destruct (is_undefined (pick _ _)) eqn:E; [by apply is_undefined_true in E as ->|done].
  - rewrite Hc. pose proof (empty_conflict f). tauto.
Qed.

(** A field that can be read. *)
Definition readable (neutral legacy : js) (f : jstr) : Prop :=
  prop f neutral = Undefined \/ prop f legacy = Undefined \/
  exists b, sameDeclaredValue f (prop f neutral) (prop f legacy) = Ok b.

Lemma read_field_total neutral legacy acc f :
  readable neutral legacy f <-> exists acc', read_field neutral legacy acc f = Ok acc'.
Proof.
  unfold readable, read_field. rewrite !optional_is_prop. set (d := prop f neutral). set (o := prop f legacy).
  destruct (is_undefined d) eqn:Hd; [apply is_undefined_true in Hd as ->; cbn [orb]; split; eauto|].
  destruct (is_undefined o) eqn:Ho; [apply is_undefined_true in Ho as ->; cbn [orb]; split; eauto|].
  apply is_undefined_not in Hd, Ho. cbn [orb]. split.
  - intros [?|[?|(b & Hb)]]; [done..|]. rewrite Hb. cbn [mbind result_bind]. destruct b; [eauto|].
    unfold sameDeclaredValue in Hb. apply result_bind_Ok in Hb as (l & -> & Hb). apply result_bind_Ok in Hb as (l' & -> & _).
    cbn [mbind result_bind]. eauto.
  - intros (acc' & (b & -> & _)%result_bind_Ok). eauto.
Qed.

Lemma read_fields_total neutral legacy fields acc :
  (forall f, f ∈ fields -> readable neutral legacy f) <-> exists r, read_fields neutral legacy acc fields = Ok r.
Proof.
  revert acc. induction fields as [|f fields IH]; intros acc; cbn [read_fields].
  - split; [eauto|]. by intros _ f []%not_elem_of_nil.
  - split.
    + intros H. destruct (proj1 (read_field_total neutral legacy acc f)) as [acc' ->]; [apply H, list_elem_of_here|].
      apply IH. intros g Hg. apply H. by apply elem_of_cons; right.
    + intros (r & (acc' & Ha & Hr)%result_bind_Ok) g [->|Hg]%elem_of_cons; [by apply (read_field_total _ _ acc); eauto|].
      by apply (proj2 (IH acc')); eauto.
Qed.

Lemma readDeclaredLimits_total source :
  (exists r, readDeclaredLimits source = Ok r) <->
  forall f, f ∈ DECLARED_LIMIT_FIELDS -> readable (neutralOf source) (legacyOf source) f.
Proof. symmetry. apply read_fields_total. Qed.

Lemma conflictOf_spec source r f b : readDeclaredLimits source = Ok r -> conflictOf source f = Ok b ->
  b = true <-> conflicting r f.
Proof.
  intros Hr. unfold conflictOf. rewrite Hr. cbn [mbind result_bind]. intros [= <-].
  rewrite existsb_exists. unfold conflicting. setoid_rewrite jeqb_eq. setoid_rewrite list_elem_of_In. done.
Qed.

(** ** Merged limits *)

Section Merge.
Context (d s : js) (rd rs : reading).
Hypotheses (Hd : readDeclaredLimits d = Ok rd) (Hs : readDeclaredLimits s = Ok rs).

Definition conflicts_b (r : reading) (f : jstr) : bool := existsb (fun c => jeqb (cf_field c) f) (rd_conflicts r).

Definition merged_limit (f : jstr) (old : js) : js :=
  if conflicts_b rs f then prop f (neutralOf s)
  else if conflicts_b rd f then prop f (neutralOf d)
  else pick (value_of rs f) (pick (value_of rd f) old).

Definition kept_limit (f : jstr) (old : js) : js :=
  if conflicts_b rs f then prop f (legacyOf s) else if conflicts_b rd f then prop f (legacyOf d) else old.

Lemma merge_limit_spec limits kept f : exists limits' kept',
  merge_limit d s rd rs (limits, kept) f = Ok (limits', kept') /\
  (forall g, prop g (Obj limits') = if decide (g = f) then merged_limit f (prop f (Obj limits)) else prop g (Obj limits)) /\
  (forall g, prop g (Obj kept') = if decide (g = f) then kept_limit f (prop f (Obj kept)) else prop g (Obj kept)) /\
  (map_wf kept -> map_wf kept').
Proof.
  unfold merge_limit, conflictOf. rewrite Hs, Hd. cbn [mbind result_bind].
  fold (conflicts_b rs f) (conflicts_b rd f). unfold merged_limit, kept_limit, declared_in, set_prop.
  change (prop f (Obj (rd_values rs))) with (value_of rs f). change (prop f (Obj (rd_values rd))) with (value_of rd f).
  assert (forall (l : list (jstr * js)) v g, prop g (Obj (map_set f v l)) = if decide (g = f) then v else prop g (Obj l)) as Hset.
  { intros l v g. destruct (decide (g = f)) as [->|?]; [apply prop_set_eq|by apply prop_set_ne]. }
  assert (forall (l : list (jstr * js)) g, prop g (Obj l) = if decide (g = f) then prop f (Obj l) else prop g (Obj l)) as Hkeep.
  { intros l g. by destruct (decide (g = f)) as [->|]. }
  destruct (conflicts_b rs f); [|destruct (conflicts_b rd f)].
  - eexists _, _. split; [done|]. repeat split; intros; try apply Hset; by apply map_wf_set.
  - eexists _, _. split; [done|]. repeat split; intros; try apply Hset; by apply map_wf_set.
  - unfold pick. destruct (is_undefined (value_of rs f)); cbn [negb];
      [destruct (is_undefined (value_of rd f)); cbn [negb]|];
      (eexists _, _; split; [done|]; repeat split; intros; first [done|apply Hset|apply Hkeep]).
Qed.

Lemma merge_limits_spec fields limits kept : NoDup fields -> exists limits' kept',
  merge_limits d s rd rs (limits, kept) fields = Ok (limits', kept') /\
  (forall g, prop g (Obj limits') = if decide (g ∈ fields) then merged_limit g (prop g (Obj limits)) else prop g (Obj limits)) /\
  (forall g, prop g (Obj kept') = if decide (g ∈ fields) then kept_limit g (prop g (Obj kept)) else prop g (Obj kept)) /\
  (map_wf kept -> map_wf kept').
Proof.
  intros Hnd. revert limits kept. induction Hnd as [|f fields Hf _ IH]; intros limits kept; cbn [merge_limits].
  - exists limits, kept. split; [done|]. repeat split; intros; try done; by rewrite decide_False by apply not_elem_of_nil.
  - destruct (merge_limit_spec limits kept f) as (l1 & k1 & -> & Hl1 & Hk1 & Hw1). cbn [mbind result_bind].
    destruct (IH l1 k1) as (l2 & k2 & -> & Hl2 & Hk2 & Hw2). exists l2, k2. split; [done|].
    assert (forall (F : jstr -> js -> js) (a b c : jstr -> js),
      (forall g, b g = if decide (g = f) then F f (a f) else a g) ->
      (forall g, c g = if decide (g ∈ fields) then F g (b g) else b g) ->
      forall g, c g = if decide (g ∈ f :: fields) then F g (a g) else a g) as Hstep.
    { intros F a b c Hb Hc g. rewrite Hc, Hb. destruct (decide (g = f)) as [->|Hne].
      - rewrite decide_False by done. by rewrite decide_True by apply list_elem_of_here.
      - destruct (decide (g ∈ fields)); [by rewrite decide_True by (apply elem_of_cons; auto)|].
        rewrite decide_False; [done|]. by intros [?|?]%elem_of_cons. }
    split; [by apply (Hstep merged_limit (fun g => prop g (Obj limits)) (fun g => prop g (Obj l1)) (fun g => prop g (Obj l2)))|].
    split; [by apply (Hstep kept_limit (fun g => prop g (Obj kept)) (fun g => prop g (Obj k1)) (fun g => prop g (Obj k2)))|].
    auto.
Qed.

Lemma prop_or_null k v : prop k (or_null v) = prop k v.
Proof. by destruct v. Qed.

Lemma or_null_plain v : is_plain v = true -> or_null v = v.
Proof. unfold or_null. by intros ->. Qed.

Lemma delete_fields_prop (l : list (jstr * js)) f : f ∈ DECLARED_LIMIT_FIELDS -> map_get f (delete_fields l) = None.
Proof.
  intros Hf. unfold delete_fields, DECLARED_LIMIT_FIELDS in *. cbn [fold_left]. rewrite !map_get_delete.
  apply elem_of_cons in Hf as [->|Hf]; [by repeat case_decide|].
  apply elem_of_cons in Hf as [->|Hf]; [by repeat case_decide|]. apply list_elem_of_singleton in Hf as ->. by repeat case_decide.
Qed.

(** The merged object declares the merged limits, and keeps the conflicts. *)
Lemma merged_layer m out :
  existsb (fun field => declared_in rd field || declared_in rs field) DECLARED_LIMIT_FIELDS = true ->
  mergeProfileHardwareLimits (Obj m) d s = Ok out ->
  forall f, f ∈ DECLARED_LIMIT_FIELDS ->
  prop f (neutralOf out) = merged_limit f Undefined /\ prop f (legacyOf out) = kept_limit f Undefined.
Proof.
  intros Hdecl. unfold mergeProfileHardwareLimits. rewrite Hd, Hs. cbn [mbind result_bind]. rewrite Hdecl. cbn [negb].
  destruct (merge_limits_spec DECLARED_LIMIT_FIELDS [] [] FIELDS_NoDup) as (limits & kept & -> & Hl & Hk & Hw).
  cbn [mbind result_bind]. intros [= <-] f Hf. specialize (Hl f). specialize (Hk f).
  rewrite decide_True in Hl, Hk by done. change (prop f (Obj [])) with Undefined in Hl, Hk. assert (map_wf kept) as Hwk by (apply Hw; constructor).
  set (out0 := map_set ("hardwareLimits" : jstr) (Obj limits) m).
  assert (prop "hardwareLimits" (Obj out0) = Obj limits) as H0 by apply prop_set_eq.
  set (policy := runtimePolicyOf (Obj m)). set (inherited := or_null (optional "resources" (or_null policy))).
  unfold neutralOf, legacyOf, runtimePolicyOf. rewrite !optional_is_prop.
  destruct (is_plain inherited || match kept with [] => false | _ => true end) eqn:E.
  - unfold set_prop. rewrite prop_set_ne by done. rewrite H0, prop_set_eq. split; [exact Hl|].
    rewrite !prop_set_eq. change (or_null (Obj ?l)) with (Obj l).
    cbn [prop]. rewrite merge_props_get, delete_fields_prop by done. rewrite <- Hk. cbn [prop].
    by destruct (map_get f kept).
  - rewrite H0. split; [exact Hl|]. apply orb_false_iff in E as [Ep Ek]. destruct kept; [|done].
    rewrite <- Hk. unfold out0. rewrite prop_set_ne by done.
    unfold inherited, policy, runtimePolicyOf in Ep. rewrite !optional_is_prop, prop_or_null in Ep.
    by destruct (prop "resources" _).
Qed.
End Merge.

(** ** Profiles *)

Lemma replace_field_other p out key k : k <> key -> prop k (Obj (replace_field p out key)) = prop k (Obj out).
Proof. intros Hk. unfold replace_field, set_prop. destruct (is_undefined _); [done|by apply prop_set_ne]. Qed.

Lemma replace_fields_other p keys out k : k ∉ keys ->
  prop k (Obj (fold_left (replace_field p) keys out)) = prop k (Obj out).
Proof.
  revert out. induction keys as [|key keys IH]; intros out; cbn [fold_left]; [done|].
  intros [Hk Hks]%not_elem_of_cons. rewrite IH by done. by apply replace_field_other.
Qed.

Lemma merge_env_field_other d s l l' k : k <> "env" -> merge_env_field d s l = Ok l' -> prop k (Obj l') = prop k (Obj l).
Proof.
  intros Hk. unfold merge_env_field. destruct (is_undefined _); [by intros [= <-]|].
  intros (env & _ & [= <-])%result_bind_Ok. by apply prop_set_ne.
Qed.

Lemma merge_secrets_other d s l l' k : k <> "secrets" -> merge_secrets d s l = Ok l' -> prop k (Obj l') = prop k (Obj l).
Proof.
  intros Hk. unfold merge_secrets. destruct (_ || _); [|by intros [= <-]].
  intros (ds & _ & (ss & _ & [= <-])%result_bind_Ok)%result_bind_Ok. by apply prop_set_ne.
Qed.

Lemma merge_mounts_other d s l k : k <> "mounts" -> prop k (Obj (merge_mounts d s l)) = prop k (Obj l).
Proof. intros Hk. unfold merge_mounts, set_prop. destruct (js_truthy _); [by apply prop_set_ne|done]. Qed.

(** The profile before the limits: what the default profile says of them. *)
Lemma merged_profile d s m : is_plain d = true -> is_plain s = true -> mergeProfiles d s = Ok m ->
  exists l, mergeProfileHardwareLimits (Obj l) d s = Ok m /\
    prop "hardwareLimits" (Obj l) = prop "hardwareLimits" d /\ prop "llmRuntime" (Obj l) = prop "llmRuntime" d.
Proof.
  intros Hd Hs. destruct d as [| | | | | | |ld]; try done. destruct s as [| | | | | | |ls]; try done.
  unfold mergeProfiles. change (negb (js_truthy (Obj ld))) with false.
  change (negb (js_truthy (Obj ls)) || same_primitive (Obj ls) (Obj ld)) with false. cbv iota.
  intros (l1 & H1 & (l2 & H2 & Hm)%result_bind_Ok)%result_bind_Ok. eexists. split; [exact Hm|].
  assert (forall k, one_of k (["env"; "secrets"; "mounts"; "openPorts"; "network"; "configProviders"] ++ HOOK_NAMES) = false ->
    prop k (Obj (fold_left (replace_field (Obj ls)) ["openPorts" : jstr; "network"; "configProviders"] (merge_mounts (Obj ld) (Obj ls) l2))) =
    prop k (Obj ld)) as H.
  { intros k Hk'. rewrite <- not_true_iff_false, one_of_elem in Hk'.
    apply not_elem_of_app in Hk' as [Hk1 Hk2]. rewrite !not_elem_of_cons in Hk1. destruct Hk1 as (? & ? & ? & ? & ? & ? & _).
    rewrite replace_fields_other by (rewrite !not_elem_of_cons; repeat split; try done; apply not_elem_of_nil).
    rewrite merge_mounts_other by done. rewrite (merge_secrets_other _ _ _ _ _ ltac:(done) H2).
    rewrite replace_fields_other by done. by rewrite (merge_env_field_other _ _ _ _ _ ltac:(done) H1). }
  split; by apply H.
Qed.

Lemma conflicts_b_spec r f : conflicts_b r f = true <-> conflicting r f.
Proof.
  unfold conflicts_b. rewrite existsb_exists. unfold conflicting. setoid_rewrite jeqb_eq.
  by setoid_rewrite list_elem_of_In.
Qed.

Lemma undeclared_values rd rs f : f ∈ DECLARED_LIMIT_FIELDS ->
  existsb (fun field => declared_in rd field || declared_in rs field) DECLARED_LIMIT_FIELDS = false ->
  value_of rd f = Undefined /\ value_of rs f = Undefined.
Proof.
  intros Hf H. destruct (declared_in rd f || declared_in rs f) eqn:E.
  - rewrite <- not_true_iff_false, existsb_exists in H. destruct H. exists f. split; [by apply list_elem_of_In|done].
  - apply orb_false_iff in E as [E1 E2]. unfold declared_in in *. rewrite negb_false_iff in E1, E2.
    split; by apply is_undefined_true.
Qed.

(** Where each field of a merged profile comes from. *)
Lemma merged_cases d s rd rs l m : readDeclaredLimits d = Ok rd -> readDeclaredLimits s = Ok rs ->
  existsb (fun field => declared_in rd field || declared_in rs field) DECLARED_LIMIT_FIELDS = true ->
  mergeProfileHardwareLimits (Obj l) d s = Ok m -> forall f, f ∈ DECLARED_LIMIT_FIELDS ->
  (conflicting rs f /\ prop f (neutralOf m) = prop f (neutralOf s) /\ prop f (legacyOf m) = prop f (legacyOf s)) \/
  (~ conflicting rs f /\ conflicting rd f /\ prop f (neutralOf m) = prop f (neutralOf d) /\
    prop f (legacyOf m) = prop f (legacyOf d)) \/
  (~ conflicting rs f /\ ~ conflicting rd f /\ prop f (neutralOf m) = pick (value_of rs f) (value_of rd f) /\
    prop f (legacyOf m) = Undefined).
Proof.
  intros Erd Ers E Hm f Hf. destruct (merged_layer d s rd rs Erd Ers l m E Hm f Hf) as [H1 H2].
  unfold merged_limit, kept_limit in H1, H2.
  pose proof (conflicts_b_spec rs f) as Bs. pose proof (conflicts_b_spec rd f) as Bd.
  destruct (conflicts_b rs f); [left; split; [by apply Bs|done]|right].
  assert (~ conflicting rs f) as Ns by (intros N%Bs; done).
  destruct (conflicts_b rd f); [left; split; [done|]; split; [by apply Bd|done]|right].
  assert (~ conflicting rd f) as Nd by (intros N%Bd; done).
  assert (pick (value_of rd f) Undefined = value_of rd f) as P by (unfold pick; by destruct (value_of rd f)).
  by rewrite P in H1.
Qed.

(** C18. Hardware limits are merged per key.  When two profiles merge, the
    merged profile can be read as a layer, and each of memory, cpus and
    pidsLimit has the value the selected profile declares, in the neutral field
    or under the deprecated path, or else the default profile's; a field is in
    conflict in the merged profile exactly when it is in one of the two raw
    profiles, so inheriting a value is never a conflict and no conflict is
    lost. *)
Theorem profile_limits_merged d s m : is_plain d = true -> is_plain s = true -> mergeProfiles d s = Ok m ->
  exists rd rs rm, readDeclaredLimits d = Ok rd /\ readDeclaredLimits s = Ok rs /\ readDeclaredLimits m = Ok rm /\
    forall f, f ∈ DECLARED_LIMIT_FIELDS ->
      (conflicting rm f <-> conflicting rs f \/ conflicting rd f) /\
      (~ conflicting rm f -> value_of rm f = pick (value_of rs f) (value_of rd f)).
Proof.
  intros Hd Hs (l & Hm & Hh & Hl)%merged_profile; [|done..].
  assert (exists rd rs, readDeclaredLimits d = Ok rd /\ readDeclaredLimits s = Ok rs) as (rd & rs & Erd & Ers).
  { apply result_bind_Ok in Hm as (rd & ? & Hm). apply result_bind_Ok in Hm as (rs & ? & _). eauto. }
  exists rd, rs. pose proof (reading_spec d rd Erd) as Sd. pose proof (reading_spec s rs Ers) as Ss.
  destruct (existsb (fun field => declared_in rd field || declared_in rs field) DECLARED_LIMIT_FIELDS) eqn:E.
  - pose proof (merged_cases d s rd rs l m Erd Ers E Hm) as Hcases.
    assert (exists rm, readDeclaredLimits m = Ok rm) as [rm Hrm].
    { apply readDeclaredLimits_total. intros f Hf. unfold readable.
      destruct (Hcases f Hf) as [(_ & -> & ->)|[(_ & _ & -> & ->)|(_ & _ & _ & ->)]]; [| |by right; left].
      - apply (proj1 (readDeclaredLimits_total s)); eauto.
      - apply (proj1 (readDeclaredLimits_total d)); eauto. }
    exists rm. split; [done|]. split; [done|]. split; [done|]. intros f Hf.
    destruct (reading_spec m rm Hrm f Hf) as [-> ->]. destruct (Sd f Hf) as [_ Cd]. destruct (Ss f Hf) as [_ Cs].
    unfold clash in *. destruct (Hcases f Hf) as [(C & -> & ->)|[(C & C' & -> & ->)|(C & C' & -> & ->)]].
    + rewrite <- Cs. tauto.
    + rewrite <- Cd. tauto.
    + split; [split; [by intros (_ & [] & _)|tauto]|]. intros _. unfold pick. by destruct (value_of rs f), (value_of rd f).
  - assert (Obj l = m) as <-.
    { unfold mergeProfileHardwareLimits in Hm. rewrite Erd, Ers in Hm. cbn [mbind result_bind] in Hm. rewrite E in Hm.
      by injection Hm. }
    assert (neutralOf (Obj l) = neutralOf d /\ legacyOf (Obj l) = legacyOf d) as [Hn Hle].
    { unfold neutralOf, legacyOf, runtimePolicyOf. rewrite !optional_is_prop. by rewrite Hh, Hl. }
    exists rd. split; [done|]. split; [done|]. split.
    { unfold readDeclaredLimits. by rewrite Hn, Hle. }
    intros f Hf. destruct (undeclared_values rd rs f Hf E) as [Vd Vs]. rewrite Vd, Vs. split; [|done].
    destruct (Ss f Hf) as [V C]. split; [by right|]. intros [Hc|Hc]; [|done]. apply C in Hc as (Hc & _).
    rewrite Vs in V. unfold pick in V. destruct (is_undefined (prop f (neutralOf s))) eqn:Eu; [by apply is_undefined_true in Eu|].
    by rewrite <- V in Hc.
Qed.

Definition sample_default_profile : js :=
  Obj [("hardwareLimits", Obj [("memory", Str "1g"); ("pidsLimit", Num (Fin 64))]); ("env", Arr [Str "A=1"; Str "B=2"]);
       ("install", Str "setup"); ("secrets", Arr [Str "S"])].

Definition sample_selected_profile : js :=
  Obj [("llmRuntime", Obj [("runtimePolicy", Obj [("resources", Obj [("memory", Str "2g"); ("cpus", Str "0.5")])])]);
       ("env", Obj [("B", Str "3")]); ("install", Str "other")].

Lemma profile_limits_merged_witness :
  exists m, mergeProfiles sample_default_profile sample_selected_profile = Ok m /\
    prop "hardwareLimits" m = Obj [("memory", Str "2g"); ("cpus", Str "0.5"); ("pidsLimit", Num (Fin 64))] /\
    prop "env" m = Arr [Str "B=3"; Str "A=1"] /\
    exists rd rs rm, readDeclaredLimits sample_default_profile = Ok rd /\
      readDeclaredLimits sample_selected_profile = Ok rs /\ readDeclaredLimits m = Ok rm /\
      forall f, f ∈ DECLARED_LIMIT_FIELDS -> conflicting rm f <-> conflicting rs f \/ conflicting rd f.
Proof.
  assert (exists m, mergeProfiles sample_default_profile sample_selected_profile = Ok m /\
    prop "hardwareLimits" m = Obj [("memory" : jstr, Str "2g"); ("cpus" : jstr, Str "0.5"); ("pidsLimit" : jstr, Num (Fin 64))] /\
    prop "env" m = Arr [Str "B=3"; Str "A=1"]) as (m & Hm & Hl & He) by (vm_compute; by eexists).
  exists m. split; [exact Hm|]. split; [exact Hl|]. split; [exact He|].
  destruct (profile_limits_merged sample_default_profile sample_selected_profile m eq_refl eq_refl Hm) as (rd & rs & rm & H1 & H2 & H3 & H).
  exists rd, rs, rm. split; [exact H1|]. split; [exact H2|]. split; [exact H3|]. intros f Hf. exact (proj1 (H f Hf)).
Defined.

(** ** Environments *)

Definition has_name (n : jstr) (entry : js) : bool := is_str (getVarName entry) n.

Lemma find_first_app {A} (f : A -> bool) a b :
  find_first f (a ++ b) = match find_first f a with Some x => Some x | None => find_first f b end.
Proof. induction a as [|x a IH]; cbn [app find_first]; [done|]. by destruct (f x). Qed.

Lemma find_first_filter {A} (f g : A -> bool) l : (forall x, x ∈ l -> f x = true -> g x = true) ->
  find_first f (bfilter g l) = find_first f l.
Proof.
  induction l as [|x l IH]; cbn [bfilter find_first]; [done|]. intros H.
  rewrite <- IH by (intros y Hy; apply H; by apply elem_of_cons; right).
  destruct (f x) eqn:E; [rewrite (H x (list_elem_of_here _ _) E); cbn [find_first]; by rewrite E|].
  destruct (g x); cbn [find_first]; by rewrite ?E.
Qed.

Lemma has_name_named n e : n <> [] -> has_name n e = true -> named e = true.
Proof. unfold has_name, named. intros Hn ->%is_str_eq. by destruct n. Qed.

(** The selected profile's environment wins.  Where either environment is
    a list, the first entry of the merged list with a given name is the
    selected profile's first entry of that name, and the default profile's if
    it has none; where both are objects, a variable has the selected profile's
    value, and the default one's if it has none. *)
Theorem env_precedence d a n : n <> [] ->
  (forall l, mergeEnv d a = Ok (Arr l) -> exists dl al, env_list d = Ok dl /\ env_list a = Ok al /\
     find_first (has_name n) l =
     match find_first (has_name n) al with
     | Some entry => Some entry
     | None => find_first (has_name n) dl
     end) /\
  (forall dl al, d = Obj dl -> a = Obj al -> json_object al ->
     exists l, mergeEnv d a = Ok (Obj l) /\ prop n (Obj l) = pick (prop n a) (prop n d)).
Proof.
  intros Hn. split.
  - intros l. unfold mergeEnv. destruct (negb (is_array d) && negb (is_array a)); [done|].
    intros (dl & Hd & (al & Ha & [= <-])%result_bind_Ok)%result_bind_Ok. exists dl, al. split; [done|]. split; [done|].
    unfold merge_env_lists. rewrite find_first_app, (find_first_filter _ named) by (intros x _; by apply has_name_named).
    destruct (find_first (has_name n) al) as [e|] eqn:E; [done|]. apply find_first_filter. intros x Hx Hname.
    rewrite (has_name_named n x Hn Hname). cbn [andb]. apply negb_true_iff, not_true_iff_false.
    intros (v & Hv & Heq)%existsb_exists. apply list_elem_of_In, list_elem_of_fmap in Hv as (y & -> & [Hy _]%elem_of_bfilter).
    unfold has_name in Hname. apply is_str_eq in Hname. rewrite Hname in Heq.
    assert (has_name n y = true) as Hny.
    { unfold has_name. destruct (getVarName y); try done. simpl in *. apply jeqb_eq in Heq as <-. apply jeqb_refl. }
    by rewrite (proj1 (find_first_None _ _) E y Hy) in Hny.
  - intros dl al -> -> Hj. unfold mergeEnv. cbn [is_array negb andb]. eexists. split; [done|].
    rewrite merge_props_prop by done. unfold pick. change (spread (js_or (Obj al) (Obj []))) with al.
    change (spread (js_or (Obj dl) (Obj []))) with dl. by destruct (prop n (Obj al)).
Qed.

Lemma env_precedence_witness :
  exists l, mergeEnv (Arr [Str "A=1"; Str "B=2"]) (Obj [("B", Str "3")]) = Ok (Arr l) /\
    find_first (has_name "B") l = Some (Str "B=3") /\
    exists dl al, env_list (Arr [Str "A=1"; Str "B=2"]) = Ok dl /\ env_list (Obj [("B", Str "3")]) = Ok al.
Proof.
  exists [Str "B=3"; Str "A=1"].
  assert (mergeEnv (Arr [Str "A=1"; Str "B=2"]) (Obj [("B" : jstr, Str "3")]) = Ok (Arr [Str "B=3"; Str "A=1"])) as H
    by (by vm_compute).
  split; [exact H|]. split; [by vm_compute|].
  assert (("B" : jstr) <> []) as Hn by discriminate.
  destruct (proj1 (env_precedence _ _ _ Hn) _ H) as (dl & al & Hd & Ha & _).
  exists dl, al. split; [exact Hd|exact Ha].
Defined.

(** ** Resolution *)

Lemma profile_net_Ok {A} (r : networkR A) a : profile_net r = Ok a -> r = Ok a.
Proof. destruct r; [|done]. by intros [= ->]. Qed.

(** A profile is resolved as one selection.  The network of a resolved
    profile is the manifest's effective network for the resolved name, and the
    profile's configuration carries that same network; an explicit selection
    resolves to the requested profile and no other; a selection that is not
    explicit falls back to the default profile only when the manifest does not
    declare the requested one. *)
Theorem profile_resolution_atomic manifest requested explicit r :
  resolveManifestProfile manifest requested explicit = Ok r ->
  effectiveManifestNetwork (source_of manifest) (rp_resolvedProfileName r) = Ok (rp_network r) /\
  (rp_profileConfig r = Null \/ prop "network" (rp_profileConfig r) = network_js (rp_network r)) /\
  (explicit = true -> rp_resolvedProfileName r = rp_requestedProfileName r) /\
  (rp_resolvedProfileName r <> rp_requestedProfileName r ->
     rp_resolvedProfileName r = "default" /\
     has_own (rp_requestedProfileName r) (prop "profiles" (source_of manifest)) = false).
Proof.
  unfold resolveManifestProfile. intros (u & _ & H)%result_bind_Ok. apply result_bind_Ok in H as (name & _ & H).
  set (profiles := if is_plain _ then _ else _) in H. set (requestedProfile := sor name "default") in H.
  assert (own_keys profiles = [] -> has_own requestedProfile (prop "profiles" (source_of manifest)) = false) as Hempty.
  { unfold profiles. destruct (prop "profiles" (source_of manifest)) as [| | | | | | |[|[] ?]]; done. }
  assert (has_own requestedProfile profiles = has_own requestedProfile (prop "profiles" (source_of manifest))) as Hsame.
  { unfold profiles. by destruct (prop "profiles" (source_of manifest)). }
  destruct (own_keys profiles) as [|key keys] eqn:Hkeys.
  - destruct (explicit && negb (jeqb requestedProfile "default")) eqn:E; [done|].
    apply result_bind_Ok in H as (network & Hn%profile_net_Ok & [= <-]). cbn. split; [done|]. split; [by left|]. split.
    + intros ->. cbn [andb] in E. apply negb_false_iff, jeqb_eq in E. done.
    + intros _. split; [done|by apply Hempty].
  - destruct (negb (js_truthy (prop "default" profiles))); [done|].
    destruct (has_own requestedProfile profiles) eqn:Ho.
    + cbn [negb andb] in H. apply result_bind_Ok in H as (network & Hn%profile_net_Ok & H).
      apply result_bind_Ok in H as (merged & _ & [= <-]). cbn [rp_resolvedProfileName rp_requestedProfileName rp_network rp_profileConfig].
      split; [done|]. split; [right; apply prop_set_eq|]. done.
    + cbn [negb andb] in H. destruct explicit; [done|]. apply result_bind_Ok in H as (network & Hn%profile_net_Ok & H).
      apply result_bind_Ok in H as (merged & _ & [= <-]). cbn [rp_resolvedProfileName rp_requestedProfileName rp_network rp_profileConfig].
      split; [done|]. split; [right; apply prop_set_eq|]. split; [done|]. intros _. split; [done|]. by rewrite <- Hsame.
Qed.

Definition sample_profiles : js :=
  Obj [("profiles", Obj [("default", sample_default_profile); ("qa", sample_selected_profile)])].

Lemma profile_resolution_atomic_witness :
  exists r, resolveManifestProfile sample_profiles (Str " QA ") true = Ok r /\ rp_resolvedProfileName r = "qa" /\
    rp_resolvedProfileName r = rp_requestedProfileName r.
Proof.
  assert (exists r, resolveManifestProfile sample_profiles (Str " QA ") true = Ok r /\ rp_resolvedProfileName r = "qa")
    as (r & Hr & Hq) by (vm_compute; by eexists).
  exists r. split; [exact Hr|]. split; [exact Hq|].
  exact (proj1 (proj2 (proj2 (profile_resolution_atomic _ _ _ r Hr))) eq_refl).
Defined.
