(* ===== verification/RequestHash.v ===== *)
(** The request-content hash [rch] that the router signs and an agent
    recomputes: [src/Agent/lib/requestHash.mjs].  Data are written as strict
    canonical JSON and hashed; each kind of request hashes an object of its
    fields. *)

From stdpp Require Import prelude sorting.
From Stdlib Require Import NArith.
From S2P Require Import Prelude.
From S2P Require Import JsString.
From S2P Require Import JsNumber.
From S2P Require Import JsMap.
From S2P Require Import JsValue.
From S2P Require Import JsJson.
From S2P Require Import JsBytes.
From S2P Require Import AgentPort.
From S2P Require Import HttpRoutePath.

Local Open Scope js_scope.

(** What the functions throw; [Language] is an error of the language itself, from
    a value that has no text. *)
Inductive hash_error : Type :=
  | UndefinedValue
  | NonFiniteNumber
  | PortsNotArray
  | InvalidPort (raw : jstr)
  | PortOutOfRange (raw : jstr)
  | DenySetMismatch
  | InvalidRelayPort (raw : jstr)
  | Language (e : js_error).

#[export] Instance hash_error_eq_dec : EqDecision hash_error.
Proof. solve_decision. Defined.

(** ** Canonical JSON *)

(** The text of a field whose value has the text [r]. *)
Definition canonical_field (e : jstr * result hash_error jstr) : result hash_error jstr :=
  t ← e.2; Ok (json_quote e.1 ++ ":" ++ t).

Fixpoint canonicalJson (value : js) : result hash_error jstr :=
  match value with
  | Undefined => Err UndefinedValue
  | Null => Ok "null"
  | Num (Fin z) => Ok (string_of_Z z)
  | Num _ => Err NonFiniteNumber
  | Frac text => Ok text
  | Bool b => Ok (if b then "true" else "false")
  | Str s => Ok (json_quote s)
  | Arr l => items ← mapM_result (fun r => r) (canonicalJson <$> l); Ok ("[" ++ join "," items ++ "]")
  | Obj l =>
      parts ← mapM_result canonical_field
        (stable_sort (fun a b => unit_le a.1 b.1) ((fun e => (e.1, canonicalJson e.2)) <$> l));
      Ok ("{" ++ join "," parts ++ "}")
  end.

(** ** Digests *)

(** [createHash('sha256').update(bytes).digest('base64url')] of [node:crypto]. *)
Class Sha256Url := sha256_url : bytes -> jstr.

(** A request body as the callers hold it: nothing, a string or a [Buffer]. *)
Inductive raw_body : Type :=
  | NoBody
  | TextBody (s : jstr)
  | BufferBody (b : bytes).

(** [String(v ?? '')], [String(v || '')] *)
Definition nullish_text (v : js) : result hash_error jstr :=
  match to_string (js_nullish v (Str [])) with
  | Ok s => Ok s
  | Err e => Err (Language e)
  end.

Definition falsy_text (v : js) : result hash_error jstr :=
  match to_string (js_or v (Str [])) with
  | Ok s => Ok s
  | Err e => Err (Language e)
  end.

Section Hashes.
Context `{Sha256Url}.

Definition sha256b64url (input : jstr) : jstr := sha256_url (utf8_bytes input).

Definition sha256RawBodyHash (body : raw_body) : jstr :=
  sha256_url
    match body with
    | NoBody => []
    | TextBody s => utf8_bytes s
    | BufferBody b => b
    end.

Definition computeRch (input : js) : result hash_error jstr :=
  text ← canonicalJson input; Ok (sha256b64url text).

(** ** Requests *)

Definition computeRchHttp (method path query bodyHash : js) : result hash_error jstr :=
  method ← nullish_text method;
  path ← nullish_text path;
  query ← nullish_text query;
  bodyHash ← nullish_text bodyHash;
  computeRch (Obj [("method", Str method); ("path", Str path); ("query", Str query);
    ("bodyHash", Str bodyHash)]).

Definition computeRchTool (method path tool args : js) : result hash_error jstr :=
  method ← nullish_text method;
  path ← nullish_text path;
  tool ← nullish_text tool;
  computeRch (Obj [("method", Str method); ("path", Str path); ("tool", Str tool);
    ("arguments", js_nullish args (Obj []))]).

(** ** Denied ports *)

Definition canonical_port (value : js) : result hash_error Z :=
  raw ← nullish_text value;
  if negb (PORT_PATTERN raw) then Err (InvalidPort raw)
  else
    let port := decimal_value raw in
    if (port <? 1)%Z || (65535 <? port)%Z then Err (PortOutOfRange raw) else Ok port.

Definition normalizeCanonicalPortSet (values : js) : result hash_error (list Z) :=
  match values with
  | Undefined => Ok []
  | Arr l => ports ← mapM_result canonical_port l; Ok (merge_sort Z.le (remove_dups ports))
  | _ => Err PortsNotArray
  end.

Definition port_values (ports : list Z) : js := Arr ((fun z => Num (Fin z)) <$> ports).

Definition computeRelayDenySetDigest (deniedPorts : js) : result hash_error jstr :=
  ports ← normalizeCanonicalPortSet deniedPorts;
  computeRch (Obj [("deniedPorts", port_values ports)]).

(** ** Relays *)

(** The identity of a relay: the fields a session and its requests share. *)
Record relay_identity : Type := RelayIdentity {
  ri_targetAgentId : js;
  ri_effectiveInstanceId : js;
  ri_enableGeneration : js;
  ri_containerId : js;
  ri_generationDigest : js;
  ri_relaySessionId : js
}.

(** The fields of an identity as they are hashed. *)
Definition identity_fields (i : relay_identity) : result hash_error (list (jstr * js)) :=
  targetAgentId ← nullish_text (ri_targetAgentId i);
  effectiveInstanceId ← nullish_text (ri_effectiveInstanceId i);
  enableGeneration ← nullish_text (ri_enableGeneration i);
  containerId ← nullish_text (ri_containerId i);
  generationDigest ← nullish_text (ri_generationDigest i);
  relaySessionId ← nullish_text (ri_relaySessionId i);
  Ok [("targetAgentId", Str targetAgentId); ("effectiveInstanceId", Str effectiveInstanceId);
      ("enableGeneration", Str enableGeneration); ("containerId", Str containerId);
      ("generationDigest", Str generationDigest); ("relaySessionId", Str relaySessionId)].

Definition computeRchRelaySession (identity : relay_identity) (deniedPorts denySetDigest : js) :
    result hash_error jstr :=
  ports ← normalizeCanonicalPortSet deniedPorts;
  computed ← computeRelayDenySetDigest (port_values ports);
  given ← (if js_truthy denySetDigest then nullish_text denySetDigest else Ok computed);
  if negb (jeqb given computed) then Err DenySetMismatch
  else
    fields ← identity_fields identity;
    computeRch (Obj (fields ++ [("deniedPorts", port_values ports); ("denySetDigest", Str computed)])).

(** What a relayed request asks for. *)
Record relay_surface : Type := RelaySurface {
  rs_denySetDigest : js;
  rs_method : js;
  rs_port : js;
  rs_path : js;
  rs_query : js;
  rs_bodyMode : js;
  rs_bodyHash : js
}.

Definition computeRchRelayRequest (identity : relay_identity) (surface : relay_surface) :
    result hash_error jstr :=
  canonicalPort ← nullish_text (rs_port surface);
  if negb (PORT_PATTERN canonicalPort) || (65535 <? decimal_value canonicalPort)%Z
  then Err (InvalidRelayPort canonicalPort)
  else
    fields ← identity_fields identity;
    denySetDigest ← nullish_text (rs_denySetDigest surface);
    method ← nullish_text (rs_method surface);
    path ← nullish_text (rs_path surface);
    query ← nullish_text (rs_query surface);
    bodyMode ← nullish_text (rs_bodyMode surface);
    bodyHash ← nullish_text (rs_bodyHash surface);
    computeRch (Obj (fields ++
      [("denySetDigest", Str denySetDigest); ("method", Str (to_upper method));
       ("port", Str canonicalPort); ("path", Str path); ("query", Str query);
       ("bodyMode", Str bodyMode); ("bodyHash", Str bodyHash)])).
End Hashes.

Example canonical_order :
  canonicalJson (Obj [("b", Arr [Num (Fin 1); Null]); ("a", Bool true)]) =
  Ok ([123; 34; 97; 34; 58]%N ++ "true,"%js ++ [34; 98; 34; 58]%N ++ "[1,null]}"%js) /\
  canonicalJson (Arr [Num NaN; Undefined]) = Err NonFiniteNumber.
Proof. by vm_compute. Qed.
