(* ===== verification/RequestHashTheorems.v ===== *)
(** The request hash binds what it hashes: canonical JSON determines the data up
    to the order of keys, so two requests with one hash are the same request,
    or two texts with one digest are at hand. *)

From stdpp Require Import prelude sorting.
From Stdlib Require Import NArith.
From S2P Require Import Prelude.
From S2P Require Import JsString.
From S2P Require Import JsNumber.
From S2P Require Import JsMap.
From S2P Require Import JsValue.
From S2P Require Import JsDecimal.
From S2P Require Import JsJson.
From S2P Require Import JsBytes.
From S2P Require Import AgentPort.
From S2P Require Import HttpRoutePath.
From S2P Require Import NetworkContract.
From S2P Require Import CanonicalHash.
From S2P Require Import RequestHash.

Local Open Scope js_scope.

(** ** The data of requests *)

(** A fraction is written with a point or a negative exponent. *)
Definition frac_ok (text : jstr) : bool :=
  forallb number_unit text && existsb (fun c => (c =? 46)%N || (c =? 101)%N) text &&
  match text with
  | c :: _ => is_digit c || (c =? 45)%N
  | [] => false
  end.

Fixpoint data_ok (v : js) : bool :=
  match v with
  | Frac text => frac_ok text
  | Str s => units_ok s
  | Arr l => forallb data_ok l
  | Obj l => bool_decide (NoDup l.*1) && forallb (fun e => units_ok e.1 && data_ok e.2) l
  | _ => true
  end.

(** ** What a text starts with *)

Definition token_class (c : N) : N := if is_digit c || (c =? 45)%N then 45 else c.

Definition value_class (v : js) : N :=
  match v with
  | Undefined => 0
  | Null => 110
  | Bool true => 116
  | Bool false => 102
  | Num _ | Frac _ => 45
  | Str _ => 34
  | Arr _ => 91
  | Obj _ => 123
  end.

Lemma number_head z : exists c r, string_of_Z z = c :: r /\ token_class c = 45%N.
Proof.
  pose proof (string_of_Z_units z) as H. destruct (string_of_Z z) as [|c r] eqn:E.
  - destruct z as [|p|p]; try done.
    destruct (string_of_N_spec (Npos p)) as (ds & Hs & _ & _ & Hne). simpl in E. congruence.
  - exists c, r. split; [done|]. unfold token_class. simpl in H. by apply andb_true_iff in H as [-> _].
Qed.

Lemma canonical_head v s : data_ok v = true -> canonicalJson v = Ok s ->
  exists c r, s = c :: r /\ token_class c = value_class v.
Proof.
  destruct v as [| |b|[]|t|u|l|l]; simpl; intros Hv E; try done; try (injection E as <-).
  - by eexists _, _.
  - destruct b; by eexists _, _.
  - apply number_head.
  - unfold frac_ok in Hv. apply andb_true_iff in Hv as [_ Hv]. destruct t as [|c t]; [done|].
    exists c, t. split; [done|]. unfold token_class. by rewrite Hv.
  - by eexists _, _.
  - apply result_bind_Ok in E as (ts & _ & [= <-]). by eexists _, _.
  - apply result_bind_Ok in E as (ts & _ & [= <-]). by eexists _, _.
Qed.

(** ** Sequences of texts

    [T a s]: [s] is a text of [a].  A text is unambiguous when whatever starts
    with it, and goes on with something that is no number, determines [a] up to
    [eqv]. *)

Section Sequences.
Context {A : Type} (T : A -> jstr -> Prop) (eqv : A -> A -> Prop) (close : N).

Definition unambiguous (a : A) : Prop :=
  forall b s t x y, T a s -> T b t -> stops x = true -> stops y = true -> s ++ x = t ++ y -> eqv a b /\ x = y.

Hypothesis head_open : forall a s, T a s -> exists c r, s = c :: r /\ c <> close.
Hypothesis close_stops : stops [close] = true.
Hypothesis close_comma : close <> 44%N.

(** The rest of a sequence after an element. *)
Definition tail_text (ss : list jstr) (x : jstr) : jstr :=
  match ss with
  | [] => close :: x
  | _ => 44%N :: join "," ss ++ close :: x
  end.

Lemma join_tail s ss x : join "," (s :: ss) ++ close :: x = s ++ tail_text ss x.
Proof. destruct ss as [|s' ss]; [done|]. rewrite join_cons by done. by rewrite <- !app_assoc. Qed.

Lemma tail_stops ss x : stops (tail_text ss x) = true.
Proof. by destruct ss. Qed.

Lemma sequence_unambiguous l m ss ts x y :
  Forall unambiguous l -> Forall2 T l ss -> Forall2 T m ts ->
  join "," ss ++ close :: x = join "," ts ++ close :: y -> Forall2 eqv l m /\ x = y.
Proof.
  intros Hl. revert m ss ts. induction Hl as [|a l Ha _ IH]; intros m ss ts.
  - intros ->%Forall2_nil_inv_l Hm E. destruct Hm as [|b t m ts Hb Hm].
    + injection E as ->. by split.
    + rewrite join_tail in E. destruct (head_open _ _ Hb) as (c & r & -> & Hc). by injection E.
  - intros (s & ss' & Hs & Hss & ->)%Forall2_cons_inv_l Hm E. rewrite join_tail in E.
    destruct Hm as [|b t m ts Hb Hm].
    + destruct (head_open _ _ Hs) as (c & r & -> & Hc). by injection E.
    + rewrite join_tail in E.
      destruct (Ha b s t _ _ Hs Hb (tail_stops _ _) (tail_stops _ _) E) as [Hab E'].
      destruct Hss as [|a' s' l ss Ha' Hss], Hm as [|b' t' m ts Hb' Hm]; cbn [tail_text] in E'.
      * injection E' as ->. by split; [constructor|].
      * by injection E'.
      * by injection E'.
      * injection E' as E'. destruct (IH (b' :: m) (s' :: ss) (t' :: ts)) as [H ->]; [by constructor..|done|].
        by split; [constructor|].
Qed.
End Sequences.

(** ** Unambiguous values *)

Definition value_text (v : js) (s : jstr) : Prop := data_ok v = true /\ canonicalJson v = Ok s.

Definition same_data (v w : js) : Prop := canonical v = canonical w.

Definition field_text (e : jstr * js) (s : jstr) : Prop :=
  units_ok e.1 = true /\ exists t, value_text e.2 t /\ s = json_quote e.1 ++ ":" ++ t.

Definition same_field (e f : jstr * js) : Prop := e.1 = f.1 /\ same_data e.2 f.2.

Lemma field_unambiguous e :
  unambiguous value_text same_data e.2 -> unambiguous field_text same_field e.
Proof.
  intros He f s t x y (Hk & v & Hv & ->) (Hk' & w & Hw & ->) Hx Hy E.
  rewrite <- !app_assoc in E. apply json_quote_prefix in E as [Hkk E]; try done.
  injection E as E. destruct (He _ _ _ _ _ Hv Hw Hx Hy E) as [Hd ->]. done.
Qed.

Lemma canonical_items l :
  canonical (Arr l) = Arr (canonical <$> l).
Proof. done. Qed.

(** The fields of an object in order. *)
Definition ordered_fields (l : list (jstr * js)) : list (jstr * js) :=
  stable_sort (fun a b => unit_le a.1 b.1) l.

Lemma canonical_fields l :
  canonical (Obj l) = Obj ((fun e => (e.1, canonical e.2)) <$> ordered_fields l).
Proof.
  unfold ordered_fields.
  rewrite <- (stable_sort_fmap _ (fun a b => unit_le a.1 b.1) (fun e => (e.1, canonical e.2))) by done.
  simpl. do 2 f_equal. induction l as [|[k x] l IH]; [done|]. simpl. by f_equal.
Qed.

Lemma items_text l s : value_text (Arr l) s ->
  exists ss, Forall2 value_text l ss /\ s = "[" ++ join "," ss ++ "]".
Proof.
  intros [Hok (ss & Hss & [= <-])%result_bind_Ok]. exists ss. split; [|done].
  apply mapM_result_Forall2, Forall2_fmap_l in Hss. simpl in Hok.
  rewrite forallb_forall in Hok. apply Forall2_same_length_lookup. split; [by eapply Forall2_length|].
  intros i v t Hv Ht. split; [|by eapply (Forall2_lookup_lr _ _ _ _ _ _ Hss)].
  apply Hok, list_elem_of_In. by eapply list_elem_of_lookup_2.
Qed.

Lemma fields_text l s : value_text (Obj l) s ->
  exists ss, Forall2 field_text (ordered_fields l) ss /\ s = "{" ++ join "," ss ++ "}".
Proof.
  intros [Hok (ss & Hss & [= <-])%result_bind_Ok]. exists ss. split; [|done].
  rewrite (stable_sort_fmap (fun a b => unit_le a.1 b.1)) in Hss by done. fold (ordered_fields l) in Hss.
  apply mapM_result_Forall2, Forall2_fmap_l in Hss. simpl in Hok. apply andb_true_iff in Hok as [_ Hok].
  rewrite forallb_forall in Hok. apply Forall2_same_length_lookup. split; [by eapply Forall2_length|].
  intros i e t He Ht. pose proof (Forall2_lookup_lr _ _ _ _ _ _ Hss He Ht) as H.
  apply result_bind_Ok in H as (u & Hu & [= <-]). simpl in *.
  assert (e ∈ l) as Hin.
  { rewrite <- (stable_sort_Permutation (fun a b => unit_le a.1 b.1)). by eapply list_elem_of_lookup_2. }
  apply list_elem_of_In, Hok, andb_true_iff in Hin as [Hk Hv]. split; [done|]. by exists u.
Qed.

(** Texts that agree start alike, so their values are of one kind. *)
Lemma same_class v w s t x y :
  value_text v s -> value_text w t -> s ++ x = t ++ y -> value_class v = value_class w.
Proof.
  intros [Hv Es] [Hw Et] E.
  destruct (canonical_head v s Hv Es) as (c & r & -> & <-), (canonical_head w t Hw Et) as (d & q & -> & <-).
  by injection E as ->.
Qed.

Lemma integer_units z : forallb number_unit (string_of_Z z) = true.
Proof.
  pose proof (string_of_Z_units z) as H. rewrite forallb_forall in H |- *. intros c Hc.
  specialize (H c Hc). unfold number_unit. apply orb_true_iff in H as [-> | ->%N.eqb_eq]; done.
Qed.

Lemma fraction_integer t z : frac_ok t = true -> t <> string_of_Z z.
Proof.
  unfold frac_ok. intros [[_ H]%andb_true_iff _]%andb_true_iff ->.
  apply existsb_exists in H as (c & Hc & H). pose proof (string_of_Z_units z) as Hz.
  rewrite forallb_forall in Hz. specialize (Hz c Hc).
  apply orb_true_iff in H as [->%N.eqb_eq | ->%N.eqb_eq]; done.
Qed.

(** The text of a number, with what it excludes. *)
Definition number_text (v : js) (s : jstr) : Prop :=
  match v with
  | Num (Fin z) => s = string_of_Z z
  | Frac t => s = t /\ frac_ok t = true
  | _ => False
  end.

Lemma number_value v s : value_class v = 45%N -> value_text v s -> number_text v s /\ forallb number_unit s = true.
Proof.
  destruct v as [| |[]|[| |z|]|t| | |]; intros Hc [Hv Es]; try done; simpl in *; injection Es as <-.
  - split; [done|apply integer_units].
  - split; [done|]. unfold frac_ok in Hv. by rewrite !andb_true_iff in Hv; destruct Hv as [[? _] _].
Qed.

Lemma number_unambiguous v : value_class v = 45%N -> unambiguous value_text same_data v.
Proof.
  intros Hc w s t x y Hv Hw Hx Hy E.
  assert (value_class w = 45%N) as Hc' by (by rewrite <- (same_class v w s t x y Hv Hw E)).
  destruct (number_value v s Hc Hv) as [Hs Hsu], (number_value w t Hc' Hw) as [Ht Htu].
  destruct (number_prefix s t x y Hsu Htu Hx Hy E) as [-> ->]. split; [|done].
  destruct v as [| | |[]| | | |], w as [| | |[]| | | |]; try done; simpl in Hs, Ht; unfold same_data.
  - subst. by apply string_of_Z_inj in Ht as ->.
  - destruct Ht as [-> Ht]. by destruct (fraction_integer _ z Ht).
  - destruct Hs as [-> Hs]. by destruct (fraction_integer _ z Hs).
  - by destruct Hs as [<- _], Ht as [<- _].
Qed.

Lemma items_unambiguous l :
  Forall (unambiguous value_text same_data) l -> unambiguous value_text same_data (Arr l).
Proof.
  intros Hl w s t x y Hv Hw Hx Hy E. pose proof (same_class _ _ _ _ _ _ Hv Hw E) as Hc.
  destruct w as [| |[]| | | |m|]; try done.
  destruct (items_text _ _ Hv) as (ss & Hss & ->), (items_text _ _ Hw) as (ts & Hts & ->).
  rewrite <- !app_assoc in E. injection E as E.
  destruct (sequence_unambiguous value_text same_data 93) with (l := l) (m := m) (ss := ss) (ts := ts)
    (x := x) (y := y) as [H ->]; try done.
  - intros a u [Ha Hu]. destruct (canonical_head a u Ha Hu) as (c & r & -> & Hcl). exists c, r.
    split; [done|]. intros ->. by destruct a as [| |[]| | | | |].
  - split; [|done]. unfold same_data. rewrite !canonical_items. f_equal.
    apply list_eq_Forall2, Forall2_fmap. eapply Forall2_impl; [exact H|]. done.
Qed.

Lemma fields_unambiguous l :
  Forall (fun e => unambiguous value_text same_data e.2) l -> unambiguous value_text same_data (Obj l).
Proof.
  intros Hl w s t x y Hv Hw Hx Hy E. pose proof (same_class _ _ _ _ _ _ Hv Hw E) as Hc.
  destruct w as [| |[]| | | | |m]; try done.
  destruct (fields_text _ _ Hv) as (ss & Hss & ->), (fields_text _ _ Hw) as (ts & Hts & ->).
  rewrite <- !app_assoc in E. injection E as E.
  destruct (sequence_unambiguous field_text same_field 125) with (l := ordered_fields l)
    (m := ordered_fields m) (ss := ss) (ts := ts) (x := x) (y := y) as [H ->]; try done.
  - intros a u (_ & v & _ & ->). by eexists _, _.
  - unfold ordered_fields. rewrite stable_sort_Permutation.
    eapply Forall_impl; [exact Hl|]. apply field_unambiguous.
  - split; [|done]. unfold same_data. rewrite !canonical_fields. f_equal.
    apply list_eq_Forall2, Forall2_fmap. eapply Forall2_impl; [exact H|].
    intros [k a] [k' b] [Hk Hd]. simpl in *. unfold same_data in Hd. congruence.
Qed.

Lemma value_unambiguous v : unambiguous value_text same_data v.
Proof.
  induction v as [| |b|n|u|u|l IH|l IH] using js_nested_ind; try by apply number_unambiguous.
  - by intros ? ? ? ? ? [_ [=]].
  - intros w s t x y Hv Hw _ _ E. pose proof (same_class _ _ _ _ _ _ Hv Hw E) as Hc.
    destruct w as [| |[]| | | | |]; try done. destruct Hv as [_ [= <-]], Hw as [_ [= <-]]. by injection E.
  - intros w s t x y Hv Hw _ _ E. pose proof (same_class _ _ _ _ _ _ Hv Hw E) as Hc.
    destruct b, w as [| |[]| | | | |]; try done; destruct Hv as [_ [= <-]], Hw as [_ [= <-]]; by injection E.
  - intros w s t x y Hv Hw _ _ E. pose proof (same_class _ _ _ _ _ _ Hv Hw E) as Hc.
    destruct w as [| |[]| | |u'| |]; try done. destruct Hv as [Hu [= <-]], Hw as [Hu' [= <-]].
    by apply json_quote_prefix in E as [-> ->].
  - by apply items_unambiguous.
  - by apply fields_unambiguous.
Qed.

(** Canonical JSON is a faithful name of the data. *)
Lemma canonicalJson_faithful v w s : value_text v s -> value_text w s -> same_data v w.
Proof.
  intros Hv Hw. by apply (value_unambiguous v w s s [] [] Hv Hw).
Qed.

(** ** The order of keys *)

Lemma unit_le_total a b : unit_le a b = false -> unit_le b a = true.
Proof.
  revert b. induction a as [|c a IH]; intros [|d b]; simpl; try done.
  intros [H1%N.ltb_ge H2]%orb_false_iff. destruct (N.eqb_spec c d) as [->|].
  - rewrite N.ltb_irrefl, N.eqb_refl. simpl in H2 |- *. by apply IH.
  - by rewrite (proj2 (N.ltb_lt d c)) by lia.
Qed.

Lemma unit_le_trans a b c : unit_le a b = true -> unit_le b c = true -> unit_le a c = true.
Proof.
  revert b c. induction a as [|x a IH]; intros [|y b] [|z c]; simpl; try done.
  rewrite !orb_true_iff, !andb_true_iff, !N.ltb_lt, !N.eqb_eq.
  intros [?|[-> ?]] [?|[-> ?]]; [left; lia|by left|by left|right]. split; [done|]. by eapply IH.
Qed.

Lemma unit_le_antisym a b : unit_le a b = true -> unit_le b a = true -> a = b.
Proof.
  revert b. induction a as [|x a IH]; intros [|y b]; simpl; try done.
  rewrite !orb_true_iff, !andb_true_iff, !N.ltb_lt, !N.eqb_eq.
  intros [?|[-> ?]] [?|[? ?]]; try lia. f_equal. by apply IH.
Qed.

Lemma ordered_fields_again l : ordered_fields (ordered_fields l) = ordered_fields l.
Proof.
  unfold ordered_fields. apply stable_sort_id, stable_sort_sorted; intros *.
  - apply unit_le_total.
  - apply unit_le_trans.
Qed.

Lemma canonicalJson_fields l :
  canonicalJson (Obj l) =
  parts ← mapM_result (fun e => canonical_field (e.1, canonicalJson e.2)) (ordered_fields l);
  Ok ("{" ++ join "," parts ++ "}").
Proof.
  simpl. rewrite (stable_sort_fmap (fun a b => unit_le a.1 b.1)) by done. fold (ordered_fields l).
  f_equal. induction (ordered_fields l) as [|e k IH]; [done|]. cbn [fmap list_fmap mapM_result].
  by rewrite IH.
Qed.

Lemma mapM_result_fmap {E A B C} (f : B -> result E C) (g : A -> B) l :
  mapM_result f (g <$> l) = mapM_result (fun a => f (g a)) l.
Proof. induction l as [|a l IH]; [done|]. cbn [fmap list_fmap mapM_result]. by rewrite IH. Qed.

Lemma mapM_result_ext {E A B} (f g : A -> result E B) l :
  Forall (fun a => f a = g a) l -> mapM_result f l = mapM_result g l.
Proof. induction 1 as [|a l Ha _ IH]; [done|]. simpl. by rewrite Ha, IH. Qed.

(** The text depends on the data alone, not on the order of its keys. *)
Lemma canonicalJson_canonical v : canonicalJson (canonical v) = canonicalJson v.
Proof.
  induction v as [| | | | | |l IH|l IH] using js_nested_ind; try done.
  - rewrite canonical_items. simpl. rewrite <- list_fmap_compose. f_equal. f_equal.
    apply list_fmap_ext. intros i x Hx. by apply (proj1 (Forall_lookup _ _) IH i).
  - rewrite canonical_fields, !canonicalJson_fields. unfold ordered_fields at 1.
    rewrite (stable_sort_fmap (fun a b => unit_le a.1 b.1)) by done. fold (ordered_fields (ordered_fields l)).
    rewrite ordered_fields_again, mapM_result_fmap. f_equal. apply mapM_result_ext.
    unfold ordered_fields. rewrite stable_sort_Permutation. eapply Forall_impl; [exact IH|].
    simpl. by intros e ->.
Qed.

Lemma canonicalJson_same v w : same_data v w -> canonicalJson v = canonicalJson w.
Proof. intros H. by rewrite <- canonicalJson_canonical, H, canonicalJson_canonical. Qed.

(** Fields in another order are the same data. *)
Lemma same_data_permuted l m : NoDup l.*1 -> l ≡ₚ m -> same_data (Obj l) (Obj m).
Proof.
  intros Hl Hp. unfold same_data. rewrite !canonical_fields. do 2 f_equal.
  apply stable_sort_unique; [| |intros [k a] [k' b] Ha Hb H1 H2|done].
  - intros x y. apply unit_le_total.
  - intros x y z. apply unit_le_trans.
  - assert (k = k') as <- by (by apply unit_le_antisym). f_equal.
    assert (map_get k l = Some a /\ map_get k l = Some b) as [H3 H4] by (by split; apply map_get_in).
    congruence.
Qed.

(** ** Digests *)

Lemma join_well_formed ts : Forall (fun t => well_formed t = true) ts -> well_formed (join "," ts) = true.
Proof.
  induction 1 as [|t ts Ht Hts IH]; [done|]. destruct ts as [|u ts]; [done|].
  rewrite join_cons by done. by repeat apply well_formed_app.
Qed.

Lemma json_quote_well_formed s : units_ok s = true -> well_formed (json_quote s) = true.
Proof. intros H. unfold json_quote. simpl. by rewrite json_units_well_formed. Qed.

Lemma number_well_formed s : forallb number_unit s = true -> well_formed s = true.
Proof.
  intros H. rewrite <- (app_nil_r s), well_formed_plain; [done|].
  rewrite forallb_forall in H |- *. intros c Hc. specialize (H c Hc). unfold number_unit, is_digit in H.
  unfold plain_unit. apply orb_true_iff in H as [[_ H%N.leb_le]%andb_true_iff | H].
  - apply N.ltb_lt. lia.
  - apply one_of_elem in H. repeat (apply elem_of_cons in H as [[= ->]|H]; [done|]). by apply not_elem_of_nil in H.
Qed.

(** Canonical text has no lone surrogate, so UTF-8 keeps it apart from any other. *)
Lemma canonical_well_formed v s : value_text v s -> well_formed s = true.
Proof.
  revert s. induction v as [| |b|n|u|u|l IH|l IH] using js_nested_ind; intros s Hv.
  - by destruct Hv.
  - by destruct Hv as [_ [= <-]].
  - by destruct b, Hv as [_ [= <-]].
  - by apply number_well_formed, (number_value (Num n)).
  - by apply number_well_formed, (number_value (Frac u)).
  - destruct Hv as [Hu [= <-]]. by apply json_quote_well_formed.
  - destruct (items_text l s Hv) as (ss & Hss & ->). apply (well_formed_app "["); [done|].
    apply well_formed_app; [|done]. apply join_well_formed.
    clear Hv. induction Hss as [|v t l ss Ht _ IHs]; [constructor|].
    inversion_clear IH as [|?? Hv IHl]. constructor; auto.
  - destruct (fields_text l s Hv) as (ss & Hss & ->). apply (well_formed_app "{"); [done|].
    apply well_formed_app; [|done]. apply join_well_formed.
    assert (Forall (fun e => forall s, value_text e.2 s -> well_formed s = true) (ordered_fields l)) as IH'
      by (unfold ordered_fields; by rewrite stable_sort_Permutation).
    clear Hv IH. induction Hss as [|e t k ss (Hk & u & Hu & ->) _ IHs]; [constructor|].
    inversion_clear IH' as [|?? Hv IHl]. constructor; [|auto].
    apply well_formed_app; [by apply json_quote_well_formed|]. apply (well_formed_app ":"); [done|auto].
Qed.

Section Digests.
Context `{Sha256Url}.

(** Two different byte sequences with one digest. *)
Definition collide (a b : bytes) : Prop := a <> b /\ sha256_url a = sha256_url b.

Lemma digest_faithful s t :
  well_formed s = true -> well_formed t = true -> sha256b64url s = sha256b64url t ->
  s = t \/ collide (utf8_bytes s) (utf8_bytes t).
Proof.
  intros Hs Ht E. destruct (decide (s = t)) as [|Hne]; [by left|right].
  split; [|done]. intros H'. by apply utf8_bytes_inj in H'.
Qed.

(** The canonical texts of two data are such sequences. *)
Definition data_collide (v w : js) : Prop :=
  exists s t, canonicalJson v = Ok s /\ canonicalJson w = Ok t /\ collide (utf8_bytes s) (utf8_bytes t).

Lemma hash_determines v w h :
  data_ok v = true -> data_ok w = true -> computeRch v = Ok h -> computeRch w = Ok h ->
  same_data v w \/ data_collide v w.
Proof.
  intros Hv Hw (s & Hs & [= <-])%result_bind_Ok (t & Ht & [= E])%result_bind_Ok.
  destruct (digest_faithful s t) as [-> | Hc];
    [by eapply (canonical_well_formed v)|by eapply (canonical_well_formed w)|done| |].
  - left. by apply (canonicalJson_faithful v w t).
  - right. by exists s, t.
Qed.

(** C24. The request hash is a name of the data, as the router and the agents need
    it: canonical JSON is the same text exactly for data that differ in
    nothing but the order of their keys, and data with one hash differ in
    nothing else, unless their canonical texts are a collision of SHA-256. *)
Theorem request_hash_names_data v w s :
  data_ok v = true -> data_ok w = true -> canonicalJson v = Ok s ->
  (canonicalJson w = Ok s <-> same_data v w) /\
  (computeRch w = computeRch v -> same_data v w \/ data_collide v w).
Proof.
  intros Hv Hw Hs. split; [split|].
  - intros Ht. by apply (canonicalJson_faithful v w s).
  - intros E. by rewrite <- (canonicalJson_same v w E).
  - intros E. apply (hash_determines v w (sha256b64url s)); [done..| |rewrite E];
      unfold computeRch; by rewrite Hs.
Qed.
End Digests.

(** A request as an agent receives it, its keys in another order. *)
Definition sample_call : js :=
  Obj [("tool", Str "search"); ("arguments", Obj [("q", Str [233; 10]%N); ("limit", Num (Fin 5))])].

Definition sample_call' : js :=
  Obj [("arguments", Obj [("limit", Num (Fin 5)); ("q", Str [233; 10]%N)]); ("tool", Str "search")].

Theorem request_hash_names_data_witness :
  exists s, canonicalJson sample_call = Ok s /\ canonicalJson sample_call' = Ok s.
Proof.
  assert (exists s, canonicalJson sample_call = Ok s) as [s Hs] by (vm_compute; by eexists).
  exists s. split; [exact Hs|].
  apply (request_hash_names_data (H := fun b => b) sample_call sample_call' s eq_refl eq_refl Hs).
  by vm_compute.
Defined.
