(* ===== verification/AgentReference.v ===== *)
(** References to enabled agents: [src/cli/utils/agentRegistryResolver.js].

    A registry is the object of the registry file; the order of its entries is
    that of [Object.entries].  The messages of errors are not represented, the
    references they list are. *)

From stdpp Require Import prelude.
From Stdlib Require Import NArith.
From S2P Require Import Prelude.
From S2P Require Import JsString.
From S2P Require Import JsNumber.
From S2P Require Import JsMap.
From S2P Require Import JsValue.
From S2P Require Import HttpRoutePath.
From S2P Require Import HttpRouteCompiler.
From S2P Require Import JsDecimal.
From S2P Require Import HttpRouteFacts.

Local Open Scope js_scope.

Definition RESERVED_AGENT_REGISTRY_KEYS : list jstr := ["_config"].
Definition RESERVED_LOG_TARGET : jstr := "router".
Definition MAX_DIAGNOSTIC_AGENT_REFERENCES : nat := 20.

(** ** Spellings the log command can read *)

Definition is_control (c : N) : bool := ((c <=? 31) || ((127 <=? c) && (c <=? 159)))%N.

(** [UNSAFE_LOG_REFERENCE_CHARACTERS.test(s)] *)
Definition unsafe_characters (s : jstr) : bool := existsb (fun c => is_space c || is_control c) s.

(** [COUNT_SHAPED_LOG_REFERENCE.test(s)] *)
Definition count_shaped (s : jstr) : bool :=
  match s with
  | c :: r =>
      is_digit c ||
      (((c =? 43) || (c =? 46))%N &&
       match r with
       | d :: _ => is_digit d
       | [] => false
       end)
  | [] => false
  end.

Definition isUsableLogReferenceCandidate (candidate : jstr) : bool :=
  truthy candidate && negb (jeqb candidate RESERVED_LOG_TARGET) && negb (starts_with candidate "-") &&
  negb (count_shaped candidate) && negb (unsafe_characters candidate).

Definition text (v : js) : jstr :=
  match v with
  | Str s => trim s
  | _ => []
  end.

(** ** The index of a registry *)

(** An entry of the registry: its key, the name of the container, and its
    record. *)
Definition agent_entry : Type := jstr * js.

(** [Object.entries(v)] of an object. *)
Definition object_entries (v : js) : list agent_entry :=
  match v with
  | Obj l => l
  | Arr l => imap (fun i x => (string_of_N (N.of_nat i), x)) l
  | _ => []
  end.

Definition is_enabled (e : agent_entry) : bool :=
  negb (one_of e.1 RESERVED_AGENT_REGISTRY_KEYS) && is_truthy_object e.2 && is_str (prop "type" e.2) "agent".

Definition enabledAgentEntries (registry : js) : list agent_entry :=
  if is_truthy_object registry then bfilter is_enabled (object_entries registry) else [].

Notation reference_map := (jmap jstr (list agent_entry)).

Definition appendIndex (index : reference_map) (key : jstr) (e : agent_entry) : reference_map :=
  if negb (truthy key) then index
  else
    match map_get key index with
    | Some matches => map_set key (matches ++ [e]) index
    | None => map_set key [e] index
    end.

Definition alias_name (e : agent_entry) : jstr := text (optional "alias" e.2).
Definition repo_name (e : agent_entry) : jstr := text (optional "repoName" e.2).
Definition agent_name (e : agent_entry) : jstr := text (optional "agentName" e.2).

(** [`${repoName}\0${agentName}`] *)
Definition qualified_key (repoName agentName : jstr) : jstr := repoName ++ [0%N] ++ agentName.

Definition index_key (e : agent_entry) : jstr :=
  if truthy (repo_name e) && truthy (agent_name e) then qualified_key (repo_name e) (agent_name e) else [].

Record reference_index : Type := ReferenceIndex {
  ri_entries : list agent_entry;
  ri_byContainer : jmap jstr js;
  ri_aliases : reference_map;
  ri_qualified : reference_map;
  ri_names : reference_map
}.

(** The loop that fills one of the maps. *)
Definition index_by (key : agent_entry -> jstr) (l : list agent_entry) : reference_map :=
  fold_left (fun index e => appendIndex index (key e) e) l [].

Definition buildReferenceIndex (registry : js) : reference_index :=
  let entries := enabledAgentEntries registry in
  ReferenceIndex entries (fold_left (fun m e => map_set e.1 e.2 m) entries [])
    (index_by alias_name entries) (index_by index_key entries) (index_by agent_name entries).

(** ** Qualified references *)

Definition is_separator (c : N) : bool := ((c =? 58) || (c =? 47))%N.

(** The two parts of a text with one separator. *)
Fixpoint split_separator (s : jstr) : jstr * jstr :=
  match s with
  | [] => ([], [])
  | c :: r => if is_separator c then ([], r) else let '(a, b) := split_separator r in (c :: a, b)
  end.

Inductive qualification : Type :=
  | Unqualified
  | Malformed
  | Qualified (repoName agentName : jstr).

Definition parseQualifiedAgentReference (input : jstr) : qualification :=
  match length (bfilter is_separator input) with
  | 0 => Unqualified
  | 1 =>
      let '(repoName, agentName) := split_separator input in
      if negb (truthy repoName) || negb (truthy agentName) then Malformed else Qualified repoName agentName
  | _ => Malformed
  end.

(** ** Resolution *)

(** What a list of matches selects.  [Err] holds the matches of an ambiguous
    reference. *)
Definition select (matches : list agent_entry) : result (list agent_entry) (option agent_entry) :=
  match matches with
  | [] => Ok None
  | [e] => Ok (Some e)
  | _ => Err matches
  end.

Definition matches_of (key : jstr) (index : reference_map) : list agent_entry := default [] (map_get key index).

Definition resolveFromIndex (agentRef : js) (index : reference_index) :
    result (list agent_entry) (option agent_entry) :=
  let input := text agentRef in
  if negb (truthy input) then Ok None
  else
    match (if one_of input RESERVED_AGENT_REGISTRY_KEYS then None else map_get input (ri_byContainer index)) with
    | Some direct => Ok (Some (input, direct))
    | None =>
        match parseQualifiedAgentReference input with
        | Malformed => Ok None
        | Qualified repoName agentName => select (matches_of (qualified_key repoName agentName) (ri_qualified index))
        | Unqualified =>
            match matches_of input (ri_aliases index) with
            | [] => select (matches_of input (ri_names index))
            | aliasMatches => select aliasMatches
            end
        end
    end.

(** ** References that may be advertised *)

(** The loop over the candidates of a record. *)
Fixpoint usable_loop (index : reference_index) (containerName : jstr) (candidates usable : list jstr) : list jstr :=
  match candidates with
  | [] => usable
  | candidate :: candidates =>
      let usable :=
        if negb (isUsableLogReferenceCandidate candidate) || one_of candidate usable then usable
        else
          match resolveFromIndex (Str candidate) index with
          | Ok (Some e) => if jeqb e.1 containerName then usable ++ [candidate] else usable
          | _ => usable
          end in
      usable_loop index containerName candidates usable
  end.

Definition usableReferencesFromIndex (containerName : jstr) (record : js) (index : reference_index) : list jstr :=
  let e := (containerName, record) in
  usable_loop index containerName
    [alias_name e;
     if truthy (repo_name e) && truthy (agent_name e) then repo_name e ++ "/" ++ agent_name e else [];
     agent_name e;
     text (Str containerName)] [].

Definition preferredReferenceFromIndex (containerName : jstr) (record : js) (index : reference_index) : option jstr :=
  head (usableReferencesFromIndex containerName record index).

(** [Array.from(new Set(l)).sort()] *)
Definition unique_sorted (l : list jstr) : list jstr :=
  stable_sort unit_le (fold_left (fun acc s => set_add s acc) l []).

(** The references an error lists, and how many it leaves out. *)
Record diagnostic : Type := Diagnostic {
  usableReferences : list jstr;
  omittedSuggestionCount : nat
}.

Definition boundedDiagnosticReferences (references : list jstr) : diagnostic :=
  let unique := unique_sorted references in
  Diagnostic (take MAX_DIAGNOSTIC_AGENT_REFERENCES unique) (length unique - MAX_DIAGNOSTIC_AGENT_REFERENCES).

Definition preferred_references (l : list agent_entry) (index : reference_index) : list jstr :=
  bfilter truthy (omap (fun e => preferredReferenceFromIndex e.1 e.2 index) l).

Definition ambiguityError (matches : list agent_entry) (index : reference_index) (concise : bool) : diagnostic :=
  if concise then Diagnostic [] 0 else boundedDiagnosticReferences (preferred_references matches index).

Definition resolveEnabledAgentRecordFromMap (agentRef registry : js) (conciseAmbiguity : bool) :
    result diagnostic (option agent_entry) :=
  let index := buildReferenceIndex registry in
  match resolveFromIndex agentRef index with
  | Ok r => Ok r
  | Err matches => Err (ambiguityError matches index conciseAmbiguity)
  end.

Definition usableAgentLogReferencesForRecord (containerName : jstr) (record registry : js) : list jstr :=
  usableReferencesFromIndex containerName record (buildReferenceIndex registry).

Definition preferredUsableAgentLogReference (containerName : jstr) (record registry : js) : option jstr :=
  preferredReferenceFromIndex containerName record (buildReferenceIndex registry).

Definition enabledAgentLogSuggestionsFromMap (registry : js) : list jstr :=
  let index := buildReferenceIndex registry in
  unique_sorted (preferred_references (ri_entries index) index).

(** ** Why a reference selects nothing *)

Inductive reference_failure : Type :=
  | AGENT_REFERENCE_MALFORMED
  | AGENT_REFERENCE_UNKNOWN
  | AGENT_REFERENCE_AMBIGUOUS.

(** [None]: the reference resolves. *)
Definition explainAgentReferenceFailure (agentRef registry : js) : option (reference_failure * diagnostic) :=
  let input := text agentRef in
  let index := buildReferenceIndex registry in
  let bounded := boundedDiagnosticReferences (preferred_references (ri_entries index) index) in
  match parseQualifiedAgentReference input with
  | Malformed => Some (AGENT_REFERENCE_MALFORMED, bounded)
  | _ =>
      match resolveFromIndex (Str input) index with
      | Ok (Some _) => None
      | Ok None => Some (AGENT_REFERENCE_UNKNOWN, bounded)
      | Err matches => Some (AGENT_REFERENCE_AMBIGUOUS, ambiguityError matches index false)
      end
  end.

(** What resolving an agent reference promises: the index selects exactly what
    a scan of the registry would, and a suggested reference resolves. *)

(** ** The reference definition: scans of the entries *)

Definition called (name : agent_entry -> jstr) (s : jstr) (e : agent_entry) : bool := jeqb (name e) s.

Definition scan (entries : list agent_entry) (input : jstr) : result (list agent_entry) (option agent_entry) :=
  if negb (truthy input) then Ok None
  else
    match find_first (called fst input) entries with
    | Some e => Ok (Some e)
    | None =>
        match parseQualifiedAgentReference input with
        | Malformed => Ok None
        | Qualified repoName agentName =>
            select (bfilter (fun e => called repo_name repoName e && called agent_name agentName e) entries)
        | Unqualified =>
            match bfilter (called alias_name input) entries with
            | [] => select (bfilter (called agent_name input) entries)
            | byAlias => select byAlias
            end
        end
    end.

(** ** The maps of the index *)

Lemma appendIndex_get index (key : jstr) e (k : jstr) :
  k <> [] ->
  matches_of k (appendIndex index key e) = matches_of k index ++ (if jeqb key k then [e] else []).
Proof.
  intros Hk. unfold appendIndex, matches_of. destruct (truthy key) eqn:Ht; simpl; cycle 1.
  { apply truthy_false in Ht as ->. destruct (jeqb [] k) eqn:He; [|by rewrite app_nil_r].
    apply jeqb_eq in He. by subst. }
  destruct (jeqb key k) eqn:He.
  - apply jeqb_eq in He as ->. destruct (map_get k index); by rewrite map_get_set_eq.
  - apply jeqb_neq in He. rewrite app_nil_r.
    destruct (map_get key index); by rewrite map_get_set_ne by done.
Qed.

Lemma index_by_get key l (k : jstr) : k <> [] -> matches_of k (index_by key l) = bfilter (called key k) l.
Proof.
  intros Hk. unfold index_by.
  assert (forall m, matches_of k (fold_left (fun index e => appendIndex index (key e) e) l m) =
    matches_of k m ++ bfilter (called key k) l) as ->; [|done].
  induction l as [|e l IH]; intros m; simpl; [by rewrite app_nil_r|].
  rewrite IH, appendIndex_get, <- app_assoc by done. unfold called. by destruct (jeqb (key e) k).
Qed.

Lemma find_map_get k (l : list agent_entry) :
  map_get k l = snd <$> find_first (called fst k) l.
Proof.
  induction l as [|[j v] l IH]; [done|]. simpl. unfold called at 1. simpl.
  case_bool_decide as Hj; [subst; by rewrite jeqb_refl|]. apply jeqb_neq in Hj. by rewrite Hj.
Qed.

Lemma map_of_entries (l : list agent_entry) :
  NoDup l.*1 -> fold_left (fun m e => map_set e.1 e.2 m) l [] = l.
Proof.
  assert (forall m, NoDup (m ++ l).*1 -> fold_left (fun m e => map_set e.1 e.2 m) l m = m ++ l) as H;
    [|by apply (H [])].
  induction l as [|[k v] l IH]; intros m Hm; simpl; [by rewrite app_nil_r|].
  rewrite fmap_app in Hm. simpl in Hm. apply NoDup_app in Hm as Hm'. destruct Hm' as (_ & Hd & _).
  rewrite map_set_absent.
  - rewrite IH, <- app_assoc; [done|]. by rewrite <- app_assoc, fmap_app.
  - apply map_get_None. intros Hk. apply (Hd k Hk). by left.
Qed.

Lemma enabled_unreserved registry e : e ∈ enabledAgentEntries registry -> one_of e.1 RESERVED_AGENT_REGISTRY_KEYS = false.
Proof.
  unfold enabledAgentEntries. destruct (is_truthy_object registry); [|by intros ?%not_elem_of_nil].
  intros [_ He]%elem_of_bfilter. unfold is_enabled in He. by destruct (one_of e.1 _).
Qed.

(** ** Qualified names *)

Lemma qualified_key_inj r a r' a' :
  (0%N ∉ r') -> (0%N ∉ a') -> qualified_key r a = qualified_key r' a' -> r = r' /\ a = a'.
Proof.
  unfold qualified_key. intros Hr Ha Heq.
  assert (split_on 0%N (r ++ [0%N] ++ a) = split_on 0%N (r' ++ [0%N] ++ a')) as Hs by by rewrite Heq.
  rewrite !split_on_app in Hs.
  assert (split_on 0%N r' = [r']) as Hr' by by apply split_on_None, index_of_None.
  assert (split_on 0%N a' = [a']) as Ha' by by apply split_on_None, index_of_None.
  rewrite Hr', Ha' in Hs.
  destruct (split_on 0%N r) as [|x [|y l]] eqn:E1; [by apply split_on_nonempty in E1| |].
  - destruct (split_on 0%N a) as [|z [|w l]] eqn:E2; [by apply split_on_nonempty in E2| |done].
    injection Hs as -> ->. split; apply (split_on_inj 0%N); congruence.
  - destruct (split_on 0%N a) as [|z k] eqn:E2; [by apply split_on_nonempty in E2|].
    exfalso. apply (f_equal length) in Hs. rewrite !length_app in Hs. simpl in Hs. lia.
Qed.

Lemma split_separator_sub s a b c :
  split_separator s = (a, b) -> (c ∈ a -> c ∈ s) /\ (c ∈ b -> c ∈ s).
Proof.
  revert a b. induction s as [|d s IH]; intros a b; simpl.
  - by intros [= <- <-].
  - destruct (is_separator d); [intros [= <- <-]; set_solver|].
    destruct (split_separator s) as [x y] eqn:Hs. intros [= <- <-].
    destruct (IH x y eq_refl). set_solver.
Qed.

Lemma qualified_parts input r a :
  parseQualifiedAgentReference input = Qualified r a ->
  split_separator input = (r, a) /\ r <> [] /\ a <> [].
Proof.
  unfold parseQualifiedAgentReference. destruct (length _) as [|[|]]; [done| |done].
  destruct (split_separator input) as [x y].
  destruct (truthy x) eqn:Hx, (truthy y) eqn:Hy; simpl; intros [= <- <-].
  by apply truthy_true in Hx, Hy.
Qed.

Lemma index_key_called r a e :
  r <> [] -> a <> [] -> (0%N ∉ r) -> (0%N ∉ a) ->
  called index_key (qualified_key r a) e = called repo_name r e && called agent_name a e.
Proof.
  intros Hr Ha Hr0 Ha0. apply eq_iff_eq_true. unfold called. rewrite andb_true_iff, !jeqb_eq.
  unfold index_key. destruct (truthy (repo_name e)) eqn:H1, (truthy (agent_name e)) eqn:H2; simpl.
  - split; [by intros ?%qualified_key_inj|by intros [-> ->]].
  - apply truthy_false in H2. split; [by destruct r|intros [_ ?]; congruence].
  - apply truthy_false in H1. split; [by destruct r|intros [? _]; congruence].
  - apply truthy_false in H1. split; [by destruct r|intros [? _]; congruence].
Qed.

Lemma bfilter_ext {A} (f g : A -> bool) l : (forall x, f x = g x) -> bfilter f l = bfilter g l.
Proof. intros H. induction l as [|x l IH]; simpl; [done|]. by rewrite H, IH. Qed.

(** Resolving over the index selects what a scan of the enabled records
    does: an exact registry key first; a qualified reference by repository and
    agent alone, never by alias; otherwise the only record of that alias, or
    the only one of that agent name; and several matches are reported as
    ambiguous, all of them, instead of one being picked. *)
Theorem resolver_matches_scan agentRef registry
    (Hkeys : NoDup (enabledAgentEntries registry).*1)
    (Hnul : has_unit 0 (text agentRef) = false) :
  resolveFromIndex agentRef (buildReferenceIndex registry) =
    scan (enabledAgentEntries registry) (text agentRef).
Proof.
  unfold resolveFromIndex, scan. set (input := text agentRef) in *.
  destruct (truthy input) eqn:Ht; [|done]. apply truthy_true in Ht. cbn [negb].
  unfold buildReferenceIndex. cbn [ri_byContainer ri_aliases ri_qualified ri_names].
  rewrite map_of_entries, find_map_get by done.
  set (entries := enabledAgentEntries registry) in *.
  destruct (find_first (called fst input) entries) as [[k v]|] eqn:Hf.
  { apply find_first_Some in Hf as [He%enabled_unreserved Hi%jeqb_eq]. simpl in Hi. subst k.
    cbn [fst] in He. by rewrite He. }
  match goal with |- context [if ?b then None else _] => replace (if b then None else _) with (@None js) by by destruct b end.
  rewrite !index_by_get by done.
  destruct (parseQualifiedAgentReference input) as [| |r a] eqn:Hq; [done|done|].
  apply qualified_parts in Hq as (Hs & Hr & Ha). apply has_unit_false in Hnul.
  destruct (split_separator_sub _ _ _ 0%N Hs) as [H1 H2].
  rewrite index_by_get by by destruct r. f_equal. apply bfilter_ext. intros e.
  apply index_key_called; auto.
Qed.

(** ** Suggestions *)

Definition resolves_to (index : reference_index) (containerName candidate : jstr) : Prop :=
  isUsableLogReferenceCandidate candidate = true /\
  exists e, resolveFromIndex (Str candidate) index = Ok (Some e) /\ e.1 = containerName.

Lemma usable_loop_resolves index containerName candidates usable :
  Forall (resolves_to index containerName) usable ->
  Forall (resolves_to index containerName) (usable_loop index containerName candidates usable).
Proof.
  revert usable. induction candidates as [|c cs IH]; intros usable Hu; [done|]. simpl. apply IH.
  destruct (isUsableLogReferenceCandidate c) eqn:Hc; simpl; [|done].
  destruct (one_of c usable); [done|].
  destruct (resolveFromIndex (Str c) index) as [[e|]|] eqn:Hr; [|done|done].
  destruct (jeqb e.1 containerName) eqn:He; [|done]. apply jeqb_eq in He.
  apply Forall_app. split; [done|]. apply Forall_singleton. split; [done|]. by exists e.
Qed.

Lemma preferred_resolves index containerName record s :
  preferredReferenceFromIndex containerName record index = Some s -> resolves_to index containerName s.
Proof.
  unfold preferredReferenceFromIndex, usableReferencesFromIndex. intros Hs.
  pose proof (usable_loop_resolves index containerName
    [alias_name (containerName, record);
     if truthy (repo_name (containerName, record)) && truthy (agent_name (containerName, record))
     then repo_name (containerName, record) ++ "/" ++ agent_name (containerName, record) else [];
     agent_name (containerName, record); text (Str containerName)] [] (Forall_nil_2 _)) as Hall.
  destruct (usable_loop _ _ _ _) as [|x l]; [done|]. injection Hs as ->. by inversion Hall.
Qed.

Lemma elem_of_unique_sorted s l : s ∈ unique_sorted l <-> s ∈ l.
Proof.
  unfold unique_sorted. rewrite stable_sort_Permutation.
  assert (forall acc, s ∈ fold_left (fun acc s => set_add s acc) l acc <-> s ∈ acc \/ s ∈ l) as ->.
  - induction l as [|x l IH]; intros acc; simpl; [set_solver|]. rewrite IH, elem_of_set_add. set_solver.
  - set_solver.
Qed.

(** Every suggestion is a spelling the log command reads, and resolves to one
    enabled record. *)
Theorem suggestions_resolve registry s
    (Hs : s ∈ enabledAgentLogSuggestionsFromMap registry) :
  isUsableLogReferenceCandidate s = true /\
  exists e, e ∈ enabledAgentEntries registry /\
    exists record, resolveEnabledAgentRecordFromMap (Str s) registry false = Ok (Some (e.1, record)).
Proof.
  unfold enabledAgentLogSuggestionsFromMap in Hs. rewrite elem_of_unique_sorted in Hs.
  apply elem_of_bfilter in Hs as [Hs _].
  apply list_elem_of_omap in Hs as (e & He & Hp%preferred_resolves).
  destruct Hp as [Hu ([k v] & Hr & Hk)]. split; [done|]. exists e. split; [done|].
  exists v. unfold resolveEnabledAgentRecordFromMap. rewrite Hr. simpl in Hk. by rewrite Hk.
Qed.

(** ** A registry *)

Definition record_of (repoName agentName alias : jstr) : js :=
  Obj [("type", Str "agent"); ("repoName", Str repoName); ("agentName", Str agentName); ("alias", Str alias)].

(** Two repositories have a [db]; one of them also runs as [main]. *)
Definition sample_registry : js :=
  Obj [("_config", Obj [("type", Str "agent")]);
       ("c1", record_of "kit" "db" []);
       ("c2", record_of "shop" "db" "main");
       ("c3", record_of "shop" "web" [])].

Lemma resolver_matches_scan_witness :
  resolveFromIndex (Str " shop/db ") (buildReferenceIndex sample_registry) =
    Ok (Some ("c2", record_of "shop" "db" "main")) /\
  resolveFromIndex (Str "db") (buildReferenceIndex sample_registry) =
    scan (enabledAgentEntries sample_registry) "db".
Proof.
  split; [by vm_compute|]. apply (resolver_matches_scan (Str "db") sample_registry).
  - apply (bool_decide_unpack _). by vm_compute.
  - by vm_compute.
Defined.

Lemma suggestions_resolve_witness :
  enabledAgentLogSuggestionsFromMap sample_registry = ["kit/db"; "main"; "shop/web"] /\
  isUsableLogReferenceCandidate "main" = true.
Proof.
  split; [by vm_compute|]. apply (suggestions_resolve sample_registry "main").
  apply one_of_elem. by vm_compute.
Defined.
