(* ===== verification/EnableDirective.v ===== *)
(** Dependency directives of a manifest: [parseEnableDirective],
    [qualifyEnableSpecForRepo] and [manifestEnableEntries] of
    [src/cli/utils/runtime/bootstrapManifest.js], and
    [parseManifestDependencyRef] of [src/cli/utils/workspaceDependencyGraph.js]. *)

From stdpp Require Import prelude.
From Stdlib Require Import NArith.
From S2P Require Import Prelude.
From S2P Require Import JsString.
From S2P Require Import JsNumber.
From S2P Require Import JsMap.
From S2P Require Import JsValue.

Local Open Scope js_scope.

(** ** Words *)

Fixpoint words_from (s word : jstr) : list jstr :=
  match s with
  | [] => [word]
  | c :: r => if is_space c then word :: words_from r [] else words_from r (word ++ [c])
  end.

(** [s.split(/\s+/).filter(Boolean)] *)
Definition words (s : jstr) : list jstr := bfilter truthy (words_from s []).

(** [tokens.findIndex(f)] and what follows it. *)
Fixpoint split_at (f : jstr -> bool) (tokens : list jstr) : list jstr * option (list jstr) :=
  match tokens with
  | [] => ([], None)
  | t :: tokens =>
      if f t then ([], Some tokens)
      else let '(before, after) := split_at f tokens in (t :: before, after)
  end.

(** ** Directives *)

Record directive : Type := Directive {
  di_spec : jstr;
  di_alias : js;
  di_noWait : bool;
  di_profile : option jstr
}.

Inductive directive_error : Type :=
  | MissingAlias
  | MissingReference
  | DirectiveJs (e : js_error).

Definition is_no_wait (token : jstr) : bool := jeqb (to_lower token) "no-wait".
Definition is_as (token : jstr) : bool := jeqb (to_lower token) "as".

(** The branch for a text. *)
Definition parse_text (raw : jstr) : result directive_error (option directive) :=
  match words (trim raw) with
  | [] => Ok None
  | all =>
      let noWait := existsb is_no_wait all in
      let tokens := bfilter (fun t => negb (is_no_wait t)) all in
      let '(ref, rest) := split_at is_as tokens in
      let finish alias :=
        let spec := trim (join " " ref) in
        if truthy spec then Ok (Some (Directive spec alias noWait None)) else Err MissingReference in
      match rest with
      | None => finish Undefined
      | Some [] => Err MissingAlias
      | Some (alias :: _) => finish (Str alias)
      end
  end.

(** [entry.profile] as a non-blank text in lower case. *)
Definition profile_of (v : js) : option jstr :=
  match v with
  | Str s => if truthy (trim s) then Some (to_lower (trim s)) else None
  | _ => None
  end.

(** The nesting of objects bounds the recursion. *)
Fixpoint js_depth (v : js) : nat :=
  match v with
  | Obj l => S ((fix depths (l : list (jstr * js)) : nat :=
                   match l with
                   | [] => 0
                   | (_, x) :: r => Nat.max (js_depth x) (depths r)
                   end) l)
  | _ => 1
  end.

Fixpoint parse_directive (fuel : nat) (v : js) : result directive_error (option directive) :=
  match fuel with
  | O => Ok None
  | S fuel =>
      match v with
      | Undefined | Null => Ok None
      | Obj _ =>
          let rawSpec := js_nullish (prop "agent" v) (js_nullish (prop "ref" v)
            (js_nullish (prop "spec" v) (prop "name" v))) in
          parsed ← parse_directive fuel rawSpec;
          Ok match parsed with
             | None => None
             | Some d =>
                 let alias := js_nullish (prop "alias" v) (js_nullish (prop "as" v) (di_alias d)) in
                 let noWait := is_bool (prop "noWait" v) true || is_bool (prop "no-wait" v) true || di_noWait d in
                 Some (Directive (di_spec d) alias noWait (profile_of (prop "profile" v)))
             end
      | Str s => parse_text s
      | _ =>
          match trimmed_text v with
          | Ok s => parse_text s
          | Err e => Err (DirectiveJs e)
          end
      end
  end.

Definition parseEnableDirective (v : js) : result directive_error (option directive) :=
  parse_directive (js_depth v) v.

(** More fuel changes nothing. *)
Definition shallower (x v : js) : Prop := x = Undefined \/ js_depth x < js_depth v.

Lemma shallower_prop k l : shallower (prop k (Obj l)) (Obj l).
Proof.
  unfold shallower. cbn [prop]. induction l as [|[k' x] l IH]; [by left|]. cbn [map_get]. simpl in *.
  case_bool_decide; simpl in *; [right; lia|]. destruct IH as [->|IH]; [by left|right; lia].
Qed.

Lemma shallower_nullish a b v : shallower a v -> shallower b v -> shallower (js_nullish a b) v.
Proof. by destruct a. Qed.

Lemma parse_directive_fuel k v :
  js_depth v <= k -> parse_directive k v = parse_directive (js_depth v) v.
Proof.
  enough (forall k j v, js_depth v <= k -> js_depth v <= j -> parse_directive k v = parse_directive j v) as Hall.
  { intros Hk. by apply Hall. }
  clear k v. induction k as [|k IH]; intros j v Hk Hj; [destruct v; simpl in Hk; lia|].
  destruct j as [|j]; [destruct v; simpl in Hj; lia|].
  destruct v as [| | | | | | |l]; try done. cbn [parse_directive].
  set (x := js_nullish (prop "agent" _) _).
  assert (shallower x (Obj l)) as [Hx|Hx]
    by (repeat apply shallower_nullish; apply shallower_prop).
  - rewrite Hx. by destruct k, j.
  - rewrite (IH j x) by lia. done.
Qed.

(** ** References *)

Definition isPrefixedAgentToken (token : jstr) : bool := has_unit 47 token || has_unit 58 token.

(** [hasSameRepoBareAgent] looks on disk for a manifest in the repository. *)
Class BareAgents := repo_has_agent : jstr -> jstr -> bool.

Section References.
Context `{BareAgents}.

Definition hasSameRepoBareAgent (repoName agentName : jstr) : bool :=
  let repo := trim repoName in
  let agent := trim agentName in
  truthy repo && truthy agent && repo_has_agent repo agent.

Definition qualifyEnableSpecForRepo (spec repoName : jstr) : jstr :=
  let raw := trim spec in
  let repo := trim repoName in
  if negb (truthy raw) || negb (truthy repo) then raw
  else
    match words raw with
    | [] => raw
    | t :: ts =>
        if isPrefixedAgentToken t || negb (hasSameRepoBareAgent repo t) then raw
        else join " " ((repo ++ "/" ++ t) :: ts)
    end.
End References.

(** What is before a colon, else the first word; empty when there is none. *)
Definition reference_of (spec : jstr) : jstr :=
  match spec with
  | [] => []
  | _ =>
      match index_of 58 spec with
      | Some i => trim (take i spec)
      | None => default [] (head (words spec))
      end
  end.

(** [parseManifestDependencyRef]: on a directive that cannot be parsed the
    text itself is read. *)
Definition parseManifestDependencyRef (agentRef : jstr) : jstr :=
  match parseEnableDirective (Str agentRef) with
  | Ok (Some d) => reference_of (trim (di_spec d))
  | Ok None => []
  | Err _ => reference_of (trim agentRef)
  end.

(** [manifestEnableEntries] for a profile that is given. *)
Definition array_of (v : js) : list js :=
  match v with
  | Arr l => l
  | _ => []
  end.

Definition manifestEnableEntries (manifest : js) (profile : jstr) : list js :=
  let profiles := optional "profiles" manifest in
  let profileBlock := js_or (prop profile profiles) (prop "default" profiles) in
  array_of (optional "enable" manifest) ++ array_of (prop "enable" profileBlock).
