(* ===== verification/DependencyGraph.v ===== *)
(** The dependency graph of a workspace: [src/cli/utils/workspaceDependencyGraph.js].

    Finding an agent and reading its manifest belong to the class
    [AgentCatalog]; the traversal, the wait modes, the waves and the
    plan are defined here. *)

From stdpp Require Import prelude.
From Stdlib Require Import NArith.
From S2P Require Import Prelude.
From S2P Require Import JsString.
From S2P Require Import JsNumber.
From S2P Require Import JsMap.
From S2P Require Import JsValue.
From S2P Require Import HttpRouteCompiler.
From S2P Require Import NetworkContract.
From S2P Require Import ManifestContract.
From S2P Require Import ProfileMerge.
From S2P Require Import EnableDirective.

Local Open Scope js_scope.

(** ** Names *)

Definition createGraphNodeId (repoName shortAgentName alias : jstr) : jstr :=
  if truthy alias then repoName ++ "/" ++ shortAgentName ++ " as " ++ alias
  else repoName ++ "/" ++ shortAgentName.

Definition effectiveInstanceKey (repoName shortAgentName alias : jstr) : jstr :=
  if truthy alias then repoName ++ "/" ++ shortAgentName ++ "#alias:" ++ alias
  else repoName ++ "/" ++ shortAgentName ++ "#canonical".

(** What [findAgent] resolves a reference to. *)
Record resolved_agent : Type := ResolvedAgent {
  ra_repo : jstr;
  ra_shortAgentName : jstr;
  ra_manifestPath : jstr
}.

Definition node_id (r : resolved_agent) (alias : jstr) : jstr :=
  createGraphNodeId (ra_repo r) (ra_shortAgentName r) alias.

(** The agents on disk.  [None] is a thrown error. *)
Class AgentCatalog : Type := {
  findAgent : jstr -> option resolved_agent;
  readManifest : jstr -> option js
}.

(** ** Registry records *)

Definition findRegistryRecord (registry : list js) (repoName shortAgentName alias : jstr) : js :=
  let candidate record :=
    js_truthy record && is_str (prop "type" record) "agent" &&
    is_str (prop "repoName" record) repoName && is_str (prop "agentName" record) shortAgentName &&
    (if truthy alias then is_str (prop "alias" record) alias
     else negb (js_truthy (prop "alias" record))) in
  default Null (find_first candidate registry).

(** [String(profile || '').trim().toLowerCase()] *)
Definition normalizeProfileOverride (profile : js) : result js_error jstr :=
  s ← trimmed_text profile; Ok (to_lower s).

Definition declaresProfiles (manifest : js) : bool :=
  match optional "profiles" manifest with
  | Obj (_ :: _) => true
  | _ => false
  end.

(** [None]: the profile is not defined and was asked for explicitly. *)
Definition resolveEffectiveProfile (manifest : js) (requestedProfile : jstr) (explicit : bool) : option jstr :=
  let requested := to_lower (trim requestedProfile) in
  if negb (truthy requested) then Some "default"
  else if has_own requested (optional "profiles" manifest) then Some requested
  else if jeqb requested "default" && negb (declaresProfiles manifest) then Some "default"
  else if explicit then None
  else Some "default".

Definition isSsoProviderManifest (manifest : js) : bool :=
  is_truthy_object manifest && is_bool (prop "ssoProvider" manifest) true.

(** ** The graph *)

Record node : Type := Node {
  n_id : jstr;
  n_instanceKey : jstr;
  n_agentRef : jstr;
  n_enableSpec : jstr;
  n_profile : jstr;
  n_profileExplicit : bool;
  n_repoName : jstr;
  n_shortAgentName : jstr;
  n_alias : jstr;
  n_manifest : js;
  n_network : network;
  n_authMode : jstr;
  n_dependencies : list jstr;
  n_dependents : list jstr;
  n_dependencyEdges : jmap jstr bool;
  n_cycleBackedges : jmap jstr bool;
  n_isStatic : bool;
  n_selectionPath : list jstr
}.

Definition with_dependencies (f : list jstr -> list jstr) (n : node) : node :=
  Node (n_id n) (n_instanceKey n) (n_agentRef n) (n_enableSpec n) (n_profile n) (n_profileExplicit n)
    (n_repoName n) (n_shortAgentName n) (n_alias n) (n_manifest n) (n_network n) (n_authMode n) (f (n_dependencies n)) (n_dependents n)
    (n_dependencyEdges n) (n_cycleBackedges n) (n_isStatic n) (n_selectionPath n).

Definition with_dependents (f : list jstr -> list jstr) (n : node) : node :=
  Node (n_id n) (n_instanceKey n) (n_agentRef n) (n_enableSpec n) (n_profile n) (n_profileExplicit n)
    (n_repoName n) (n_shortAgentName n) (n_alias n) (n_manifest n) (n_network n) (n_authMode n) (n_dependencies n) (f (n_dependents n))
    (n_dependencyEdges n) (n_cycleBackedges n) (n_isStatic n) (n_selectionPath n).

Definition with_edges (f : jmap jstr bool -> jmap jstr bool) (n : node) : node :=
  Node (n_id n) (n_instanceKey n) (n_agentRef n) (n_enableSpec n) (n_profile n) (n_profileExplicit n)
    (n_repoName n) (n_shortAgentName n) (n_alias n) (n_manifest n) (n_network n) (n_authMode n) (n_dependencies n) (n_dependents n)
    (f (n_dependencyEdges n)) (n_cycleBackedges n) (n_isStatic n) (n_selectionPath n).

Definition with_backedges (f : jmap jstr bool -> jmap jstr bool) (n : node) : node :=
  Node (n_id n) (n_instanceKey n) (n_agentRef n) (n_enableSpec n) (n_profile n) (n_profileExplicit n)
    (n_repoName n) (n_shortAgentName n) (n_alias n) (n_manifest n) (n_network n) (n_authMode n) (n_dependencies n) (n_dependents n)
    (n_dependencyEdges n) (f (n_cycleBackedges n)) (n_isStatic n) (n_selectionPath n).

Definition with_static (n : node) : node :=
  Node (n_id n) (n_instanceKey n) (n_agentRef n) (n_enableSpec n) (n_profile n) (n_profileExplicit n)
    (n_repoName n) (n_shortAgentName n) (n_alias n) (n_manifest n) (n_network n) (n_authMode n) (n_dependencies n) (n_dependents n)
    (n_dependencyEdges n) (n_cycleBackedges n) true (n_selectionPath n).

(** An edge of either kind: an entry that waits wins over one that does not. *)
Definition add_edge (target : jstr) (noWait : bool) (edges : jmap jstr bool) : jmap jstr bool :=
  match map_get target edges with
  | Some existing => if existing && negb noWait then map_set target noWait edges else edges
  | None => map_set target noWait edges
  end.

Inductive visit_status : Type :=
  | Visiting
  | Visited.

#[export] Instance visit_status_eq_dec : EqDecision visit_status.
Proof. solve_decision. Defined.

Inductive agent_problem : Type :=
  | AgentNotFound
  | ManifestUnreadable
  | NetworkInvalid (e : network_error)
  | StartupInvalid (e : startup_error)
  | AuthInvalid (e : auth_error)
  | ProfileUndefined
  | ProfileConflict
  | EntryMalformed (e : directive_error)
  | GraphJs (e : js_error).

(** [OutOfFuel] belongs to the model: it is no error of the program. *)
Inductive graph_error : Type :=
  | DependencyCycle (chain : list jstr) (cycleNodeId : jstr)
  | AgentFailed (p : agent_problem)
  | DependencyFailed (rawDependency : js) (parentRef : jstr) (cause : graph_error)
  | MissingStaticAgent
  | NetworkConflict (e : network_error)
  | OutOfFuel.

(** What the callbacks report. *)
Inductive graph_event : Type :=
  | CycleWarning (rawDependency : js) (parentRef : jstr) (chain : list jstr)
  | UnresolvedDependency (rawDependency : js) (parentRef : jstr) (cause : graph_error).

Record graph_state : Type := GraphState {
  g_nodes : jmap jstr node;
  g_state : jmap jstr visit_status;
  g_log : list graph_event
}.

Definition graphM (A : Type) : Type := stateM graph_state graph_error A.

(** Which failed dependencies are left out instead of failing the graph. *)
Inductive tolerance : Type :=
  | FailClosed
  | TolerateNoWait
  | TolerateAll.

Record visit_options : Type := VisitOptions {
  v_alias : jstr;
  v_enableSpec : jstr;
  v_profile : jstr;
  v_profileExplicit : bool;
  v_isStatic : bool;
  v_stack : list jstr;
  v_selectionPath : list jstr
}.

(** ** State changes *)

(** [m.get(k)] changed in place, when it is there. *)
Definition map_update (k : jstr) (f : node -> node) (m : jmap jstr node) : jmap jstr node :=
  match map_get k m with
  | Some n => map_set k (f n) m
  | None => m
  end.

Definition update_node (k : jstr) (f : node -> node) (s : graph_state) : graph_state :=
  GraphState (map_update k f (g_nodes s)) (g_state s) (g_log s).

Definition set_node (k : jstr) (n : node) (s : graph_state) : graph_state :=
  GraphState (map_set k n (g_nodes s)) (g_state s) (g_log s).

Definition set_status (k : jstr) (v : visit_status) (s : graph_state) : graph_state :=
  GraphState (g_nodes s) (map_set k v (g_state s)) (g_log s).

Definition report (e : graph_event) (s : graph_state) : graph_state :=
  GraphState (g_nodes s) (g_state s) (g_log s ++ [e]).

(** The edge from [parent] to [child], recorded on both ends. *)
Definition link (parent child : jstr) (noWait : bool) (s : graph_state) : graph_state :=
  update_node child (with_dependents (set_add parent))
    (update_node parent (with_edges (add_edge child noWait))
      (update_node parent (with_dependencies (set_add child)) s)).

(** Everything that was not known is dropped, and forgotten as a dependent. *)
Definition drop_unknown (known : list jstr) (s : graph_state) : graph_state :=
  let dropped := bfilter (fun k => negb (one_of k known)) (map_keys (g_nodes s)) in
  GraphState
    (map_fmap (with_dependents (bfilter (fun k => negb (one_of k dropped))))
      (bfilter (fun e => one_of e.1 known) (g_nodes s)))
    (bfilter (fun e => negb (one_of e.1 dropped)) (g_state s))
    (g_log s).

(** ** Traversal *)

Section Graph.
Context `{AgentCatalog, BareAgents, Sha256}.
Context (registry : list js) (selectedWorkspaceProfile : jstr) (mode : tolerance).

Definition agent_error {A} (p : agent_problem) : graphM A := throw (AgentFailed p).

Definition of_option {A} (p : agent_problem) (o : option A) : graphM A :=
  match o with
  | Some a => mret a
  | None => agent_error p
  end.

Definition of_result {E A} (problem : E -> agent_problem) (r : result E A) : graphM A :=
  match r with
  | Ok a => mret a
  | Err e => agent_error (problem e)
  end.

Definition of_js {A} (r : result js_error A) : graphM A := of_result GraphJs r.

(** [manifestForAgentRef]: [null] when anything fails. *)
Definition manifestForAgentRef (agentRef : jstr) : js :=
  match findAgent agentRef with
  | Some r => default Null (readManifest (ra_manifestPath r))
  | None => Null
  end.

Definition shouldEnableManifestDependency (agentRef authMode : jstr) : bool :=
  let normalizedRef := trim agentRef in
  if negb (truthy normalizedRef) then false
  else
    let manifest := manifestForAgentRef normalizedRef in
    if js_truthy manifest && isSsoProviderManifest manifest then jeqb authMode "sso" else true.

(** The auth record a policy is resolved with: none for the modes [''] and
    ['none']. *)
Definition record_auth (record : js) : result js_error js :=
  mode ← trimmed_text (optional "mode" (optional "auth" record));
  Ok (if one_of (to_lower mode) [[]; "none"] then Undefined else optional "auth" record).

Definition selection_of (path : list jstr) (nodeId : jstr) : list jstr :=
  match path with
  | [] => [nodeId]
  | _ => path
  end.

(** [profileName === 'default' ? defaultProfileConfig
    : mergeProfiles(defaultProfileConfig, selectedProfileConfig)] *)
Definition effective_profile (manifest : js) (profileName : jstr) : graphM js :=
  profiles ← of_js (member "profiles" manifest);
  let defaultProfileConfig := js_or (optional "default" profiles) Null in
  let selectedProfileConfig := js_or (optional profileName profiles) Null in
  if jeqb profileName "default" then mret defaultProfileConfig
  else of_js (mergeProfiles defaultProfileConfig selectedProfileConfig).

(** The contracts of the manifest, before a profile is chosen. *)
Definition check_manifest (manifest : js) : graphM unit :=
  _ ← of_result NetworkInvalid (validateManifestNetworks manifest);
  _ ← of_result StartupInvalid (resolveManifestStartup manifest);
  skip.

(** The network of the chosen profile. *)
Definition node_network (manifest : js) (profileName : jstr) : graphM network :=
  network ← of_result NetworkInvalid (effectiveManifestNetwork manifest profileName);
  profileConfig ← effective_profile manifest profileName;
  _ ← of_result NetworkInvalid (assertNetworkStartupCompatibility manifest profileConfig (network_js network));
  mret network.

(** The node of an agent that is not in the graph yet. *)
Definition new_node (agentRef : jstr) (r : resolved_agent) (o : visit_options) : graphM node :=
  let nodeId := node_id r (v_alias o) in
  let name := ra_repo r ++ "/" ++ ra_shortAgentName r in
  let requestedProfile := to_lower (trim (v_profile o)) in
  manifest ← of_option ManifestUnreadable (readManifest (ra_manifestPath r));
  _ ← check_manifest manifest;
  let record := findRegistryRecord registry (ra_repo r) (ra_shortAgentName r) (v_alias o) in
  recorded ← (if truthy requestedProfile then mret []
              else of_js (normalizeProfileOverride (optional "profile" record)));
  profileName ← of_option ProfileUndefined
    (resolveEffectiveProfile manifest (sor requestedProfile recorded)
      (v_profileExplicit o || (negb (truthy requestedProfile) && js_truthy (optional "profile" record))));
  network ← node_network manifest profileName;
  auth ← of_js (record_auth record);
  policy ← of_result AuthInvalid (resolveAgentAuthPolicy manifest auth);
  mret (Node nodeId (effectiveInstanceKey (ra_repo r) (ra_shortAgentName r) (v_alias o)) name
    (trim (sor (v_enableSpec o) (sor agentRef name))) profileName (v_profileExplicit o)
    (ra_repo r) (ra_shortAgentName r) (v_alias o) manifest network (str_or (prop "mode" policy) [])
    [] [] [] [] (v_isStatic o) (selection_of (v_selectionPath o) nodeId)).

(** The node of an identifier: looked up, or made and stored. *)
Definition node_for (agentRef : jstr) (r : resolved_agent) (o : visit_options) : graphM node :=
  let nodeId := node_id r (v_alias o) in
  nodes ← gets g_nodes;
  match map_get nodeId nodes with
  | Some n =>
      if v_isStatic o then
        _ ← modify (update_node nodeId with_static); mret n
      else mret n
  | None =>
      n ← new_node agentRef r o;
      _ ← modify (set_node nodeId n);
      mret n
  end.

(** A second visit must agree on the profile. *)
Definition check_profile (n : node) (o : visit_options) : graphM unit :=
  let requestedProfile := to_lower (trim (v_profile o)) in
  candidate ← of_option ProfileUndefined
    (resolveEffectiveProfile (n_manifest n) (sor requestedProfile (n_profile n)) (v_profileExplicit o));
  if jeqb candidate (n_profile n) then skip else agent_error ProfileConflict.

(** [v || ''] on an alias, as text. *)
Definition alias_text (v : js) : jstr := or_else (to_string (js_or v (Str []))) [].

Definition arrow (nodeId dependencyRef alias : jstr) : jstr :=
  nodeId ++ " -> " ++ dependencyRef ++ (if truthy alias then " as " ++ alias else []).

(** What a directive of a node asks to visit. *)
Definition child_options (n : node) (nextStack : list jstr) (d : directive) : jstr * visit_options :=
  let spec := qualifyEnableSpecForRepo (di_spec d) (n_repoName n) in
  let dependencyRef := parseManifestDependencyRef spec in
  let alias := alias_text (di_alias d) in
  (dependencyRef,
   VisitOptions alias (sor spec dependencyRef)
     (match di_profile d with
      | Some p => p
      | None => selectedWorkspaceProfile
      end)
     (match di_profile d with
      | Some _ => true
      | None => false
      end)
     false nextStack (n_selectionPath n ++ [arrow (n_id n) dependencyRef alias])).

(** The body of the [try]. *)
Definition dependency_try (recurse : jstr -> visit_options -> graphM jstr) (nodeId : jstr) (n : node)
    (nextStack : list jstr) (raw : js) : graphM unit :=
  match parseEnableDirective raw with
  | Err e => agent_error (EntryMalformed e)
  | Ok None => skip
  | Ok (Some d) =>
      let '(dependencyRef, o) := child_options n nextStack d in
      if negb (shouldEnableManifestDependency dependencyRef (n_authMode n)) then skip
      else
        childId ← recurse dependencyRef o;
        modify (link nodeId childId (di_noWait d))
  end.

Definition raw_noWait (raw : js) : bool :=
  match parseEnableDirective raw with
  | Ok (Some d) => di_noWait d
  | _ => false
  end.

Definition tolerated (raw : js) : bool :=
  match mode with
  | TolerateAll => true
  | TolerateNoWait => raw_noWait raw
  | FailClosed => false
  end.

(** The [catch]: a cycle is cut, a tolerated failure is dropped, any other
    fails the parent. *)
Definition dependency_catch (known : list jstr) (nodeId : jstr) (n : node) (raw : js) (e : graph_error) :
    graphM unit :=
  match e with
  | OutOfFuel => throw OutOfFuel
  | DependencyCycle chain cycleNodeId =>
      _ ← modify (update_node nodeId (with_backedges (add_edge cycleNodeId (raw_noWait raw))));
      modify (report (CycleWarning raw (n_agentRef n) chain))
  | _ =>
      if tolerated raw then
        _ ← modify (drop_unknown known);
        modify (report (UnresolvedDependency raw (n_agentRef n) e))
      else throw (DependencyFailed raw (n_agentRef n) e)
  end.

Definition visit_dependency (recurse : jstr -> visit_options -> graphM jstr) (nodeId : jstr) (n : node)
    (nextStack : list jstr) (raw : js) : graphM unit := fun s =>
  let known := map_keys (g_nodes s) in
  match dependency_try recurse nodeId n nextStack raw s with
  | (Ok u, s) => (Ok u, s)
  | (Err e, s) => dependency_catch known nodeId n raw e s
  end.

Fixpoint visit_dependencies (recurse : jstr -> visit_options -> graphM jstr) (nodeId : jstr) (n : node)
    (nextStack : list jstr) (raws : list js) : graphM unit :=
  match raws with
  | [] => skip
  | raw :: raws =>
      _ ← visit_dependency recurse nodeId n nextStack raw;
      visit_dependencies recurse nodeId n nextStack raws
  end.

Fixpoint visit (fuel : nat) (agentRef : jstr) (o : visit_options) : graphM jstr :=
  match fuel with
  | O => throw OutOfFuel
  | S fuel =>
      r ← of_option AgentNotFound (findAgent agentRef);
      let nodeId := node_id r (v_alias o) in
      if one_of nodeId (v_stack o) then throw (DependencyCycle (v_stack o ++ [nodeId]) nodeId)
      else
        n ← node_for agentRef r o;
        _ ← check_profile n o;
        states ← gets g_state;
        match map_get nodeId states with
        | Some Visiting => throw (DependencyCycle (v_stack o ++ [nodeId]) nodeId)
        | Some Visited => mret nodeId
        | None =>
            _ ← modify (set_status nodeId Visiting);
            _ ← visit_dependencies (visit fuel) nodeId n (v_stack o ++ [nodeId])
                  (manifestEnableEntries (n_manifest n) (n_profile n));
            _ ← modify (set_status nodeId Visited);
            mret nodeId
        end
  end.

Record graph : Type := Graph {
  staticNodeId : jstr;
  nodes : jmap jstr node
}.

Definition empty_graph_state : graph_state := GraphState [] [] [].

Definition root_options (staticAgentRef rootProfile rootAlias : jstr) : visit_options :=
  VisitOptions rootAlias staticAgentRef (sor rootProfile selectedWorkspaceProfile) (truthy rootProfile)
    true [] [staticAgentRef].

(** What the preflight is given of a node. *)
Definition preflight_of (n : node) : preflight_node :=
  PreflightNode (sor (n_agentRef n) (n_id n)) (n_shortAgentName n) (n_instanceKey n) (network_js (n_network n)).

Definition preflight_graph (ns : jmap jstr node) : result network_error unit :=
  preflightNetworkAliases (preflight_of <$> map_values ns).

Definition resolveWorkspaceDependencyGraph (fuel : nat) (staticAgentRef rootProfile rootAlias : jstr) :
    result graph_error graph * list graph_event :=
  if negb (truthy staticAgentRef) then (Err MissingStaticAgent, [])
  else
    match visit fuel staticAgentRef (root_options staticAgentRef rootProfile rootAlias) empty_graph_state with
    | (Ok id, s) =>
        (match preflight_graph (g_nodes s) with
         | Ok _ => Ok (Graph id (g_nodes s))
         | Err e => Err (NetworkConflict e)
         end, g_log s)
    | (Err e, s) => (Err e, g_log s)
    end.
End Graph.

(** ** Wait modes *)

(** [!edge || !edge.noWait] *)
Definition blocking_edge (parent : node) (childId : jstr) : bool :=
  match map_get childId (n_dependencyEdges parent) with
  | Some noWait => negb noWait
  | None => true
  end.

Definition block_children (parent : node) (blocking : list jstr) : list jstr :=
  fold_left (fun blocking childId =>
    if one_of childId blocking then blocking
    else if blocking_edge parent childId then blocking ++ [childId] else blocking)
    (n_dependencies parent) blocking.

(** One turn of the [while] loop, over the elements it started with. *)
Definition blocking_pass (ns : jmap jstr node) (blocking : list jstr) : list jstr :=
  fold_left (fun acc parentId =>
    match map_get parentId ns with
    | Some parent => block_children parent acc
    | None => acc
    end) blocking blocking.

Fixpoint blocking_loop (fuel : nat) (ns : jmap jstr node) (blocking : list jstr) : list jstr :=
  match fuel with
  | O => blocking
  | S fuel =>
      let blocking' := blocking_pass ns blocking in
      if length blocking' =? length blocking then blocking' else blocking_loop fuel ns blocking'
  end.

(** Every turn but the last adds an identifier that is some dependency. *)
Definition all_dependencies (ns : jmap jstr node) : list jstr :=
  map_values ns ≫= n_dependencies.

Definition classifyDependencyGraphWaitMode (g : graph) : list jstr * list jstr :=
  if truthy (staticNodeId g) && map_has (staticNodeId g) (nodes g) then
    let blocking := blocking_loop (S (length (all_dependencies (nodes g)))) (nodes g) [staticNodeId g] in
    (blocking, bfilter (fun id => negb (one_of id blocking)) (map_keys (nodes g)))
  else ([], map_keys (nodes g)).

(** ** Waves *)

Section Waves.
Context `{Collation}.

Definition collate_le (a b : jstr) : bool := (localeCompare a b <=? 0)%Z.

Definition degree (indegree : jmap jstr nat) (id : jstr) : nat := default 0 (map_get id indegree).

(** [indegree.set(d, Math.max(0, (indegree.get(d) || 0) - 1))] *)
Definition lower (indegree : jmap jstr nat) (dependentId : jstr) : jmap jstr nat :=
  map_set dependentId (pred (degree indegree dependentId)) indegree.

Definition release (ns : jmap jstr node) (indegree : jmap jstr nat) (nodeId : jstr) : jmap jstr nat :=
  map_delete nodeId
    (match map_get nodeId ns with
     | Some n => fold_left lower (n_dependents n) indegree
     | None => indegree
     end).

(** [None] is the error that the graph contains a cycle.  Every turn takes at
    least one node: the number of nodes is fuel enough. *)
Fixpoint wave_loop (fuel : nat) (ns : jmap jstr node) (indegree : jmap jstr nat) (remaining : list jstr) :
    option (list (list jstr)) :=
  match remaining with
  | [] => Some []
  | _ =>
      match fuel with
      | O => None
      | S fuel =>
          let wave := stable_sort collate_le (bfilter (fun id => degree indegree id =? 0) remaining) in
          match wave with
          | [] => None
          | _ =>
              cons wave <$> wave_loop fuel ns (fold_left (release ns) wave indegree)
                (bfilter (fun id => negb (one_of id wave)) remaining)
          end
      end
  end.

Definition initial_indegree (ns : jmap jstr node) : jmap jstr nat :=
  map_fmap (fun n => length (n_dependencies n)) ns.

Definition topologicallyGroupDependencyGraph (g : graph) : option (list (list jstr)) :=
  wave_loop (length (nodes g)) (nodes g) (initial_indegree (nodes g)) (map_keys (nodes g)).

(** ** The plan of a Marketplace enable *)

Record planned : Type := Planned {
  pl_ref : jstr;
  pl_agentRef : jstr;
  pl_alias : jstr;
  pl_profile : jstr;
  pl_dependsOn : list jstr
}.

(** [pending] is a stack, its top first; pushing [...dependencies] puts the
    last of them on top. *)
Fixpoint reachable_loop (fuel : nat) (ns : jmap jstr node) (pending reachable : list jstr) : list jstr :=
  match pending, fuel with
  | [], _ | _, O => reachable
  | nodeId :: pending, S fuel =>
      if one_of nodeId reachable then reachable_loop fuel ns pending reachable
      else
        reachable_loop fuel ns
          (match map_get nodeId ns with
           | Some n => rev (n_dependencies n) ++ pending
           | None => pending
           end) (reachable ++ [nodeId])
  end.

Definition reachable_ids (g : graph) : list jstr :=
  reachable_loop (S (S (length (all_dependencies (nodes g))))) (nodes g) [staticNodeId g] [].

Definition plan_entry (ns : jmap jstr node) (n : node) : planned :=
  Planned (n_agentRef n) (n_enableSpec n) (n_alias n) (if n_profileExplicit n then n_profile n else [])
    (omap (fun id => n ← map_get id ns; if truthy (n_agentRef n) then Some (n_agentRef n) else None)
       (n_dependencies n)).

(** The nodes planned before and after the root, wave by wave. *)
Definition planned_nodes (g : graph) (waves : list (list jstr)) : list (jstr * node) :=
  omap (fun id =>
    if jeqb id (staticNodeId g) || negb (one_of id (reachable_ids g)) then None
    else pair id <$> map_get id (nodes g)) (mjoin waves).

Definition plan_enables (g : graph) : option (list planned * list planned) :=
  waves ← topologicallyGroupDependencyGraph g;
  let blocking := fst (classifyDependencyGraphWaitMode g) in
  let chosen := planned_nodes g waves in
  Some ((fun e => plan_entry (nodes g) e.2) <$> bfilter (fun e => one_of e.1 blocking) chosen,
        (fun e => plan_entry (nodes g) e.2) <$> bfilter (fun e => negb (one_of e.1 blocking)) chosen).
End Waves.

Section Plan.
Context `{AgentCatalog, BareAgents, Sha256, Collation}.

(** The first 256 units of the reference of a directive. *)
Definition unavailableDependencyRef (rawDependency : js) (parentRef : jstr) : jstr :=
  match parseEnableDirective rawDependency with
  | Ok parsed =>
      let spec := match parsed with
                  | Some d => di_spec d
                  | None => []
                  end in
      let repo := default [] (head (split_on 47 parentRef)) in
      take 256 (sor (parseManifestDependencyRef (qualifyEnableSpecForRepo spec repo)) "unknown")
  | Err _ => "unknown"
  end.

Record enable_plan : Type := EnablePlan {
  ep_before : list planned;
  ep_after : list planned;
  ep_unavailable : list (jstr * graph_error)
}.

Inductive plan_error : Type :=
  | MARKETPLACE_DEPENDENCY_UNAVAILABLE (cause : graph_error)
  | PlanFailed (cause : graph_error)
  | PlanCycle.

Definition unavailable_of (e : graph_event) : option (jstr * graph_error) :=
  match e with
  | UnresolvedDependency raw parentRef cause => Some (unavailableDependencyRef raw parentRef, cause)
  | CycleWarning _ _ _ => None
  end.

Definition planManifestDependencyEnables (fuel : nat) (registry : list js)
    (activeProfile agentRef alias profile : jstr) : result plan_error enable_plan :=
  match findAgent agentRef with
  | None => Ok (EnablePlan [] [] [])
  | Some _ =>
      match resolveWorkspaceDependencyGraph registry activeProfile TolerateNoWait fuel
              agentRef profile alias with
      | (Err (DependencyFailed raw parentRef cause), _) =>
          Err (MARKETPLACE_DEPENDENCY_UNAVAILABLE (DependencyFailed raw parentRef cause))
      | (Err e, _) => Err (PlanFailed e)
      | (Ok g, events) =>
          match plan_enables g with
          | None => Err PlanCycle
          | Some (before, after) => Ok (EnablePlan before after (omap unavailable_of events))
          end
      end
  end.
End Plan.
