(* ===== verification/SsoProvider.v ===== *)
(** The sign-on provider a workspace requires: [resolveManifestSsoProvider],
    [resolveWorkspaceGraphSsoConfig] and the rule for providers among
    dependencies, of [src/cli/utils/runtime/bootstrapManifest.js]. *)

From stdpp Require Import prelude.
From Stdlib Require Import NArith.
From S2P Require Import Prelude.
From S2P Require Import JsString.
From S2P Require Import JsNumber.
From S2P Require Import JsMap.
From S2P Require Import JsValue.
From S2P Require Import HttpRouteCompiler.
From S2P Require Import HttpRouteFacts.
From S2P Require Import ManifestContract.
From S2P Require Import EnableDirective.
From S2P Require Import DependencyGraph.

Local Open Scope js_scope.

Inductive sso_error : Type :=
  | SsoAuth (e : auth_error)
  | BadProviderReference
  | ProviderNotFound
  | ProviderNotEnabled (ref : jstr)
  | ConflictingProviders (refs : list jstr)
  | WorkspaceConflict
  | SsoJs (e : js_error).

Notation ssoR := (result sso_error).

Definition sso_auth {A} (r : result auth_error A) : ssoR A :=
  match r with
  | Ok a => Ok a
  | Err e => Err (SsoAuth e)
  end.

Definition firstEnableSpecToken (spec : jstr) : jstr := default [] (head (words (trim spec))).

(** What is before the colon of [repo/agent:...], else the first word. *)
Definition agentRefFromEnableSpec (spec : jstr) : jstr :=
  let raw := trim spec in
  if negb (truthy raw) then []
  else
    let token := firstEnableSpecToken raw in
    match index_of 47 token, index_of 58 token with
    | Some slashIndex, Some colonIndex =>
        if slashIndex <? colonIndex then trim (take colonIndex token) else token
    | _, _ => token
    end.

Section Providers.
Context `{AgentCatalog, BareAgents}.

Definition resolveManifestSsoProvider (manifest : js) (repoName : jstr) : ssoR jstr :=
  mode ← sso_auth (resolveManifestAuthMode manifest);
  if negb (jeqb mode "sso") then Ok []
  else
    match optional "providerAgent" (optional "sso" manifest) with
    | Undefined | Null => Ok []
    | Str s =>
        if truthy (trim s) then Ok (agentRefFromEnableSpec (qualifyEnableSpecForRepo (trim s) repoName))
        else Err BadProviderReference
    | _ => Err BadProviderReference
    end.

Definition find_agent (ref : jstr) : ssoR resolved_agent :=
  match findAgent ref with
  | Some r => Ok r
  | None => Err ProviderNotFound
  end.

Definition canonical_ref (r : resolved_agent) : jstr := ra_repo r ++ "/" ++ ra_shortAgentName r.

(** The node that runs a provider under its own name. *)
Definition provider_node (nodes : list node) (canonicalRef : jstr) : option node :=
  find_first (fun candidate => jeqb (n_agentRef candidate) canonicalRef && negb (truthy (n_alias candidate))) nodes.

(** The provider a node asks for, when it asks for one. *)
Definition node_provider (nodes : list node) (n : node) : ssoR (option jstr) :=
  if negb (jeqb (n_authMode n) "sso") then Ok None
  else
    providerRef ← resolveManifestSsoProvider (n_manifest n) (n_repoName n);
    if negb (truthy providerRef) then Ok None
    else
      resolved ← find_agent providerRef;
      let canonicalRef := canonical_ref resolved in
      match provider_node nodes canonicalRef with
      | Some p => if isSsoProviderManifest (n_manifest p) then Ok (Some canonicalRef)
                  else Err (ProviderNotEnabled canonicalRef)
      | None => Err (ProviderNotEnabled canonicalRef)
      end.

Fixpoint collect_providers (nodes l : list node) (providers : list jstr) : ssoR (list jstr) :=
  match l with
  | [] => Ok providers
  | n :: l =>
      found ← node_provider nodes n;
      collect_providers nodes l
        (match found with
         | Some ref => set_add ref providers
         | None => providers
         end)
  end.

(** The provider the workspace has already, if any, must be the same. *)
Definition check_previous (currentSso : js) (providerAgent : jstr) : ssoR unit :=
  match trimmed_text (optional "providerAgent" currentSso) with
  | Err e => Err (SsoJs e)
  | Ok previousRef =>
      if negb (truthy previousRef) then Ok tt
      else
        resolved ← find_agent previousRef;
        if jeqb (canonical_ref resolved) providerAgent then Ok tt else Err WorkspaceConflict
  end.

Definition sso_config (currentSso : js) (providerAgent : jstr) : js :=
  Obj (merge_props (spread currentSso)
    [("enabled", Bool true); ("providerAgent", Str providerAgent);
     ("providerAgentShort", Str (List.last (split_on 47 providerAgent) []));
     ("providerConfig", js_or (optional "providerConfig" currentSso) (Obj []))]).

(** [None] is [null]: no node asks for a provider. *)
Definition resolveWorkspaceGraphSsoConfig (g : graph) (currentSso : js) : ssoR (option js) :=
  let nodes := map_values (nodes g) in
  providers ← collect_providers nodes nodes [];
  match providers with
  | [] => Ok None
  | [providerAgent] =>
      _ ← check_previous currentSso providerAgent;
      Ok (Some (sso_config currentSso providerAgent))
  | _ => Err (ConflictingProviders providers)
  end.

(** ** Providers among dependencies *)

Definition manifestForDirective (d : directive) : js :=
  let agentRef := agentRefFromEnableSpec (trim (di_spec d)) in
  if negb (truthy agentRef) then Null else manifestForAgentRef agentRef.

Definition shouldEnableDirectiveForManifest (d : directive) (manifest : js) : ssoR bool :=
  if negb (truthy (trim (di_spec d))) then Ok false
  else
    let depManifest := manifestForDirective d in
    if js_truthy depManifest && isSsoProviderManifest depManifest then
      mode ← sso_auth (resolveManifestAuthMode manifest); Ok (jeqb mode "sso")
    else Ok true.

(** ** What a configuration promises *)

(** [ref] names a provider that runs in the graph under its own name. *)
Definition enabled_provider (l : list node) (ref : jstr) : Prop :=
  exists p, p ∈ l /\ n_agentRef p = ref /\ n_alias p = [] /\ isSsoProviderManifest (n_manifest p) = true.

Lemma node_provider_enabled l n ref : node_provider l n = Ok (Some ref) -> enabled_provider l ref.
Proof.
  unfold node_provider. destruct (negb _); [done|].
  destruct (resolveManifestSsoProvider _ _) as [providerRef|]; [|done]. cbn [mbind result_bind].
  destruct (negb _); [done|]. destruct (find_agent providerRef) as [r|]; [|done]. cbn [mbind result_bind].
  destruct (provider_node l (canonical_ref r)) as [p|] eqn:Hp; [|done].
  destruct (isSsoProviderManifest _) eqn:Hs; [|done]. intros [= <-].
  apply find_first_Some in Hp as [Hin (Hr%jeqb_eq & Ha)%andb_true_iff]. exists p. split_and!; try done.
  apply negb_true_iff in Ha. by apply truthy_false.
Qed.

Lemma collect_providers_spec l k providers out :
  collect_providers l k providers = Ok out ->
  (forall ref, ref ∈ out <-> ref ∈ providers \/ exists n, n ∈ k /\ node_provider l n = Ok (Some ref)) /\
  forall n, n ∈ k -> is_ok (node_provider l n) = true.
Proof.
  revert providers. induction k as [|n k IH]; intros providers; simpl.
  { intros [= <-]. split; [|by intros n ?%not_elem_of_nil]. intros ref. split; [by left|].
    by intros [|(n & ?%not_elem_of_nil & _)]. }
  destruct (node_provider l n) as [found|] eqn:Hn; [|done]. cbn [mbind result_bind].
  intros [Hin Hok]%IH. split.
  - intros ref. rewrite Hin.
    assert (ref ∈ match found with Some x => set_add x providers | None => providers end <->
      ref ∈ providers \/ found = Some ref) as ->.
    { destruct found as [x|]; [rewrite elem_of_set_add|]; clear; generalize (ref ∈ providers); naive_solver. }
    split.
    + intros [[?|Hf]|(m & Hm & Ho)]; [by left| |].
      * right. exists n. split; [by left|congruence].
      * right. exists m. split; [by right|done].
    + intros [?|(m & [->|Hm]%elem_of_cons & Ho)]; [auto|left; right; congruence|right; eauto].
  - intros m [->|Hm]%elem_of_cons; [by rewrite Hn|by apply Hok].
Qed.

(** A configuration that is returned names the one provider every node that
    asks for one agrees on, enabled in the graph under its own name. *)
Lemma sso_config_agreed g currentSso cfg :
  resolveWorkspaceGraphSsoConfig g currentSso = Ok (Some cfg) ->
  exists ref, cfg = sso_config currentSso ref /\ enabled_provider (map_values (nodes g)) ref /\
    forall n other, n ∈ map_values (nodes g) ->
      node_provider (map_values (nodes g)) n = Ok (Some other) -> other = ref.
Proof.
  unfold resolveWorkspaceGraphSsoConfig. set (l := map_values (nodes g)).
  destruct (collect_providers l l []) as [providers|] eqn:Hc; [|done]. cbn [mbind result_bind].
  apply collect_providers_spec in Hc as [Hin _]. destruct providers as [|ref [|]]; [done| |done].
  destruct (check_previous _ _) as [[]|]; [|done]. intros [= <-]. exists ref. split_and!; [done| |].
  - destruct (proj1 (Hin ref)) as [?%not_elem_of_nil|(n & _ & Hn)]; [by left|done|].
    by eapply node_provider_enabled.
  - intros n other Hn Ho. apply list_elem_of_singleton, Hin. right. eauto.
Qed.
End Providers.
