(* ===== verification/DependencyWaves.v ===== *)
(** The theorems about a well-formed dependency graph: its waves respect every
    dependency, and its wait modes are reachability over blocking edges. *)

From stdpp Require Import prelude sorting.
From Stdlib Require Import NArith.
From S2P Require Import Prelude.
From S2P Require Import JsString.
From S2P Require Import JsNumber.
From S2P Require Import JsMap.
From S2P Require Import JsValue.
From S2P Require Import HttpRouteCompiler.
From S2P Require Import EnableDirective.
From S2P Require Import DependencyGraph.

Local Open Scope js_scope.

(** ** Well-formed graphs *)

Definition node_at (ns : jmap jstr node) (id : jstr) (n : node) : Prop := map_get id ns = Some n.

(** [c] is a direct dependency of [p]. *)
Definition depends (ns : jmap jstr node) (p c : jstr) : Prop :=
  exists n, node_at ns p n /\ c ∈ n_dependencies n.

(** Both ends of an edge record it, once, and edges never lead back. *)
Record graph_wf (ns : jmap jstr node) : Prop := {
  wf_keys : map_wf ns;
  wf_nodup id n : node_at ns id n -> NoDup (n_dependencies n) /\ NoDup (n_dependents n);
  wf_closed p c : depends ns p c -> exists n, node_at ns c n /\ p ∈ n_dependents n;
  wf_inverse c n p : node_at ns c n -> p ∈ n_dependents n -> depends ns p c;
  wf_rank : exists rank : jstr -> nat, forall p c, depends ns p c -> rank c < rank p
}.

Lemma one_of_false s l : one_of s l = false <-> s ∉ l.
Proof. rewrite <- not_true_iff_false, one_of_elem. done. Qed.

Lemma node_at_key ns id n : node_at ns id n -> id ∈ map_keys ns.
Proof. apply map_get_Some_key. Qed.

Lemma key_node_at ns id : id ∈ map_keys ns -> exists n, node_at ns id n.
Proof.
  intros Hk. unfold node_at. destruct (map_get id ns) as [n|] eqn:Hg; [eauto|].
  by apply map_get_None in Hg.
Qed.

Lemma NoDup_same_length {A} (l k : list A) :
  NoDup l -> NoDup k -> (forall x, x ∈ l <-> x ∈ k) -> length l = length k.
Proof. intros Hl Hk H. apply Permutation_length, NoDup_Permutation; auto. Qed.

(** ** Degrees *)

Lemma degree_lower d ind x : degree (lower ind d) x = if decide (x = d) then pred (degree ind x) else degree ind x.
Proof. unfold degree, lower. rewrite map_get_set. case_decide; subst; done. Qed.

Lemma degree_fold_lower l ind x :
  NoDup l -> degree (fold_left lower l ind) x = degree ind x - (if one_of x l then 1 else 0).
Proof.
  intros Hl. revert ind. induction Hl as [|d l Hd Hl IH]; intros ind; [simpl; lia|].
  cbn [fold_left]. rewrite IH, degree_lower.
  destruct (one_of x (d :: l)) eqn:Hx.
  - apply one_of_elem, elem_of_cons in Hx as [->|Hx].
    + rewrite decide_True by done. apply one_of_false in Hd. rewrite Hd. lia.
    + rewrite decide_False by set_solver. apply one_of_elem in Hx. by rewrite Hx.
  - apply one_of_false in Hx. rewrite decide_False by set_solver.
    assert (one_of x l = false) as -> by (apply one_of_false; set_solver). done.
Qed.

(** How many of [l] have [x] among their dependents. *)
Definition released (ns : jmap jstr node) (l : list jstr) (x : jstr) : list jstr :=
  bfilter (fun id => match map_get id ns with
                     | Some n => one_of x (n_dependents n)
                     | None => false
                     end) l.

Lemma degree_release ns ind id x :
  graph_wf ns -> x <> id ->
  degree (release ns ind id) x = degree ind x - length (released ns [id] x).
Proof.
  intros Hwf Hne. unfold release. unfold degree at 1. rewrite map_get_delete, decide_False by done.
  fold (degree (match map_get id ns with
    | Some n => fold_left lower (n_dependents n) ind
    | None => ind
    end) x).
  unfold released. simpl. destruct (map_get id ns) as [n|] eqn:Hg; simpl; [|lia].
  destruct (wf_nodup _ Hwf id n Hg) as [_ Hnd]. rewrite degree_fold_lower by done.
  by destruct (one_of x (n_dependents n)).
Qed.

Lemma released_cons ns id l x : length (released ns (id :: l) x) = length (released ns [id] x) + length (released ns l x).
Proof. unfold released. simpl. by destruct (match map_get id ns with Some n => _ | None => _ end). Qed.

Lemma degree_fold_release ns l ind x :
  graph_wf ns -> x ∉ l ->
  degree (fold_left (release ns) l ind) x = degree ind x - length (released ns l x).
Proof.
  intros Hwf. revert ind. induction l as [|id l IH]; intros ind Hx; [simpl; lia|].
  apply not_elem_of_cons in Hx as [Hne Hx]. cbn [fold_left].
  rewrite IH, degree_release, (released_cons ns id l) by done. lia.
Qed.

(** ** The loop over the waves *)

(** The dependencies of [id] that are in [l]. *)
Definition deps_in (ns : jmap jstr node) (l : list jstr) (id : jstr) : list jstr :=
  match map_get id ns with
  | Some n => bfilter (fun c => one_of c l) (n_dependencies n)
  | None => []
  end.

Lemma elem_of_deps_in ns l id c : c ∈ deps_in ns l id <-> depends ns id c /\ c ∈ l.
Proof.
  unfold deps_in, depends, node_at. destruct (map_get id ns) as [n|].
  - rewrite elem_of_bfilter, one_of_elem. naive_solver.
  - split; [by intros ?%not_elem_of_nil|]. naive_solver.
Qed.

Lemma NoDup_deps_in ns l id : graph_wf ns -> NoDup (deps_in ns l id).
Proof.
  intros Hwf. unfold deps_in. destruct (map_get id ns) as [n|] eqn:Hg; [|constructor].
  apply NoDup_bfilter. by apply (wf_nodup _ Hwf id).
Qed.

Section Waves.
Context `{Collation}.
Context (ns : jmap jstr node) (Hwf : graph_wf ns).

(** The indegree of a remaining node counts its remaining dependencies. *)
Definition counts (ind : jmap jstr nat) (remaining : list jstr) : Prop :=
  forall id, id ∈ remaining -> degree ind id = length (deps_in ns remaining id).

Definition next_wave (ind : jmap jstr nat) (remaining : list jstr) : list jstr :=
  stable_sort collate_le (bfilter (fun id => degree ind id =? 0) remaining).

Lemma elem_of_next_wave ind remaining id :
  counts ind remaining ->
  id ∈ next_wave ind remaining <-> id ∈ remaining /\ forall c, depends ns id c -> c ∉ remaining.
Proof.
  intros Hc. unfold next_wave. rewrite stable_sort_Permutation, elem_of_bfilter, Nat.eqb_eq.
  split; intros [Hr Hd]; (split; [done|]).
  - intros c Hdep Hin. rewrite Hc in Hd by done. apply nil_length_inv in Hd.
    assert (c ∈ deps_in ns remaining id) as Hx by by apply elem_of_deps_in.
    rewrite Hd in Hx. by apply not_elem_of_nil in Hx.
  - rewrite Hc by done. destruct (deps_in ns remaining id) as [|c l] eqn:He; [done|]. exfalso.
    assert (c ∈ deps_in ns remaining id) as Hx by (rewrite He; left).
    apply elem_of_deps_in in Hx as [Hdep Hin]. by apply (Hd c).
Qed.

Lemma next_wave_nonempty ind remaining :
  counts ind remaining -> remaining <> [] -> next_wave ind remaining <> [].
Proof.
  intros Hc Hne Hw. destruct (wf_rank _ Hwf) as [rank Hrank].
  assert (forall k id, rank id < k -> id ∈ remaining -> False) as Hno.
  { induction k as [|k IH]; intros id Hk Hid; [lia|].
    assert (id ∉ next_wave ind remaining) as Hn by (rewrite Hw; apply not_elem_of_nil).
    apply Hn, elem_of_next_wave; [done|]. split; [done|].
    intros c Hd Hin. apply (IH c); [|done]. specialize (Hrank _ _ Hd). lia. }
  destruct remaining as [|id l]; [done|]. apply (Hno (S (rank id)) id); [lia|left].
Qed.

Definition after_wave (wave remaining : list jstr) : list jstr :=
  bfilter (fun id => negb (one_of id wave)) remaining.

Lemma elem_of_after_wave wave remaining id : id ∈ after_wave wave remaining <-> id ∈ remaining /\ id ∉ wave.
Proof. unfold after_wave. by rewrite elem_of_bfilter, negb_true_iff, one_of_false. Qed.

(** Releasing a wave leaves the counts right for what remains. *)
Lemma counts_step ind remaining :
  NoDup remaining -> (forall id, id ∈ remaining -> id ∈ map_keys ns) -> counts ind remaining ->
  counts (fold_left (release ns) (next_wave ind remaining) ind)
    (after_wave (next_wave ind remaining) remaining).
Proof.
  intros Hnd Hkeys Hc id [Hid Hw]%elem_of_after_wave. set (wave := next_wave ind remaining) in *.
  assert (NoDup wave) as Hwnd.
  { unfold wave, next_wave. rewrite stable_sort_Permutation. by apply NoDup_bfilter. }
  assert (forall c, c ∈ wave -> c ∈ remaining) as Hsub by (intros c Hcw; by apply elem_of_next_wave in Hcw as [? _]).
  rewrite degree_fold_release, Hc by done.
  assert (length (released ns wave id) = length (deps_in ns wave id)) as Hrel.
  { apply NoDup_same_length; [by apply NoDup_bfilter|by apply NoDup_deps_in|].
    intros c. unfold released. rewrite elem_of_bfilter, elem_of_deps_in. split.
    - intros [Hcw Hg]. split; [|done]. destruct (map_get c ns) as [n|] eqn:Hn; [|done].
      apply one_of_elem in Hg. by eapply wf_inverse.
    - intros [Hd Hcw]. split; [done|]. destruct (wf_closed _ Hwf _ _ Hd) as (n & Hn & Hin).
      unfold node_at in Hn. rewrite Hn. by apply one_of_elem. }
  assert (length (deps_in ns remaining id) =
    length (deps_in ns wave id ++ deps_in ns (after_wave wave remaining) id)) as Hsplit.
  { apply NoDup_same_length; [by apply NoDup_deps_in| |].
    - apply NoDup_app. split_and!; [by apply NoDup_deps_in| |by apply NoDup_deps_in].
      intros c [_ H1]%elem_of_deps_in [_ [_ H2]%elem_of_after_wave]%elem_of_deps_in. done.
    - intros c. rewrite elem_of_app, !elem_of_deps_in, elem_of_after_wave.
      destruct (decide (c ∈ wave)) as [Hcw|Hcw]; [|tauto]. specialize (Hsub c Hcw). tauto. }
  rewrite length_app in Hsplit. lia.
Qed.

(** Every dependency of a node is in an earlier wave, unless it was done
    before. *)
Definition ordered (waves : list (list jstr)) (remaining : list jstr) : Prop :=
  forall pre wave post id c, waves = pre ++ wave :: post -> id ∈ wave -> depends ns id c ->
    c ∈ remaining -> c ∈ mjoin pre.

Lemma wave_loop_spec fuel ind remaining :
  length remaining <= fuel -> NoDup remaining -> (forall id, id ∈ remaining -> id ∈ map_keys ns) ->
  counts ind remaining ->
  exists waves, wave_loop fuel ns ind remaining = Some waves /\
    mjoin waves ≡ₚ remaining /\ Forall (fun w => w <> []) waves /\ ordered waves remaining.
Proof.
  revert ind remaining. induction fuel as [|fuel IH]; intros ind remaining Hlen Hnd Hkeys Hc.
  { destruct remaining; [|simpl in Hlen; lia]. exists []. split_and!; [done|done|done|].
    intros pre wave post id c Heq. by destruct pre. }
  destruct remaining as [|r0 rs] eqn:Hr.
  { exists []. split_and!; [done|done|done|]. intros pre wave post id c Heq. by destruct pre. }
  rewrite <- Hr in *. assert (remaining <> []) as Hne by (by rewrite Hr).
  pose proof (next_wave_nonempty ind remaining Hc Hne) as Hwne.
  assert (wave_loop (S fuel) ns ind remaining =
    cons (next_wave ind remaining) <$> wave_loop fuel ns (fold_left (release ns) (next_wave ind remaining) ind)
      (after_wave (next_wave ind remaining) remaining)) as ->.
  { rewrite Hr. cbn [wave_loop]. rewrite <- Hr. fold (next_wave ind remaining).
    destruct (next_wave ind remaining); [done|]. done. }
  set (wave := next_wave ind remaining) in *. set (rest := after_wave wave remaining).
  assert (wave ++ rest ≡ₚ remaining) as Hperm.
  { apply NoDup_Permutation; [|done|].
    - apply NoDup_app. split_and!.
      + unfold wave, next_wave. rewrite stable_sort_Permutation. by apply NoDup_bfilter.
      + by intros x Hx [_ ?]%elem_of_after_wave.
      + by apply NoDup_bfilter.
    - intros x. rewrite elem_of_app. unfold rest. rewrite elem_of_after_wave.
      destruct (decide (x ∈ wave)) as [Hx|Hx]; [|tauto].
      apply elem_of_next_wave in Hx as Hx'; [|done]. tauto. }
  destruct (IH (fold_left (release ns) wave ind) rest) as (waves & Hws & Hp & Hnone & Hord).
  - apply Permutation_length in Hperm. rewrite length_app in Hperm. destruct wave; [done|]. simpl in Hperm. lia.
  - by apply NoDup_bfilter.
  - intros id [Hid _]%elem_of_after_wave. by apply Hkeys.
  - by apply counts_step.
  - exists (wave :: waves). rewrite Hws. split_and!; [done| |by constructor|].
    + change (mjoin (wave :: waves)) with (wave ++ mjoin waves). by rewrite Hp.
    + intros pre w post id c Heq Hid Hd Hin. destruct pre as [|w0 pre]; cbn [app] in Heq; injection Heq; intros Hpost Hw.
      * rewrite <- Hw in Hid. apply elem_of_next_wave in Hid as [_ Hno]; [|done]. by destruct (Hno c Hd).
      * rewrite <- Hw. apply elem_of_app. destruct (decide (c ∈ wave)) as [|Hcw]; [by left|]. right.
        eapply Hord; [done|done|done|]. by apply elem_of_after_wave.
Qed.
End Waves.

Section Grouping.
Context `{Collation}.
Context (ns : jmap jstr node) (Hwf : graph_wf ns).

Lemma initial_counts : counts ns (initial_indegree ns) (map_keys ns).
Proof.
  intros id Hid. destruct (key_node_at _ _ Hid) as [n Hn]. unfold degree, initial_indegree, node_at in *.
  rewrite map_get_fmap, Hn. simpl. unfold deps_in. rewrite Hn. rewrite bfilter_all; [done|].
  intros c Hc. apply one_of_elem. destruct (wf_closed _ Hwf id c) as (n' & Hn' & _); [by exists n|].
  by eapply node_at_key.
Qed.

(** Grouping never fails, loses or repeats a node, and puts every dependency
    in an earlier wave. *)
Lemma wave_grouping :
  exists waves, wave_loop (length ns) ns (initial_indegree ns) (map_keys ns) = Some waves /\
    mjoin waves ≡ₚ map_keys ns /\ Forall (fun w => w <> []) waves /\
    forall pre wave post id c, waves = pre ++ wave :: post -> id ∈ wave -> depends ns id c ->
      c ∈ mjoin pre.
Proof.
  destruct (wave_loop_spec ns Hwf (length ns) (initial_indegree ns) (map_keys ns)) as (waves & Hw & Hp & Hne & Ho).
  - unfold map_keys. by rewrite length_fmap.
  - apply (wf_keys _ Hwf).
  - done.
  - apply initial_counts.
  - exists waves. split_and!; [done|done|done|]. intros pre wave post id c Heq Hid Hd.
    eapply Ho; [done|done|done|]. destruct (wf_closed _ Hwf _ _ Hd) as (n & Hn & _). by eapply node_at_key.
Qed.
End Grouping.

(** ** Wait modes *)

Section Waits.
Context (ns : jmap jstr node) (root : jstr).

(** The start waits for [id]: a path of blocking edges leads to it. *)
Inductive waits : jstr -> Prop :=
  | waits_root : waits root
  | waits_edge p n c : waits p -> node_at ns p n -> c ∈ n_dependencies n -> blocking_edge n c = true ->
      waits c.

(** A set of identifiers the loop may reach. *)
Record sound (l : list jstr) : Prop := {
  so_nodup : NoDup l;
  so_waits : forall x, x ∈ l -> waits x;
  so_known : forall x, x ∈ l -> x = root \/ x ∈ all_dependencies ns
}.

Definition add_child (n : node) (l : list jstr) (c : jstr) : list jstr :=
  if one_of c l then l else if blocking_edge n c then l ++ [c] else l.

Lemma all_dependencies_in p n c : node_at ns p n -> c ∈ n_dependencies n -> c ∈ all_dependencies ns.
Proof.
  intros Hn%map_get_Some_in Hc. apply list_elem_of_bind. exists n. split; [done|].
  apply list_elem_of_fmap. by exists (p, n).
Qed.

(** [k] extends [l] at its end. *)
Lemma fold_add_child p n cs l :
  node_at ns p n -> waits p -> (forall c, c ∈ cs -> c ∈ n_dependencies n) -> sound l ->
  sound (fold_left (add_child n) cs l) /\ l `prefix_of` fold_left (add_child n) cs l /\
  forall c, c ∈ cs -> blocking_edge n c = true -> c ∈ fold_left (add_child n) cs l.
Proof.
  intros Hn Hp. revert l. induction cs as [|c cs IH]; intros l Hcs Hl.
  { split_and!; [done|done|]. by intros c ?%not_elem_of_nil. }
  cbn [fold_left]. assert (sound (add_child n l c)) as Hl1.
  { unfold add_child. destruct (one_of c l) eqn:Hc; [done|]. destruct (blocking_edge n c) eqn:Hb; [|done].
    apply one_of_false in Hc. destruct Hl as [H1 H2 H3]. constructor.
    - apply NoDup_app. split_and!; [done| |apply NoDup_singleton]. by intros x Hx ->%list_elem_of_singleton.
    - intros x [Hx| ->%list_elem_of_singleton]%elem_of_app; [by apply H2|].
      eapply waits_edge; [done|done| |done]. apply Hcs. by left.
    - intros x [Hx| ->%list_elem_of_singleton]%elem_of_app; [by apply H3|]. right.
      eapply all_dependencies_in; [done|]. apply Hcs. by left. }
  assert (l `prefix_of` add_child n l c) as Hpre.
  { unfold add_child. destruct (one_of c l); [done|]. destruct (blocking_edge n c); [|done]. by apply prefix_app_r. }
  destruct (IH (add_child n l c)) as (Hs & Hpre2 & Hall); [set_solver|done|].
  split_and!; [done|by etrans|]. intros x [->|Hx]%elem_of_cons Hb; [|by apply Hall].
  destruct Hpre2 as [k ->]. apply elem_of_app. left. unfold add_child.
  destruct (one_of c l) eqn:Hc; [by apply one_of_elem|]. rewrite Hb. set_solver.
Qed.

(** The blocking children of [p]. *)
Definition covered (p : jstr) (l : list jstr) : Prop :=
  forall n c, node_at ns p n -> c ∈ n_dependencies n -> blocking_edge n c = true -> c ∈ l.

Definition pass_step (l : list jstr) (p : jstr) : list jstr :=
  match map_get p ns with
  | Some n => block_children n l
  | None => l
  end.

Lemma pass_spec ps l :
  (forall p, p ∈ ps -> waits p) -> sound l ->
  sound (fold_left pass_step ps l) /\ l `prefix_of` fold_left pass_step ps l /\
  forall p, p ∈ ps -> covered p (fold_left pass_step ps l).
Proof.
  revert l. induction ps as [|p ps IH]; intros l Hps Hl.
  { split_and!; [done|done|]. by intros p ?%not_elem_of_nil. }
  cbn [fold_left].
  assert (sound (pass_step l p) /\ l `prefix_of` pass_step l p /\ covered p (pass_step l p)) as (H1 & H2 & H3).
  { unfold pass_step, covered, node_at. destruct (map_get p ns) as [n|] eqn:Hn; [|done].
    destruct (fold_add_child p n (n_dependencies n) l) as (Ha & Hb & Hc); [done|apply Hps; by left|done|done|].
    split_and!; [done|done|]. intros n' c [= <-] Hin Hbl. by apply Hc. }
  destruct (IH (pass_step l p)) as (Ha & Hb & Hc); [set_solver|done|].
  split_and!; [done|by etrans|]. intros q [->|Hq]%elem_of_cons; [|by apply Hc].
  intros n c Hn Hin Hbl. destruct Hb as [k ->]. apply elem_of_app. left. by eapply H3.
Qed.

Lemma sound_length l : sound l -> length l <= S (length (all_dependencies ns)).
Proof.
  intros [H1 _ H3]. assert (l ⊆+ root :: all_dependencies ns) as Hs.
  { apply NoDup_submseteq; [done|]. intros x Hx. apply elem_of_cons. by apply H3. }
  by apply submseteq_length in Hs.
Qed.

(** The loop ends before its fuel, at a set closed under blocking edges. *)
Lemma blocking_loop_spec fuel l :
  sound l -> S (S (length (all_dependencies ns))) <= fuel + length l ->
  sound (blocking_loop fuel ns l) /\ l `prefix_of` blocking_loop fuel ns l /\
  forall p, p ∈ blocking_loop fuel ns l -> covered p (blocking_loop fuel ns l).
Proof.
  revert l. induction fuel as [|fuel IH]; intros l Hl Hf.
  { pose proof (sound_length l Hl). lia. }
  cbn [blocking_loop]. change (blocking_pass ns l) with (fold_left pass_step l l).
  destruct (pass_spec l l) as (H1 & H2 & H3); [apply (so_waits _ Hl)|done|].
  destruct (Nat.eqb_spec (length (fold_left pass_step l l)) (length l)) as [He|Hne].
  - assert (l = fold_left pass_step l l) as Heq by (apply (prefix_length_eq _ _ H2); lia).
    rewrite <- Heq in H1, H3 |- *. by split_and!.
  - destruct (IH (fold_left pass_step l l)) as (Ha & Hb & Hc); [done| |].
    + apply prefix_length in H2. lia.
    + split_and!; [done|by etrans|done].
Qed.

Lemma blocking_iff l :
  l = blocking_loop (S (length (all_dependencies ns))) ns [root] -> forall x, x ∈ l <-> waits x.
Proof.
  intros ->. destruct (blocking_loop_spec (S (length (all_dependencies ns))) [root]) as (H1 & H2 & H3).
  - constructor.
    + apply NoDup_singleton.
    + intros x ->%list_elem_of_singleton. constructor.
    + intros x ->%list_elem_of_singleton. by left.
  - simpl. lia.
  - intros x. split; [by apply so_waits|]. induction 1 as [|p n c _ IH Hn Hc Hb].
    + destruct H2 as [k ->]. set_solver.
    + by eapply H3.
Qed.
End Waits.
