(* ===== verification/DependencyVisit.v ===== *)
(** The traversal that builds the dependency graph: the invariant of its state,
    what a visit may change, and that dropping a failed subtree restores the
    state before it. *)

From stdpp Require Import prelude.
From Stdlib Require Import NArith.
From S2P Require Import Prelude.
From S2P Require Import JsString.
From S2P Require Import JsNumber.
From S2P Require Import JsMap.
From S2P Require Import JsValue.
From S2P Require Import HttpRouteCompiler.
From S2P Require Import HttpRouteFacts.
From S2P Require Import EnableDirective.
From S2P Require Import DependencyGraph.
From S2P Require Import DependencyWaves.

Local Open Scope js_scope.

(** ** Edges of a map of nodes *)

(** What the invariant says about a node: its links and where it came from. *)
Definition links (n : node) : list jstr * list jstr := (n_dependencies n, n_dependents n).

Lemma elem_of_set_add' x s l : x ∈ set_add s l <-> x ∈ l \/ x = s.
Proof. apply elem_of_set_add. Qed.

Lemma NoDup_set_add s l : NoDup l -> NoDup (set_add s l).
Proof.
  intros Hl. unfold set_add. destruct (one_of s l) eqn:Hs; [done|]. apply one_of_false in Hs.
  apply NoDup_app. split_and!; [done| |apply NoDup_singleton]. by intros x Hx ->%list_elem_of_singleton.
Qed.

Lemma map_get_update k f m j :
  map_get j (map_update k f m) = if decide (j = k) then f <$> map_get k m else map_get j m.
Proof.
  unfold map_update. destruct (map_get k m) as [n|] eqn:Hk.
  - rewrite map_get_set. by case_decide.
  - case_decide; [by subst|done].
Qed.

Lemma map_wf_update k f (m : jmap jstr node) : map_wf m -> map_wf (map_update k f m).
Proof. unfold map_update. intros Hm. destruct (map_get k m); [by apply map_wf_set|done]. Qed.

Lemma keys_map_get {V} k (m : jmap jstr V) : k ∈ map_keys m <-> map_get k m <> None.
Proof.
  unfold map_keys. rewrite map_get_None. split; [tauto|]. intros H. by apply dec_stable.
Qed.

(** ** The invariant *)

Section Invariant.
Context `{AgentCatalog}.
Implicit Types (s : graph_state) (n : node).

Notation at_ s := (node_at (g_nodes s)).
Notation known s k := (k ∈ map_keys (g_nodes s)).
Notation status s k := (map_get k (g_state s)).

(** The manifest of a node is the one on disk of an agent of its repository. *)
Definition genuine (n : node) : Prop :=
  exists ref r, findAgent ref = Some r /\ readManifest (ra_manifestPath r) = Some (n_manifest n) /\
    n_repoName n = ra_repo r.

(** What holds even where a visit throws. *)
Record weak s : Prop := {
  we_wf : map_wf (g_nodes s);
  we_nodup id n : at_ s id n -> NoDup (n_dependencies n) /\ NoDup (n_dependents n);
  we_dependents id n x : at_ s id n -> x ∈ n_dependents n -> known s x;
  we_status k : status s k <> None -> known s k;
  we_genuine id n : at_ s id n -> genuine n
}.

(** What holds between visits. *)
Record inv s : Prop := {
  in_weak : weak s;
  in_graph : graph_wf (g_nodes s);
  in_status k : known s k -> status s k <> None;
  in_visited p c : depends (g_nodes s) p c -> status s c = Some Visited
}.

(** What a step keeps of the nodes known before, [ex] excepted: their
    dependencies, their status, and which known nodes depend on them. *)
Record frame (ex : option jstr) s s' : Prop := {
  fr_known k : known s k -> known s' k;
  fr_status k : known s k -> status s' k = status s k;
  fr_deps k c : known s k -> Some k <> ex ->
    depends (g_nodes s') k c <-> depends (g_nodes s) k c;
  fr_dependents k n n' x : at_ s k n -> at_ s' k n' -> known s x -> Some x <> ex ->
    x ∈ n_dependents n' <-> x ∈ n_dependents n
}.

Lemma frame_refl ex s : frame ex s s.
Proof. constructor; try done. intros k n n' x Hn Hn'. unfold node_at in *. by simplify_eq. Qed.

Lemma frame_weaken ex s s' : frame None s s' -> frame ex s s'.
Proof.
  intros [H1 H2 H3 H4]. constructor; try done.
  - intros k c Hk _. by apply H3.
  - intros k n n' x Hn Hn' Hx _. by eapply H4.
Qed.

Lemma frame_trans ex s1 s2 s3 : frame ex s1 s2 -> frame ex s2 s3 -> frame ex s1 s3.
Proof.
  intros [H1 H2 H3 H4] [K1 K2 K3 K4]. constructor.
  - intros k Hk. by apply K1, H1.
  - intros k Hk. rewrite K2 by by apply H1. by apply H2.
  - intros k c Hk Hex. rewrite K3 by auto. by apply H3.
  - intros k n n3 x Hn Hn3 Hx Hex.
    destruct (key_node_at (g_nodes s2) k) as [n2 Hn2]; [by apply H1; eapply node_at_key|].
    rewrite (K4 k n2 n3 x) by auto. by eapply H4.
Qed.

(** A step of a node that was not known is no exception. *)
Lemma frame_new id s1 s2 s3 :
  ~ known s1 id -> frame None s1 s2 -> frame (Some id) s2 s3 -> frame None s1 s3.
Proof.
  intros Hid H12 H23. assert (frame (Some id) s1 s3) as [H1 H2 H3 H4].
  { eapply frame_trans; [by apply frame_weaken|done]. }
  constructor; try done.
  - intros k c Hk _. apply H3; [done|]. by intros [= ->].
  - intros k n n' x Hn Hn' Hx _. eapply H4; [done|done|done|]. by intros [= ->].
Qed.

(** ** Steps that leave the links alone *)

(** The nodes changed without touching links or origin. *)
Definition same_links s s' : Prop :=
  map_keys (g_nodes s') = map_keys (g_nodes s) /\
  forall id n', at_ s' id n' -> exists n, at_ s id n /\ links n' = links n /\
    n_manifest n' = n_manifest n /\ n_repoName n' = n_repoName n.

Lemma same_links_depends s s' p c :
  same_links s s' -> depends (g_nodes s') p c <-> depends (g_nodes s) p c.
Proof.
  intros [Hk Hl]. split.
  - intros (n' & Hn' & Hc). destruct (Hl p n' Hn') as (n & Hn & [= Hd _] & _). exists n. by rewrite <- Hd.
  - intros (n & Hn & Hc). destruct (key_node_at (g_nodes s') p) as [n' Hn'].
    { rewrite Hk. by eapply node_at_key. }
    destruct (Hl p n' Hn') as (m & Hm & [= Hd _] & _). unfold node_at in *. simplify_eq.
    exists n'. by rewrite Hd.
Qed.

Lemma same_links_weak s s' :
  same_links s s' -> (forall k, status s' k <> None -> known s' k) -> weak s -> weak s'.
Proof.
  intros [Hk Hl] Hst [H1 H2 H3 H4 H5]. constructor; try done.
  - unfold map_wf, map_keys in *. by rewrite Hk.
  - intros id n' Hn'. destruct (Hl id n' Hn') as (n & Hn & [= -> ->] & _). by eapply H2.
  - intros id n' x Hn' Hx. destruct (Hl id n' Hn') as (n & Hn & [= _ He] & _). rewrite He in Hx.
    rewrite Hk. by eapply H3.
  - intros id n' Hn'. destruct (Hl id n' Hn') as (n & Hn & _ & Hm & Hr).
    destruct (H5 id n Hn) as (ref & r & ? & ? & ?). exists ref, r. by rewrite Hm, Hr.
Qed.

Lemma same_links_graph s s' : same_links s s' -> graph_wf (g_nodes s) -> graph_wf (g_nodes s').
Proof.
  intros Hs [H1 H2 H3 H4 H5]. pose proof (fun p c => same_links_depends s s' p c Hs) as Hd.
  destruct Hs as [Hk Hl]. constructor.
  - unfold map_wf, map_keys in *. by rewrite Hk.
  - intros id n' Hn'. destruct (Hl id n' Hn') as (n & Hn & [= -> ->] & _). by eapply H2.
  - intros p c Hpc%Hd. destruct (H3 p c Hpc) as (n & Hn & Hp).
    destruct (key_node_at (g_nodes s') c) as [n' Hn']; [rewrite Hk; by eapply node_at_key|].
    exists n'. split; [done|]. destruct (Hl c n' Hn') as (m & Hm & [= _ He] & _).
    unfold node_at in *. simplify_eq. by rewrite He.
  - intros c n' p Hn' Hp. apply Hd. destruct (Hl c n' Hn') as (n & Hn & [= _ He] & _).
    rewrite He in Hp. by eapply H4.
  - destruct H5 as [rank Hr]. exists rank. intros p c Hpc%Hd. by apply Hr.
Qed.

(** A step that keeps links and status of every node. *)
Lemma same_links_frame ex s s' :
  same_links s s' -> (forall k, known s k -> status s' k = status s k) -> frame ex s s'.
Proof.
  intros Hs Hst. pose proof (fun p c => same_links_depends s s' p c Hs) as Hd.
  destruct Hs as [Hk Hl]. constructor; try done.
  - intros k. by rewrite Hk.
  - intros k n n' x Hn Hn' _ _. destruct (Hl k n' Hn') as (m & Hm & [= _ He] & _).
    unfold node_at in *. simplify_eq. by rewrite He.
Qed.

Lemma same_links_inv s s' :
  same_links s s' -> g_state s' = g_state s -> inv s -> inv s'.
Proof.
  intros Hs Hst [H1 H2 H3 H4]. constructor.
  - apply (same_links_weak s s'); [done| |done]. intros k Hk. rewrite Hst in Hk.
    destruct Hs as [-> _]. by apply (we_status _ H1).
  - by eapply same_links_graph.
  - intros k Hk. rewrite Hst. apply H3. by rewrite <- (proj1 Hs).
  - intros p c Hpc. rewrite Hst. apply (H4 p c). by apply (same_links_depends s s' p c Hs).
Qed.

Lemma update_same_links k f s :
  (forall n, links (f n) = links n /\ n_manifest (f n) = n_manifest n /\ n_repoName (f n) = n_repoName n) ->
  same_links s (update_node k f s).
Proof.
  intros Hf. split.
  - unfold update_node, map_update. simpl. destruct (map_get k (g_nodes s)) as [n|] eqn:Hk; [|done].
    apply map_keys_set_present. by eapply map_get_Some_key.
  - intros id n' Hn'. unfold node_at, update_node in Hn'. simpl in Hn'. rewrite map_get_update in Hn'.
    case_decide as Hd; [|by exists n'].
    destruct (map_get k (g_nodes s)) as [n|] eqn:Hk; simplify_eq/=. exists n. split; [done|]. apply Hf.
Qed.

Lemma report_same_links e s : same_links s (report e s).
Proof. split; [done|]. intros id n' Hn'. by exists n'. Qed.

(** ** A new node *)

Definition bare (n : node) : Prop := links n = ([], []).

Lemma set_node_at id n s k n' :
  at_ (set_node id n s) k n' -> (k = id /\ n' = n) \/ at_ s k n'.
Proof. unfold node_at, set_node. simpl. rewrite map_get_set. case_decide; naive_solver. Qed.

Lemma set_node_weak id n s : bare n -> genuine n -> weak s -> weak (set_node id n s).
Proof.
  intros [= Hd He] Hg [H1 H2 H3 H4 H5]. constructor.
  - by apply map_wf_set.
  - intros k n' [[-> ->]|Hn']%set_node_at; [|by eapply H2]. rewrite Hd, He. split; constructor.
  - intros k n' x [[-> ->]|Hn']%set_node_at Hx; [rewrite He in Hx; by apply not_elem_of_nil in Hx|].
    apply keys_map_get. simpl. rewrite map_get_set. case_decide; [done|]. apply keys_map_get. by eapply H3.
  - intros k Hk. apply keys_map_get. simpl. rewrite map_get_set. case_decide; [done|].
    apply keys_map_get. by apply H4.
  - intros k n' [[-> ->]|Hn']%set_node_at; [done|by eapply H5].
Qed.

Lemma set_node_other id n s k : k <> id -> map_get k (g_nodes (set_node id n s)) = map_get k (g_nodes s).
Proof. intros Hk. simpl. by rewrite map_get_set, decide_False. Qed.

Lemma known_ne s id k : ~ known s id -> known s k -> k <> id.
Proof. by intros Hid Hk ->. Qed.

(** Storing a node under a new identifier, whatever its status. *)
Lemma add_frame id n v s :
  ~ known s id ->
  frame None s (set_node id n s) /\ frame None s (set_status id v (set_node id n s)).
Proof.
  intros Hid.
  assert (forall k, known s k -> map_get k (g_nodes (set_node id n s)) = map_get k (g_nodes s)) as Hsame.
  { intros k Hk. by apply set_node_other, (known_ne s). }
  assert (frame None s (set_node id n s)) as Hf.
  { constructor; [| done | |].
    - intros k Hk. apply keys_map_get. rewrite Hsame by done. by apply keys_map_get.
    - intros k c Hk _. unfold depends, node_at. by rewrite Hsame.
    - intros k m m' x Hm Hm' _ _. unfold node_at in *. rewrite Hsame in Hm' by by eapply map_get_Some_key.
      by simplify_eq. }
  split; [done|]. destruct Hf as [H1 H2 H3 H4]. constructor; try done.
  intros k Hk. simpl. rewrite map_get_set, decide_False; [done|by apply (known_ne s)].
Qed.

Lemma start_inv id n s :
  inv s -> ~ known s id -> bare n -> genuine n -> inv (set_status id Visiting (set_node id n s)).
Proof.
  intros [Hw Hgr Hst Hv] Hid Hb Hg. set (s1 := set_node id n s).
  assert (forall p c, depends (g_nodes s1) p c <-> depends (g_nodes s) p c) as Hdep.
  { intros p c. unfold depends. split; intros (m & Hm & Hc).
    - apply set_node_at in Hm as [[-> ->]|Hm]; [|by exists m]. injection Hb as Hd _.
      rewrite Hd in Hc. by apply not_elem_of_nil in Hc.
    - exists m. split; [|done]. unfold node_at. unfold s1. rewrite set_node_other; [done|].
      intros ->. apply Hid. by eapply node_at_key. }
  assert (weak s1) as Hw1 by by apply set_node_weak.
  constructor.
  - destruct Hw1 as [H1 H2 H3 H4 H5]. constructor; try done. intros k Hk. simpl in Hk.
    rewrite map_get_set in Hk. case_decide as Hkid; [|by apply H4].
    subst k. apply keys_map_get. unfold s1. simpl. by rewrite map_get_set, decide_True.
  - destruct Hgr as [H1 H2 H3 H4 [rank H5]]. constructor.
    + apply (we_wf _ Hw1).
    + intros k m Hm. by apply (we_nodup _ Hw1 k).
    + intros p c Hpc%Hdep. destruct (H3 p c Hpc) as (m & Hm & Hp). exists m. split; [|done].
      unfold node_at, s1 in *. simpl. rewrite map_get_set, decide_False; [done|].
      intros ->. apply Hid. by eapply node_at_key.
    + intros c m p [[-> ->]|Hm]%set_node_at Hp; [injection Hb as _ He; rewrite He in Hp; by apply not_elem_of_nil in Hp|].
      apply Hdep. by eapply H4.
    + exists rank. intros p c Hpc%Hdep. by apply H5.
  - intros k Hk. simpl. rewrite map_get_set. case_decide as Hkid; [done|]. apply Hst.
    apply keys_map_get in Hk. apply keys_map_get. simpl in Hk. by rewrite map_get_set, decide_False in Hk.
  - intros p c Hpc. simpl in Hpc. apply Hdep in Hpc. simpl. rewrite map_get_set, decide_False; [by eapply Hv|].
    intros ->. destruct (wf_closed _ Hgr _ _ Hpc) as (m & Hm & _). apply Hid. by eapply node_at_key.
Qed.

Lemma finish_inv id s : known s id -> inv s -> inv (set_status id Visited s).
Proof.
  intros Hid [Hw Hgr Hst Hv]. constructor; [| done | |].
  - destruct Hw as [H1 H2 H3 H4 H5]. constructor; try done. intros k Hk. simpl in Hk.
    rewrite map_get_set in Hk. case_decide; [by subst|by apply H4].
  - intros k Hk. simpl. rewrite map_get_set. case_decide; [done|by apply Hst].
  - intros p c Hpc. simpl. rewrite map_get_set. case_decide; [done|by eapply Hv].
Qed.

(** ** An edge *)

(** What [link p c] makes of the node of [k]. *)
Definition linked (p c : jstr) (noWait : bool) (k : jstr) (n : node) : node :=
  let n := if decide (k = p) then with_edges (add_edge c noWait) (with_dependencies (set_add c) n) else n in
  if decide (k = c) then with_dependents (set_add p) n else n.

Lemma link_get p c noWait s k :
  map_get k (g_nodes (link p c noWait s)) = linked p c noWait k <$> map_get k (g_nodes s).
Proof.
  unfold link, update_node, linked. simpl. rewrite !map_get_update.
  destruct (decide (k = c)) as [->|]; repeat case_decide; subst; try congruence; by destruct (map_get _ _).
Qed.

Lemma link_at p c noWait s k n' :
  at_ (link p c noWait s) k n' <-> exists n, at_ s k n /\ n' = linked p c noWait k n.
Proof. unfold node_at. rewrite link_get, fmap_Some. done. Qed.

Lemma link_known p c noWait s k : known (link p c noWait s) k <-> known s k.
Proof. rewrite !keys_map_get, link_get. by destruct (map_get k (g_nodes s)). Qed.

Lemma linked_dependencies p c noWait k n x :
  x ∈ n_dependencies (linked p c noWait k n) <-> x ∈ n_dependencies n \/ (k = p /\ x = c).
Proof.
  unfold linked. repeat case_decide; simpl; rewrite ?elem_of_set_add'; naive_solver.
Qed.

Lemma linked_dependents p c noWait k n x :
  x ∈ n_dependents (linked p c noWait k n) <-> x ∈ n_dependents n \/ (k = c /\ x = p).
Proof.
  unfold linked. repeat case_decide; simpl; rewrite ?elem_of_set_add'; naive_solver.
Qed.

Lemma linked_origin p c noWait k n :
  n_manifest (linked p c noWait k n) = n_manifest n /\ n_repoName (linked p c noWait k n) = n_repoName n.
Proof. unfold linked. by repeat case_decide. Qed.

Lemma linked_nodup p c noWait k n :
  NoDup (n_dependencies n) /\ NoDup (n_dependents n) ->
  NoDup (n_dependencies (linked p c noWait k n)) /\ NoDup (n_dependents (linked p c noWait k n)).
Proof.
  intros [Hd He]. unfold linked. repeat case_decide; simpl; auto using NoDup_set_add.
Qed.

Lemma link_depends p c noWait s x y :
  known s p ->
  depends (g_nodes (link p c noWait s)) x y <-> depends (g_nodes s) x y \/ (x = p /\ y = c).
Proof.
  intros Hp. split.
  - intros (n' & (n & Hn & ->)%link_at & [Hy|?]%linked_dependencies); [left; by exists n|by right].
  - intros [(n & Hn & Hy)|[-> ->]].
    + exists (linked p c noWait x n). split; [apply link_at; by exists n|].
      apply linked_dependencies. by left.
    + destruct (key_node_at _ _ Hp) as [n Hn]. exists (linked p c noWait p n).
      split; [apply link_at; by exists n|]. apply linked_dependencies. by right.
Qed.

Lemma link_weak p c noWait s : known s p -> weak s -> weak (link p c noWait s).
Proof.
  intros Hp [H1 H2 H3 H4 H5]. constructor.
  - unfold link. by do 3 apply map_wf_update.
  - intros k n' (n & Hn & ->)%link_at. by eapply linked_nodup, H2.
  - intros k n' x (n & Hn & ->)%link_at [Hx|[_ ->]]%linked_dependents; apply link_known; [|done].
    by eapply H3.
  - intros k Hk. apply link_known. by apply H4.
  - intros k n' (n & Hn & ->)%link_at. destruct (H5 k n Hn) as (ref & r & ? & ? & ?).
    exists ref, r. by destruct (linked_origin p c noWait k n) as [-> ->].
Qed.

(** The edge from a node being visited to a visited one keeps the graph
    acyclic: nothing depends on a node being visited. *)
Lemma link_inv p c noWait s :
  inv s -> status s p = Some Visiting -> status s c = Some Visited -> inv (link p c noWait s).
Proof.
  intros [Hw Hg Hst Hv] Hp Hc.
  assert (known s p) as Hkp by by apply (we_status _ Hw); rewrite Hp.
  assert (known s c) as Hkc by by apply (we_status _ Hw); rewrite Hc.
  pose proof (fun x y => link_depends p c noWait s x y Hkp) as Hd.
  assert (forall x, ~ depends (g_nodes s) x p) as Htop.
  { intros x Hx. apply Hv in Hx. congruence. }
  pose proof (link_weak p c noWait s Hkp Hw) as Hw'.
  constructor; [done| | |].
  - destruct Hg as [H1 H2 H3 H4 [rank Hr]]. constructor.
    + by apply we_wf.
    + intros k n Hn. by eapply we_nodup.
    + intros x y [Hxy|[-> ->]]%Hd.
      * destruct (H3 x y Hxy) as (n & Hn & Hx). exists (linked p c noWait y n).
        split; [apply link_at; by exists n|]. apply linked_dependents. by left.
      * destruct (key_node_at _ _ Hkc) as [n Hn]. exists (linked p c noWait c n).
        split; [apply link_at; by exists n|]. apply linked_dependents. by right.
    + intros y n' x (n & Hn & ->)%link_at [Hx|[-> ->]]%linked_dependents; apply Hd; [left|by right].
      by eapply H4.
    + exists (fun x => if decide (x = p) then S (rank p + rank c) else rank x).
      intros x y [Hxy|[-> ->]]%Hd.
      * assert (y <> p) as Hyp by (intros ->; by eapply Htop).
        rewrite (decide_False _ _ Hyp). specialize (Hr x y Hxy). case_decide; subst; lia.
      * assert (c <> p) as Hcp by congruence. rewrite (decide_False _ _ Hcp), decide_True by done. lia.
  - intros k Hk. apply Hst. by apply link_known in Hk.
  - intros x y [Hxy|[-> ->]]%Hd; [by eapply Hv|done].
Qed.

Lemma link_frame p c noWait s : known s p -> frame (Some p) s (link p c noWait s).
Proof.
  intros Hp. constructor; [|done| |].
  - intros k. by rewrite link_known.
  - intros k y Hk Hne. rewrite link_depends by done. naive_solver.
  - intros k n n' x Hn (m & Hm & ->)%link_at Hx Hne. unfold node_at in *. simplify_eq.
    rewrite linked_dependents. naive_solver.
Qed.

(** ** A dropped subtree *)

Definition dropped (ks : list jstr) s : list jstr :=
  bfilter (fun k => negb (one_of k ks)) (map_keys (g_nodes s)).

Lemma not_dropped ks s k : one_of k (dropped ks s) = false <-> (known s k -> k ∈ ks).
Proof.
  unfold dropped. rewrite one_of_false, elem_of_bfilter, negb_true_iff, one_of_false.
  destruct (decide (k ∈ ks)); naive_solver.
Qed.

Lemma drop_at ks s k n' :
  weak s ->
  at_ (drop_unknown ks s) k n' <-> exists n, at_ s k n /\ k ∈ ks /\
    n' = with_dependents (bfilter (fun x => negb (one_of x (dropped ks s)))) n.
Proof.
  intros Hw. unfold node_at. simpl. rewrite map_get_fmap, map_get_filter by apply (we_wf _ Hw).
  destruct (map_get k (g_nodes s)) as [n|] eqn:Hk; simpl; [|naive_solver].
  destruct (one_of k ks) eqn:Hin; simpl.
  - apply one_of_elem in Hin. naive_solver.
  - apply one_of_false in Hin. naive_solver.
Qed.

Lemma drop_known ks s k : weak s -> known (drop_unknown ks s) k <-> known s k /\ k ∈ ks.
Proof.
  intros Hw. split.
  - intros [n' (n & Hn & Hk & _)%drop_at]%key_node_at; [|done]. split; [by eapply node_at_key|done].
  - intros [[n Hn]%key_node_at Hk]. eapply node_at_key. apply drop_at; [done|]. eauto.
Qed.

Lemma drop_status ks s k : (known s k -> k ∈ ks) -> status (drop_unknown ks s) k = status s k.
Proof.
  intros Hk%not_dropped. unfold drop_unknown. simpl. fold (dropped ks s).
  induction (g_state s) as [|[j v] l IH]; [done|]. simpl.
  destruct (one_of j (dropped ks s)) eqn:Hj; simpl; rewrite IH; [|done].
  case_bool_decide; [subst; by rewrite Hk in Hj|done].
Qed.

Lemma drop_status_Some ks s k : status (drop_unknown ks s) k <> None -> status s k <> None /\ (known s k -> k ∈ ks).
Proof.
  intros Hk. rewrite <- (not_dropped ks s). destruct (one_of k (dropped ks s)) eqn:Hd.
  - exfalso. apply Hk. apply map_get_None. intros ([j v] & -> & Hj)%list_elem_of_fmap.
    unfold drop_unknown in Hj. simpl in Hj. apply elem_of_bfilter in Hj as [_ Hj]. simpl in Hj.
    fold (dropped ks s) in Hj. simpl in Hd.
    by rewrite Hd in Hj.
  - split; [|done]. rewrite <- (drop_status ks s k); [done|]. by apply not_dropped.
Qed.

Lemma drop_dependents ks s n x :
  x ∈ n_dependents (with_dependents (bfilter (fun x => negb (one_of x (dropped ks s)))) n) <->
  x ∈ n_dependents n /\ (known s x -> x ∈ ks).
Proof. simpl. rewrite elem_of_bfilter, negb_true_iff, not_dropped. tauto. Qed.

Lemma drop_depends ks s p c :
  weak s -> p ∈ ks -> depends (g_nodes (drop_unknown ks s)) p c <-> depends (g_nodes s) p c.
Proof.
  intros Hw Hp. unfold depends. split.
  - intros (n' & (n & Hn & _ & ->)%drop_at & Hc); [|done]. by exists n.
  - intros (n & Hn & Hc). eexists. split; [apply drop_at; [done|]; eauto|done].
Qed.

Lemma drop_weak ks s : weak s -> weak (drop_unknown ks s).
Proof.
  intros Hw. pose proof Hw as [H1 H2 H3 H4 H5]. constructor.
  - apply map_wf_fmap. by apply map_wf_filter.
  - intros k n' (n & Hn & Hk & ->)%drop_at; [|done]. simpl. destruct (H2 k n Hn) as [Hd He].
    split; [done|]. by apply NoDup_bfilter.
  - intros k n' x (n & Hn & Hk & ->)%drop_at Hx; [|done]. apply drop_dependents in Hx as [Hx Hin].
    assert (known s x) by by eapply H3. apply drop_known; auto.
  - intros k [Hk Hin]%drop_status_Some. apply H4 in Hk. apply drop_known; auto.
  - intros k n' (n & Hn & Hk & ->)%drop_at; [|done]. exact (H5 k n Hn).
Qed.

Section Drop.
Context s s' (Hi : inv s) (Hf : frame None s s') (Hw : weak s').
Let ks := map_keys (g_nodes s).

Lemma drop_back k : known (drop_unknown ks s') k <-> known s k.
Proof.
  rewrite drop_known by done. split; [by intros []|]. intros Hk. split; [by apply (fr_known _ _ _ Hf)|done].
Qed.

Lemma drop_back_depends p c : known s p ->
  depends (g_nodes (drop_unknown ks s')) p c <-> depends (g_nodes s) p c.
Proof. intros Hp. rewrite drop_depends by done. by apply (fr_deps _ _ _ Hf). Qed.

Lemma drop_back_status k : known s k -> status (drop_unknown ks s') k = status s k.
Proof. intros Hk. rewrite drop_status by done. by apply (fr_status _ _ _ Hf). Qed.

Lemma depends_known p c : depends (g_nodes s) p c -> known s p /\ known s c.
Proof.
  intros Hpc. split.
  - destruct Hpc as (n & Hn & _). by eapply node_at_key.
  - destruct (wf_closed _ (in_graph _ Hi) p c Hpc) as (n & Hn & _). by eapply node_at_key.
Qed.

(** A dependent of a kept node was one before. *)
Lemma drop_back_dependents k n n' x :
  at_ s k n -> at_ (drop_unknown ks s') k n' ->
  x ∈ n_dependents n' <-> x ∈ n_dependents n.
Proof.
  intros Hn (m & Hm & Hk & ->)%drop_at; [|done]. rewrite drop_dependents.
  split.
  - intros [Hx Hin]. assert (known s x) as Hkx by by apply Hin, (we_dependents _ Hw k m).
    by apply (fr_dependents _ _ _ Hf k n m x).
  - intros Hx. assert (known s x) as Hkx by by eapply (we_dependents _ (in_weak _ Hi)).
    split; [|done]. by apply (fr_dependents _ _ _ Hf k n m x).
Qed.

Lemma drop_inv : inv (drop_unknown ks s').
Proof.
  pose proof (drop_weak ks s' Hw) as Hw'. destruct Hi as [_ [H1 H2 H3 H4 [rank Hr]] Hst Hv].
  assert (forall p c, depends (g_nodes (drop_unknown ks s')) p c <-> depends (g_nodes s) p c) as Hd.
  { intros p c. split.
    - intros Hpc. apply drop_back_depends; [|done]. destruct Hpc as (n & Hn%node_at_key & _).
      by apply drop_back in Hn.
    - intros Hpc. apply drop_back_depends; [|done]. by apply (depends_known p c). }
  constructor; [done| | |].
  - constructor.
    + by apply we_wf.
    + intros k n Hn. by eapply we_nodup.
    + intros p c Hpc%Hd. destruct (H3 p c Hpc) as (n & Hn & Hp).
      destruct (key_node_at (g_nodes (drop_unknown ks s')) c) as [n' Hn'].
      { apply drop_back. by eapply node_at_key. }
      exists n'. split; [done|]. by apply (drop_back_dependents c n n' p).
    + intros c n' p Hn' Hp. apply Hd. destruct (key_node_at (g_nodes s) c) as [n Hn].
      { apply drop_back. by eapply node_at_key. }
      eapply H4; [done|]. by apply (drop_back_dependents c n n' p).
    + exists rank. intros p c Hpc%Hd. by apply Hr.
  - intros k Hk%drop_back. rewrite drop_back_status by done. by apply Hst.
  - intros p c Hpc%Hd. rewrite drop_back_status by by apply (depends_known p c). by eapply Hv.
Qed.

Lemma drop_frame : frame None s (drop_unknown ks s').
Proof.
  constructor.
  - intros k. by rewrite drop_back.
  - apply drop_back_status.
  - intros k c Hk _. by apply drop_back_depends.
  - intros k n n' x Hn Hn' _ _. by apply (drop_back_dependents k n n' x).
Qed.
End Drop.
End Invariant.

(** How the state of the traversal grows: nodes only gain dependencies and cut
    cycles, edges only become blocking, and reports are only added. *)

(** ** Edges that only get stronger *)

(** [e'] has the entries of [e], and waits where [e] did. *)
Definition edges_le (e e' : jmap jstr bool) : Prop :=
  forall k b, map_get k e = Some b -> exists b', map_get k e' = Some b' /\ (b = false -> b' = false).

Lemma edges_le_refl e : edges_le e e.
Proof. intros k b Hk. eauto. Qed.

Lemma edges_le_trans e1 e2 e3 : edges_le e1 e2 -> edges_le e2 e3 -> edges_le e1 e3.
Proof.
  intros H12 H23 k b Hk. destruct (H12 k b Hk) as (b' & Hk' & Hb). destruct (H23 k b' Hk') as (b'' & ? & ?).
  exists b''. auto.
Qed.

Lemma add_edge_le target noWait e : edges_le e (add_edge target noWait e).
Proof.
  intros k b Hk. unfold add_edge. destruct (decide (k = target)) as [->|Hne].
  - rewrite Hk. destruct (b && negb noWait) eqn:Hb; [|by eauto].
    exists noWait. split; [apply map_get_set_eq|]. by intros ->.
  - destruct (map_get target e) as [existing|]; [destruct (_ && _)|];
      rewrite ?map_get_set_ne by done; by eauto.
Qed.

(** An edge just added waits if its entry does. *)
Lemma add_edge_recorded target noWait e :
  exists b, map_get target (add_edge target noWait e) = Some b /\ (noWait = false -> b = false).
Proof.
  unfold add_edge. destruct (map_get target e) as [existing|] eqn:He.
  - destruct existing, noWait; simpl; rewrite ?map_get_set_eq; by eauto.
  - exists noWait. split; [apply map_get_set_eq|done].
Qed.

(** ** Nodes and states that only gain *)

Record node_le (n n' : node) : Prop := {
  le_manifest : n_manifest n' = n_manifest n;
  le_profile : n_profile n' = n_profile n;
  le_repo : n_repoName n' = n_repoName n;
  le_auth : n_authMode n' = n_authMode n;
  le_agentRef : n_agentRef n' = n_agentRef n;
  le_dependencies : n_dependencies n ⊆ n_dependencies n';
  le_edges : edges_le (n_dependencyEdges n) (n_dependencyEdges n');
  le_backedges : edges_le (n_cycleBackedges n) (n_cycleBackedges n')
}.

Lemma node_le_refl n : node_le n n.
Proof. constructor; auto using edges_le_refl. Qed.

Lemma node_le_trans n1 n2 n3 : node_le n1 n2 -> node_le n2 n3 -> node_le n1 n3.
Proof.
  intros [] []. constructor; try congruence; [set_solver|by eapply edges_le_trans|by eapply edges_le_trans].
Qed.

#[local] Notation at_ s := (node_at (g_nodes s)).
#[local] Notation known s k := (k ∈ map_keys (g_nodes s)).

(** Nodes stay and gain, reports stay. *)
Record gains (s s' : graph_state) : Prop := {
  ga_nodes k n : at_ s k n -> exists n', at_ s' k n' /\ node_le n n';
  ga_log e : e ∈ g_log s -> e ∈ g_log s'
}.

Lemma gains_refl s : gains s s.
Proof. constructor; [|done]. intros k n Hn. eauto using node_le_refl. Qed.

Lemma gains_trans s1 s2 s3 : gains s1 s2 -> gains s2 s3 -> gains s1 s3.
Proof.
  intros [A1 B1] [A2 B2]. constructor; [|by auto]. intros k n Hn.
  destruct (A1 k n Hn) as (n2 & Hn2 & ?). destruct (A2 k n2 Hn2) as (n3 & ? & ?).
  eauto using node_le_trans.
Qed.

Lemma gains_update k f s : (forall n, node_le n (f n)) -> gains s (update_node k f s).
Proof.
  intros Hf. constructor; [|done]. intros j n Hn. unfold node_at, update_node in *. simpl.
  rewrite map_get_update. case_decide; [subst; rewrite Hn|]; eauto using node_le_refl.
Qed.

Lemma gains_set_node id n s : ~ known s id -> gains s (set_node id n s).
Proof.
  intros Hid. constructor; [|done]. intros k m Hm. exists m. split; [|apply node_le_refl].
  unfold node_at. rewrite set_node_other; [done|]. intros ->. apply Hid. by eapply node_at_key.
Qed.

Lemma gains_status k v s : gains s (set_status k v s).
Proof. constructor; [|done]. intros j n Hn. eauto using node_le_refl. Qed.

Lemma gains_report e s : gains s (report e s).
Proof. constructor; [|set_solver]. intros j n Hn. eauto using node_le_refl. Qed.

Lemma set_add_sub x l : l ⊆ set_add x l.
Proof. intros y Hy. apply elem_of_set_add'. by left. Qed.

Lemma gains_drop `{AgentCatalog} s s' :
  weak s' -> gains s s' -> gains s (drop_unknown (map_keys (g_nodes s)) s').
Proof.
  intros Hw [A B]. constructor; [|done]. intros k n Hn. destruct (A k n Hn) as (n' & Hn' & Hle).
  eexists. split; [apply drop_at; [done|]; eauto using node_at_key|].
  eapply node_le_trans; [done|]. constructor; simpl; auto using edges_le_refl.
Qed.

(** A step that changes neither which nodes there are nor their status. *)
Record steady (s s' : graph_state) : Prop := {
  st_gains : gains s s';
  st_known : map_keys (g_nodes s') = map_keys (g_nodes s);
  st_state : g_state s' = g_state s
}.

Lemma steady_refl s : steady s s.
Proof. constructor; auto using gains_refl. Qed.

Lemma steady_update k f s : (forall n, node_le n (f n)) -> steady s (update_node k f s).
Proof.
  intros Hf. constructor; [by apply gains_update| |done]. unfold update_node, map_update. simpl.
  destruct (map_get k (g_nodes s)) as [n|] eqn:Hk; [|done].
  apply map_keys_set_present. by eapply map_get_Some_key.
Qed.

Lemma steady_static k s : steady s (update_node k with_static s).
Proof. apply steady_update. intros n. constructor; simpl; auto using edges_le_refl. Qed.

Lemma linked_le p c noWait k n : node_le n (linked p c noWait k n).
Proof.
  unfold linked. repeat case_decide; constructor; simpl; auto using edges_le_refl, add_edge_le, set_add_sub.
Qed.

Lemma linked_edges p c noWait n :
  n_dependencyEdges (linked p c noWait p n) = add_edge c noWait (n_dependencyEdges n).
Proof. unfold linked. by repeat case_decide. Qed.

Lemma steady_trans s1 s2 s3 : steady s1 s2 -> steady s2 s3 -> steady s1 s3.
Proof. intros [] []. constructor; [by eapply gains_trans|congruence|congruence]. Qed.

Lemma steady_link p c noWait s : steady s (link p c noWait s).
Proof.
  unfold link. eapply steady_trans; [eapply steady_trans|]; apply steady_update; intros n; constructor; simpl;
    auto using edges_le_refl, add_edge_le, set_add_sub.
Qed.
