(* ===== verification/DependencyTraversal.v ===== *)
(** What a visit of the dependency graph does on every path: it returns with
    the invariant, cuts a cycle without a trace, leaves a state that dropping
    repairs, or runs out of fuel only where the agents are not covered. *)

From stdpp Require Import prelude.
From Stdlib Require Import NArith.
From S2P Require Import Prelude.
From S2P Require Import JsString.
From S2P Require Import JsNumber.
From S2P Require Import JsMap.
From S2P Require Import JsValue.
From S2P Require Import HttpRouteCompiler.
From S2P Require Import HttpRouteFacts.
From S2P Require Import EnableDirective.
From S2P Require Import DependencyGraph.
From S2P Require Import DependencyWaves.
From S2P Require Import DependencyVisit.

Local Open Scope js_scope.

(** ** Steps that only check *)

(** [m] leaves the state alone, fails with an agent's problem, or returns a
    value of [Q]. *)
Definition checks {A} (m : graphM A) (Q : A -> Prop) : Prop := forall s,
  match m s with
  | (Ok a, s') => s' = s /\ Q a
  | (Err e, s') => s' = s /\ exists p, e = AgentFailed p
  end.

Lemma checks_bind {A B} (m : graphM A) (f : A -> graphM B) P Q :
  checks m P -> (forall a, P a -> checks (f a) Q) -> checks (mbind f m) Q.
Proof.
  intros Hm Hf s. specialize (Hm s). unfold mbind, stateM_bind. destruct (m s) as [[a|e] s1].
  - destruct Hm as [-> Ha]. apply (Hf a Ha s).
  - done.
Qed.

Lemma checks_of_option {A} p (o : option A) : checks (of_option p o) (fun a => o = Some a).
Proof. intros s. destruct o; simpl; [done|eauto]. Qed.

Lemma checks_of_result {E A} (problem : E -> agent_problem) (r : result E A) :
  checks (of_result problem r) (fun _ => True).
Proof. intros s. destruct r; simpl; [done|eauto]. Qed.

Lemma checks_ret {A} (a : A) (Q : A -> Prop) : Q a -> checks (mret a) Q.
Proof. by intros Ha s. Qed.

Lemma checks_manifest manifest : checks (check_manifest manifest) (fun _ => True).
Proof.
  unfold check_manifest. eapply checks_bind; [apply checks_of_result|]. intros _ _.
  eapply checks_bind; [apply checks_of_result|]. intros _ _. by intros s.
Qed.

Lemma checks_profile `{AgentCatalog} manifest profileName :
  checks (effective_profile manifest profileName) (fun _ => True).
Proof.
  unfold effective_profile. eapply checks_bind; [apply checks_of_result|]. intros profiles _.
  destruct (jeqb _ _); [by apply checks_ret|]. apply checks_of_result.
Qed.

Lemma checks_network `{AgentCatalog} manifest profileName :
  checks (node_network manifest profileName) (fun _ => True).
Proof.
  unfold node_network. eapply checks_bind; [apply checks_of_result|]. intros network _.
  eapply checks_bind; [apply checks_profile|]. intros profileConfig _.
  eapply checks_bind; [apply checks_of_result|]. intros _ _. by apply checks_ret.
Qed.

(** ** The identifiers a traversal can meet *)

Definition profile_blocks (manifest : js) : list js :=
  match optional "profiles" manifest with
  | Obj l => map_values l
  | _ => []
  end.

(** Every entry of a manifest, whatever the profile. *)
Definition declared (manifest : js) : list js :=
  array_of (optional "enable" manifest) ++
  (profile_blocks manifest ≫= fun block => array_of (prop "enable" block)).

Definition alias_of (raw : js) : list jstr :=
  match parseEnableDirective raw with
  | Ok (Some d) => [alias_text (di_alias d)]
  | _ => []
  end.

Lemma prop_values k v x :
  x ∈ array_of (prop "enable" (prop k v)) ->
  exists l block, v = Obj l /\ block ∈ map_values l /\ x ∈ array_of (prop "enable" block).
Proof.
  destruct v as [| | | | | | |l]; cbn [prop]; try (by intros ?%not_elem_of_nil).
  destruct (map_get k l) as [block|] eqn:Hk; cbn [default prop]; [|by intros ?%not_elem_of_nil].
  intros Hx. exists l, block. split_and!; [done| |done].
  apply map_get_Some_in in Hk. apply list_elem_of_fmap. by exists (k, block).
Qed.

Lemma entries_declared manifest profile raw :
  raw ∈ manifestEnableEntries manifest profile -> raw ∈ declared manifest.
Proof.
  unfold manifestEnableEntries, declared, profile_blocks. rewrite !elem_of_app.
  intros [Hr|Hr]; [by left|right]. unfold js_or in Hr.
  destruct (js_truthy _); apply prop_values in Hr as (l & block & -> & Hb & Hx);
    apply list_elem_of_bind; eauto.
Qed.

Section Bound.
Context `{AgentCatalog}.
Context (agents : list resolved_agent) (rootAlias : jstr).

(** The aliases the manifests of the agents declare. *)
Definition declared_aliases : list jstr :=
  rootAlias :: (agents ≫= fun r =>
    match readManifest (ra_manifestPath r) with
    | Some manifest => declared manifest ≫= alias_of
    | None => []
    end).

Definition instances : list jstr :=
  agents ≫= fun r => node_id r <$> declared_aliases.

(** Fuel for every agent under every alias. *)
Definition traversal_fuel : nat := S (length agents * length declared_aliases).

Definition avail (stack : list jstr) : nat :=
  length (bfilter (fun id => negb (one_of id stack)) instances).

(** The agents are covered and the stack leaves fuel. *)
Definition enough (fuel : nat) (o : visit_options) : Prop :=
  (forall ref r, findAgent ref = Some r -> r ∈ agents) /\
  v_alias o ∈ declared_aliases /\ avail (v_stack o) < fuel.

Lemma length_instances : length instances = length agents * length declared_aliases.
Proof.
  unfold instances. generalize declared_aliases as l. intros l.
  induction agents as [|r ags IH]; [done|]. cbn [mbind list_bind]. rewrite length_app, length_fmap.
  simpl. by rewrite IH.
Qed.

Lemma enough_start o :
  (forall ref r, findAgent ref = Some r -> r ∈ agents) ->
  v_alias o = rootAlias -> v_stack o = [] -> enough traversal_fuel o.
Proof.
  intros Ha Hal Hst. split_and!; [done|rewrite Hal; by left|]. unfold avail, traversal_fuel.
  rewrite <- length_instances. apply Nat.lt_succ_r, length_bfilter.
Qed.

Lemma avail_push stack id :
  id ∈ instances -> id ∉ stack -> avail (stack ++ [id]) < avail stack.
Proof.
  unfold avail. intros Hin Hst. induction instances as [|x l IH]; [by apply not_elem_of_nil in Hin|].
  assert (forall l, length (bfilter (fun y => negb (one_of y (stack ++ [id]))) l) <=
    length (bfilter (fun y => negb (one_of y stack)) l)) as Hle.
  { clear. intros l. induction l as [|y l IH]; [done|]. simpl.
    destruct (one_of y (stack ++ [id])) eqn:H1, (one_of y stack) eqn:H2; simpl; try lia.
    apply one_of_false in H1. apply one_of_elem in H2. set_solver. }
  destruct (decide (x = id)) as [->|Hne].
  - simpl. assert (one_of id (stack ++ [id]) = true) as -> by (apply one_of_elem; set_solver).
    assert (one_of id stack = false) as -> by by apply one_of_false.
    simpl. apply Nat.lt_succ_r, Hle.
  - apply elem_of_cons in Hin as [->|Hin]; [done|]. specialize (IH Hin). simpl.
    destruct (one_of x (stack ++ [id])) eqn:H1, (one_of x stack) eqn:H2; simpl; try lia.
    apply one_of_false in H1. apply one_of_elem in H2. set_solver.
Qed.
End Bound.

(** ** The specification of a visit *)

Section Traversal.
Context `{AgentCatalog, BareAgents}.
Context (registry : list js) (selectedWorkspaceProfile : jstr) (mode : tolerance).
Context (agents : list resolved_agent) (rootAlias : jstr).
Implicit Types (s : graph_state) (o : visit_options).

Notation enough := (enough agents rootAlias).
Notation at_ s := (node_at (g_nodes s)).
Notation known s k := (k ∈ map_keys (g_nodes s)).
Notation status s k := (map_get k (g_state s)).

Definition visit_post (fuel : nat) (ref : jstr) o s (out : result graph_error jstr * graph_state) : Prop :=
  match out with
  | (Ok id, s') => inv s' /\ frame None s s' /\ status s' id = Some Visited /\
      exists r, findAgent ref = Some r /\ id = node_id r (v_alias o)
  | (Err (DependencyCycle _ id), s') => inv s' /\ frame None s s' /\
      exists r, findAgent ref = Some r /\ id = node_id r (v_alias o)
  | (Err OutOfFuel, _) => ~ enough fuel o
  | (Err _, s') => weak s' /\ frame None s s'
  end.

(** The entries of [n], from a state where [id] is being visited. *)
Definition entries_post (fuel : nat) (id : jstr) (n : node) (stack : list jstr) (raws : list js) s
    (out : result graph_error unit * graph_state) : Prop :=
  match out with
  | (Ok _, s') => inv s' /\ frame (Some id) s s'
  | (Err (DependencyFailed _ _ _), s') => weak s' /\ frame (Some id) s s'
  | (Err OutOfFuel, _) => exists raw d, raw ∈ raws /\ parseEnableDirective raw = Ok (Some d) /\
      ~ enough fuel (child_options selectedWorkspaceProfile n stack d).2
  | (Err _, _) => False
  end.

Lemma frame_visiting id s s' :
  inv s -> frame (Some id) s s' -> status s id = Some Visiting -> status s' id = Some Visiting.
Proof.
  intros Hi Hf Hs. rewrite (fr_status _ _ _ Hf); [done|]. apply (we_status _ (in_weak _ Hi)). by rewrite Hs.
Qed.

(** The catch of an entry, after a failure that [weak] and [frame] describe. *)
Lemma dependency_catch_ok fuel id n stack raw s s' e :
  inv s -> frame None s s' ->
  match e with
  | DependencyCycle _ _ => inv s'
  | OutOfFuel => False
  | _ => weak s'
  end ->
  entries_post fuel id n stack [raw] s
    (dependency_catch mode (map_keys (g_nodes s)) id n raw e s').
Proof.
  intros Hi Hf He.
  assert (weak s' ->
    entries_post fuel id n stack [raw] s
      ((if tolerated mode raw then
          _ ← modify (drop_unknown (map_keys (g_nodes s)));
          modify (report (UnresolvedDependency raw (n_agentRef n) e))
        else throw (DependencyFailed raw (n_agentRef n) e)) s')) as Hother.
  { intros Hw. destruct (tolerated mode raw).
    - rewrite bind_modify. simpl. set (s2 := drop_unknown _ s').
      pose proof (report_same_links (UnresolvedDependency raw (n_agentRef n) e) s2) as Hl.
      split.
      + apply (same_links_inv s2); [done|done|]. by apply drop_inv.
      + apply (frame_trans _ s s2); [apply frame_weaken; by apply drop_frame|]. by apply same_links_frame.
    - simpl. split; [done|]. by apply frame_weaken. }
  destruct e; try done; try (by apply Hother).
  unfold dependency_catch. rewrite bind_modify.
  set (s2 := update_node id _ s').
  assert (same_links s' s2) as Hl by by apply update_same_links.
  pose proof (report_same_links (CycleWarning raw (n_agentRef n) chain) s2) as Hl2.
  simpl. split.
  - apply (same_links_inv s2); [done|done|]. by apply (same_links_inv s').
  - apply (frame_trans _ s s'); [by apply frame_weaken|].
    apply (frame_trans _ s' s2); by apply same_links_frame.
Qed.

Lemma visit_dependency_ok fuel recurse id n stack raw s :
  (forall ref o s, inv s -> visit_post fuel ref o s (recurse ref o s)) ->
  inv s -> status s id = Some Visiting ->
  entries_post fuel id n stack [raw] s
    (visit_dependency selectedWorkspaceProfile mode recurse id n stack raw s).
Proof.
  intros Hrec Hi Hs. unfold visit_dependency, dependency_try.
  pose proof (frame_refl None s) as Hrefl.
  destruct (parseEnableDirective raw) as [[d|]|e] eqn:Hraw; cycle 1.
  - simpl. by eauto using frame_refl.
  - cbn [agent_error throw]. apply (dependency_catch_ok _ _ _ _ _ s s); [done|done|]. apply Hi.
  - destruct (child_options selectedWorkspaceProfile n stack d) as [ref o] eqn:Hco.
    destruct (negb _); [simpl; by eauto using frame_refl|].
    specialize (Hrec ref o s Hi). unfold mbind, stateM_bind.
    destruct (recurse ref o s) as [[c|e] s'] eqn:Hr.
    + destruct Hrec as (Hi' & Hf & Hc & _). simpl.
      assert (status s' id = Some Visiting) as Hs'.
      { eapply frame_visiting; [done| |done]. by apply frame_weaken. }
      split; [by apply link_inv|].
      apply (frame_trans _ s s'); [by apply frame_weaken|]. apply link_frame.
      apply (we_status _ (in_weak _ Hi')). by rewrite Hs'.
    + destruct e; simpl in Hrec; try (apply (dependency_catch_ok _ _ _ _ _ s s'); naive_solver).
      exists raw, d. rewrite Hco. split_and!; [by left|done|done].
Qed.

Lemma visit_dependencies_ok fuel recurse id n stack raws s :
  (forall ref o s, inv s -> visit_post fuel ref o s (recurse ref o s)) ->
  inv s -> status s id = Some Visiting ->
  entries_post fuel id n stack raws s
    (visit_dependencies selectedWorkspaceProfile mode recurse id n stack raws s).
Proof.
  intros Hrec. revert s. induction raws as [|raw raws IH]; intros s Hi Hs.
  { simpl. by eauto using frame_refl. }
  cbn [visit_dependencies].
  pose proof (visit_dependency_ok fuel recurse id n stack raw s Hrec Hi Hs) as H1.
  unfold mbind, stateM_bind. destruct (visit_dependency _ _ _ _ _ _ raw s) as [[u|e] s1].
  - destruct H1 as [Hi1 Hf1]. specialize (IH s1 Hi1 (frame_visiting _ _ _ Hi Hf1 Hs)).
    destruct (visit_dependencies _ _ _ _ _ _ raws s1) as [[u2|e] s2]; simpl in *.
    + destruct IH. eauto using frame_trans.
    + destruct e; try done.
      * destruct IH. eauto using frame_trans.
      * destruct IH as (raw' & d & Hin & ?). exists raw', d. split; [by right|done].
  - destruct e; simpl in *; try done.
    destruct H1 as (raw' & d & Hin & ?). exists raw', d. split; [|done].
    apply list_elem_of_singleton in Hin as ->. by left.
Qed.

(** ** The node of an identifier *)

Lemma new_node_checks ref r agentRef o :
  findAgent ref = Some r ->
  checks (new_node registry agentRef r o) (fun n => bare n /\ genuine n).
Proof.
  intros Hr. unfold new_node.
  eapply checks_bind; [apply checks_of_option|]. intros manifest Hm.
  eapply checks_bind; [apply checks_manifest|]. intros _ _.
  eapply (checks_bind _ _ (fun _ => True)).
  { destruct (truthy _); [by apply checks_ret|apply checks_of_result]. }
  intros recorded _.
  eapply checks_bind; [apply checks_of_option|]. intros profileName _.
  eapply checks_bind; [apply checks_network|]. intros network _.
  eapply checks_bind; [apply checks_of_result|]. intros auth _.
  eapply checks_bind; [apply checks_of_result|]. intros policy _.
  apply checks_ret. split; [done|]. by exists ref, r.
Qed.

Lemma node_for_ok ref r agentRef o s :
  findAgent ref = Some r -> inv s ->
  let id := node_id r (v_alias o) in
  match node_for registry agentRef r o s with
  | (Ok n, s') => genuine n /\
      ((known s id /\ inv s' /\ frame None s s' /\ steady s s') \/
       (~ known s id /\ bare n /\ s' = set_node id n s))
  | (Err e, s') => s' = s /\ exists p, e = AgentFailed p
  end.
Proof.
  intros Hr Hi id. unfold node_for. rewrite bind_gets. fold id.
  destruct (map_get id (g_nodes s)) as [n|] eqn:Hid.
  - pose proof (we_genuine _ (in_weak _ Hi) id n Hid) as Hg.
    apply map_get_Some_key in Hid. destruct (v_isStatic o).
    + rewrite bind_modify. simpl. split; [done|left].
      assert (same_links s (update_node id with_static s)) as Hl by by apply update_same_links.
      split_and!; [done|by eapply same_links_inv|by apply same_links_frame|apply steady_static].
    + simpl. eauto 10 using frame_refl, steady_refl.
  - apply map_get_None in Hid. pose proof (new_node_checks ref r agentRef o Hr s) as Hn.
    unfold mbind, stateM_bind. destruct (new_node _ _ _ _ s) as [[n|e] s1]; [|done].
    destruct Hn as [-> [Hb Hg]]. simpl. by eauto.
Qed.

Lemma check_profile_checks n o : checks (check_profile n o) (fun _ => True).
Proof.
  unfold check_profile. eapply checks_bind; [apply checks_of_option|]. intros candidate _ s.
  destruct (jeqb _ _); simpl; eauto.
Qed.

Lemma finish_frame id s s' :
  ~ known s id -> frame None s s' -> frame None s (set_status id Visited s').
Proof.
  intros Hid [H1 H2 H3 H4]. constructor; try done. intros k Hk. simpl.
  rewrite map_get_set, decide_False; [by apply H2|by apply (known_ne s)].
Qed.

(** ** Fuel *)

Lemma enough_child fuel ref r o n raw d :
  findAgent ref = Some r -> one_of (node_id r (v_alias o)) (v_stack o) = false -> genuine n ->
  raw ∈ manifestEnableEntries (n_manifest n) (n_profile n) ->
  parseEnableDirective raw = Ok (Some d) ->
  enough (S fuel) o ->
  enough fuel (child_options selectedWorkspaceProfile n (v_stack o ++ [node_id r (v_alias o)]) d).2.
Proof.
  intros Hr Hst%one_of_false (ref' & r' & Hr' & Hm & _) Hraw Hd (Hag & Hal & Hav). split_and!; [done| |].
  - right. apply list_elem_of_bind. exists r'. split; [|by eapply Hag]. rewrite Hm.
    apply list_elem_of_bind. exists raw. split; [|by eapply entries_declared].
    unfold alias_of. rewrite Hd. by left.
  - assert (node_id r (v_alias o) ∈ instances agents rootAlias) as Hin.
    { apply list_elem_of_bind. exists r. split; [|by eapply Hag]. apply list_elem_of_fmap. eauto. }
    pose proof (avail_push _ _ _ _ Hin Hst). simpl. lia.
Qed.

(** ** A visit *)

(** What is left of a visit once the node of [id] is stored. *)
Definition visit_entries (fuel : nat) (id : jstr) (n : node) o : graphM jstr :=
  _ ← modify (set_status id Visiting);
  _ ← visit_dependencies selectedWorkspaceProfile mode
        (visit registry selectedWorkspaceProfile mode fuel) id n (v_stack o ++ [id])
        (manifestEnableEntries (n_manifest n) (n_profile n));
  _ ← modify (set_status id Visited);
  mret id.

(** The ways a visit can go. *)
Variant visit_case (fuel : nat) (ref : jstr) o s : result graph_error jstr * graph_state -> Prop :=
  | case_failed p s' :
      weak s' -> frame None s s' -> gains s s' -> visit_case fuel ref o s (Err (AgentFailed p), s')
  | case_cycle chain r s' :
      inv s' -> frame None s s' -> steady s s' -> findAgent ref = Some r ->
      node_id r (v_alias o) ∈ v_stack o \/ status s (node_id r (v_alias o)) = Some Visiting ->
      visit_case fuel ref o s (Err (DependencyCycle chain (node_id r (v_alias o))), s')
  | case_visited r s' :
      inv s' -> frame None s s' -> steady s s' -> findAgent ref = Some r ->
      status s' (node_id r (v_alias o)) = Some Visited ->
      visit_case fuel ref o s (Ok (node_id r (v_alias o)), s')
  | case_new r n :
      findAgent ref = Some r -> one_of (node_id r (v_alias o)) (v_stack o) = false ->
      ~ known s (node_id r (v_alias o)) -> genuine n -> bare n ->
      visit_case fuel ref o s
        (visit_entries fuel (node_id r (v_alias o)) n o (set_node (node_id r (v_alias o)) n s)).

Lemma visit_cases fuel ref o s :
  inv s -> visit_case fuel ref o s (visit registry selectedWorkspaceProfile mode (S fuel) ref o s).
Proof.
  intros Hi. cbn [visit]. destruct (findAgent ref) as [r|] eqn:Hr; cycle 1.
  { apply case_failed; [apply Hi|apply frame_refl|apply gains_refl]. }
  rewrite (bind_run _ _ s r s) by done. set (id := node_id r (v_alias o)).
  destruct (one_of id (v_stack o)) eqn:Hst.
  { apply case_cycle; [done|apply frame_refl|apply steady_refl|done|left; by apply one_of_elem]. }
  pose proof (node_for_ok ref r ref o s Hr Hi) as Hn. simpl in Hn. fold id in Hn.
  unfold mbind at 1, stateM_bind at 1.
  destruct (node_for registry ref r o s) as [[n|e] s1]; cycle 1.
  { destruct Hn as [-> [p ->]]. apply case_failed; [apply Hi|apply frame_refl|apply gains_refl]. }
  destruct Hn as [Hg Hn].
  assert (weak s1 /\ frame None s s1 /\ gains s s1) as (Hw1 & Hf1 & Hga1).
  { destruct Hn as [(_ & Hi1 & Hf1 & Hs1)|(Hid & Hb & ->)]; [by split_and!; [apply Hi1| |apply Hs1]|].
    split_and!; [by apply set_node_weak; [..|apply Hi]|by apply (add_frame id n Visited)|by apply gains_set_node]. }
  unfold mbind at 1, stateM_bind at 1. pose proof (check_profile_checks n o s1) as Hc.
  destruct (check_profile n o s1) as [[u|e] s2]; destruct Hc as [-> Hc]; cycle 1.
  { destruct Hc as [p ->]. by apply case_failed. }
  rewrite bind_gets. destruct Hn as [(Hks & Hi1 & _ & Hst1)|(Hid & Hb & ->)].
  - pose proof (in_status _ Hi1 _ (fr_known _ _ _ Hf1 _ Hks)) as Hk.
    destruct (map_get id (g_state s1)) as [[|]|] eqn:Hs; [| |done].
    + apply case_cycle; [done|done|done|done|]. right. fold id.
      by rewrite <- (fr_status _ _ _ Hf1 id Hks).
    + by apply case_visited.
  - simpl. destruct (map_get id (g_state s)) as [v|] eqn:Hs.
    + exfalso. apply Hid. apply (we_status _ (in_weak _ Hi)). by rewrite Hs.
    + by apply case_new.
Qed.

Lemma visit_entries_ok fuel ref r o n s :
  (forall ref o s, inv s -> visit_post fuel ref o s
    (visit registry selectedWorkspaceProfile mode fuel ref o s)) ->
  findAgent ref = Some r -> one_of (node_id r (v_alias o)) (v_stack o) = false ->
  inv s -> genuine n -> bare n ->
  let id := node_id r (v_alias o) in
  ~ known s id ->
  visit_post (S fuel) ref o s (visit_entries fuel id n o (set_node id n s)).
Proof.
  intros Hrec Hr Hst Hi Hg Hb id Hid. unfold visit_entries. rewrite bind_modify.
  set (s1 := set_status id Visiting _).
  assert (inv s1) as Hi1 by by apply start_inv.
  assert (frame None s s1) as Hf1 by by apply add_frame.
  assert (status s1 id = Some Visiting) as Hs1 by apply map_get_set_eq.
  pose proof (visit_dependencies_ok fuel _ id n (v_stack o ++ [id])
    (manifestEnableEntries (n_manifest n) (n_profile n)) s1 Hrec Hi1 Hs1) as Hdeps.
  unfold mbind, stateM_bind.
  destruct (visit_dependencies _ _ _ _ _ _ _ s1) as [[u|e] s2].
  - destruct Hdeps as [Hi2 Hf2]. simpl. split_and!.
    + apply finish_inv; [|done]. apply (we_status _ (in_weak _ Hi2)).
      by rewrite (frame_visiting _ _ _ Hi1 Hf2 Hs1).
    + apply finish_frame; [done|]. by eapply frame_new.
    + apply map_get_set_eq.
    + by exists r.
  - destruct e; simpl in Hdeps; try done.
    + destruct Hdeps as [Hw2 Hf2]. split; [done|]. by eapply frame_new.
    + destruct Hdeps as (raw & d & Hraw & Hd & Hne). intros Hen. apply Hne. by eapply enough_child.
Qed.

Lemma visit_ok fuel ref o s :
  inv s -> visit_post fuel ref o s (visit registry selectedWorkspaceProfile mode fuel ref o s).
Proof.
  revert ref o s. induction fuel as [|fuel IH]; intros ref o s Hi.
  { simpl. intros (_ & _ & Hlt). lia. }
  destruct (visit_cases fuel ref o s Hi); [done|by split_and!; [..|exists r]|by split_and!; [..|exists r]|]. by apply visit_entries_ok.
Qed.

Lemma inv_empty : inv empty_graph_state.
Proof.
  assert (forall p c, ~ depends (g_nodes empty_graph_state) p c) as Hd by by intros p c (n & ? & _).
  constructor; [constructor| | |].
  - apply map_wf_nil.
  - done.
  - done.
  - done.
  - done.
  - constructor; [apply map_wf_nil|done| |done|].
    + by intros p c ?%Hd.
    + exists (fun _ => 0). by intros p c ?%Hd.
  - by intros k ?%not_elem_of_nil.
  - by intros p c ?%Hd.
Qed.

(** ** Errors of a visit *)

(** Where every failed dependency is tolerated none fails its parent. *)
Lemma visit_dependencies_tolerant recurse id n stack raws s e s' :
  mode = TolerateAll ->
  visit_dependencies selectedWorkspaceProfile mode recurse id n stack raws s = (Err e, s') -> e = OutOfFuel.
Proof.
  intros Hmode. revert s. induction raws as [|raw raws IH]; intros s; [done|].
  cbn [visit_dependencies]. unfold mbind, stateM_bind.
  destruct (visit_dependency _ _ _ _ _ _ raw s) as [[u|e1] s1] eqn:H1; [apply IH|].
  intros [= <- _]. unfold visit_dependency in H1.
  destruct (dependency_try _ _ _ _ _ _ s) as [[u|e] s2]; [done|].
  unfold dependency_catch, tolerated in H1. rewrite Hmode in H1. by destruct e; injection H1.
Qed.

Lemma tolerant_visit_errors fuel ref o e s' :
  mode = TolerateAll -> v_stack o = [] ->
  visit registry selectedWorkspaceProfile mode fuel ref o empty_graph_state = (Err e, s') ->
  e <> OutOfFuel -> exists p, e = AgentFailed p.
Proof.
  intros Hmode Hst Hv Hne. destruct fuel as [|fuel]; [cbn [visit] in Hv; unfold throw in Hv; congruence|].
  pose proof (visit_cases fuel ref o _ inv_empty) as Hc. rewrite Hv in Hc.
  inversion Hc as [|ch r s2 _ _ _ _ Hin|  |r n Hr Hone Hk Hg Hb Hrun]; subst; [eexists; reflexivity| |].
  - destruct Hin as [Hin|Hin]; [by rewrite Hst in Hin; apply not_elem_of_nil in Hin|done].
  - exfalso. apply Hne. unfold visit_entries in Hrun. rewrite bind_modify in Hrun.
    unfold mbind, stateM_bind in Hrun.
    destruct (visit_dependencies _ _ _ _ _ _ _ _) as [[u|e1] s1] eqn:Hd; [done|].
    apply visit_dependencies_tolerant in Hd; [|done]. congruence.
Qed.
End Traversal.
