(* ===== verification/DependencyCompleteness.v ===== *)
(** No dependency is lost: what a visit does to the entries of the nodes it
    finishes.  Nodes only gain dependencies and cut cycles, reports are only
    added, so an entry once accounted for stays so. *)

From stdpp Require Import prelude.
From Stdlib Require Import NArith.
From S2P Require Import Prelude.
From S2P Require Import JsString.
From S2P Require Import JsNumber.
From S2P Require Import JsMap.
From S2P Require Import JsValue.
From S2P Require Import HttpRouteCompiler.
From S2P Require Import HttpRouteFacts.
From S2P Require Import EnableDirective.
From S2P Require Import DependencyGraph.
From S2P Require Import DependencyWaves.
From S2P Require Import DependencyVisit.
From S2P Require Import DependencyTraversal.

Local Open Scope js_scope.

Notation at_ s := (node_at (g_nodes s)).
Notation known s k := (k ∈ map_keys (g_nodes s)).
Notation status s k := (map_get k (g_state s)).

(** ** Entries accounted for *)

Section Accounts.
Implicit Types (s : graph_state) (o : visit_options).
Context `{AgentCatalog, BareAgents}.
Context (registry : list js) (selectedWorkspaceProfile : jstr) (mode : tolerance).

(** An entry of [n] is empty, left out by the sign-on rule, an edge that waits
    if the entry does, a cut cycle likewise, or a tolerated failure that was
    reported. *)
Definition accounted (log : list graph_event) (n : node) (raw : js) : Prop :=
  parseEnableDirective raw = Ok None \/
  (exists cause, tolerated mode raw = true /\ UnresolvedDependency raw (n_agentRef n) cause ∈ log) \/
  exists d, parseEnableDirective raw = Ok (Some d) /\
    let ref := parseManifestDependencyRef (qualifyEnableSpecForRepo (di_spec d) (n_repoName n)) in
    shouldEnableManifestDependency ref (n_authMode n) = false \/
    exists r noWait, findAgent ref = Some r /\ (di_noWait d = false -> noWait = false) /\
      let child := node_id r (alias_text (di_alias d)) in
      (child ∈ n_dependencies n /\ map_get child (n_dependencyEdges n) = Some noWait) \/
      map_get child (n_cycleBackedges n) = Some noWait.

Lemma accounted_le log log' n n' raw :
  node_le n n' -> (forall e, e ∈ log -> e ∈ log') -> accounted log n raw -> accounted log' n' raw.
Proof.
  intros [Hm Hp Hr Ha Hg Hd He Hb] Hlog [?|[(cause & ? & ?)|(d & Hraw & Hacc)]].
  - by left.
  - right. left. exists cause. rewrite Hg. auto.
  - right. right. exists d. split; [done|]. rewrite Hr, Ha. simpl in *.
    destruct Hacc as [?|(r & noWait & Hf & Hw & Hedge)]; [by left|right].
    destruct Hedge as [[Hin Hedge]|Hedge].
    + destruct (He _ _ Hedge) as (b & Hb' & Hw'). exists r, b. split_and!; [done|auto|left]. auto.
    + destruct (Hb _ _ Hedge) as (b & Hb' & Hw'). exists r, b. split_and!; [done|auto|by right].
Qed.

(** Every entry of every visited node is accounted for. *)
Definition complete s : Prop := forall id n raw,
  at_ s id n -> status s id = Some Visited ->
  raw ∈ manifestEnableEntries (n_manifest n) (n_profile n) -> accounted (g_log s) n raw.

Lemma complete_step s s' :
  complete s -> gains s s' ->
  (forall k, known s' k -> status s' k = Some Visited -> known s k /\ status s k = Some Visited) ->
  complete s'.
Proof.
  intros Hc Hg Hold id n' raw Hn' Hs' Hraw.
  destruct (Hold id (node_at_key _ _ _ Hn') Hs') as [[n Hn]%key_node_at Hs].
  destruct (ga_nodes _ _ Hg id n Hn) as (n2 & Hn2 & Hle). unfold node_at in *. simplify_eq.
  eapply accounted_le; [done|apply (ga_log _ _ Hg)|]. eapply Hc; [done|done|].
  by rewrite <- (le_manifest _ _ Hle), <- (le_profile _ _ Hle).
Qed.

Lemma complete_steady s s' : complete s -> steady s s' -> complete s'.
Proof.
  intros Hc [Hg Hk Hst]. eapply complete_step; [done|done|]. intros k. rewrite Hk, Hst. tauto.
Qed.

(** The nodes a step adds are visited ones. *)
Definition settled s s' : Prop := forall k, known s' k -> known s k \/ status s' k = Some Visited.

Lemma settled_steady s s' : steady s s' -> settled s s'.
Proof. intros [_ Hk _] k. rewrite Hk. auto. Qed.

Lemma settled_trans ex s1 s2 s3 : settled s1 s2 -> settled s2 s3 -> frame ex s2 s3 -> settled s1 s3.
Proof.
  intros H12 H23 Hf k Hk. destruct (H23 k Hk) as [Hk2|]; [|by right].
  destruct (H12 k Hk2) as [|Hv]; [by left|right]. by rewrite (fr_status _ _ _ Hf).
Qed.

(** ** What a visit does *)

Definition visit_gains s (out : result graph_error jstr * graph_state) : Prop :=
  match out with
  | (Ok _, s') | (Err (DependencyCycle _ _), s') => complete s' /\ gains s s' /\ settled s s'
  | (Err OutOfFuel, _) => True
  | (Err _, s') => gains s s'
  end.

(** The entry [raw] of the node stored under [id] is accounted for. *)
Definition settles (id : jstr) (raw : js) s : Prop := exists n, at_ s id n /\ accounted (g_log s) n raw.

Lemma settles_gains id raw s s' : gains s s' -> settles id raw s -> settles id raw s'.
Proof.
  intros Hg (n & Hn & Ha). destruct (ga_nodes _ _ Hg id n Hn) as (n' & Hn' & Hle).
  exists n'. split; [done|]. eapply accounted_le; [done|apply (ga_log _ _ Hg)|done].
Qed.

Definition entries_gain (id : jstr) (raws : list js) s (out : result graph_error unit * graph_state) : Prop :=
  match out with
  | (Ok _, s') => complete s' /\ gains s s' /\ settled s s' /\ Forall (fun raw => settles id raw s') raws
  | (Err OutOfFuel, _) => True
  | (Err (DependencyFailed _ _ _), s') => gains s s'
  | (Err _, _) => False
  end.

(** A failure that reaches the end of the catch. *)
Lemma fail_gains id n m raw s s' e :
  inv s -> weak s' -> frame None s s' -> complete s -> at_ s id m -> node_le n m -> gains s s' ->
  entries_gain id [raw] s
    ((if tolerated mode raw then
        _ ← modify (drop_unknown (map_keys (g_nodes s)));
        modify (report (UnresolvedDependency raw (n_agentRef n) e))
      else throw (DependencyFailed raw (n_agentRef n) e)) s').
Proof.
  intros Hi Hw Hf Hc Hm Hle Hg. destruct (tolerated mode raw) eqn:Ht; [|done].
  rewrite bind_modify. simpl. set (s2 := drop_unknown _ s').
  pose proof (gains_drop _ _ Hw Hg) as Hg2. fold s2 in Hg2.
  pose proof (gains_report (UnresolvedDependency raw (n_agentRef n) e) s2) as Hg3.
  pose proof (gains_trans _ _ _ Hg2 Hg3) as Hg4.
  assert (forall k, known s2 k -> known s k /\ status s2 k = status s k) as Hback.
  { intros k Hk. assert (known s k) by by eapply drop_back. split; [done|]. by apply drop_back_status. }
  split_and!; [|done| |].
  - eapply complete_step; [done|done|]. intros k Hk Hs. destruct (Hback k Hk) as [? Heq].
    split; [done|]. by rewrite <- Heq.
  - intros k Hk. left. by apply Hback.
  - apply Forall_singleton. destruct (ga_nodes _ _ Hg4 id m Hm) as (m' & Hm' & Hle').
    exists m'. split; [done|]. right. left. exists e. split; [done|].
    rewrite (le_agentRef _ _ Hle'), (le_agentRef _ _ Hle). simpl. set_solver.
Qed.

(** What an entry asks to visit. *)
Definition dependency_of (n : node) (d : directive) : jstr :=
  parseManifestDependencyRef (qualifyEnableSpecForRepo (di_spec d) (n_repoName n)).

Lemma child_options_eq n stack d :
  exists o, child_options selectedWorkspaceProfile n stack d = (dependency_of n d, o) /\
    v_alias o = alias_text (di_alias d).
Proof. unfold child_options. by eexists. Qed.

Lemma raw_noWait_directive raw d : parseEnableDirective raw = Ok (Some d) -> raw_noWait raw = di_noWait d.
Proof. unfold raw_noWait. by intros ->. Qed.

Lemma dependency_of_le n m d : node_le n m -> dependency_of m d = dependency_of n d.
Proof. intros Hle. unfold dependency_of. by rewrite (le_repo _ _ Hle). Qed.

(** An edge recorded on [id] accounts for its entry. *)
Lemma settles_edge id m raw d s r :
  at_ s id m -> parseEnableDirective raw = Ok (Some d) -> findAgent (dependency_of m d) = Some r ->
  settles id raw (link id (node_id r (alias_text (di_alias d))) (di_noWait d) s).
Proof.
  intros Hm Hraw Hr. set (child := node_id r _). set (m' := linked id child (di_noWait d) id m).
  exists m'. split; [apply link_at; by exists m|].
  destruct (add_edge_recorded child (di_noWait d) (n_dependencyEdges m)) as (b & Hb & Hw).
  right. right. exists d. split; [done|]. right. exists r, b.
  fold (dependency_of m' d). rewrite (dependency_of_le m m') by apply linked_le.
  split_and!; [done|done|left]. fold child. split; [apply linked_dependencies; by right|].
  subst m'. by rewrite linked_edges.
Qed.

(** A cycle cut at [id] accounts for its entry. *)
Lemma settles_cycle id m raw d s r :
  at_ s id m -> parseEnableDirective raw = Ok (Some d) -> findAgent (dependency_of m d) = Some r ->
  settles id raw
    (update_node id (with_backedges (add_edge (node_id r (alias_text (di_alias d))) (di_noWait d))) s).
Proof.
  intros Hm Hraw Hr. set (child := node_id r _).
  exists (with_backedges (add_edge child (di_noWait d)) m). split.
  { unfold node_at, update_node in *. simpl. by rewrite map_get_update, decide_True, Hm. }
  destruct (add_edge_recorded child (di_noWait d) (n_cycleBackedges m)) as (b & Hb & Hw).
  right. right. exists d. split; [done|]. right. exists r, b. split_and!; [done|done|by right].
Qed.

Lemma visit_dependency_gains fuel recurse id n m stack raw s :
  (forall ref o s, inv s -> visit_post [] [] fuel ref o s (recurse ref o s)) ->
  (forall ref o s, inv s -> complete s -> visit_gains s (recurse ref o s)) ->
  inv s -> complete s -> at_ s id m -> node_le n m ->
  entries_gain id [raw] s (visit_dependency selectedWorkspaceProfile mode recurse id n stack raw s).
Proof.
  intros Hrec Hgain Hi Hc Hm Hle. unfold visit_dependency, dependency_try.
  destruct (parseEnableDirective raw) as [[d|]|e] eqn:Hraw; cycle 1.
  - simpl. split_and!; [done|apply gains_refl|by apply settled_steady, steady_refl|].
    apply Forall_singleton. exists m. split; [done|by left].
  - cbn [agent_error throw]. apply (fail_gains id n m); auto using frame_refl, gains_refl. apply Hi.
  - destruct (child_options_eq n stack d) as (o & Ho & Hal). rewrite Ho.
    rewrite <- (dependency_of_le n m d Hle) in *.
    destruct (shouldEnableManifestDependency _ (n_authMode n)) eqn:Hen; simpl; cycle 1.
    { split_and!; [done|apply gains_refl|by apply settled_steady, steady_refl|].
      apply Forall_singleton. exists m. split; [done|]. right. right. exists d. split; [done|]. left.
      fold (dependency_of m d). by rewrite (le_auth _ _ Hle). }
    specialize (Hrec (dependency_of m d) o s Hi). specialize (Hgain (dependency_of m d) o s Hi Hc).
    unfold mbind, stateM_bind. destruct (recurse (dependency_of m d) o s) as [[c|e] s'].
    + destruct Hrec as (Hi' & Hf & Hs' & r & Hr & ->). destruct Hgain as (Hc' & Hg & Hset). simpl.
      rewrite Hal. destruct (ga_nodes _ _ Hg id m Hm) as (m' & Hm' & Hle').
      pose proof (steady_link id (node_id r (alias_text (di_alias d))) (di_noWait d) s') as Hst.
      split_and!.
      * by apply (complete_steady s').
      * by apply (gains_trans s s'), st_gains.
      * intros k. rewrite (st_known _ _ Hst). apply Hset.
      * apply Forall_singleton. apply (settles_edge id m'); [done|done|].
        by rewrite (dependency_of_le m m' d Hle').
    + destruct e as [chain cid|p|raw' pr cause| |c|]; try (apply (fail_gains id n m); naive_solver).
      * destruct Hrec as (Hi' & Hf & r & Hr & ->). destruct Hgain as (Hc' & Hg & Hset).
        rewrite Hal. unfold dependency_catch. rewrite (raw_noWait_directive raw d Hraw), bind_modify.
        destruct (ga_nodes _ _ Hg id m Hm) as (m' & Hm' & Hle').
        set (s2 := update_node id _ s').
        assert (steady s' s2) as Hst.
        { apply steady_update. intros x. constructor; simpl; auto using edges_le_refl, add_edge_le. }
        simpl. split_and!.
        -- apply (complete_steady s2); [by apply (complete_steady s')|].
           constructor; [apply gains_report|done|done].
        -- apply (gains_trans s s'); [done|]. apply (gains_trans s' s2); [by apply st_gains|]. apply gains_report.
        -- intros k Hk. apply Hset. by rewrite <- (st_known _ _ Hst).
        -- apply Forall_singleton. eapply settles_gains; [apply gains_report|].
           apply (settles_cycle id m'); [done|done|]. by rewrite (dependency_of_le m m' d Hle').
      * done.
Qed.

Lemma visit_dependencies_gains fuel recurse id n m stack raws s :
  (forall ref o s, inv s -> visit_post [] [] fuel ref o s (recurse ref o s)) ->
  (forall ref o s, inv s -> complete s -> visit_gains s (recurse ref o s)) ->
  inv s -> status s id = Some Visiting -> complete s -> at_ s id m -> node_le n m ->
  entries_gain id raws s (visit_dependencies selectedWorkspaceProfile mode recurse id n stack raws s).
Proof.
  intros Hrec Hgain. revert m s. induction raws as [|raw raws IH]; intros m s Hi Hs Hc Hm Hle.
  { simpl. split_and!; [done|apply gains_refl|by apply settled_steady, steady_refl|constructor]. }
  cbn [visit_dependencies].
  pose proof (visit_dependency_ok selectedWorkspaceProfile mode [] [] fuel recurse id n stack raw s Hrec Hi Hs) as Hp1.
  pose proof (visit_dependency_gains fuel recurse id n m stack raw s Hrec Hgain Hi Hc Hm Hle) as Hg1.
  unfold mbind, stateM_bind. destruct (visit_dependency _ _ _ _ _ _ raw s) as [[u|e] s1]; [|by destruct e].
  destruct Hp1 as [Hi1 Hf1], Hg1 as (Hc1 & Hga1 & Hse1 & Hraw1).
  pose proof (frame_visiting _ _ _ Hi Hf1 Hs) as Hs1.
  destruct (ga_nodes _ _ Hga1 id m Hm) as (m1 & Hm1 & Hle1).
  specialize (IH m1 s1 Hi1 Hs1 Hc1 Hm1 (node_le_trans _ _ _ Hle Hle1)).
  pose proof (visit_dependencies_ok selectedWorkspaceProfile mode [] [] fuel recurse id n stack raws s1 Hrec Hi1 Hs1)
    as Hp2.
  destruct (visit_dependencies _ _ _ _ _ _ raws s1) as [[u2|e] s2].
  - destruct IH as (Hc2 & Hga2 & Hse2 & Hraws), Hp2 as [_ Hf2]. simpl. split_and!; [done| | |].
    + by apply (gains_trans s s1).
    + by apply (settled_trans (Some id) s s1 s2).
    + apply Forall_cons. apply Forall_cons in Hraw1 as [Hraw1 _]. split; [by apply (settles_gains id raw s1)|done].
  - destruct e; simpl in *; try done; by apply (gains_trans s s1).
Qed.

(** Storing and marking a new node. *)
Lemma start_gains id n s :
  complete s -> ~ known s id ->
  let s1 := set_status id Visiting (set_node id n s) in
  complete s1 /\ gains s s1 /\ forall k, known s1 k -> known s k \/ k = id.
Proof.
  intros Hc Hid s1.
  assert (gains s s1) as Hg.
  { apply (gains_trans s (set_node id n s)); [by apply gains_set_node|apply gains_status]. }
  assert (forall k, known s1 k -> known s k \/ k = id) as Hback.
  { intros k Hk. destruct (decide (k = id)) as [->|Hne]; [by right|left].
    apply keys_map_get in Hk. simpl in Hk. rewrite map_get_set_ne in Hk by done. by apply keys_map_get. }
  split_and!; [|done|done]. apply (complete_step s); [done|done|]. intros k Hk Hs. simpl in Hs.
  destruct (decide (k = id)) as [->|Hne]; [by rewrite map_get_set_eq in Hs|].
  rewrite map_get_set_ne in Hs by done. by destruct (Hback k Hk).
Qed.

(** Finishing a node whose entries are all accounted for. *)
Lemma finish_complete id n s :
  complete s -> at_ s id n ->
  Forall (fun raw => settles id raw s) (manifestEnableEntries (n_manifest n) (n_profile n)) ->
  complete (set_status id Visited s).
Proof.
  intros Hc Hn Hraws k m raw Hm Hs Hraw. unfold node_at in Hm. simpl in Hm, Hs.
  destruct (decide (k = id)) as [->|Hne].
  - unfold node_at in Hn. simplify_eq. rewrite Forall_forall in Hraws.
    destruct (Hraws raw Hraw) as (m2 & Hm2 & Ha). unfold node_at in Hm2. by simplify_eq.
  - rewrite map_get_set_ne in Hs by done. by apply (Hc k m raw).
Qed.

Lemma finish_settled id s s1 s2 :
  (forall k, known s1 k -> known s k \/ k = id) -> settled s1 s2 -> settled s (set_status id Visited s2).
Proof.
  intros Hback Hse k Hk. simpl. destruct (decide (k = id)) as [->|Hne]; [right; apply map_get_set_eq|].
  rewrite map_get_set_ne by done. destruct (Hse k Hk) as [Hk1|]; [|by right].
  destruct (Hback k Hk1); [by left|done].
Qed.

Lemma visit_entries_gains fuel r o n s :
  (forall ref o s, inv s -> complete s ->
    visit_gains s (visit registry selectedWorkspaceProfile mode fuel ref o s)) ->
  let id := node_id r (v_alias o) in
  inv s -> complete s -> ~ known s id -> genuine n -> bare n ->
  visit_gains s (visit_entries registry selectedWorkspaceProfile mode fuel id n o (set_node id n s)).
Proof.
  intros IH id Hi Hc Hid Hgen Hb. unfold visit_entries. rewrite bind_modify.
  destruct (start_gains id n s Hc Hid) as (Hc1 & Hg1 & Hback). set (s1 := set_status id Visiting _) in *.
  assert (inv s1) as Hi1 by by apply start_inv.
  assert (status s1 id = Some Visiting) as Hs1 by apply map_get_set_eq.
  assert (at_ s1 id n) as Hn1 by apply map_get_set_eq.
  pose proof (visit_dependencies_gains fuel _ id n n (v_stack o ++ [id])
    (manifestEnableEntries (n_manifest n) (n_profile n)) s1
    (fun ref o s => visit_ok registry selectedWorkspaceProfile mode [] [] fuel ref o s) IH
    Hi1 Hs1 Hc1 Hn1 (node_le_refl n)) as Hgain.
  unfold mbind, stateM_bind. destruct (visit_dependencies _ _ _ _ _ _ _ s1) as [[u|e] s2]; cycle 1.
  { destruct e; simpl in *; try done; by apply (gains_trans s s1). }
  destruct Hgain as (Hc2 & Hg2 & Hse2 & Hraws). simpl. split_and!.
  - destruct (ga_nodes _ _ Hg2 id n Hn1) as (m & Hm & Hle).
    apply (finish_complete id m); [done|done|]. by rewrite (le_manifest _ _ Hle), (le_profile _ _ Hle).
  - apply (gains_trans s s1); [done|]. apply (gains_trans s1 s2); [done|apply gains_status].
  - by apply (finish_settled id s s1).
Qed.

Lemma visit_gains_ok fuel ref o s :
  inv s -> complete s ->
  visit_gains s (visit registry selectedWorkspaceProfile mode fuel ref o s).
Proof.
  revert ref o s. induction fuel as [|fuel IH]; intros ref o s Hi Hc; [done|].
  destruct (visit_cases registry selectedWorkspaceProfile mode fuel ref o s Hi)
    as [p s' _ _ Hg|chain r s' _ _ Hst _ _|r s' _ _ Hst _ _|r n Hr Hone Hk Hgen Hb]; [done| | |].
  - simpl. split_and!; [by apply (complete_steady s)|apply Hst|by apply settled_steady].
  - simpl. split_and!; [by apply (complete_steady s)|apply Hst|by apply settled_steady].
  - by apply visit_entries_gains.
Qed.

Lemma complete_empty : complete empty_graph_state.
Proof. by intros id n raw Hn. Qed.
End Accounts.
