(* ===== verification/DependencyTheorems.v ===== *)
(** The claims about the dependency graph of a workspace: what a resolved graph
    is, that resolving ends, which failures [start] tolerates, and what its
    waves and wait modes promise. *)

From stdpp Require Import prelude.
From Stdlib Require Import NArith.
From S2P Require Import Prelude.
From S2P Require Import JsString.
From S2P Require Import JsNumber.
From S2P Require Import JsMap.
From S2P Require Import JsValue.
From S2P Require Import HttpRouteCompiler.
From S2P Require Import HttpRouteTheorems.
From S2P Require Import NetworkContract.
From S2P Require Import NetworkTheorems.
From S2P Require Import EnableDirective.
From S2P Require Import DependencyGraph.
From S2P Require Import DependencyWaves.
From S2P Require Import DependencyVisit.
From S2P Require Import DependencyTraversal.
From S2P Require Import DependencyCompleteness.

Local Open Scope js_scope.

Lemma truthy_app a b : truthy b = true -> truthy (a ++ b) = true.
Proof. by destruct a, b. Qed.

Lemma node_id_truthy r alias : truthy (node_id r alias) = true.
Proof. unfold node_id, createGraphNodeId. destruct (truthy alias); by apply truthy_app. Qed.

Section Resolved.
Context `{AgentCatalog, BareAgents, Sha256}.
Context (registry : list js) (selectedWorkspaceProfile : jstr) (mode : tolerance).
Implicit Types (fuel : nat) (g : graph) (agents : list resolved_agent).

Notation resolve := (resolveWorkspaceDependencyGraph registry selectedWorkspaceProfile mode).

Lemma resolve_Ok fuel ref profile alias g log :
  resolve fuel ref profile alias = (Ok g, log) ->
  exists s r, inv s /\ nodes g = g_nodes s /\ preflight_graph (nodes g) = Ok tt /\ staticNodeId g ∈ map_keys (g_nodes s) /\
    findAgent ref = Some r /\ staticNodeId g = node_id r alias.
Proof.
  unfold resolveWorkspaceDependencyGraph. destruct (negb (truthy ref)); [done|].
  pose proof (visit_ok registry selectedWorkspaceProfile mode [] alias fuel ref
    (root_options selectedWorkspaceProfile ref profile alias) _ inv_empty) as Hv.
  destruct (visit _ _ _ _ _ _ _) as [[id|e] s]; [|done]. destruct (preflight_graph _) as [[]|] eqn:Hp; [|done].
  intros [= <- _]. destruct Hv as (Hi & _ & Hs & r & Hr & ->). exists s, r. split_and!; try done.
  apply (we_status _ (in_weak _ Hi)). cbn [staticNodeId v_alias root_options] in *. by rewrite Hs.
Qed.

Lemma resolved_wf fuel ref profile alias g log :
  resolve fuel ref profile alias = (Ok g, log) -> graph_wf (nodes g).
Proof. intros (s & r & Hi & -> & _)%resolve_Ok. apply Hi. Qed.

(** C11. Whatever the manifests say, cycles and failed dependencies included, a
    resolved graph is well formed: each edge is recorded once and on both of
    its ends, both ends are nodes, and the edges are acyclic; the static agent
    is a node, each node carries the manifest on disk of an agent of its
    repository, and no two nodes claim the same alias on a network. *)
Theorem resolved_graph_sound fuel ref profile alias g log
    (Hg : resolve fuel ref profile alias = (Ok g, log)) :
  graph_wf (nodes g) /\ staticNodeId g ∈ map_keys (nodes g) /\
  (exists r, findAgent ref = Some r /\ staticNodeId g = node_id r alias) /\
  (forall id n, node_at (nodes g) id n -> genuine n) /\
  NoDup ((preflight_of <$> map_values (nodes g)) ≫= claims_of).
Proof.
  apply resolve_Ok in Hg as (s & r & Hi & Hn & Hp & Hs & Hr & Hid). apply preflight_admits in Hp as [_ Hp].
  rewrite Hn in Hp |- *.
  split_and!; [apply Hi|done|by exists r|apply (we_genuine _ (in_weak _ Hi))|done].
Qed.

(** C13. No dependency is lost: each entry of each node of a resolved graph is
    empty, left out because it provides sign-on and its parent has none, an
    edge of the graph, an edge back into a cycle that was cut and recorded, or
    a failure that the mode tolerates and that was reported; and an edge is
    waited for if one of its entries asks to wait. *)
Theorem no_dependency_lost fuel ref profile alias g log id n raw
    (Hg : resolve fuel ref profile alias = (Ok g, log))
    (Hn : node_at (nodes g) id n)
    (Hraw : raw ∈ manifestEnableEntries (n_manifest n) (n_profile n)) :
  accounted mode log n raw.
Proof.
  revert Hg. unfold resolveWorkspaceDependencyGraph. destruct (negb (truthy ref)); [done|].
  pose proof (visit_gains_ok registry selectedWorkspaceProfile mode fuel ref
    (root_options selectedWorkspaceProfile ref profile alias) _ inv_empty (complete_empty mode)) as Hv.
  destruct (visit _ _ _ _ _ _ _) as [[i|e] s]; [|done]. destruct (preflight_graph _); [|done].
  intros [= <- <-]. destruct Hv as (Hc & _ & Hset). apply (Hc id); [done| |done].
  by destruct (Hset id (node_at_key _ _ _ Hn)) as [?%not_elem_of_nil|].
Qed.

Lemma visit_resolves agents fuel ref profile alias :
  (forall ref r, findAgent ref = Some r -> r ∈ agents) ->
  traversal_fuel agents alias <= fuel ->
  (visit registry selectedWorkspaceProfile mode fuel ref
    (root_options selectedWorkspaceProfile ref profile alias) empty_graph_state).1 <> Err OutOfFuel.
Proof.
  intros Ha Hf.
  pose proof (visit_ok registry selectedWorkspaceProfile mode agents alias fuel ref
    (root_options selectedWorkspaceProfile ref profile alias) _ inv_empty) as Hv.
  destruct (visit _ _ _ _ _ _ _) as [[id|e] s]; [done|]. intros [= ->]. apply Hv.
  destruct (enough_start agents alias (root_options selectedWorkspaceProfile ref profile alias)
    Ha eq_refl eq_refl) as (? & ? & ?). split_and!; [done|done|lia].
Qed.

(** C35. Resolving ends: with the agents on disk in a finite list, fuel for
    every agent under every alias that a manifest declares is enough, on a
    workspace with cycles too. *)
Theorem resolution_terminates agents fuel ref profile alias
    (Hagents : forall ref r, findAgent ref = Some r -> r ∈ agents)
    (Hfuel : traversal_fuel agents alias <= fuel) :
  (resolve fuel ref profile alias).1 <> Err OutOfFuel.
Proof.
  unfold resolveWorkspaceDependencyGraph. destruct (negb (truthy ref)); [done|].
  pose proof (visit_resolves agents fuel ref profile alias Hagents Hfuel) as Hv.
  destruct (visit _ _ _ _ _ _ _) as [[id|e] s]; [by destruct (preflight_graph _)|]. intros [= ->]. by apply Hv.
Qed.

(** Where every dependency is tolerated, as [start] does, resolving fails
    only on the static agent itself or on the network aliases: no dependency,
    missing, malformed or in conflict, stops it. *)
Theorem start_tolerates_dependencies agents fuel ref profile alias e log
    (Hagents : forall ref r, findAgent ref = Some r -> r ∈ agents)
    (Hfuel : traversal_fuel agents alias <= fuel)
    (Hmode : mode = TolerateAll)
    (He : resolve fuel ref profile alias = (Err e, log)) :
  e = MissingStaticAgent \/ (exists c, e = NetworkConflict c) \/ exists p, e = AgentFailed p.
Proof.
  revert He. unfold resolveWorkspaceDependencyGraph. destruct (negb (truthy ref)); [naive_solver|].
  pose proof (visit_resolves agents fuel ref profile alias Hagents Hfuel) as Hv.
  destruct (visit _ _ _ _ _ _ _) as [[id|e1] s] eqn:Hrun; [destruct (preflight_graph _); naive_solver|].
  intros [= <- <-]. right. right. eapply (tolerant_visit_errors _ _ _ _ _ (root_options _ ref profile alias) _ _ Hmode eq_refl Hrun). by intros ->.
Qed.

Context `{Collation}.

(** C14. The start order of a resolved graph exists and is right: every node is
    in exactly one wave, no wave is empty, and each direct dependency of a
    node, waited for or not, is in an earlier wave. *)
Theorem start_waves_ordered fuel ref profile alias g log
    (Hg : resolve fuel ref profile alias = (Ok g, log)) :
  exists waves, topologicallyGroupDependencyGraph g = Some waves /\
    mjoin waves ≡ₚ map_keys (nodes g) /\ Forall (fun w => w <> []) waves /\
    forall pre wave post id c, waves = pre ++ wave :: post -> id ∈ wave -> depends (nodes g) id c ->
      c ∈ mjoin pre.
Proof. apply wave_grouping. by eapply resolved_wf. Qed.

(** The wait modes split the nodes of a resolved graph in two: the start
    waits for a node exactly if a path of edges declared without [no-wait]
    leads to it from the static agent. *)
Theorem wait_modes_split fuel ref profile alias g log id
    (Hg : resolve fuel ref profile alias = (Ok g, log))
    (Hid : id ∈ map_keys (nodes g)) :
  (id ∈ (classifyDependencyGraphWaitMode g).1 <-> waits (nodes g) (staticNodeId g) id) /\
  (id ∈ (classifyDependencyGraphWaitMode g).2 <-> ~ waits (nodes g) (staticNodeId g) id).
Proof.
  apply resolve_Ok in Hg as (s & r & _ & <- & _ & Hs & _ & Hr).
  unfold classifyDependencyGraphWaitMode.
  assert (truthy (staticNodeId g) = true) as -> by (rewrite Hr; apply node_id_truthy).
  assert (map_has (staticNodeId g) (nodes g) = true) as ->.
  { apply keys_map_get in Hs. unfold map_has. by destruct (map_get _ _). }
  simpl andb. cbv iota. pose proof (blocking_iff (nodes g) (staticNodeId g) _ eq_refl id) as Hb.
  cbn [fst snd]. split; [done|]. rewrite elem_of_bfilter, negb_true_iff, one_of_false, Hb. tauto.
Qed.
End Resolved.

(** ** A workspace *)

Definition manifest_of (enable : list js) : js := Obj [("enable", Arr enable)].

(** [web] needs [db], and [cache] without waiting; [db] needs [cache] and, in a
    cycle, [web]; [web] also names an agent that does not exist. *)
Definition sample_manifests : list (jstr * js) :=
  [("web", manifest_of [Str "kit/db"; Str "kit/cache no-wait"; Str "kit/ghost no-wait"]);
   ("db", manifest_of [Str "kit/cache as shared"; Str "kit/web"]);
   ("cache", manifest_of [])].

Definition kit_agent (name : jstr) : resolved_agent := ResolvedAgent "kit" name name.

Definition sample_agents : list resolved_agent := kit_agent <$> ["web"; "db"; "cache"].

#[local] Instance sample_catalog : AgentCatalog := {
  findAgent ref := find_first (fun r => jeqb ref ("kit/" ++ ra_shortAgentName r)) sample_agents;
  readManifest path := map_get path sample_manifests
}.

#[local] Instance no_bare_agents : BareAgents := fun _ _ => false.

#[local] Existing Instance unit_collation.

#[local] Instance plain_hash : Sha256 := fun s => s.

Definition sample_resolve (mode : tolerance) (ref : jstr) : result graph_error graph * list graph_event :=
  resolveWorkspaceDependencyGraph [] "default" mode (traversal_fuel sample_agents []) ref [] [].

Definition no_graph : graph := Graph [] [].
Definition sample_graph : graph := or_else (sample_resolve TolerateNoWait "kit/web").1 no_graph.

Lemma sample_agents_complete ref r : findAgent ref = Some r -> r ∈ sample_agents.
Proof. intros Hr. by apply find_first_Some in Hr as [? _]. Qed.

(** The missing agent is left out, the edge back to [web] is cut. *)
Definition sample_events : list graph_event := (sample_resolve TolerateNoWait "kit/web").2.

Lemma sample_resolved :
  resolveWorkspaceDependencyGraph [] "default" TolerateNoWait (traversal_fuel sample_agents [])
    "kit/web" [] [] = (Ok sample_graph, sample_events).
Proof. by vm_compute. Qed.

Lemma resolved_graph_sound_witness :
  length sample_events = 2 /\ graph_wf (nodes sample_graph).
Proof.
  split; [by vm_compute|].
  exact (proj1 (resolved_graph_sound [] "default" TolerateNoWait _ "kit/web" [] [] _ _ sample_resolved)).
Defined.

Definition web_node : node := default (Node [] [] [] [] [] false [] [] [] Null (Isolated []) [] [] [] [] [] false [])
  (map_get "kit/web" (nodes sample_graph)).

(** The entry for the agent that does not exist was reported. *)
Lemma no_dependency_lost_witness :
  n_dependencies web_node = ["kit/db"; "kit/cache"] /\
  accounted TolerateNoWait sample_events web_node (Str "kit/ghost no-wait").
Proof.
  split; [by vm_compute|].
  apply (no_dependency_lost [] "default" TolerateNoWait _ "kit/web" [] [] _ _ "kit/web" _ _ sample_resolved).
  - by vm_compute.
  - apply list_elem_of_In. vm_compute. tauto.
Defined.

Lemma resolution_terminates_witness : (sample_resolve FailClosed "kit/web").1 <> Err OutOfFuel.
Proof.
  exact (resolution_terminates [] "default" FailClosed sample_agents _ "kit/web" [] []
    sample_agents_complete (le_n _)).
Defined.

Definition failed (out : result graph_error graph * list graph_event) : graph_error :=
  match out.1 with
  | Err e => e
  | Ok _ => OutOfFuel
  end.

Lemma start_tolerates_dependencies_witness :
  let e := failed (sample_resolve TolerateAll "kit/ghost") in
  e = MissingStaticAgent \/ (exists c, e = NetworkConflict c) \/ exists p, e = AgentFailed p.
Proof.
  apply (start_tolerates_dependencies [] "default" TolerateAll sample_agents
    (traversal_fuel sample_agents []) "kit/ghost" [] [] _ [] sample_agents_complete (le_n _) eq_refl).
  by vm_compute.
Defined.

Lemma start_waves_ordered_witness :
  topologicallyGroupDependencyGraph sample_graph =
    Some [["kit/cache"; "kit/cache as shared"]; ["kit/db"]; ["kit/web"]] /\
  exists waves, topologicallyGroupDependencyGraph sample_graph = Some waves /\
    mjoin waves ≡ₚ map_keys (nodes sample_graph).
Proof.
  split; [by vm_compute|].
  destruct (start_waves_ordered [] "default" TolerateNoWait _ "kit/web" [] [] _ _ sample_resolved)
    as (waves & Hw & Hp & _). exact (ex_intro _ waves (conj Hw Hp)).
Defined.

Lemma wait_modes_split_witness :
  classifyDependencyGraphWaitMode sample_graph =
    (["kit/web"; "kit/db"; "kit/cache as shared"], ["kit/cache"]) /\
  ~ waits (nodes sample_graph) (staticNodeId sample_graph) "kit/cache".
Proof.
  split; [by vm_compute|].
  apply (wait_modes_split [] "default" TolerateNoWait _ "kit/web" [] [] _ _ "kit/cache"
    sample_resolved).
  - apply one_of_elem. by vm_compute.
  - apply one_of_elem. by vm_compute.
Defined.
