(* ===== verification/HardwareOutcome.v ===== *)
(** Typed outcomes of hardware limits and their transport on errors:
    [src/cli/sandbox/hardwareLimits/errors.mjs].  An outcome says that an
    instance is refused, or blocked by a refused dependency, and why. *)

From stdpp Require Import prelude.
From Stdlib Require Import NArith.
From S2P Require Import Prelude.
From S2P Require Import JsString.
From S2P Require Import JsNumber.
From S2P Require Import JsMap.
From S2P Require Import JsValue.
From S2P Require Import JsJson.

Local Open Scope js_scope.

Definition HARDWARE_UNENFORCEABLE : jstr := "PLOINKY_HARDWARE_LIMITS_UNENFORCEABLE".
Definition HARDWARE_DEPENDENCY_BLOCKED : jstr := "PLOINKY_HARDWARE_LIMITS_DEPENDENCY_BLOCKED".
Definition HARDWARE_OUTCOME_CODES : list jstr := [HARDWARE_UNENFORCEABLE; HARDWARE_DEPENDENCY_BLOCKED].
Definition HARDWARE_FIELDS : list jstr := ["memory"; "cpus"; "pidsLimit"; "gpu"].
Definition HARDWARE_SOURCES : list jstr := ["manifest"; "catalog"; "profile"; "settings"].
Definition HARDWARE_REASON_CODES : list jstr :=
  ["gate_off"; "unprepared"; "controller_unavailable"; "cgroup_unsupported"; "runtime_unverified";
   "backend_unavailable"; "store_unreadable"; "gpu_grant_missing"; "gpu_sharing_unavailable";
   "mps_unavailable"; "mps_failed"; "gpu_user_network"; "gpu_memory_model";
   "image_preparation_required"; "lite_sandbox"; "interactive_runtime"; "host_network_nested_podman";
   "exceeds_envelope"; "envelope_unknown"; "declaration_conflict"; "dependency_blocked"].

Definition BOUND_key : nat := 1024.
Definition BOUND_ref : nat := 257.
Definition BOUND_alias : nat := 1024.
Definition BOUND_reason : nat := 2048.
Definition BOUND_fix : nat := 2048.
Definition BOUND_value : nat := 128.
Definition BOUND_requested : nat := 4.
Definition BOUND_causalPathEntries : nat := 32.
Definition BOUND_causalPathBytes : nat := 8 * 1024.
Definition BOUND_outcomeBytes : nat := 16 * 1024.

Definition OUTCOME_KEYS : list jstr :=
  ["state"; "code"; "reasonCode"; "key"; "ref"; "alias"; "inputFingerprint"; "reason"; "fix"; "requested";
   "blockedBy"; "rootCause"; "causalPath"; "omittedPathCount"; "additionalCauseCount"].
Definition ROOT_KEYS : list jstr := ["key"; "ref"; "field"; "reason"; "fix"].
Definition REQUESTED_KEYS : list jstr := ["field"; "value"; "source"].
Definition MAX_CAUSE_DEPTH : nat := 8.

(** ** Outcomes *)

Inductive outcome_state : Type :=
  | Refused
  | Blocked.

Record requested_entry : Type := RequestedEntry {
  rq_field : jstr;
  rq_value : jstr;
  rq_source : jstr
}.

Record root_cause : Type := RootCause {
  rc_key : jstr;
  rc_ref : jstr;
  rc_field : option jstr;
  rc_reason : jstr;
  rc_fix : jstr
}.

(** The fingerprint is what the value held: only its text is checked. *)
Record outcome : Type := Outcome {
  oc_state : outcome_state;
  oc_code : jstr;
  oc_reasonCode : jstr;
  oc_key : jstr;
  oc_ref : jstr;
  oc_alias : option jstr;
  oc_inputFingerprint : js;
  oc_reason : jstr;
  oc_fix : jstr;
  oc_requested : list requested_entry;
  oc_blockedBy : option (jstr * jstr);
  oc_rootCause : root_cause;
  oc_causalPath : list jstr;
  oc_omittedPathCount : Z;
  oc_additionalCauseCount : Z
}.

Definition null_or_str (s : option jstr) : js :=
  match s with
  | Some s => Str s
  | None => Null
  end.

Definition requested_js (e : requested_entry) : js :=
  Obj [("field", Str (rq_field e)); ("value", Str (rq_value e)); ("source", Str (rq_source e))].

Definition root_js (r : root_cause) : js :=
  Obj [("key", Str (rc_key r)); ("ref", Str (rc_ref r)); ("field", null_or_str (rc_field r));
       ("reason", Str (rc_reason r)); ("fix", Str (rc_fix r))].

Definition state_text (s : outcome_state) : jstr :=
  match s with
  | Refused => "refused"
  | Blocked => "blocked"
  end.

(** An outcome as the object it is. *)
Definition outcome_js (o : outcome) : js :=
  Obj [("state", Str (state_text (oc_state o))); ("code", Str (oc_code o));
       ("reasonCode", Str (oc_reasonCode o)); ("key", Str (oc_key o)); ("ref", Str (oc_ref o));
       ("alias", null_or_str (oc_alias o)); ("inputFingerprint", oc_inputFingerprint o);
       ("reason", Str (oc_reason o)); ("fix", Str (oc_fix o));
       ("requested", Arr (requested_js <$> oc_requested o));
       ("blockedBy", match oc_blockedBy o with
                     | Some (k, r) => Obj [("key", Str k); ("ref", Str r)]
                     | None => Null
                     end);
       ("rootCause", root_js (oc_rootCause o)); ("causalPath", Arr (Str <$> oc_causalPath o));
       ("omittedPathCount", Num (Fin (oc_omittedPathCount o)));
       ("additionalCauseCount", Num (Fin (oc_additionalCauseCount o)))].

(** ** Validation *)

Inductive outcome_error : Type :=
  | SchemaError (* HardwareOutcomeSchemaError *)
  | Thrown (e : js_error).

(** [if (!b) schemaFail(...)] *)
Definition demand (b : bool) : result outcome_error unit := if b then Ok tt else Err SchemaError.

Definition exactKeys (value : js) (keys : list jstr) : result outcome_error unit :=
  match value with
  | Obj l =>
      _ ← demand (forallb (fun k => one_of k keys) (l.*1));
      demand (forallb (fun k => map_has k l) keys)
  | _ => Err SchemaError
  end.

Definition boundedText (value : js) (max : nat) (allowEmpty : bool) : result outcome_error jstr :=
  match value with
  | Str s =>
      _ ← demand (allowEmpty || truthy s);
      _ ← demand (negb (has_unit 0 s));
      _ ← demand (byte_length s <=? max);
      Ok s
  | _ => Err SchemaError
  end.

(** [/^[A-Za-z0-9][A-Za-z0-9._-]{0,127}$/] *)
Definition is_ref_unit (c : N) : bool := is_alnum c || (c =? 46)%N || (c =? 95)%N || (c =? 45)%N.

Definition REF_COMPONENT (s : jstr) : bool :=
  match s with
  | c :: r => is_alnum c && forallb is_ref_unit r && (length r <=? 127)
  | [] => false
  end.

Definition isHardwareRef (value : js) : bool :=
  match value with
  | Str s =>
      (byte_length s <=? BOUND_ref) &&
      match split_on 47 s with
      | [a; b] => REF_COMPONENT a && REF_COMPONENT b
      | _ => false
      end
  | _ => false
  end.

Definition validateRef (value : js) : result outcome_error jstr :=
  _ ← demand (isHardwareRef value); Ok (str_or value []).

Definition validateKey (value : js) : result outcome_error jstr := boundedText value BOUND_key false.

(** [list.includes(value)] for a list of texts: the text it is. *)
Definition included (value : js) (l : list jstr) : result outcome_error jstr :=
  match value with
  | Str s => _ ← demand (one_of s l); Ok s
  | _ => Err SchemaError
  end.

Fixpoint validate_entries (seen : list jstr) (l : list js) : result outcome_error (list requested_entry) :=
  match l with
  | [] => Ok []
  | entry :: l =>
      _ ← exactKeys entry REQUESTED_KEYS;
      field ← included (prop "field" entry) HARDWARE_FIELDS;
      _ ← demand (negb (one_of field seen));
      value ← boundedText (prop "value" entry) BOUND_value false;
      source ← included (prop "source" entry) HARDWARE_SOURCES;
      rest ← validate_entries (seen ++ [field]) l;
      Ok (RequestedEntry field value source :: rest)
  end.

Definition validateRequested (value : js) : result outcome_error (list requested_entry) :=
  match value with
  | Arr l => _ ← demand (length l <=? BOUND_requested); validate_entries [] l
  | _ => Err SchemaError
  end.

Definition validateRoot (value : js) : result outcome_error root_cause :=
  _ ← exactKeys value ROOT_KEYS;
  key ← validateKey (prop "key" value);
  ref ← validateRef (prop "ref" value);
  field ← match prop "field" value with
          | Null => Ok None
          | v => f ← included v HARDWARE_FIELDS; Ok (Some f)
          end;
  reason ← boundedText (prop "reason" value) BOUND_reason false;
  fix_ ← boundedText (prop "fix" value) BOUND_fix true;
  Ok (RootCause key ref field reason fix_).

(** [/^[0-9a-f]{64}$/] *)
Definition HEX64 (s : jstr) : bool :=
  (length s =? 64) && forallb (fun c => is_digit c || ((97 <=? c)%N && (c <=? 102)%N)) s.

(** The part that depends on the state: what blocks the instance. *)
Definition validate_state (state : outcome_state) (value : js) (reasonCode key : jstr)
    (requested : list requested_entry) (root : root_cause) : result outcome_error (option (jstr * jstr)) :=
  match state with
  | Refused =>
      _ ← demand (match prop "blockedBy" value with Null => true | _ => false end);
      _ ← demand (jeqb (rc_key root) key);
      _ ← demand (negb (jeqb reasonCode "dependency_blocked"));
      Ok None
  | Blocked =>
      _ ← exactKeys (prop "blockedBy" value) ["key"; "ref"];
      bkey ← validateKey (prop "key" (prop "blockedBy" value));
      bref ← validateRef (prop "ref" (prop "blockedBy" value));
      _ ← demand (match requested with [] => true | _ => false end);
      _ ← demand (jeqb reasonCode "dependency_blocked");
      Ok (Some (bkey, bref))
  end.

Definition validate_path (value : js) (key : jstr) (root : root_cause) : result outcome_error (list jstr) :=
  match value with
  | Arr l =>
      _ ← demand (1 <=? length l);
      _ ← demand (length l <=? BOUND_causalPathEntries);
      path ← mapM_result validateKey l;
      _ ← demand (byte_length (json_stringify (Arr (Str <$> path))) <=? BOUND_causalPathBytes);
      _ ← demand (jeqb (default ([] : jstr) (head path)) key);
      _ ← demand (jeqb (default ([] : jstr) (last path)) (rc_key root));
      Ok path
  | _ => Err SchemaError
  end.

(** A non-negative safe integer. *)
Definition validate_count (value : js) : result outcome_error Z :=
  match value with
  | Num n =>
      _ ← demand (is_safe_integer n && jle (Fin 0) n);
      Ok (match n with Fin z => z | _ => 0%Z end)
  | _ => Err SchemaError
  end.

Definition js_thrown {A} (r : result js_error A) : result outcome_error A :=
  match r with
  | Ok a => Ok a
  | Err e => Err (Thrown e)
  end.

Definition validateHardwareOutcome (value : js) : result outcome_error outcome :=
  _ ← exactKeys value OUTCOME_KEYS;
  stateText ← included (prop "state" value) ["refused"; "blocked"];
  let state := if jeqb stateText "refused" then Refused else Blocked in
  code ← included (prop "code" value) HARDWARE_OUTCOME_CODES;
  _ ← demand (Bool.eqb (jeqb stateText "refused") (jeqb code HARDWARE_UNENFORCEABLE));
  reasonCode ← included (prop "reasonCode" value) HARDWARE_REASON_CODES;
  key ← validateKey (prop "key" value);
  ref ← validateRef (prop "ref" value);
  alias ← match prop "alias" value with
          | Null => Ok None
          | v => a ← boundedText v BOUND_alias false; Ok (Some a)
          end;
  fingerprint ← js_thrown (to_string (prop "inputFingerprint" value));
  _ ← demand (HEX64 fingerprint);
  reason ← boundedText (prop "reason" value) BOUND_reason false;
  fix_ ← boundedText (prop "fix" value) BOUND_fix true;
  requested ← validateRequested (prop "requested" value);
  root ← validateRoot (prop "rootCause" value);
  blockedBy ← validate_state state value reasonCode key requested root;
  path ← validate_path (prop "causalPath" value) key root;
  omitted ← validate_count (prop "omittedPathCount" value);
  additional ← validate_count (prop "additionalCauseCount" value);
  let o := Outcome state code reasonCode key ref alias (prop "inputFingerprint" value) reason fix_
             requested blockedBy root path omitted additional in
  _ ← demand (byte_length (json_stringify (outcome_js o)) <=? BOUND_outcomeBytes);
  Ok o.

Definition isHardwareOutcome (value : js) : bool := is_ok (validateHardwareOutcome value).

(** ** Transport on errors *)

(** A thrown value: a primitive, or an object with the properties the transport
    reads; [er_text] is [String(error)], read when the message is empty. *)
Inductive error_value : Type :=
  | Primitive (v : js)
  | ErrorObject (message code status hardwareOutcome : js) (er_text : jstr) (cause : option error_value).

Definition er_message (e : error_value) : js :=
  match e with
  | Primitive _ => Undefined
  | ErrorObject m _ _ _ _ _ => m
  end.

Definition er_code (e : error_value) : js :=
  match e with
  | Primitive _ => Undefined
  | ErrorObject _ c _ _ _ _ => c
  end.

Definition er_status (e : error_value) : js :=
  match e with
  | Primitive _ => Undefined
  | ErrorObject _ _ s _ _ _ => s
  end.

Definition er_outcome (e : error_value) : js :=
  match e with
  | Primitive _ => Undefined
  | ErrorObject _ _ _ o _ _ => o
  end.

Definition er_truthy (e : error_value) : bool :=
  match e with
  | Primitive v => js_truthy v
  | ErrorObject _ _ _ _ _ _ => true
  end.

(** The outcome an error itself carries. *)
Definition own_outcome (e : error_value) : option outcome :=
  if js_truthy (er_outcome e) then
    match validateHardwareOutcome (er_outcome e) with
    | Ok o => Some o
    | Err _ => None
    end
  else None.

Definition er_cause (e : error_value) : option error_value :=
  match e with
  | Primitive _ => None
  | ErrorObject _ _ _ _ _ c => c
  end.

(** The loop over the chain of causes, at most [depth] long. *)
Fixpoint find_outcome (depth : nat) (current : option error_value) : option outcome :=
  match depth, current with
  | S depth, Some e =>
      match own_outcome e with
      | Some o => Some o
      | None => find_outcome depth (er_cause e)
      end
  | _, _ => None
  end.

Definition findHardwareOutcome (e : error_value) : option outcome := find_outcome MAX_CAUSE_DEPTH (Some e).

(** [Buffer.from(s, 'utf8').subarray(0, max).toString('utf8')]: the code points
    that fit; a cut one and a lone surrogate become U+FFFD. *)
Fixpoint utf8_prefix (max : nat) (s : jstr) : jstr :=
  match s with
  | [] => []
  | c :: r =>
      let put (size : nat) (units rest : jstr) :=
        if size <=? max then units ++ rest
        else if max =? 0 then [] else [65533]%N in
      if (c <? 128)%N then put 1 [c] (utf8_prefix (max - 1) r)
      else if (c <? 2048)%N then put 2 [c] (utf8_prefix (max - 2) r)
      else
        match r with
        | d :: r' =>
            if is_high_surrogate c && is_low_surrogate d then put 4 [c; d] (utf8_prefix (max - 4) r')
            else put 3 [if is_high_surrogate c || is_low_surrogate c then 65533%N else c]
                   (utf8_prefix (max - 3) r)
        | [] => put 3 [if is_high_surrogate c || is_low_surrogate c then 65533%N else c] []
        end
  end.

Definition boundedMessage (text : jstr) : jstr :=
  if 4000 <? byte_length text then utf8_prefix 4000 text ++ "..." else text.

Definition bounded_js (value : js) : result js_error jstr :=
  s ← to_string (js_nullish value (Str [])); Ok (boundedMessage s).

(** The properties that are assigned: an undefined one stands for none. *)
Definition without_undefined (l : list (jstr * js)) : list (jstr * js) :=
  bfilter (fun f => match f.2 with Undefined => false | _ => true end) l.

Definition MAX_SERIALIZED_DEPTH : nat := 3.

(** [depth] is how many causes may still follow. *)
Fixpoint serialize_at (depth : nat) (e : error_value) : result js_error js :=
  match e with
  | Primitive v => m ← bounded_js v; Ok (Obj [("message", Str m)])
  | ErrorObject message code status _ text cause =>
      m ← (if js_truthy message then bounded_js message else Ok (boundedMessage text));
      c ← match depth, cause with
          | S depth, Some p => if er_truthy p then serialize_at depth p else Ok Undefined
          | _, _ => Ok Undefined
          end;
      Ok (Obj (without_undefined
        [("message", Str m);
         ("code", match code with Str _ | Num _ | Frac _ => code | _ => Undefined end);
         ("status", match status with Num n => if is_safe_integer n then status else Undefined | _ => Undefined end);
         ("hardwareOutcome", match findHardwareOutcome e with Some o => outcome_js o | None => Undefined end);
         ("cause", c)]))
  end.

Definition serializeHardwareAwareError (e : error_value) : result js_error js :=
  serialize_at MAX_SERIALIZED_DEPTH e.

Fixpoint deserialize_at (depth : nat) (value : js) : result outcome_error error_value :=
  source ← (if js_truthy value && is_object value then Ok value
            else s ← js_thrown (to_string (js_nullish value (Str []))); Ok (Obj [("message", Str s)]));
  cause ← match depth with
          | S depth =>
              if js_truthy (prop "cause" source) then c ← deserialize_at depth (prop "cause" source); Ok (Some c)
              else Ok None
          | O => Ok None
          end;
  m ← js_thrown (bounded_js (js_or (prop "message" source) (Str "operation failed")));
  match prop "hardwareOutcome" source with
  | Undefined => Ok (ErrorObject (Str m) (prop "code" source) (prop "status" source) Undefined "Error" cause)
  | v =>
      o ← validateHardwareOutcome v;
      Ok (ErrorObject (Str m) (Str (oc_code o)) (prop "status" source) (outcome_js o) "Error" cause)
  end.

Definition deserializeHardwareAwareError (value : js) : result outcome_error error_value :=
  deserialize_at MAX_SERIALIZED_DEPTH value.

(** The status an outcome implies. *)
Definition outcome_status (o : outcome) : js :=
  match oc_state o with
  | Blocked => Num (Fin 424)
  | Refused => Num (Fin 422)
  end.

Definition wrapPreservingHardwareCause (message : jstr) (cause : error_value) : error_value :=
  match findHardwareOutcome cause with
  | Some o =>
      ErrorObject (Str message) (Str (oc_code o)) (js_nullish (er_status cause) (outcome_status o))
        (outcome_js o) "Error" (Some cause)
  | None => ErrorObject (Str message) (er_code cause) (er_status cause) Undefined "Error" (Some cause)
  end.

Definition SOURCE_LABELS : jmap jstr jstr :=
  [("manifest", "manifest"); ("catalog", "catalog"); ("profile", "selected profile");
   ("settings", "Explorer hardware settings")].

Definition formatRequestedEntry (e : requested_entry) : jstr :=
  rq_field e ++ " " ++ rq_value e ++ " (" ++
  sor (default [] (map_get (rq_source e) SOURCE_LABELS)) (rq_source e) ++ ")".

(** [formatHardwareOutcome] of a validated outcome. *)
Definition format_outcome (o : outcome) : jstr :=
  match oc_state o with
  | Refused =>
      let requested :=
        match oc_requested o with
        | [] => "cannot prove the absence of stored limits"
        | l => "requests " ++ join ", " (formatRequestedEntry <$> l)
        end in
      "Refused (hardware limits): " ++ oc_ref o ++ " [" ++ oc_key o ++ "] " ++ requested ++ ". " ++
      oc_reason o ++ (if truthy (oc_fix o) then " " ++ oc_fix o else [])
  | Blocked =>
      let root := oc_rootCause o in
      let '(bkey, bref) := default ([], []) (oc_blockedBy o) in
      "Blocked (dependency): " ++ oc_ref o ++ " [" ++ oc_key o ++ "] requires " ++ bref ++ " [" ++ bkey ++ "]. " ++
      "Root refusal: " ++ rc_ref root ++ " [" ++ rc_key root ++ "], " ++
      (match rc_field root with Some f => f ++ ": " | None => [] end) ++ rc_reason root ++
      (if (oc_additionalCauseCount o =? 0)%Z then []
       else " (" ++ string_of_Z (oc_additionalCauseCount o) ++ " additional cause(s))") ++
      (if truthy (rc_fix root) then " " ++ rc_fix root else [])
  end.

Definition formatHardwareOutcome (value : js) : result outcome_error jstr :=
  o ← validateHardwareOutcome value; Ok (format_outcome o).
