(* ===== verification/HardwareOutcomeTheorems.v ===== *)
(** What a validated outcome is, and that it survives every hop. *)

From stdpp Require Import prelude.
From Stdlib Require Import NArith.
From S2P Require Import Prelude.
From S2P Require Import JsString.
From S2P Require Import JsNumber.
From S2P Require Import JsMap.
From S2P Require Import JsValue.
From S2P Require Import JsJson.
From S2P Require Import HardwareOutcome.

Local Open Scope js_scope.

(** ** Inversion of checks *)

Lemma demand_Ok b u : demand b = Ok u <-> b = true.
Proof. destruct u, b; by split. Qed.

Lemma included_Ok v l s : included v l = Ok s <-> v = Str s /\ one_of s l = true.
Proof.
  destruct v as [| | | | |t| |]; try by split; [|intros [? _]]. simpl. rewrite result_bind_Ok.
  split; [intros (u & ?%demand_Ok & [= ->]); done|]. intros [[= ->] H]. exists tt. by rewrite H.
Qed.

(** Texts within their bounds. *)
Definition bounded (max : nat) (allowEmpty : bool) (s : jstr) : bool :=
  (allowEmpty || truthy s) && negb (has_unit 0 s) && (byte_length s <=? max).

Lemma boundedText_Ok v max e s : boundedText v max e = Ok s <-> v = Str s /\ bounded max e s = true.
Proof.
  destruct v as [| | | | |t| |]; try by split; [|intros [? _]]. unfold boundedText, bounded.
  rewrite !andb_true_iff. split.
  - rewrite result_bind_Ok. intros (u1 & ?%demand_Ok & H). rewrite result_bind_Ok in H.
    destruct H as (u2 & ?%demand_Ok & H). rewrite result_bind_Ok in H.
    by destruct H as (u3 & ?%demand_Ok & [= ->]).
  - intros ([= ->] & [-> ->] & ->). done.
Qed.

Lemma validateRef_Ok v s : validateRef v = Ok s <-> v = Str s /\ isHardwareRef (Str s) = true.
Proof.
  unfold validateRef. rewrite result_bind_Ok. split.
  - intros (u & H%demand_Ok & [= <-]). by destruct v.
  - intros [-> H]. exists tt. by rewrite H.
Qed.

(** A bind that returned, taken apart. *)
Ltac unbind :=
  repeat match goal with
  | H : mbind _ _ = Ok _ |- _ => apply result_bind_Ok in H as (? & ? & H)
  | H : demand _ = Ok _ |- _ => rewrite demand_Ok in H
  | H : included _ _ = Ok _ |- _ => apply included_Ok in H as [? ?]
  | H : validateKey _ = Ok _ |- _ => unfold validateKey in H
  | H : boundedText _ _ _ = Ok _ |- _ => apply boundedText_Ok in H as [? ?]
  | H : validateRef _ = Ok _ |- _ => apply validateRef_Ok in H as [? ?]
  | H : Ok _ = Ok _ |- _ => injection H as ?; subst
  end.

(** ** Valid outcomes *)

Definition entry_valid (e : requested_entry) : Prop :=
  one_of (rq_field e) HARDWARE_FIELDS = true /\ bounded BOUND_value false (rq_value e) = true /\
  one_of (rq_source e) HARDWARE_SOURCES = true.

Definition root_valid (r : root_cause) : Prop :=
  bounded BOUND_key false (rc_key r) = true /\ isHardwareRef (Str (rc_ref r)) = true /\
  (forall f, rc_field r = Some f -> one_of f HARDWARE_FIELDS = true) /\
  bounded BOUND_reason false (rc_reason r) = true /\ bounded BOUND_fix true (rc_fix r) = true.

Definition path_valid (path : list jstr) (key : jstr) (root : root_cause) : Prop :=
  1 <= length path <= BOUND_causalPathEntries /\
  Forall (fun k => bounded BOUND_key false k = true) path /\
  byte_length (json_stringify (Arr (Str <$> path))) <= BOUND_causalPathBytes /\
  head path = Some key /\ last path = Some (rc_key root).

(** A refusal is its own root cause; what is blocked asks for nothing itself
    and names what blocks it. *)
Definition state_valid (o : outcome) : Prop :=
  match oc_state o with
  | Refused =>
      oc_code o = HARDWARE_UNENFORCEABLE /\ oc_blockedBy o = None /\ rc_key (oc_rootCause o) = oc_key o /\
      oc_reasonCode o <> "dependency_blocked"
  | Blocked =>
      oc_code o = HARDWARE_DEPENDENCY_BLOCKED /\ oc_requested o = [] /\
      oc_reasonCode o = "dependency_blocked" /\
      exists k r, oc_blockedBy o = Some (k, r) /\ bounded BOUND_key false k = true /\
        isHardwareRef (Str r) = true
  end.

Record outcome_valid (o : outcome) : Prop := OutcomeValid {
  ov_state : state_valid o;
  ov_reasonCode : one_of (oc_reasonCode o) HARDWARE_REASON_CODES = true;
  ov_key : bounded BOUND_key false (oc_key o) = true;
  ov_ref : isHardwareRef (Str (oc_ref o)) = true;
  ov_alias : forall a, oc_alias o = Some a -> bounded BOUND_alias false a = true;
  ov_fingerprint : exists s, to_string (oc_inputFingerprint o) = Ok s /\ HEX64 s = true;
  ov_reason : bounded BOUND_reason false (oc_reason o) = true;
  ov_fix : bounded BOUND_fix true (oc_fix o) = true;
  ov_requested : length (oc_requested o) <= BOUND_requested;
  ov_fields : NoDup (rq_field <$> oc_requested o);
  ov_entries : Forall entry_valid (oc_requested o);
  ov_root : root_valid (oc_rootCause o);
  ov_path : path_valid (oc_causalPath o) (oc_key o) (oc_rootCause o);
  ov_omitted : (0 <= oc_omittedPathCount o <= max_safe_integer)%Z;
  ov_additional : (0 <= oc_additionalCauseCount o <= max_safe_integer)%Z;
  ov_size : byte_length (json_stringify (outcome_js o)) <= BOUND_outcomeBytes
}.

Lemma bounded_ok max e s : bounded max e s = true -> boundedText (Str s) max e = Ok s.
Proof. intros H. by apply boundedText_Ok. Qed.

Lemma validateKey_ok s : bounded BOUND_key false s = true -> validateKey (Str s) = Ok s.
Proof. apply bounded_ok. Qed.

Lemma included_ok s l : one_of s l = true -> included (Str s) l = Ok s.
Proof. intros H. by apply included_Ok. Qed.

Lemma validateRef_ok s : isHardwareRef (Str s) = true -> validateRef (Str s) = Ok s.
Proof. intros H. by apply validateRef_Ok. Qed.

Lemma validate_entries_sound l : forall seen es,
  validate_entries seen l = Ok es ->
  Forall entry_valid es /\ NoDup (rq_field <$> es) /\ (forall e, e ∈ es -> rq_field e ∉ seen) /\
  length es = length l.
Proof.
  induction l as [|x l IH]; simpl; intros seen es H.
  - injection H as <-. split_and!; [done|constructor| |done]. intros e He. by apply not_elem_of_nil in He.
  - unbind. apply IH in H5 as (Hf & Hn & Hs & Hl).
    assert (x1 ∉ seen) as Hx.
    { match goal with H : negb (one_of _ _) = true |- _ => apply negb_true_iff in H; revert H end.
      intros Ho Hin. apply one_of_elem in Hin. congruence. }
    split_and!.
    + constructor; [|done]. unfold entry_valid. simpl. tauto.
    + csimpl. constructor; [|done]. intros (e & -> & He)%list_elem_of_fmap.
      apply (Hs e He). apply elem_of_app. right. by apply list_elem_of_singleton.
    + intros e [->|He]%elem_of_cons; [done|]. intros Hin. apply (Hs e He). apply elem_of_app. by left.
    + simpl. by rewrite Hl.
Qed.

Lemma validate_entries_complete es : forall seen,
  Forall entry_valid es -> NoDup (rq_field <$> es) -> (forall e, e ∈ es -> rq_field e ∉ seen) ->
  validate_entries seen (requested_js <$> es) = Ok es.
Proof.
  induction es as [|e es IH]; intros seen Hf Hn Hs; [done|]. cbn [fmap list_fmap validate_entries].
  inversion_clear Hf as [|? ? (Hfi & Hv & Hso) Hf']. csimpl in Hn. apply NoDup_cons in Hn as [Hn Hn'].
  assert (one_of (rq_field e) seen = false) as Ho.
  { apply not_true_iff_false. intros Hin%one_of_elem. apply (Hs e); [|done]. apply elem_of_cons. by left. }
  change (exactKeys (requested_js e) REQUESTED_KEYS) with (Ok (E := outcome_error) tt).
  change (prop "field" (requested_js e)) with (Str (rq_field e)).
  change (prop "value" (requested_js e)) with (Str (rq_value e)).
  change (prop "source" (requested_js e)) with (Str (rq_source e)). cbn [mbind result_bind].
  rewrite (included_ok _ _ Hfi). cbn [mbind result_bind]. rewrite Ho. cbn [demand negb mbind result_bind].
  rewrite (bounded_ok _ _ _ Hv). cbn [mbind result_bind]. rewrite (included_ok _ _ Hso).
  cbn [mbind result_bind]. rewrite IH; [by destruct e|done|done|].
  intros y Hy [Hin|Hin%list_elem_of_singleton]%elem_of_app.
  - apply (Hs y); [|done]. apply elem_of_cons. by right.
  - apply Hn. rewrite <- Hin. by apply list_elem_of_fmap_2.
Qed.

Lemma validateRoot_sound v r : validateRoot v = Ok r -> root_valid r.
Proof.
  unfold validateRoot. intros H. unbind. unfold root_valid. cbn [rc_key rc_ref rc_field rc_reason rc_fix].
  split_and!; try done. intros f ->. destruct (prop "field" v); unbind; by simplify_eq.
Qed.

Lemma validateRoot_complete r : root_valid r -> validateRoot (root_js r) = Ok r.
Proof.
  intros (Hk & Hr & Hf & Hre & Hfi). unfold validateRoot.
  assert (exactKeys (root_js r) ROOT_KEYS = Ok tt) as -> by done.
  change (prop "key" (root_js r)) with (Str (rc_key r)). change (prop "ref" (root_js r)) with (Str (rc_ref r)).
  change (prop "field" (root_js r)) with (null_or_str (rc_field r)).
  change (prop "reason" (root_js r)) with (Str (rc_reason r)). change (prop "fix" (root_js r)) with (Str (rc_fix r)).
  unfold validateKey. rewrite (bounded_ok _ _ _ Hk), (validateRef_ok _ Hr), (bounded_ok _ _ _ Hre), (bounded_ok _ _ _ Hfi).
  destruct r as [k rf [f|] re fi]; cbn [rc_key rc_ref rc_field rc_reason rc_fix] in *; [|done].
  cbn [null_or_str mbind result_bind].
  specialize (Hf f eq_refl). by rewrite (included_ok _ _ Hf).
Qed.

Lemma mapM_keys_sound l path :
  mapM_result validateKey l = Ok path ->
  Forall (fun k => bounded BOUND_key false k = true) path /\ length path = length l.
Proof.
  revert path. induction l as [|v l IH]; simpl; intros path H; unbind; [done|].
  destruct (IH _ ltac:(eassumption)) as [Hf Hl]. split; [by constructor|]. simpl. by rewrite Hl.
Qed.

Lemma mapM_keys_complete path :
  Forall (fun k => bounded BOUND_key false k = true) path -> mapM_result validateKey (Str <$> path) = Ok path.
Proof.
  induction 1 as [|k path Hk _ IH]; [done|]. cbn [fmap list_fmap mapM_result].
  rewrite (validateKey_ok _ Hk). cbn [mbind result_bind]. by rewrite IH.
Qed.

Lemma validate_path_sound v key root path :
  validate_path v key root = Ok path -> path_valid path key root.
Proof.
  destruct v as [| | | | | |l|]; try done. unfold validate_path. intros H. unbind.
  match goal with H : mapM_result _ _ = _ |- _ => apply mapM_keys_sound in H as [Hf Hl] end.
  repeat match goal with H : (_ <=? _) = true |- _ => apply Nat.leb_le in H end.
  repeat match goal with H : jeqb _ _ = true |- _ => apply jeqb_eq in H end.
  unfold path_valid. rewrite Hl. destruct path as [|a path]; [simpl in Hl; lia|].
  split_and!; try done; [|].
  - simpl in *. congruence.
  - rewrite last_cons in *. destruct (last path); simpl in *; congruence.
Qed.

Lemma validate_path_complete path key root :
  path_valid path key root -> validate_path (Arr (Str <$> path)) key root = Ok path.
Proof.
  intros ([H1 H2] & Hf & Hb & Hh & Hl). unfold validate_path. rewrite length_fmap.
  apply Nat.leb_le in H1, H2, Hb. rewrite H1, H2. cbn [demand mbind result_bind].
  rewrite (mapM_keys_complete _ Hf). cbn [mbind result_bind]. rewrite Hb. cbn [demand mbind result_bind].
  rewrite Hh, Hl. cbn [default from_option id]. by rewrite !jeqb_refl.
Qed.

Lemma validate_count_Ok v z :
  validate_count v = Ok z <-> v = Num (Fin z) /\ (0 <= z <= max_safe_integer)%Z.
Proof.
  destruct v as [| | |n| | | |]; try by split; [|intros [? _]]. unfold validate_count. split.
  - intros H. unbind. apply andb_true_iff in H0 as [H1 H2]. destruct n as [| |y|]; try done.
    simpl in *. unfold jle in H2. apply Z.leb_le in H1, H2. split; [done|lia].
  - intros [[= ->] Hz]. unfold demand. simpl. unfold jle.
    rewrite (proj2 (Z.leb_le 0 z)), (proj2 (Z.leb_le _ _)) by lia. done.
Qed.

Lemma validate_state_Ok st v rc key rq root b :
  validate_state st v rc key rq root = Ok b ->
  match st with
  | Refused => b = None /\ rc_key root = key /\ rc <> "dependency_blocked"
  | Blocked => rq = [] /\ rc = "dependency_blocked" /\
      exists k r, b = Some (k, r) /\ bounded BOUND_key false k = true /\ isHardwareRef (Str r) = true
  end.
Proof.
  destruct st; simpl; intros H; unbind.
  - repeat match goal with H : jeqb _ _ = true |- _ => apply jeqb_eq in H end.
    split_and!; try done. match goal with H : negb _ = true |- _ => by apply negb_true_iff, jeqb_neq in H end.
  - repeat match goal with H : jeqb _ _ = true |- _ => apply jeqb_eq in H end.
    split; [by destruct rq|]. split; [done|]. eauto.
Qed.

Lemma validate_state_complete o :
  state_valid o ->
  validate_state (oc_state o) (outcome_js o) (oc_reasonCode o) (oc_key o) (oc_requested o) (oc_rootCause o) =
  Ok (oc_blockedBy o).
Proof.
  unfold state_valid. destruct (oc_state o) eqn:Hs.
  - intros (_ & Hb & Hk & Hr). cbn [validate_state].
    change (prop "blockedBy" (outcome_js o)) with
      (match oc_blockedBy o with Some (k, r) => Obj [("key", Str k); ("ref", Str r)] | None => Null end).
    rewrite Hb, Hk, jeqb_refl. apply jeqb_neq in Hr. by rewrite Hr.
  - intros (_ & Hq & Hr & k & r & Hb & Hk & Hf). cbn [validate_state].
    change (prop "blockedBy" (outcome_js o)) with
      (match oc_blockedBy o with Some (k, r) => Obj [("key", Str k); ("ref", Str r)] | None => Null end).
    rewrite Hb, Hq, Hr. change (exactKeys (Obj [("key", Str k); ("ref", Str r)]) ["key"; "ref"])
      with (Ok (E := outcome_error) tt).
    change (prop "key" (Obj [("key", Str k); ("ref", Str r)])) with (Str k).
    change (prop "ref" (Obj [("key", Str k); ("ref", Str r)])) with (Str r).
    cbn [mbind result_bind]. rewrite (validateKey_ok _ Hk). cbn [mbind result_bind].
    rewrite (validateRef_ok _ Hf). by rewrite jeqb_refl.
Qed.

Lemma validate_sound v o : validateHardwareOutcome v = Ok o -> outcome_valid o.
Proof.
  unfold validateHardwareOutcome. intros H. unbind.
  repeat match goal with H : (_ <=? _) = true |- _ => apply Nat.leb_le in H end.
  match goal with H : validate_state _ _ _ _ _ _ = _ |- _ => apply validate_state_Ok in H; rename H into Hst end.
  match goal with H : validate_path _ _ _ = _ |- _ => apply validate_path_sound in H; rename H into Hp end.
  match goal with H : validateRoot _ = _ |- _ => apply validateRoot_sound in H; rename H into Hroot end.
  match goal with H : js_thrown ?t = _ |- _ =>
    assert (exists s, t = Ok s /\ HEX64 s = true) as Hfp by (destruct t; simpl in H; [injection H as ->|done]; eauto) end.
  match goal with H : validateRequested ?l = _ |- _ =>
    destruct l; try done; simpl in H; unbind; apply validate_entries_sound in H as (He & Hn & _ & Hl) end.
  repeat match goal with H : validate_count _ = _ |- _ => apply validate_count_Ok in H as [_ H] end.
  repeat match goal with H : (_ <=? _) = true |- _ => apply Nat.leb_le in H end.
  constructor; cbn [oc_state oc_code oc_reasonCode oc_key oc_ref oc_alias oc_inputFingerprint oc_reason oc_fix
    oc_requested oc_blockedBy oc_rootCause oc_causalPath oc_omittedPathCount oc_additionalCauseCount]; try done.
  - match goal with H : Bool.eqb (jeqb ?s _) (jeqb ?c _) = true |- _ =>
      apply eqb_prop in H; rename H into Hc;
      assert (c = if jeqb s "refused" then HARDWARE_UNENFORCEABLE else HARDWARE_DEPENDENCY_BLOCKED) as Hcode end.
    { match goal with H : one_of ?c HARDWARE_OUTCOME_CODES = true |- _ = _ =>
        apply one_of_elem in H; rename H into Hin end.
      unfold HARDWARE_OUTCOME_CODES in Hin. rewrite Hc.
      apply elem_of_cons in Hin as [->|Hin]; [done|]. apply list_elem_of_singleton in Hin as ->. done. }
    unfold state_valid. cbn [oc_state oc_code oc_reasonCode oc_key oc_requested oc_blockedBy oc_rootCause].
    destruct (jeqb _ "refused"); [|].
    + destruct Hst as (-> & ? & ?). done.
    + destruct Hst as (-> & ? & ?). done.
  - intros a ->. destruct (prop "alias" v); unbind; by simplify_eq.
  - by rewrite Hl.
Qed.

Lemma validate_count_complete z : (0 <= z <= max_safe_integer)%Z -> validate_count (Num (Fin z)) = Ok z.
Proof. intros H. by apply validate_count_Ok. Qed.

Lemma codes_agree o : state_valid o ->
  included (prop "state" (outcome_js o)) ["refused"; "blocked"] = Ok (state_text (oc_state o)) /\
  (if jeqb (state_text (oc_state o)) "refused" then Refused else Blocked) = oc_state o /\
  included (prop "code" (outcome_js o)) HARDWARE_OUTCOME_CODES = Ok (oc_code o) /\
  Bool.eqb (jeqb (state_text (oc_state o)) "refused") (jeqb (oc_code o) HARDWARE_UNENFORCEABLE) = true.
Proof.
  intros Hs. change (prop "state" (outcome_js o)) with (Str (state_text (oc_state o))).
  change (prop "code" (outcome_js o)) with (Str (oc_code o)).
  unfold state_valid in Hs. by destruct (oc_state o); destruct Hs as (-> & _).
Qed.

Lemma validate_complete o : outcome_valid o -> validateHardwareOutcome (outcome_js o) = Ok o.
Proof.
  intros V. destruct (codes_agree o (ov_state _ V)) as (H1 & H2 & H3 & H4).
  unfold validateHardwareOutcome.
  change (exactKeys (outcome_js o) OUTCOME_KEYS) with (Ok (E := outcome_error) tt). cbn [mbind result_bind].
  rewrite H1. cbn [mbind result_bind]. rewrite H2, H3. cbn [mbind result_bind]. rewrite H4.
  cbn [demand mbind result_bind].
  change (prop "reasonCode" (outcome_js o)) with (Str (oc_reasonCode o)).
  change (prop "key" (outcome_js o)) with (Str (oc_key o)). change (prop "ref" (outcome_js o)) with (Str (oc_ref o)).
  change (prop "alias" (outcome_js o)) with (null_or_str (oc_alias o)).
  change (prop "inputFingerprint" (outcome_js o)) with (oc_inputFingerprint o).
  change (prop "reason" (outcome_js o)) with (Str (oc_reason o)). change (prop "fix" (outcome_js o)) with (Str (oc_fix o)).
  change (prop "requested" (outcome_js o)) with (Arr (requested_js <$> oc_requested o)).
  change (prop "rootCause" (outcome_js o)) with (root_js (oc_rootCause o)).
  change (prop "causalPath" (outcome_js o)) with (Arr (Str <$> oc_causalPath o)).
  change (prop "omittedPathCount" (outcome_js o)) with (Num (Fin (oc_omittedPathCount o))).
  change (prop "additionalCauseCount" (outcome_js o)) with (Num (Fin (oc_additionalCauseCount o))).
  rewrite (included_ok _ _ (ov_reasonCode _ V)). cbn [mbind result_bind].
  rewrite (validateKey_ok _ (ov_key _ V)). cbn [mbind result_bind].
  rewrite (validateRef_ok _ (ov_ref _ V)). cbn [mbind result_bind].
  assert (match null_or_str (oc_alias o) with
          | Null => Ok None
          | v => a ← boundedText v BOUND_alias false; Ok (Some a)
          end = Ok (oc_alias o)) as ->.
  { pose proof (ov_alias _ V) as Ha. destruct (oc_alias o) as [a|]; [|done]. specialize (Ha a eq_refl).
    cbn [null_or_str]. by rewrite (bounded_ok _ _ _ Ha). }
  destruct (ov_fingerprint _ V) as (s & -> & Hf). cbn [js_thrown mbind result_bind]. rewrite Hf.
  cbn [demand mbind result_bind]. rewrite (bounded_ok _ _ _ (ov_reason _ V)). cbn [mbind result_bind].
  rewrite (bounded_ok _ _ _ (ov_fix _ V)). cbn [validateRequested mbind result_bind]. rewrite length_fmap.
  rewrite (proj2 (Nat.leb_le _ _) (ov_requested _ V)). cbn [demand mbind result_bind].
  rewrite validate_entries_complete; [|apply V..|intros ? _; apply not_elem_of_nil]. cbn [mbind result_bind].
  rewrite (validateRoot_complete _ (ov_root _ V)). cbn [mbind result_bind].
  rewrite (validate_state_complete _ (ov_state _ V)). cbn [mbind result_bind].
  rewrite (validate_path_complete _ _ _ (ov_path _ V)). cbn [mbind result_bind].
  rewrite (validate_count_complete _ (ov_omitted _ V)). cbn [mbind result_bind].
  rewrite (validate_count_complete _ (ov_additional _ V)). cbn [mbind result_bind].
  assert (Outcome (oc_state o) (oc_code o) (oc_reasonCode o) (oc_key o) (oc_ref o) (oc_alias o)
    (oc_inputFingerprint o) (oc_reason o) (oc_fix o) (oc_requested o) (oc_blockedBy o) (oc_rootCause o)
    (oc_causalPath o) (oc_omittedPathCount o) (oc_additionalCauseCount o) = o) as -> by by destruct o.
  by rewrite (proj2 (Nat.leb_le _ _) (ov_size _ V)).
Qed.

(** The fields are read from the value. *)
Lemma mapM_keys_same path path' : mapM_result validateKey (Str <$> path) = Ok path' -> path' = path.
Proof.
  revert path'. induction path as [|k path IH]; intros path'; [by intros [= <-]|].
  cbn [fmap list_fmap mapM_result]. intros H. unbind. simplify_eq. f_equal. by apply IH.
Qed.

Lemma validate_reads v o : validateHardwareOutcome v = Ok o ->
  prop "key" v = Str (oc_key o) /\ prop "ref" v = Str (oc_ref o) /\
  prop "state" v = Str (state_text (oc_state o)) /\
  validateRoot (prop "rootCause" v) = Ok (oc_rootCause o) /\
  validate_path (prop "causalPath" v) (oc_key o) (oc_rootCause o) = Ok (oc_causalPath o) /\
  (forall k r, prop "blockedBy" v = Obj [("key", Str k); ("ref", Str r)] -> oc_blockedBy o = Some (k, r)) /\
  prop "omittedPathCount" v = Num (Fin (oc_omittedPathCount o)) /\
  prop "additionalCauseCount" v = Num (Fin (oc_additionalCauseCount o)).
Proof.
  unfold validateHardwareOutcome. intros H. unbind.
  repeat match goal with H : validate_count _ = _ |- _ => apply validate_count_Ok in H as [H _] end.
  cbn [oc_state oc_key oc_ref oc_rootCause oc_causalPath oc_blockedBy oc_omittedPathCount oc_additionalCauseCount].
  split_and!; try done.
  - match goal with H : one_of ?s ["refused"; "blocked"] = true, E : prop "state" v = Str ?s |- _ =>
      apply one_of_elem in H; rewrite E end.
    match goal with H : _ ∈ _ |- _ => by apply elem_of_cons in H as [->| ->%list_elem_of_singleton] end.
  - intros k r Hb. match goal with H : validate_state _ _ _ _ _ _ = _ |- _ => rename H into Hst end.
    destruct (if jeqb _ _ then Refused else Blocked); simpl in Hst; rewrite Hb in Hst; unbind; [done|].
    repeat match goal with H : prop _ (Obj _) = Str _ |- _ => vm_compute in H; injection H as <- end. done.
Qed.

(** ** The properties *)

(** What validation returns is exactly the valid outcomes: every bound
    holds, a refusal is its own root cause and a blocked instance names what
    blocks it and starts its path at itself and ends it at the root; and a
    validated outcome passes every later validation unchanged. *)
Theorem outcomes_valid (v : js) (o : outcome) :
  (validateHardwareOutcome v = Ok o -> outcome_valid o) /\
  (outcome_valid o <-> validateHardwareOutcome (outcome_js o) = Ok o).
Proof. split; [apply validate_sound|]. split; [apply validate_complete|apply validate_sound]. Qed.

Lemma find_own depth e o : own_outcome e = Some o -> find_outcome (S depth) (Some e) = Some o.
Proof. simpl. by intros ->. Qed.

Lemma find_valid depth e o : find_outcome depth e = Some o -> outcome_valid o.
Proof.
  revert e. induction depth as [|depth IH]; [done|]. intros [e|]; [|done]. simpl.
  destruct (own_outcome e) as [o'|] eqn:Ho; [|apply IH]. intros [= ->]. revert Ho.
  unfold own_outcome. destruct (js_truthy _); [|done]. case_match eqn:Hv; [|done]. intros [= <-].
  by apply validate_sound in Hv.
Qed.

(** Reading a property of an object without its undefined ones. *)
Lemma prop_defined k l :
  map_wf l -> prop k (Obj (bfilter (fun f => match f.2 with Undefined => false | _ => true end) l)) = prop k (Obj l).
Proof.
  intros Hw. cbn [prop]. rewrite map_get_filter by done. by destruct (map_get k l) as [[]|].
Qed.

(** The fields a serialized error has. *)
Lemma serialize_fields depth e s :
  serialize_at depth e = Ok s ->
  (exists fields, s = Obj fields) /\
  (exists m, prop "message" s = Str m) /\
  prop "hardwareOutcome" s = match e, findHardwareOutcome e with
                             | ErrorObject _ _ _ _ _ _, Some o => outcome_js o
                             | _, _ => Undefined
                             end /\
  (prop "cause" s = Undefined \/
   exists depth' e', depth = S depth' /\ serialize_at depth' e' = Ok (prop "cause" s)).
Proof.
  destruct e as [v|message code status ho text cause].
  - assert (serialize_at depth (Primitive v) = (m ← bounded_js v; Ok (Obj [("message", Str m)]))) as ->
      by (by destruct depth).
    intros (m & _ & [= <-])%result_bind_Ok. split; [eauto|]. split; [by exists m|]. by split; [|left].
  - set (e := ErrorObject message code status ho text cause). set (fo := findHardwareOutcome e).
    assert (serialize_at depth e =
      (m ← (if js_truthy message then bounded_js message else Ok (boundedMessage text));
       c ← match depth, cause with
           | S depth, Some p => if er_truthy p then serialize_at depth p else Ok Undefined
           | _, _ => Ok Undefined
           end;
       Ok (Obj (without_undefined
         [("message", Str m);
          ("code", match code with Str _ | Num _ | Frac _ => code | _ => Undefined end);
          ("status", match status with Num n => if is_safe_integer n then status else Undefined | _ => Undefined end);
          ("hardwareOutcome", match fo with Some o => outcome_js o | None => Undefined end);
          ("cause", c)])))) as -> by (by destruct depth).
    intros (m & _ & (c & Hc & [= <-])%result_bind_Ok)%result_bind_Ok. split; [eauto|].
    assert (forall x y z w v, map_wf [("message"%js, x : js); ("code"%js, y); ("status"%js, z);
      ("hardwareOutcome"%js, w); ("cause"%js, v)]) as Hw.
    { intros. unfold map_wf. csimpl. by apply (bool_decide_unpack _). }
    rewrite !prop_defined by apply Hw. split; [by exists m|]. split; [done|].
    change (prop "cause" _) with c. destruct depth as [|depth], cause as [p|]; simplify_eq/=; try by left.
    destruct (er_truthy p); simplify_eq; [|by left]. right. by exists depth, p.
Qed.

(** The outcome of a serialized error, and what is read back from it. *)
Definition transported (e : error_value) : option outcome :=
  match e with
  | Primitive _ => None
  | _ => findHardwareOutcome e
  end.

Lemma deserialize_serialized depth : forall e s,
  serialize_at depth e = Ok s ->
  exists e', deserialize_at depth s = Ok e' /\
    forall o, transported e = Some o -> own_outcome e' = Some o /\ er_code e' = Str (oc_code o).
Proof.
  induction depth as [depth IH] using lt_wf_ind. intros e s Hs.
  destruct (serialize_fields _ _ _ Hs) as ([fields Hf] & [m Hm] & Ho & Hc).
  assert (deserialize_at depth s =
    (cause ← match depth with
             | S depth =>
                 if js_truthy (prop "cause" s) then c ← deserialize_at depth (prop "cause" s); Ok (Some c)
                 else Ok None
             | O => Ok None
             end;
     m ← js_thrown (bounded_js (js_or (prop "message" s) (Str "operation failed")));
     match prop "hardwareOutcome" s with
     | Undefined => Ok (ErrorObject (Str m) (prop "code" s) (prop "status" s) Undefined "Error" cause)
     | v =>
         o ← validateHardwareOutcome v;
         Ok (ErrorObject (Str m) (Str (oc_code o)) (prop "status" s) (outcome_js o) "Error" cause)
     end)) as -> by (subst s; by destruct depth).
  assert (exists cause, match depth with
             | S depth =>
                 if js_truthy (prop "cause" s) then c ← deserialize_at depth (prop "cause" s); Ok (Some c)
                 else Ok None
             | O => Ok None
             end = Ok (E := outcome_error) cause) as [cause ->].
  { destruct Hc as [Hc | (d & e1 & Hd & Hc)]; [rewrite Hc; destruct depth; by eexists|]. subst depth.
    destruct (IH d ltac:(lia) _ _ Hc) as (e1' & -> & _). destruct (js_truthy _); by eexists. }
  rewrite Hm. cbn [mbind result_bind]. unfold js_or.
  assert (exists m', js_thrown (bounded_js (if js_truthy (Str m) then Str m else Str "operation failed")) = Ok m')
    as [m' ->] by (destruct (js_truthy (Str m)); by eexists).
  cbn [mbind result_bind].
  destruct (transported e) as [o|] eqn:Ht.
  - destruct e as [|message code status ho text c]; [done|]. unfold transported in Ht. rewrite Ho, Ht.
    pose proof (find_valid _ _ _ Ht) as Hv. apply validate_complete in Hv.
    change (match outcome_js o with
     | Undefined => Ok (ErrorObject (Str m') (prop "code" s) (prop "status" s) Undefined "Error" cause)
     | v =>
         o ← validateHardwareOutcome v;
         Ok (ErrorObject (Str m') (Str (oc_code o)) (prop "status" s) (outcome_js o) "Error" cause)
     end) with (o ← validateHardwareOutcome (outcome_js o);
         Ok (ErrorObject (Str m') (Str (oc_code o)) (prop "status" s) (outcome_js o) "Error" cause)).
    rewrite Hv. cbn [mbind result_bind]. eexists. split; [done|]. intros ? [= <-].
    split; [|done]. unfold own_outcome. cbn [er_outcome]. change (js_truthy (outcome_js o)) with true. by rewrite Hv.
  - assert (prop "hardwareOutcome" s = Undefined) as ->; [|by eexists].
    rewrite Ho. destruct e; [done|]. unfold transported in Ht. by rewrite Ht.
Qed.

(** A typed outcome survives the transport of errors: whatever chain of
    causes carried it within the depth that is searched, the error that is read
    back carries the same outcome and its code, and reading back an error that
    was written never fails. *)
Theorem transport_keeps_outcome (e : error_value) (s : js) :
  serializeHardwareAwareError e = Ok s ->
  exists e', deserializeHardwareAwareError s = Ok e' /\
    forall o, findHardwareOutcome e = Some o ->
      findHardwareOutcome e' = Some o /\ er_code e' = Str (oc_code o) /\ outcome_valid o.
Proof.
  intros Hs. destruct (deserialize_serialized _ _ _ Hs) as (e' & He & Ho). exists e'. split; [done|].
  intros o Hf. destruct (Ho o) as [H1 H2]; [by destruct e|].
  split; [by apply find_own|]. split; [done|]. by eapply find_valid.
Qed.

(** A refusal of the agent [basic/shell]: limits are off in its workspace. *)
Definition sample_refusal (key ref : jstr) : outcome :=
  Outcome Refused HARDWARE_UNENFORCEABLE "gate_off" key ref None
    (Str (repeat 97%N 64)) "Hardware limits are off for this workspace." "Remove the declared limit."
    [RequestedEntry "memory" "1g" "manifest"] None
    (RootCause key ref (Some "memory") "Hardware limits are off for this workspace." "Remove the declared limit.")
    [key] 0 0.

Example outcomes_valid_witness :
  validateHardwareOutcome (outcome_js (sample_refusal "k" "basic/shell")) = Ok (sample_refusal "k" "basic/shell") /\
  outcome_valid (sample_refusal "k" "basic/shell").
Proof.
  assert (validateHardwareOutcome (outcome_js (sample_refusal "k" "basic/shell")) =
          Ok (sample_refusal "k" "basic/shell")) as H by by vm_compute.
  split; [exact H|].
  exact (proj1 (outcomes_valid _ _) H).
Defined.

(** The refusal as the cause of a cause. *)
Definition sample_error : error_value :=
  ErrorObject (Str "start failed") Undefined Undefined Undefined "Error"
    (Some (ErrorObject (Str "refused") (Str "X") (Num (Fin 422))
             (outcome_js (sample_refusal "k" "basic/shell")) "Error" None)).

Example transport_keeps_outcome_witness :
  exists s e', serializeHardwareAwareError sample_error = Ok s /\ deserializeHardwareAwareError s = Ok e' /\
    findHardwareOutcome e' = Some (sample_refusal "k" "basic/shell").
Proof.
  assert (exists s, serializeHardwareAwareError sample_error = Ok s) as [s Hs]
    by (vm_compute; by eexists).
  destruct (transport_keeps_outcome sample_error s Hs) as (e' & He & Ho).
  exists s, e'. split; [exact Hs|]. split; [exact He|]. apply Ho. by vm_compute.
Defined.
