(* ===== verification/HardwareAdmission.v ===== *)
(** Admission of hardware limits: what an agent requests, whether this Box can
    enforce it, and the refusal otherwise;
    [src/cli/sandbox/hardwareLimits/requestedLimits.mjs]. *)

From stdpp Require Import prelude.
From Stdlib Require Import NArith Floats.SpecFloat.
From S2P Require Import Prelude.
From S2P Require Import JsString.
From S2P Require Import JsNumber.
From S2P Require Import JsDouble.
From S2P Require Import JsMap.
From S2P Require Import JsValue.
From S2P Require Import HttpRoutePath.
From S2P Require Import HttpRouteCompiler.
From S2P Require Import NetworkContract.
From S2P Require Import CanonicalHash.
From S2P Require Import CpuQuota.
From S2P Require Import RuntimePolicy.
From S2P Require Import DeclaredLimits.
From S2P Require Import LimitResolution.
From S2P Require Import ProfileMerge.
From S2P Require Import HardwareOutcome.

Local Open Scope js_scope.

Definition HARDWARE_RESOURCE_FIELDS : list jstr := ["memory"; "cpus"; "pidsLimit"].

Definition HOST_NETWORK_NESTED_PODMAN_REFUSAL : refusal :=
  Refusal "host_network_nested_podman"
    "This release cannot enforce this hardware limit for host networking with nestedPodman."
    "Use managed networking, remove nestedPodman capability, or remove the requested limit at its source.".

Definition DELEGATION_COMMANDS : list jstr :=
  ["sudo mkdir -p /etc/systemd/system/user@.service.d";
   "printf '[Service]\nDelegate=cpu memory pids\n' | sudo tee /etc/systemd/system/user@.service.d/delegate.conf";
   "sudo systemctl daemon-reload"].

(** ** Requests *)

Definition resourceValue (policy : js) (field : jstr) : result js_error (option jstr) :=
  match optional field (optional "resources" policy) with
  | Undefined | Null | Str [] | Num (Fin 0) => Ok None
  | value => s ← to_string value; Ok (Some s)
  end.

(** The layers, each with the name it has in a request. *)
Definition named_layers (s : policy_sources) : list (jstr * js) :=
  [("manifest" : jstr, manifestPolicy s); ("catalog" : jstr, catalogPolicy s);
   ("profile" : jstr, profilePolicy s); ("settings" : jstr, overridePolicy s)].

(** The last layer that declares the field. *)
Fixpoint last_declared (field : jstr) (entry : option request) (layers : list (jstr * js)) :
    result js_error (option request) :=
  match layers with
  | [] => Ok entry
  | (source, policy) :: layers =>
      value ← resourceValue policy field;
      last_declared field
        (match value with
         | Some v => Some (Request field v source)
         | None => entry
         end) layers
  end.

Definition option_list {A} (o : option A) : list A :=
  match o with
  | Some a => [a]
  | None => []
  end.

Definition requestedHardwareLimits (s : policy_sources) : result js_error (list request) :=
  entries ← mapM_result (fun field => last_declared field None (named_layers s)) HARDWARE_RESOURCE_FIELDS;
  Ok (concat (option_list <$> entries)).

Definition hasHardwareRequest (requested : list request) : bool :=
  match requested with
  | [] => false
  | _ => true
  end.

(** ** The facts admission depends on *)

(** What a provider gives; the overrides when they are a [Map]. *)
Record raw_context : Type := RawContext {
  raw_gate : js;
  raw_prepared : js;
  raw_backendReady : js;
  raw_controllers : js;
  raw_hostKind : js;
  raw_unpreparedDetail : js;
  raw_unpreparedKind : js;
  raw_runtimeObserved : js;
  raw_storeState : js;
  raw_storeDetail : js;
  raw_overrides : option (jmap jstr js);
  raw_gpu : js;
  raw_envelope : option envelope
}.

Definition no_facts : raw_context :=
  RawContext Undefined Undefined Undefined Undefined Undefined Undefined Undefined Undefined Undefined Undefined
    None Undefined None.

Record hw_context : Type := HwContext {
  hc_insideBox : bool;
  hc_runtimeKind : jstr;
  hc_gate : jstr;
  hc_prepared : bool;
  hc_backendReady : bool;
  hc_controllers : list jstr;
  hc_hostKind : jstr;
  hc_unpreparedDetail : jstr;
  hc_unpreparedKind : jstr;
  hc_runtimeObserved : jstr;
  hc_storeState : jstr;
  hc_storeDetail : jstr;
  hc_overrides : jmap jstr js;
  hc_gpu : js;
  hc_envelope : option envelope
}.

(** [list.includes(v) ? v : d] *)
Definition included_or (v : js) (l : list jstr) (d : jstr) : jstr :=
  match v with
  | Str s => if one_of s l then s else d
  | _ => d
  end.

Definition is_true (v : js) : bool :=
  match v with
  | Bool b => b
  | _ => false
  end.

Definition controllers_of (v : js) : list jstr :=
  let entries := concat ((fun e => match e with
                                   | Str s => if one_of s ["cpu"; "memory"; "pids"] then [s] else []
                                   | _ => []
                                   end) <$> array_items v) in
  stable_sort unit_le (fold_left (fun acc s => set_add s acc) entries []).

Definition normalizeHardwareContext (raw : option raw_context) (insideBox : bool) (runtimeKind : jstr) : hw_context :=
  let value := default no_facts raw in
  HwContext insideBox (sor runtimeKind "container")
    (included_or (raw_gate value) ["on"; "off"; "none"] (if insideBox then "off" else "none"))
    (is_true (raw_prepared value)) (is_true (raw_backendReady value)) (controllers_of (raw_controllers value))
    (str_or (raw_hostKind value) []) (str_or (raw_unpreparedDetail value) []) (str_or (raw_unpreparedKind value) [])
    (str_or (raw_runtimeObserved value) [])
    (included_or (raw_storeState value) ["none"; "valid"; "unreadable"] "none") (str_or (raw_storeDetail value) [])
    (default [] (raw_overrides value)) (js_or (raw_gpu value) Null) (raw_envelope value).

(** ** Refusals *)

Definition liteSandboxRefusal (requested : list request) : refusal :=
  Refusal "lite_sandbox" ("This runtime cannot apply " ++ join ", " (rqf_field <$> requested) ++ ".")
    ("Use the managed container lifecycle, or remove the limit. For host lite sandboxes, disable the lite sandbox before starting the container runtime.").

Definition REPAIR_FIX : jstr :=
  "On the host run ploinky limits status, repair the reported prerequisite, then ploinky restart.".

Definition unpreparedRefusal (c : hw_context) : refusal :=
  if jeqb (hc_unpreparedKind c) "cgroup" then
    Refusal "cgroup_unsupported" "The Box needs writable cgroup v2 with nsdelegate."
      "Configure the host's unified delegated hierarchy and restart the Box; Ploinky will not change host mounts or boot settings."
  else if jeqb (hc_unpreparedKind c) "runtime" then
    Refusal "runtime_unverified"
      ("Hardware limits require verified crun and nested cgroupfs. Observed: " ++
       sor (hc_runtimeObserved c) "unknown/unknown/unknown/unknown" ++ ".")
      ("For the outer engine, set runtime=" ++ [34%N] ++ "crun" ++ [34%N] ++ " in the [engine] section of that engine user's " ++
       "~/.config/containers/containers.conf, then run ploinky restart. On macOS do this inside the Podman machine. " ++
       "A nested failure requires the supported immutable Box image and working podman --cgroup-manager=cgroupfs " ++
       "invocation; inspect ploinky diagnose before retrying.")
  else if jeqb (hc_unpreparedKind c) "parents" then
    Refusal "backend_unavailable"
      ("This Box is not prepared for hardware limits: " ++
       sor (hc_unpreparedDetail c) "the agent cgroup parents could not be created" ++ ".") REPAIR_FIX
  else
    Refusal "unprepared"
      ("This Box is not prepared for hardware limits: " ++
       sor (hc_unpreparedDetail c) "preparation was not proved" ++ ".") REPAIR_FIX.

Definition controllerRefusal (controller : jstr) (c : hw_context) : refusal :=
  Refusal "controller_unavailable" ("The host does not delegate " ++ controller ++ " to rootless Podman.")
    (if jeqb (hc_hostKind c) "macos" then
       "Apply the delegation commands inside podman machine ssh, then restart that Podman machine and run " ++
       "ploinky restart on macOS. " ++ join " ; " DELEGATION_COMMANDS
     else
       "Apply the delegation commands below on the Linux host, log out and back in, then run ploinky restart. " ++
       join " ; " DELEGATION_COMMANDS ++ " (daemon-reload alone does not change an existing session)").

Definition declaredCpusOf (requested : list request) : option request :=
  find_first (fun e => jeqb (rqf_field e) "cpus" && negb (jeqb (rqf_source e) "settings")) requested.

Definition declared_admission (e : request) : admission :=
  parseAdmittedCpus MIN_DECLARED_CPU_HUNDREDTHS (Str (rqf_value e)).

Definition ready (c : hw_context) : bool := jeqb (hc_gate c) "on" && hc_prepared c && hc_backendReady c.

Definition declaredCpusEnvelopeState (requested : list request) (c : hw_context) : option jstr :=
  if negb (ready c) then None
  else
    match declaredCpusOf requested with
    | None => None
    | Some entry =>
        Some (match declared_admission entry with
              | Rejected _ => "invalid"
              | Accepted _ canonical =>
                  match envelope_cpus (hc_envelope c) with
                  | None => "unknown"
                  | Some total => if double_gt (cpus_number canonical) total then "exceeds" else "within"
                  end
              end)
    end.

(** The refusal of one declared cpus value. *)
Definition refuse_cpus (entry : request) (c : hw_context) : option refusal :=
  let source := rqf_source entry in
  match declared_admission entry with
  | Rejected reason =>
      Some (Refusal "exceeds_envelope"
        ("The cpus value " ++ take 64 (rqf_value entry) ++ " declared in the " ++ source ++ " " ++ reason_text reason ++
         ", so its CPU quota cannot be read back exactly.")
        ("Declare cpus as a decimal from 0.01 with at most two decimal places (for example 0.29) in the " ++ source ++
         ", or remove the limit."))
  | Accepted _ canonical =>
      match envelope_cpus (hc_envelope c) with
      | None =>
          Some (Refusal "envelope_unknown"
            ("The Box CPU envelope is unknown, so the cpus value " ++ canonical ++ " declared in the " ++ source ++
             " cannot be checked against it.")
            ("On the host run ploinky limits status, repair the reported prerequisite, then ploinky restart; " ++
             "or remove the declared cpus limit in the " ++ source ++ "."))
      | Some total =>
          if double_gt (cpus_number canonical) total then
            Some (Refusal "exceeds_envelope"
              ("The cpus value " ++ canonical ++ " declared in the " ++ source ++ " exceeds the Box CPU envelope of " ++
               double_text total ++ ".")
              ("Declare at most " ++ double_text total ++ " CPUs in the " ++ source ++ ", or remove the limit."))
          else None
      end
  end.

Fixpoint cpuAdmissionRefusal (requested : list request) (c : hw_context) : option refusal :=
  match requested with
  | [] => None
  | entry :: requested =>
      if negb (jeqb (rqf_field entry) "cpus") || jeqb (rqf_source entry) "settings" then cpuAdmissionRefusal requested c
      else
        match refuse_cpus entry c with
        | Some r => Some r
        | None => cpuAdmissionRefusal requested c
        end
  end.

Definition storeRefusal (c : hw_context) : refusal :=
  Refusal "store_unreadable"
    ("The hardware policy store cannot be read safely: " ++ sor (hc_storeDetail c) "unreadable" ++ ".")
    "On the host run ploinky limits clear --all to reset it, or restore a valid private store, then ploinky restart.".

Definition CONTROLLER_BY_FIELD (field : jstr) : option jstr :=
  if jeqb field "memory" then Some "memory"
  else if jeqb field "cpus" then Some "cpu"
  else if jeqb field "pidsLimit" then Some "pids"
  else None.

(** The first requested field whose controller is not delegated. *)
Fixpoint missing_controller (requested : list request) (c : hw_context) : option refusal :=
  match requested with
  | [] => None
  | entry :: requested =>
      match CONTROLLER_BY_FIELD (rqf_field entry) with
      | Some controller =>
          if one_of controller (hc_controllers c) then missing_controller requested c
          else Some (controllerRefusal controller c)
      | None => missing_controller requested c
      end
  end.

(** ** Eligibility *)

(** What the evaluation reads of a descriptor. *)
Record descriptor : Type := Descriptor {
  d_agentId : jstr;
  d_profileName : jstr;
  d_hardwareRequest : list request;
  d_conflicts : list (jstr * conflict);
  d_hostNetwork : bool;
  d_nestedPodman : bool;
  d_hardwareGpu : js
}.

(** A refusal, and the stored entries that replace declared ones. *)
Record refusal_parts : Type := RefusalParts {
  rp_refusal : refusal;
  rp_requested : list request
}.

Inductive eligibility : Type :=
  | NotApplicable
  | Eligible (inputFingerprint : jstr)
  | RefusedWith (parts : refusal_parts) (inputFingerprint : jstr).

Definition request_js (e : request) : js :=
  Obj [("field", Str (rqf_field e)); ("value", Str (rqf_value e)); ("source", Str (rqf_source e))].

Definition conflict_js (e : jstr * conflict) : js :=
  Obj [("layer", Str e.1); ("field", Str (cf_field e.2)); ("value", Str (cf_value e.2));
       ("deprecatedValue", Str (cf_deprecatedValue e.2))].

Definition problem_js (p : option override_problem) : js :=
  match p with
  | Some p => Obj [("reasonCode", Str (op_reasonCode p)); ("reason", Str (op_reason p)); ("fix", Str (op_fix p));
                   ("requested", Arr (request_js <$> op_requested p))]
  | None => Null
  end.

Definition context_js (d : descriptor) (c : hw_context) : js :=
  Obj ([("insideBox", Bool (hc_insideBox c)); ("gate", Str (hc_gate c)); ("prepared", Bool (hc_prepared c));
        ("backendReady", Bool (hc_backendReady c)); ("controllers", Arr (Str <$> hc_controllers c));
        ("hostKind", Str (hc_hostKind c)); ("unpreparedKind", Str (hc_unpreparedKind c));
        ("unpreparedDetail", Str (hc_unpreparedDetail c)); ("runtimeObserved", Str (hc_runtimeObserved c));
        ("storeState", Str (hc_storeState c))] ++
       (if js_truthy (d_hardwareGpu d)
        then [("gpu", Obj [("deviceUuid", optional "deviceUuid" (hc_gpu c));
                           ("driverVersion", optional "driverVersion" (hc_gpu c));
                           ("wiringFingerprint", optional "wiringFingerprint" (hc_gpu c));
                           ("eligible", optional "eligible" (hc_gpu c))])]
        else [])).

Definition fingerprint_js (d : descriptor) (c : hw_context) (problem : option override_problem) : js :=
  Obj ([("schema", Num (Fin 1)); ("agentId", Str (d_agentId d)); ("profileName", Str (d_profileName d));
        ("runtimeKind", Str (hc_runtimeKind c)); ("requested", Arr (request_js <$> d_hardwareRequest d));
        ("hostNetwork", Bool (d_hostNetwork d)); ("nestedPodman", Bool (d_nestedPodman d));
        ("overrideProblem", problem_js problem)] ++
       match d_conflicts d with
       | [] => []
       | l => [("declarationConflicts", Arr (conflict_js <$> l))]
       end ++
       match declaredCpusEnvelopeState (d_hardwareRequest d) c with
       | Some s => [("declaredCpusEnvelope", Str s)]
       | None => []
       end ++
       [("context", context_js d c)]).

(** The refusal of a container with a request, in the order of the checks. *)
Definition refuse_request (d : descriptor) (c : hw_context) : option refusal :=
  if negb (jeqb (hc_gate c) "on") then
    Some (Refusal "gate_off" "Hardware limits are off for this workspace."
            "On the host run PLOINKY_BOX_HARDWARE_LIMITS=on ploinky restart, or remove the declared limit.")
  else if d_hostNetwork d && d_nestedPodman d then Some HOST_NETWORK_NESTED_PODMAN_REFUSAL
  else if negb (hc_prepared c) || negb (hc_backendReady c) then Some (unpreparedRefusal c)
  else
    match missing_controller (d_hardwareRequest d) c with
    | Some r => Some r
    | None => cpuAdmissionRefusal (d_hardwareRequest d) c
    end.

(** The refusal and its stored entries. *)
Definition decide_refusal (d : descriptor) (c : hw_context) (problem : option override_problem) :
    option (refusal * list request) :=
  let alone (o : option refusal) := (fun r => (r, [])) <$> o in
  match d_conflicts d with
  | _ :: _ => alone (Some (declarationConflictRefusal (d_conflicts d)))
  | [] =>
      if negb (jeqb (hc_runtimeKind c) "container") then
        alone (if hasHardwareRequest (d_hardwareRequest d) then Some (liteSandboxRefusal (d_hardwareRequest d)) else None)
      else if jeqb (hc_storeState c) "unreadable" then alone (Some (storeRefusal c))
      else
        match problem with
        | Some p => Some (Refusal (op_reasonCode p) (op_reason p) (op_fix p), op_requested p)
        | None => alone (if hasHardwareRequest (d_hardwareRequest d) then refuse_request d c else None)
        end
  end.

(** A stored entry replaces the declared one of its field. *)
Definition replace_requested (declared stored : list request) : list request :=
  bfilter (fun e => negb (existsb (fun x => jeqb (rqf_field x) (rqf_field e)) stored)) declared ++ stored.

Section Evaluate.
Context `{Sha256}.

Definition evaluateHardwareEligibility (d : descriptor) (c : hw_context) (helper : bool)
    (problem : option override_problem) : eligibility :=
  if helper then NotApplicable
  else if jeqb (hc_runtimeKind c) "container" && negb (hc_insideBox c) &&
          match d_conflicts d with [] => true | _ => false end
  then NotApplicable
  else
    let inputFingerprint := hex64 (fingerprint_js d c problem) in
    match decide_refusal d c problem with
    | Some (r, extra) =>
        RefusedWith (RefusalParts r (replace_requested (d_hardwareRequest d) extra)) inputFingerprint
    | None => Eligible inputFingerprint
    end.

(** ** Outcomes *)

Fixpoint position (f : jstr) (l : list jstr) : Z :=
  match l with
  | [] => -1
  | g :: l => if jeqb f g then 0 else let p := position f l in if (p <? 0)%Z then -1 else p + 1
  end.

Definition orderedRequested (requested : list request) : list request :=
  stable_sort (fun a b => (position (rqf_field a) HARDWARE_FIELDS <=? position (rqf_field b) HARDWARE_FIELDS)%Z)
    requested.

(** The characters that fit with the suffix. *)
Fixpoint fitting_prefix (characters : list jstr) (prefix suffix : jstr) : jstr :=
  match characters with
  | [] => prefix
  | c :: characters =>
      if BOUND_value <? byte_length (prefix ++ c ++ suffix) then prefix
      else fitting_prefix characters (prefix ++ c) suffix
  end.

Definition boundedRequestedValue (text : jstr) : jstr :=
  if byte_length text <=? BOUND_value then text
  else
    let suffix := "...sha256:" ++ take 16 (sha256_hex text) in
    fitting_prefix (code_points text) [] suffix ++ suffix.

Definition direct_refusal_js (key ref : jstr) (alias : option jstr) (parts : refusal_parts) (inputFingerprint : js) : js :=
  let r := rp_refusal parts in
  let ordered := orderedRequested (rp_requested parts) in
  Obj [("state", Str "refused"); ("code", Str HARDWARE_UNENFORCEABLE); ("reasonCode", Str (rf_reasonCode r));
       ("key", Str key); ("ref", Str ref);
       ("alias", match alias with Some (c :: a) => Str (c :: a) | _ => Null end);
       ("inputFingerprint", inputFingerprint); ("reason", Str (rf_reason r)); ("fix", Str (rf_fix r));
       ("requested", Arr ((fun e => Obj [("field", Str (rqf_field e)); ("value", Str (boundedRequestedValue (rqf_value e)));
                                         ("source", Str (rqf_source e))]) <$> ordered));
       ("blockedBy", Null);
       ("rootCause", Obj [("key", Str key); ("ref", Str ref);
                          ("field", match ordered with
                                    | e :: _ => js_or (Str (rqf_field e)) Null
                                    | [] => Null
                                    end);
                          ("reason", Str (rf_reason r)); ("fix", Str (rf_fix r))]);
       ("causalPath", Arr [Str key]); ("omittedPathCount", Num (Fin 0)); ("additionalCauseCount", Num (Fin 0))].

Definition buildDirectRefusal (key ref : jstr) (alias : option jstr) (parts : refusal_parts) (inputFingerprint : js) :
    result outcome_error outcome :=
  validateHardwareOutcome (direct_refusal_js key ref alias parts inputFingerprint).

(** ** Interactive containers *)

Inductive admission_error : Type :=
  | BadPolicy (e : policy_error)
  | BadOutcome (e : outcome_error)
  | AdmissionThrown (e : js_error).

Definition adm_policy {A} (r : policyR A) : result admission_error A :=
  match r with
  | Ok a => Ok a
  | Err e => Err (BadPolicy e)
  end.

Definition adm_js {A} (r : result js_error A) : result admission_error A :=
  match r with
  | Ok a => Ok a
  | Err e => Err (AdmissionThrown e)
  end.

Definition adm_outcome {A} (r : result outcome_error A) : result admission_error A :=
  match r with
  | Ok a => Ok a
  | Err e => Err (BadOutcome e)
  end.

Context `{MpsTools}.

(** The stored entry of the agent, [null] when there is none or limits are off. *)
Definition stored_entry (ref : jstr) (context : option hw_context) : js :=
  match context with
  | Some c => if jeqb (hc_gate c) "on" then js_or (default Undefined (map_get ref (hc_overrides c))) Null else Null
  | None => Null
  end.

Definition interactiveHardwareRefusal (manifest profileConfig : js) (ref key : jstr) (alias : option jstr)
    (context : option hw_context) : result admission_error (option outcome) :=
  let stored := stored_entry ref context in
  mp ← adm_policy (declaredLayerPolicy manifest);
  pp ← adm_policy (declaredLayerPolicy profileConfig);
  declared ← adm_js (requestedHardwareLimits (PolicySources mp Undefined pp Undefined));
  storedRequested ← adm_js (if js_truthy stored then storedRequestedLimits stored else Ok []);
  match replace_requested declared storedRequested with
  | [] => Ok None
  | requested =>
      problem ← adm_js (if js_truthy stored
                        then s ← resolveStoredOverride stored (context ≫= hc_envelope) Null ref; Ok (so_problem s)
                        else Ok None);
      let r :=
        match problem with
        | Some p =>
            if jeqb (op_reasonCode p) "gpu_sharing_unavailable"
            then Some (Refusal (op_reasonCode p) (op_reason p) (op_fix p)) else None
        | None => None
        end in
      let parts := default (Refusal "interactive_runtime"
                              ("This runtime cannot apply " ++
                               join ", " (rqf_field <$> orderedRequested requested) ++ ".")
                              ("Use the managed container lifecycle, or remove the limit. For host lite sandboxes, disable the lite sandbox before starting the container runtime.")) r in
      o ← adm_outcome (buildDirectRefusal key ref alias (RefusalParts parts requested)
            (Str (hex64 (Obj [("schema", Num (Fin 1)); ("interactive", Bool true); ("ref", Str ref);
                              ("requested", Arr (request_js <$> requested))]))));
      Ok (Some o)
  end.
End Evaluate.
