(* ===== verification/RuntimePolicyLayers.v ===== *)
(** The layers of a policy: what the effective policy holds is what the last
    layer declares, and the requested hardware limits are exactly those. *)

From stdpp Require Import prelude.
From Stdlib Require Import NArith.
From S2P Require Import Prelude.
From S2P Require Import JsString.
From S2P Require Import JsNumber.
From S2P Require Import JsMap.
From S2P Require Import JsValue.
From S2P Require Import ManifestContract.
From S2P Require Import RuntimePolicy.
From S2P Require Import RuntimePolicyTheorems.
From S2P Require Import ProfileMerge.
From S2P Require Import LimitResolution.
From S2P Require Import HardwareAdmission.

Local Open Scope js_scope.

(** A property of the resources of a policy. *)
Definition resource (k : jstr) (policy : js) : js := prop k (prop "resources" policy).

(** ** Merging one layer *)

Lemma merge_field_other ov out key k : k <> key -> prop k (Obj (merge_field ov out key)) = prop k (Obj out).
Proof.
  intros Hk. unfold merge_field, set_prop. destruct (is_undefined _); [done|].
  destruct (jeqb key "resources") eqn:Hr.
  - apply jeqb_eq in Hr as ->. by rewrite prop_set_ne.
  - destruct (jeqb key "devices" || jeqb key "securityOpt"); by rewrite prop_set_ne.
Qed.

(** The resources so far are an object, when there are any. *)
Definition resources_object (v : js) : Prop := v = Undefined \/ exists l, v = Obj l.

Lemma spread_resources v : resources_object v ->
  spread (js_or v (Obj [])) = match v with Obj l => l | _ => [] end.
Proof. by intros [->|(l & ->)]. Qed.

Lemma prop_spread k v : resources_object v -> prop k (Obj (spread (js_or v (Obj [])))) = prop k v.
Proof. intros [->|(l & ->)]; done. Qed.

Lemma merge_field_resources ov out l : prop "resources" ov = Obj l ->
  resources_object (prop "resources" (Obj out)) ->
  resources_object (prop "resources" (Obj (merge_field ov out "resources"))) /\
  forall k, json_object l -> k <> "ulimits" ->
    resource k (Obj (merge_field ov out "resources")) =
    match prop k (Obj l) with
    | Undefined => resource k (Obj out)
    | v => v
    end.
Proof.
  intros Hov Hout. unfold merge_field. rewrite Hov. cbn [is_undefined]. rewrite jeqb_refl.
  unfold resource, set_prop. split; [rewrite prop_set_eq; right; eauto|]. intros k Hl Hk. rewrite prop_set_eq.
  destruct (js_truthy (optional "ulimits" (Obj l))); [rewrite prop_set_ne by done|];
    rewrite merge_props_prop by done; by rewrite prop_spread.
Qed.

Lemma merge_fields_resource ov l keys out k : prop "resources" ov = Obj l -> json_object l -> k <> "ulimits" ->
  NoDup keys -> resources_object (prop "resources" (Obj out)) ->
  let out' := fold_left (merge_field ov) keys out in
  resources_object (prop "resources" (Obj out')) /\
  resource k (Obj out') =
  if decide (("resources" : jstr) ∈ keys)
  then match prop k (Obj l) with Undefined => resource k (Obj out) | v => v end
  else resource k (Obj out).
Proof.
  intros Hov Hl Hk. revert out. induction keys as [|key keys IH]; intros out Hnd Hout; cbv zeta; cbn [fold_left].
  - rewrite decide_False; [done|apply not_elem_of_nil].
  - apply NoDup_cons in Hnd as [Hkey Hnd]. destruct (decide (key = "resources")) as [->|Hne].
    + destruct (merge_field_resources ov out l Hov Hout) as [H1 H2].
      destruct (IH _ Hnd H1) as [H3 H4]. split; [done|]. rewrite H4, decide_False by done.
      rewrite decide_True by apply list_elem_of_here. by apply H2.
    + assert (prop "resources" (Obj (merge_field ov out key)) = prop "resources" (Obj out)) as E
        by (by apply merge_field_other).
      destruct (IH (merge_field ov out key) Hnd) as [H3 H4]; [by rewrite E|]. split; [done|].
      rewrite H4. unfold resource. rewrite E.
      destruct (decide (("resources" : jstr) ∈ keys)) as [Hin|Hin].
      * by rewrite decide_True by (apply elem_of_cons; by right).
      * rewrite decide_False; [done|]. intros [?|?]%elem_of_cons; [by subst|done].
Qed.

(** ** Merging the layers *)

(** A layer's value of a resource, over what was there. *)
Definition layered_value (k : jstr) (acc policy : js) : js :=
  match resource k policy with
  | Undefined => acc
  | v => v
  end.

(** The last layer that declares the resource. *)
Definition last_value (k : jstr) (policies : list js) : js := fold_left (layered_value k) policies Undefined.

(** The resources of a policy, as a parser gives them. *)
Definition json_resources (policy : js) : Prop := json_object (spread (prop "resources" policy)).

Lemma policy_keys_NoDup platform resources devices secOpt ipc gpus :
  NoDup (own_keys (policy_of platform resources devices secOpt ipc gpus)).
Proof.
  destruct platform, resources, devices, secOpt, ipc, gpus; apply (bool_decide_unpack _); by vm_compute.
Qed.

Lemma resources_key platform resources devices secOpt ipc gpus :
  (("resources" : jstr) ∈ own_keys (policy_of platform resources devices secOpt ipc gpus)) <-> is_Some resources.
Proof.
  rewrite <- one_of_elem. destruct platform, resources, devices, secOpt, ipc, gpus; split; try done;
    by intros [? ?].
Qed.

Lemma mergePolicy_resource base platform resources devices secOpt ipc gpus k :
  let p := policy_of platform resources devices secOpt ipc gpus in
  is_plain base = true -> resources_object (prop "resources" base) ->
  resources = None \/ (exists l, resources = Some (Obj l) /\ json_object l) -> k <> "ulimits" ->
  is_plain (mergePolicy base p) = true /\
  resources_object (prop "resources" (mergePolicy base p)) /\
  resource k (mergePolicy base p) = layered_value k (resource k base) p.
Proof.
  intros p Hb Hbase Hres Hk. split; [done|].
  destruct base as [| | | | | | |out]; try done. change (mergePolicy (Obj out) p) with
    (Obj (fold_left (merge_field p) (own_keys p) out)).
  assert (prop "resources" p = default Undefined resources) as Hp by apply policy_parts.
  pose proof (policy_keys_NoDup platform resources devices secOpt ipc gpus) as Hnd.
  pose proof (resources_key platform resources devices secOpt ipc gpus) as Hkey. fold p in Hnd, Hkey.
  destruct Hres as [->|(l & -> & Hl)].
  - clear Hb. assert (prop "resources" (Obj (fold_left (merge_field p) (own_keys p) out)) = prop "resources" (Obj out)) as E.
    { clear Hnd Hbase. assert (("resources" : jstr) ∉ own_keys p) as Hn by (intros [? ?]%Hkey; done).
      revert out Hn. induction (own_keys p) as [|key keys IH]; intros out Hn; [done|].
      apply not_elem_of_cons in Hn as [? ?]. cbn [fold_left]. rewrite IH by done. by apply merge_field_other. }
    unfold layered_value, resource. rewrite E, Hp. done.
  - destruct (merge_fields_resource p l (own_keys p) out k Hp Hl Hk Hnd Hbase) as [H1 H2]. split; [done|].
    rewrite H2, decide_True by (apply Hkey; eauto). unfold layered_value, resource. by rewrite Hp.
Qed.

(** A layer of the merge: [null], or a policy with JSON resources. *)
Definition layer_ok (layer : option js) : Prop :=
  match layer with
  | None => True
  | Some p =>
      exists platform resources devices secOpt ipc gpus,
        p = policy_of platform resources devices secOpt ipc gpus /\
        (resources = None \/ exists l, resources = Some (Obj l) /\ json_object l)
  end.

Lemma merge_layers_resource layers base k : Forall layer_ok layers -> k <> "ulimits" ->
  is_plain base = true -> resources_object (prop "resources" base) ->
  resource k (fold_left merge_layer layers base) =
  fold_left (layered_value k) (default Null <$> layers) (resource k base).
Proof.
  intros HL Hk. revert base. induction HL as [|layer layers Ha _ IH]; intros base Hb Hr; [done|].
  cbn [fold_left fmap list_fmap]. destruct layer as [p|]; [|by apply IH].
  destruct Ha as (platform & resources & devices & secOpt & ipc & gpus & -> & Hres).
  destruct (mergePolicy_resource base platform resources devices secOpt ipc gpus k Hb Hr Hres Hk) as (H1 & H2 & H3).
  cbn [merge_layer default]. rewrite IH by done. by rewrite H3.
Qed.

Lemma layer_of_source o p layer : json_resources p -> validatePolicyShape (js_or p Null) o = Ok layer ->
  layer_ok layer /\ forall k, resource k (default Null layer) = resource k p.
Proof.
  intros Hj H. destruct layer as [q|].
  - destruct (validatePolicyShape_Ok _ _ _ H) as (platform & resources & devices & secOpt & ipc & gpus & -> & _ & Hp & Hr).
    assert (prop "resources" p = default Undefined resources) as Hpr.
    { rewrite <- Hp. unfold js_or. destruct (js_truthy p) eqn:Ht; [done|].
      by destruct p as [| | [] |[| |[]|]| | | |]. }
    split.
    + exists platform, resources, devices, secOpt, ipc, gpus. split; [done|].
      destruct Hr as [->|(r & -> & Hpl)]; [by left|right]. destruct r as [| | | | | | |l]; try done.
      exists l. split; [done|]. unfold json_resources in Hj. by rewrite Hpr in Hj.
    + intros k. unfold resource. rewrite Hpr.
      destruct (policy_parts platform resources devices secOpt ipc gpus) as (_ & Er & _).
      change (default Null (Some ?q)) with q. by rewrite Er.
  - split; [done|]. intros k. unfold js_or in H. destruct (js_truthy p) eqn:Ht.
    + destruct p; try done; simpl in H; unbind_policy; done.
    + by destruct p as [| | [] |[| |[]|]| | | |].
Qed.

Lemma effective_resource s o p k : buildEffectivePolicy s o = Ok p ->
  Forall json_resources (source_layers s) -> k <> "ulimits" ->
  resource k p = last_value k (source_layers s).
Proof.
  intros (layers & Hl & (effective & He & [= <-])%result_bind_Ok)%result_bind_Ok Hj Hk.
  apply (mapM_result_Forall _ (fun p layer => json_resources p ->
    layer_ok layer /\ forall k, resource k (default Null layer) = resource k p)) in Hl;
    [|intros a b Hab Ha; by apply (layer_of_source o)].
  assert (Forall layer_ok layers /\ forall acc,
    fold_left (layered_value k) (default Null <$> layers) acc = fold_left (layered_value k) (source_layers s) acc) as [HL Hf].
  { clear He. induction Hl as [|a b l layers Hab _ IH]; [done|]. apply Forall_cons in Hj as [Ha Hj].
    destruct (Hab Ha) as [H1 H2], (IH Hj) as [H3 H4]. split; [by constructor|]. intros acc. cbn [fold_left fmap list_fmap].
    rewrite H4. f_equal. unfold layered_value. by rewrite H2. }
  set (merged := fold_left merge_layer (Some policyDefaults :: layers) (Obj [])) in *.
  assert (resource k merged = last_value k (source_layers s)) as Hm.
  { unfold merged. cbn [fold_left]. rewrite merge_layers_resource; [|done|done|done|by left].
    rewrite Hf. done. }
  rewrite <- Hm. destruct effective as [q|].
  - destruct (validatePolicyShape_Ok _ _ _ He) as (platform & resources & devices & secOpt & ipc & gpus & -> & _ & Hp & _).
    unfold resource. rewrite Hp. change (default (Obj []) (Some ?q)) with q.
    destruct (policy_parts platform resources devices secOpt ipc gpus) as (_ & Er & _). by rewrite Er.
  - assert (is_plain merged = true) as Hpl.
    { clear -HL. unfold merged. cbn [fold_left]. change (is_plain (fold_left merge_layer layers (Obj [("ipc" : jstr, Str "default")])) = true).
      revert HL. generalize ([("ipc" : jstr, Str "default")]) as base. induction layers as [|[q|] layers IH]; intros base HL;
        apply Forall_cons in HL as [_ HL] || done; cbn [fold_left merge_layer]; [|by apply IH].
      unfold mergePolicy. destruct (negb (js_truthy q)); by apply IH. }
    destruct merged; try done; simpl in He; unbind_policy; done.
Qed.

(** ** Requests *)

Lemma optional_prop k v : optional k v = prop k v.
Proof. by destruct v. Qed.

(** A limit of a valid policy: absent, or a value with a text. *)
Definition limit_text (v : js) : Prop := v = Undefined \/ exists t, to_string v = Ok t /\ js_truthy v = true.

Lemma limit_text_truthy v s : to_string v = Ok s -> js_truthy v = true \/ one_of s ["undefined"; "null"; "false"; "0"; "NaN"; []] = true.
Proof. destruct v as [| |[]|[| |[]|]|?|[]|?|?]; try (by left); simpl; intros [= <-]; by right. Qed.

Lemma memory_text v : absent_or memory_value v -> limit_text v.
Proof.
  intros [->|(s & z & Hs & Hz & Hr)]; [by left|right]. exists s. split; [done|].
  destruct (limit_text_truthy v s Hs) as [?|Hf]; [done|]. apply one_of_elem in Hf.
  repeat (apply elem_of_cons in Hf as [->|Hf]; [vm_compute in Hz; try done; injection Hz as <-; lia|]).
  by apply not_elem_of_nil in Hf.
Qed.

Lemma cpus_text v : absent_or cpus_value v -> limit_text v.
Proof.
  intros [->|(s & w & f & Hs & Hz & Hr)]; [by left|right]. exists s. split; [done|].
  destruct (limit_text_truthy v s Hs) as [?|Hf]; [done|]. apply one_of_elem in Hf.
  repeat (apply elem_of_cons in Hf as [->|Hf];
    [vm_compute in Hz; try done; injection Hz as <- <-; vm_compute in Hr; by destruct Hr|]).
  by apply not_elem_of_nil in Hf.
Qed.

Lemma pids_text v : absent_or pids_value v -> limit_text v.
Proof.
  intros [->|(z & -> & Hz)]; [by left|right]. exists (string_of_Z z). split; [done|]. destruct z; [lia|done|done].
Qed.

Lemma resources_limit_text r field : resources_valid r -> field ∈ HARDWARE_RESOURCE_FIELDS -> limit_text (prop field r).
Proof.
  intros V Hf. unfold HARDWARE_RESOURCE_FIELDS in Hf.
  repeat (apply elem_of_cons in Hf as [->|Hf]; [destruct V; auto using memory_text, cpus_text, pids_text|]).
  by apply not_elem_of_nil in Hf.
Qed.

Lemma source_limit_text o p layer field : validatePolicyShape (js_or p Null) o = Ok layer ->
  field ∈ HARDWARE_RESOURCE_FIELDS -> limit_text (resource field p).
Proof.
  intros H Hf. unfold js_or in H. destruct (js_truthy p) eqn:Ht.
  - destruct layer as [q|]; [|destruct p; try done; simpl in H; unbind_policy; done].
    destruct (validatePolicyShape_Ok _ _ _ H) as (platform & resources & devices & secOpt & ipc & gpus & -> & V & Hp & _).
    unfold resource. rewrite Hp. destruct resources as [r|]; [|by left].
    apply resources_limit_text; [|done]. by apply (sv_resources _ _ _ _ _ _ V).
  - left. by destruct p as [| | [] |[| |[]|]| | | |].
Qed.

Lemma resourceValue_text field p : limit_text (resource field p) ->
  exists o, resourceValue p field = Ok o /\
    match o with
    | None => resource field p = Undefined
    | Some t => to_string (resource field p) = Ok t /\ resource field p <> Undefined
    end.
Proof.
  unfold resourceValue. rewrite !optional_prop. change (prop field (prop "resources" p)) with (resource field p).
  intros [->|(t & Ht & Hb)]; [by exists None|]. exists (Some t).
  split; [|split; [done|by intros E; rewrite E in Hb]].
  transitivity (s ← to_string (resource field p); Ok (Some s)); [|by rewrite Ht].
  by destruct (resource field p) as [| | |[| |[]|]|?|[]| |].
Qed.

(** The requests of a list of layers: the last declared value and its layer. *)
Lemma last_declared_value field layers entry acc :
  Forall (fun l => limit_text (resource field l.2)) layers ->
  match entry with
  | None => acc = Undefined
  | Some e => rqf_field e = field /\ to_string acc = Ok (rqf_value e) /\ acc <> Undefined
  end ->
  exists e, last_declared field entry layers = Ok e /\
    match e with
    | None => fold_left (layered_value field) layers.*2 acc = Undefined
    | Some e => rqf_field e = field /\ to_string (fold_left (layered_value field) layers.*2 acc) = Ok (rqf_value e) /\
        fold_left (layered_value field) layers.*2 acc <> Undefined
    end.
Proof.
  intros HL. revert entry acc. induction HL as [|[source p] layers Hp _ IH]; intros entry acc He; [by exists entry|].
  cbn [last_declared fmap list_fmap fold_left snd]. destruct (resourceValue_text field p Hp) as (o & -> & Ho).
  cbn [mbind result_bind]. apply IH. unfold layered_value. destruct o as [t|].
  - destruct Ho as [Ht Hn]. destruct (resource field p); try done.
  - by rewrite Ho.
Qed.

Definition limit_flag (field : jstr) : jstr :=
  if jeqb field "memory" then "--memory" else if jeqb field "cpus" then "--cpus" else "--pids-limit".

(** Some entry of the field asks for the value. *)
Definition requests (l : list request) (field value : jstr) : Prop :=
  exists source, Request field value source ∈ l.

Lemma requested_entries entries :
  Forall2 (fun field e => forall r, e = Some r -> rqf_field r = field) HARDWARE_RESOURCE_FIELDS entries ->
  forall field r, rqf_field r = field ->
  r ∈ concat (option_list <$> entries) <-> exists i, HARDWARE_RESOURCE_FIELDS !! i = Some field /\ entries !! i = Some (Some r).
Proof.
  generalize HARDWARE_RESOURCE_FIELDS as fields. intros fields H field r Hr.
  induction H as [|f e fields entries He _ IH]; simpl.
  - split; [intros []%not_elem_of_nil|]. by intros (i & ? & ?).
  - rewrite elem_of_app, IH. split.
    + intros [Hin|(i & ? & ?)]; [|by exists (S i)]. exists 0. simpl. destruct e as [e|]; [|by apply not_elem_of_nil in Hin].
      apply list_elem_of_singleton in Hin as ->. by rewrite <- (He _ eq_refl), Hr.
    + intros ([|i] & Hi & Hj); simpl in *; [left|by right; exists i]. injection Hj as ->. apply list_elem_of_here.
Qed.

(** The request of one field is what the effective policy holds of it. *)
Lemma field_requested s o p field : buildEffectivePolicy s o = Ok p ->
  Forall json_resources (source_layers s) -> field ∈ HARDWARE_RESOURCE_FIELDS ->
  exists e, last_declared field None (named_layers s) = Ok e /\
    match e with
    | None => resource field p = Undefined
    | Some e => rqf_field e = field /\ to_string (resource field p) = Ok (rqf_value e) /\ limit_text (resource field p) /\
        resource field p <> Undefined
    end.
Proof.
  intros Hp Hj Hf. pose proof (effective_resource s o p field Hp Hj) as Hr.
  assert (limit_text (resource field p)) as Ht.
  { apply buildEffectivePolicy_Ok in Hp as (platform & resources & devices & secOpt & ipc & gpus & -> & V).
    unfold resource. destruct (policy_parts platform resources devices secOpt ipc gpus) as (_ & -> & _).
    destruct resources as [r|]; [|by left]. apply resources_limit_text; [|done]. by apply (sv_resources _ _ _ _ _ _ V). }
  apply result_bind_Ok in Hp as (layers & Hl & _).
  apply (mapM_result_Forall _ (fun p _ => limit_text (resource field p))) in Hl;
    [|intros a b Hab; by apply (source_limit_text o a b)].
  destruct (last_declared_value field (named_layers s) None Undefined) as (e & -> & He); [|done|].
  { assert (Forall (fun p => limit_text (resource field p)) (source_layers s)) as HF
      by (clear -Hl; induction Hl; by constructor).
    change (source_layers s) with ((named_layers s).*2) in HF. by rewrite Forall_fmap in HF. }
  exists e. split; [done|]. change (named_layers s).*2 with (source_layers s) in He.
  assert (resource field p = last_value field (source_layers s)) as E.
  { apply Hr. intros ->. by apply one_of_elem in Hf. }
  unfold last_value in E. rewrite <- E in He. destruct e as [e|]; [|done]. naive_solver.
Qed.

Lemma limit_rendered flag v value : limit_text v ->
  option_text flag v = Ok [Str flag; Str value] <-> v <> Undefined /\ to_string v = Ok value.
Proof.
  unfold option_text. intros [->|(t & Ht & Hv)]; simpl; [naive_solver|]. rewrite Hv, Ht. simpl.
  split; [intros [= <-]|intros [_ [= ->]]; done]. split; [by intros ->|done].
Qed.

Lemma app_middle {A} (a b c d e : list A) : a ++ b ++ c ++ d ++ e = (a ++ b ++ c) ++ d ++ e.
Proof. by rewrite <- !app_assoc. Qed.

(** The arguments of a limit are among those of the policy. *)
Lemma limit_in_args s o p runtime args field t : buildEffectivePolicy s o = Ok p -> emitRunArgs p runtime = Ok args ->
  field ∈ HARDWARE_RESOURCE_FIELDS -> option_text (limit_flag field) (resource field p) = Ok t ->
  exists before after, args = before ++ t ++ after.
Proof.
  intros (platform & resources & devices & secOpt & ipc & gpus & -> & V)%buildEffectivePolicy_Ok Ha Hf Ht.
  assert (forall k, prop k (js_or (prop "resources" (policy_of platform resources devices secOpt ipc gpus)) (Obj [])) =
    resource k (policy_of platform resources devices secOpt ipc gpus)) as E.
  { intros k. unfold resource. destruct (policy_parts platform resources devices secOpt ipc gpus) as (_ & -> & _).
    destruct resources as [r|]; [|done]. destruct (sv_resources _ _ _ _ _ _ V r eq_refl) as [Hr _ _ _ _ _].
    by destruct r. }
  assert (js_truthy (policy_of platform resources devices secOpt ipc gpus) = true) as Htr by done.
  revert Ha Ht E Htr. clear V. generalize (policy_of platform resources devices secOpt ipc gpus) as q.
  intros q Ha Ht E Htr. unfold emitRunArgs in Ha. rewrite Htr in Ha. cbn [negb] in Ha. rewrite !E in Ha.
  apply result_bind_Ok in Ha as (u & _ & Ha). apply result_bind_Ok in Ha as (memory & Hm & Ha).
  apply result_bind_Ok in Ha as (cpus & Hc & Ha). apply result_bind_Ok in Ha as (pids & Hp & Ha).
  apply result_bind_Ok in Ha as (shm & _ & Ha). apply result_bind_Ok in Ha as (ulimit & _ & Ha).
  injection Ha as <-. unfold HARDWARE_RESOURCE_FIELDS in Hf.
  apply elem_of_cons in Hf as [->|Hf]; [|apply elem_of_cons in Hf as [->|Hf]; [|apply list_elem_of_singleton in Hf as ->]].
  - change (limit_flag "memory") with ("--memory" : jstr) in Ht. rewrite Hm in Ht. injection Ht as <-.
    eexists. eexists. done.
  - change (limit_flag "cpus") with ("--cpus" : jstr) in Ht. rewrite Hc in Ht. injection Ht as <-.
    eexists _, _. apply app_assoc.
  - change (limit_flag "pidsLimit") with ("--pids-limit" : jstr) in Ht. rewrite Hp in Ht. injection Ht as <-.
    eexists _, _. apply app_middle.
Qed.

Lemma last_declared_field s field e r :
  last_declared field None (named_layers s) = Ok e -> e = Some r -> rqf_field r = field.
Proof.
  assert (forall layers entry, (forall r, entry = Some r -> rqf_field r = field) ->
    forall e, last_declared field entry layers = Ok e -> forall r, e = Some r -> rqf_field r = field) as H;
    [|intros He Hr; refine (H (named_layers s) None _ e He r Hr); done].
  induction layers as [|[source p] layers IH]; intros entry Hentry e'; cbn [last_declared]; [by intros [= <-]|].
  intros (v & _ & H)%result_bind_Ok. eapply IH; [|exact H]. destruct v; [by intros ? [= <-]|done].
Qed.

Lemma entry_requests s entries field value v e :
  Forall2 (fun field e => last_declared field None (named_layers s) = Ok e) HARDWARE_RESOURCE_FIELDS entries ->
  (forall field e r, last_declared field None (named_layers s) = Ok e -> e = Some r -> rqf_field r = field) ->
  field ∈ HARDWARE_RESOURCE_FIELDS -> last_declared field None (named_layers s) = Ok e ->
  match e with
  | None => v = Undefined
  | Some e => rqf_field e = field /\ to_string v = Ok (rqf_value e) /\ limit_text v /\ v <> Undefined
  end ->
  requests (concat (option_list <$> entries)) field value <-> v <> Undefined /\ to_string v = Ok value.
Proof.
  intros HF Hfield Hf He Hv.
  assert (Forall2 (fun field e => forall r, e = Some r -> rqf_field r = field) HARDWARE_RESOURCE_FIELDS entries) as HR
    by (eapply Forall2_impl; [exact HF|]; intros f x Hx r Hr; by apply (Hfield f x)).
  split.
  - intros (source & (i & Hi & Hj)%(requested_entries entries HR field)); [|done].
    pose proof (Forall2_lookup_lr _ _ _ _ _ _ HF Hi Hj) as E. cbv beta in E. rewrite He in E. injection E as ->. simpl in Hv. tauto.
  - intros [Hn Hs]. destruct e as [[f t source]|]; [|done]. simpl in Hv. destruct Hv as (-> & Ht & _). exists source.
    apply (requested_entries entries HR field); [done|]. apply list_elem_of_lookup in Hf as (i & Hi).
    destruct (Forall2_lookup_l _ _ _ _ _ HF Hi) as (x & Hj & E). exists i. split; [done|]. cbv beta in E. rewrite He in E.
    injection E as <-. rewrite Hj. do 3 f_equal. congruence.
Qed.

(** C7. The hardware request is what is rendered.  From the policies of the
    layers as a parser gives them, the request of an effective policy exists;
    a field of it asks for a value exactly when the effective policy renders
    that field's flag with that value, so the admission decides on the values
    the container runs with; and the flag with its value is in the arguments.
    In particular the last layer that declares a field decides both. *)
Theorem requests_are_rendered s o p : buildEffectivePolicy s o = Ok p ->
  Forall json_resources (source_layers s) ->
  exists l, requestedHardwareLimits s = Ok l /\
    (forall field value, field ∈ HARDWARE_RESOURCE_FIELDS ->
      requests l field value <->
      option_text (limit_flag field) (resource field p) = Ok [Str (limit_flag field); Str value]) /\
    (forall field, field ∈ HARDWARE_RESOURCE_FIELDS -> resource field p = last_value field (source_layers s)) /\
    (forall runtime args field value, emitRunArgs p runtime = Ok args -> field ∈ HARDWARE_RESOURCE_FIELDS ->
      requests l field value -> exists before after, args = before ++ [Str (limit_flag field); Str value] ++ after).
Proof.
  intros Hp Hj.
  assert (exists entries, mapM_result (fun field => last_declared field None (named_layers s)) HARDWARE_RESOURCE_FIELDS = Ok entries /\
    Forall2 (fun field e => last_declared field None (named_layers s) = Ok e) HARDWARE_RESOURCE_FIELDS entries)
    as (entries & He & HF).
  { assert (forall fields, (forall f, f ∈ fields -> f ∈ HARDWARE_RESOURCE_FIELDS) -> exists entries,
      mapM_result (fun field => last_declared field None (named_layers s)) fields = Ok entries /\
      Forall2 (fun field e => last_declared field None (named_layers s) = Ok e) fields entries) as H.
    { induction fields as [|f fields IH]; intros Hin; [by exists []|].
      destruct (field_requested s o p f Hp Hj) as (e & He & _); [apply Hin, list_elem_of_here|].
      destruct IH as (entries & HE & HF); [intros g Hg; apply Hin; by apply elem_of_cons; right|].
      exists (e :: entries). cbn [mapM_result]. rewrite He. cbn [mbind result_bind]. rewrite HE. by split; [|constructor]. }
    by apply H. }
  exists (concat (option_list <$> entries)). unfold requestedHardwareLimits. rewrite He.
  assert (forall field value, field ∈ HARDWARE_RESOURCE_FIELDS ->
      requests (concat (option_list <$> entries)) field value <->
      option_text (limit_flag field) (resource field p) = Ok [Str (limit_flag field); Str value]) as Hreq.
  { intros field value Hf. destruct (field_requested s o p field Hp Hj Hf) as (e & Hl & Hv).
    assert (limit_text (resource field p)) as Ht by (destruct e; [tauto|by left]). rewrite (limit_rendered _ _ _ Ht).
    apply (entry_requests s entries field value (resource field p) e); try done. apply last_declared_field. }
  split; [done|]. split; [done|]. split.
  - intros field Hf. apply (effective_resource s o p field Hp Hj). intros ->. by apply one_of_elem in Hf.
  - intros runtime args field value Ha Hf Hr%Hreq; [|done]. by eapply limit_in_args.
Qed.

Lemma sample_sources_json : Forall json_resources (source_layers sample_sources).
Proof.
  repeat constructor; try done; try (by apply (bool_decide_unpack _); vm_compute).
Qed.

Definition sample_requests : list request :=
  [Request "memory" "512m" "profile"; Request "cpus" "0.25" "settings"; Request "pidsLimit" "512" "manifest"].

Lemma requests_are_rendered_witness :
  requestedHardwareLimits sample_sources = Ok sample_requests /\
  exists p l, buildEffectivePolicy sample_sources sample_options = Ok p /\
    requestedHardwareLimits sample_sources = Ok l /\
    (forall field value, field ∈ HARDWARE_RESOURCE_FIELDS -> requests l field value ->
      option_text (limit_flag field) (resource field p) = Ok [Str (limit_flag field); Str value]).
Proof.
  split; [by vm_compute|].
  assert (exists p, buildEffectivePolicy sample_sources sample_options = Ok p) as (p & Hp) by (vm_compute; by eexists).
  destruct (requests_are_rendered _ _ p Hp sample_sources_json) as (l & Hl & H & _).
  exists p, l. split; [exact Hp|]. split; [exact Hl|]. intros field value Hf Hr. exact (proj1 (H field value Hf) Hr).
Defined.
