(* ===== verification/HardwareAdmissionTheorems.v ===== *)
(** When an agent is admitted under hardware limits, and what a stored limit
    resolves to. *)

From stdpp Require Import prelude.
From Stdlib Require Import NArith Floats.SpecFloat.
From S2P Require Import Prelude.
From S2P Require Import JsString.
From S2P Require Import JsNumber.
From S2P Require Import JsDouble.
From S2P Require Import DoubleExact.
From S2P Require Import JsMap.
From S2P Require Import JsValue.
From S2P Require Import NetworkContract.
From S2P Require Import CpuQuota.
From S2P Require Import RuntimePolicy.
From S2P Require Import DeclaredLimits.
From S2P Require Import LimitResolution.
From S2P Require Import HardwareOutcome.
From S2P Require Import HardwareAdmission.

Local Open Scope js_scope.

(** ** Eligibility *)

(** A declared cpus value that the Box can give: a decimal with at most two
    places, within the envelope, which is known. *)
Definition cpus_within (c : hw_context) (e : request) : Prop :=
  exists hundredths canonical total,
    declared_admission e = Accepted hundredths canonical /\
    envelope_cpus (hc_envelope c) = Some total /\ double_gt (cpus_number canonical) total = false.

Definition declared_cpus (e : request) : Prop := rqf_field e = "cpus" /\ rqf_source e <> "settings".

(** A container whose request this Box enforces. *)
Record request_enforced (d : descriptor) (c : hw_context) : Prop := RequestEnforced {
  re_gate : hc_gate c = "on";
  re_network : d_hostNetwork d && d_nestedPodman d = false;
  re_prepared : hc_prepared c = true;
  re_backend : hc_backendReady c = true;
  re_controllers : forall e controller, e ∈ d_hardwareRequest d ->
    CONTROLLER_BY_FIELD (rqf_field e) = Some controller -> controller ∈ hc_controllers c;
  re_cpus : forall e, e ∈ d_hardwareRequest d -> declared_cpus e -> cpus_within c e
}.

(** What an eligible agent satisfies. *)
Record admissible (d : descriptor) (c : hw_context) (problem : option override_problem) : Prop := Admissible {
  ad_conflicts : d_conflicts d = [];
  ad_sandbox : hc_runtimeKind c <> "container" -> d_hardwareRequest d = [];
  ad_store : hc_runtimeKind c = "container" -> hc_storeState c <> "unreadable" /\ problem = None;
  ad_request : hc_runtimeKind c = "container" -> d_hardwareRequest d <> [] -> request_enforced d c
}.

Lemma forall_cons {A} (P : A -> Prop) x l : (forall y, y ∈ x :: l -> P y) <-> P x /\ forall y, y ∈ l -> P y.
Proof.
  split; [intros H; split; [|intros y Hy]; apply H, elem_of_cons; auto|].
  intros [Hx Hl] y [->|Hy]%elem_of_cons; auto.
Qed.

Lemma missing_controller_None requested c : missing_controller requested c = None <->
  forall e, e ∈ requested -> forall controller, CONTROLLER_BY_FIELD (rqf_field e) = Some controller ->
    controller ∈ hc_controllers c.
Proof.
  induction requested as [|r requested IH]; cbn [missing_controller].
  - split; [intros _ e []%not_elem_of_nil|done].
  - rewrite forall_cons, <- IH. destruct (CONTROLLER_BY_FIELD (rqf_field r)) as [controller|]; [|naive_solver].
    destruct (one_of controller (hc_controllers c)) eqn:E.
    + apply one_of_elem in E. naive_solver.
    + split; [done|]. intros [H _]. specialize (H controller eq_refl). apply one_of_elem in H. congruence.
Qed.

Lemma refuse_cpus_None e c : refuse_cpus e c = None <-> cpus_within c e.
Proof.
  unfold refuse_cpus, cpus_within. destruct (declared_admission e) as [h canonical|]; [|by split; [|intros (?&?&?&?&_)]].
  destruct (envelope_cpus (hc_envelope c)) as [total|]; [|by split; [|intros (?&?&?&_&?&_)]].
  destruct (double_gt (cpus_number canonical) total) eqn:E; split; try done.
  - intros (? & ? & ? & [= <- <-] & [= <-] & ?). congruence.
  - intros _. by exists h, canonical, total.
Qed.

Lemma declared_cpus_bool e : declared_cpus e <-> negb (jeqb (rqf_field e) "cpus") || jeqb (rqf_source e) "settings" = false.
Proof.
  unfold declared_cpus. rewrite orb_false_iff, negb_false_iff, jeqb_eq, <- not_true_iff_false, jeqb_eq. done.
Qed.

Lemma cpuAdmissionRefusal_None requested c : cpuAdmissionRefusal requested c = None <->
  forall e, e ∈ requested -> declared_cpus e -> cpus_within c e.
Proof.
  induction requested as [|r requested IH]; cbn [cpuAdmissionRefusal].
  - split; [intros _ e []%not_elem_of_nil|done].
  - rewrite forall_cons, <- IH, declared_cpus_bool. destruct (_ || _); [naive_solver|].
    rewrite <- refuse_cpus_None. destruct (refuse_cpus r c); naive_solver.
Qed.

Lemma refuse_request_None d c : refuse_request d c = None <-> request_enforced d c.
Proof.
  unfold refuse_request. split.
  - destruct (jeqb (hc_gate c) "on") eqn:Hg; [|done]. apply jeqb_eq in Hg. cbn [negb].
    destruct (d_hostNetwork d && d_nestedPodman d) eqn:Hn; [done|].
    destruct (hc_prepared c) eqn:Hp; [|done]. destruct (hc_backendReady c) eqn:Hb; [|done]. cbn [negb orb].
    destruct (missing_controller (d_hardwareRequest d) c) eqn:Hm; [done|]. intros Hc.
    rewrite missing_controller_None in Hm. rewrite cpuAdmissionRefusal_None in Hc. constructor; eauto.
  - intros [Hg Hn Hp Hb Hm Hc]. rewrite Hg, jeqb_refl, Hn, Hp, Hb. cbn [negb orb].
    rewrite (proj2 (missing_controller_None _ _)); [by apply cpuAdmissionRefusal_None|]. intros e He k. by apply Hm.
Qed.

Lemma hasHardwareRequest_false l : hasHardwareRequest l = false <-> l = [].
Proof. by destruct l. Qed.

Lemma decide_refusal_None d c problem : decide_refusal d c problem = None <-> admissible d c problem.
Proof.
  unfold decide_refusal. destruct (d_conflicts d) as [|x l] eqn:Ec; [|split; [done|]; intros [H]; congruence].
  destruct (jeqb (hc_runtimeKind c) "container") eqn:Hk; cbn [negb].
  - apply jeqb_eq in Hk. destruct (jeqb (hc_storeState c) "unreadable") eqn:Hs.
    + apply jeqb_eq in Hs. split; [done|]. intros [_ _ H _]. by destruct (H Hk).
    + assert (hc_storeState c <> "unreadable") as Hst by (intros E; by rewrite E, jeqb_refl in Hs).
      destruct problem as [p|]; [split; [done|]; intros [_ _ H _]; by destruct (H Hk)|].
      destruct (hasHardwareRequest (d_hardwareRequest d)) eqn:Hr.
      * rewrite fmap_None, refuse_request_None. split; [intros H; by constructor|]. intros [_ _ _ H]. apply H; [done|].
        intros E. by rewrite E in Hr.
      * apply hasHardwareRequest_false in Hr. split; [|done]. intros _. by constructor.
  - assert (hc_runtimeKind c <> "container") as Hn by (intros E; by rewrite E, jeqb_refl in Hk).
    destruct (hasHardwareRequest (d_hardwareRequest d)) eqn:Hr.
    + split; [done|]. intros [_ H _ _]. by rewrite (H Hn) in Hr.
    + apply hasHardwareRequest_false in Hr. split; [|done]. intros _. by constructor.
Qed.

(** C6. Admission is exact.  Helpers, and containers outside a Box that
    declare no conflict, are outside the hardware boundary; every other agent
    is eligible exactly when its declarations do not conflict, a lite sandbox
    is asked for nothing, the policy store of a container is readable and its
    stored entry resolves, and a container's request finds the gate on, a
    prepared Box with a ready backend, every controller it needs delegated, no
    host network with nested containers, and every declared cpus value a
    two-place decimal within the known envelope.  An agent that is not
    eligible is refused: no request is dropped. *)
Theorem admission_exact `{Sha256} d c helper problem :
  (evaluateHardwareEligibility d c helper problem = NotApplicable <->
   helper = true \/ (hc_runtimeKind c = "container" /\ hc_insideBox c = false /\ d_conflicts d = [])) /\
  (evaluateHardwareEligibility d c helper problem <> NotApplicable ->
   ((exists fp, evaluateHardwareEligibility d c helper problem = Eligible fp) <-> admissible d c problem) /\
   ((exists parts fp, evaluateHardwareEligibility d c helper problem = RefusedWith parts fp) <-> ~ admissible d c problem)).
Proof.
  rewrite <- decide_refusal_None. unfold evaluateHardwareEligibility. destruct helper; [naive_solver|].
  destruct (jeqb (hc_runtimeKind c) "container" && _ && _) eqn:E.
  - rewrite !andb_true_iff, jeqb_eq, negb_true_iff in E. destruct E as [[? ?] ?].
    split; [|done]. split; [|done]. intros _. right. by destruct (d_conflicts d).
  - destruct (decide_refusal d c problem) as [[r extra]|]; (split; [split; [done|]|naive_solver]);
      intros [?|(Hk & Hi & Hc)]; try done; by rewrite Hk, Hi, Hc, jeqb_refl in E.
Qed.

(** A Box with two CPUs that is ready, and an agent that asks for half of one. *)
Definition sample_context : hw_context :=
  HwContext true "container" "on" true true ["cpu"; "memory"; "pids"] "linux" [] [] [] "valid" [] [] Null
    (Some (Envelope (4 * 1024 * MIB) (double_ratio 2 1) FromMeminfo FromParallelism)).

Definition sample_descriptor : descriptor :=
  Descriptor "repo/agent" "default" [Request "memory" "1g" "manifest"; Request "cpus" "0.5" "profile"] [] false false Undefined.

#[local] Instance text_digest : Sha256 := fun s => s.

Lemma admission_exact_witness :
  (exists fp, evaluateHardwareEligibility sample_descriptor sample_context false None = Eligible fp) /\
  admissible sample_descriptor sample_context None.
Proof.
  assert (exists fp, evaluateHardwareEligibility sample_descriptor sample_context false None = Eligible fp) as H
    by (vm_compute; by eexists).
  split; [exact H|]. refine (proj1 (proj1 (proj2 (admission_exact sample_descriptor sample_context false None) _)) H).
  destruct H as [fp ->]. discriminate.
Defined.

(** ** Stored limits *)

Lemma limit_js_Ok {A} (r : result js_error A) a : limit_js r = Ok a -> r = Ok a.
Proof. destruct r; [|done]. by intros [= ->]. Qed.







(** The double computation of a share is the exact one. *)
Lemma memory_share percent total : (1 <= percent <= 100)%Z -> (0 < total)%Z -> (percent * total < 2 ^ 53)%Z ->
  floor_int (double_div (percent_of percent total) (double_ratio MIB 1)) = (percent * total / (100 * MIB))%Z.
Proof.
  intros Hp Ht Hmax. unfold floor_int, percent_of. change (double_ratio MIB 1) with (double_ratio (1024 * 1024) 1).
  by rewrite percent_exact by lia.
Qed.

Lemma memory_share_bounds percent total :
  let bytes := (percent * total / (100 * MIB) * MIB)%Z in (100 * bytes <= percent * total < 100 * (bytes + MIB))%Z.
Proof.
  intros bytes. unfold bytes. pose proof (Z.div_mod (percent * total) (100 * MIB)).
  pose proof (Z.mod_pos_bound (percent * total) (100 * MIB)). unfold MIB in *. lia.
Qed.



#[local] Instance qualified_tools : MpsTools := {
  revalidateMpsTools _ := None;
  language_message _ := "error"
}.



(** ** Percentages *)

(** C20. A percentage of the memory is rounded down to whole MiB and nothing
    else, in double precision: for a percentage from 1 to 100 and a Box whose
    memory times the percentage is below [2 ^ 53] bytes (every Box up to 80
    TiB), the floating-point product, quotients and floor give the exact
    integer quotient, so the limit is at most that share of the memory and less
    than one MiB below it; a result under 64 MiB is refused, never raised. *)
Theorem memory_percent_exact percent total : (1 <= percent <= 100)%Z -> (0 < total)%Z -> (percent * total < 2 ^ 53)%Z ->
  let bytes := (percent * total / (100 * MIB) * MIB)%Z in
  (100 * bytes <= percent * total < 100 * (bytes + MIB))%Z /\
  ((MIN_MEMORY_BYTES <= bytes)%Z -> resolveMemoryPercent (Num (Fin percent)) (Some total) = Ok bytes) /\
  ((bytes < MIN_MEMORY_BYTES)%Z ->
     exists message, resolveMemoryPercent (Num (Fin percent)) (Some total) = Err (LimitProblem InvalidLimits message)).
Proof.
  intros Hp Ht Hmax bytes. split.
  { apply memory_share_bounds. }
  assert (percent_integer (Num (Fin percent)) = Some percent) as E1.
  { simpl. by rewrite (proj2 (Z.leb_le 1 percent)), (proj2 (Z.leb_le percent 100)) by lia. }
  assert (is_safe_integer (Fin total) = true) as E2 by (apply Z.leb_le; unfold max_safe_integer; nia).
  assert ((floor_int (double_div (percent_of percent total) (double_ratio MIB 1)) * MIB)%Z = bytes) as E3
    by (by rewrite memory_share by lia).
  unfold resolveMemoryPercent. rewrite E1, E2, (proj2 (Z.leb_gt total 0)), E3 by lia. cbn [negb orb].
  destruct (Z.ltb_spec bytes MIN_MEMORY_BYTES); split; try lia; eauto.
Qed.

Lemma memory_percent_exact_witness :
  resolveMemoryPercent (Num (Fin 33)) (Some 33567911936%Z) = Ok 11077156864%Z /\
  resolveMemoryPercent (Num (Fin 33)) (Some 33567911936%Z) = Ok (33 * 33567911936 / (100 * MIB) * MIB)%Z.
Proof.
  split; [by vm_compute|].
  refine (proj1 (proj2 (memory_percent_exact 33 33567911936 _ _ _)) _); [lia|lia|lia|by vm_compute].
Defined.

(** ** A refusal that cannot be built

    A conflict in every field of three layers, each with a long deprecated
    value: the values are cut at 64 code units each, the reason is not. *)
Definition long_value : js := Str (repeat 8364%N 80).

Definition conflicting_layer : list (jstr * js) :=
  [("hardwareLimits", Obj [("memory", Str "1g"); ("cpus", Str "1"); ("pidsLimit", Num (Fin 64))]);
   ("llmRuntime", Obj [("runtimePolicy", Obj [("resources",
      Obj [("memory", long_value); ("cpus", long_value); ("pidsLimit", long_value)])])])].

Definition conflicting_manifest : js :=
  Obj (conflicting_layer ++ [("profiles", Obj [("default", Obj conflicting_layer); ("qa", Obj conflicting_layer)])]).

Definition refusal_of_conflicts : result js_error (result outcome_error outcome) :=
  conflicts ← hardwareDeclarationConflicts conflicting_manifest Null (Str "qa");
  Ok (buildDirectRefusal "repo/agent" "repo/agent" None (RefusalParts (declarationConflictRefusal conflicts) [])
        (Str (repeat 97%N 64))).

Example conflict_reason_unbounded : refusal_of_conflicts = Ok (Err SchemaError).
Proof. by vm_compute. Qed.
