(* ===== verification/Availability.v ===== *)
(** Availability of instances over the dependency graph:
    [src/cli/sandbox/hardwareLimits/outcomes.mjs].  An instance whose own limits
    cannot be enforced is refused; one that waits for a refused instance,
    directly or through others, is blocked; the rest may start. *)

From stdpp Require Import prelude.
From Stdlib Require Import NArith.
From S2P Require Import Prelude.
From S2P Require Import JsString.
From S2P Require Import JsNumber.
From S2P Require Import JsMap.
From S2P Require Import JsValue.
From S2P Require Import JsJson.
From S2P Require Import HttpRoutePath.
From S2P Require Import HttpRouteCompiler.
From S2P Require Import NetworkContract.
From S2P Require Import DependencyGraph.
From S2P Require Import CanonicalHash.
From S2P Require Import HardwareOutcome.

Local Open Scope js_scope.

Inductive availability_error : Type :=
  | EdgeWithoutKeys
  | EdgeKindUnsupported
  | EdgeSourceUnsupported
  | NodeWithoutKey
  | DuplicateNode (key : jstr)
  | InvalidOutcome (e : outcome_error).

Notation availabilityR := (result availability_error).

(** ** Edges *)

Definition EDGE_KINDS : list jstr := ["blocking"; "explicit-status-wait"].
Definition EDGE_SOURCES : list jstr := ["manifest"; "scheduler"].

Record availability_edge : Type := AvailabilityEdge {
  fromKey : jstr;
  toKey : jstr;
  ae_kind : jstr;
  ae_source : jstr;
  cycleBackedge : bool
}.

Definition availabilityEdge (from to kind source : jstr) (backedge : bool) : availabilityR availability_edge :=
  if negb (truthy from) || negb (truthy to) then Err EdgeWithoutKeys
  else if negb (one_of kind EDGE_KINDS) then Err EdgeKindUnsupported
  else if negb (one_of source EDGE_SOURCES) then Err EdgeSourceUnsupported
  else Ok (AvailabilityEdge from to kind source backedge).

(** A wait of the scheduler, before its kind and source are set. *)
Record explicit_wait : Type := ExplicitWait {
  w_from : jstr;
  w_to : jstr;
  w_backedge : bool
}.

Section Edges.
Context `{Collation}.

Definition id_le (a b : jstr) : bool := (localeCompare a b <=? 0)%Z.

(** The edges of one kind that leave a node: those to children that are waited
    for and have a key. *)
Fixpoint edges_to (keyOf : jstr -> jstr) (from : jstr) (noWait : jstr -> bool) (backedge : bool)
    (children : list jstr) : availabilityR (list availability_edge) :=
  match children with
  | [] => Ok []
  | childId :: children =>
      if noWait childId || negb (truthy (keyOf childId)) then edges_to keyOf from noWait backedge children
      else
        e ← availabilityEdge from (keyOf childId) "blocking" "manifest" backedge;
        rest ← edges_to keyOf from noWait backedge children;
        Ok (e :: rest)
  end.

(** [edge?.noWait] *)
Definition edge_noWait (edges : jmap jstr bool) (childId : jstr) : bool := default false (map_get childId edges).

Definition node_edges (keyOf : jstr -> jstr) (n : jstr * node) : availabilityR (list availability_edge) :=
  let from := keyOf n.1 in
  if negb (truthy from) then Ok []
  else
    direct ← edges_to keyOf from (edge_noWait (n_dependencyEdges n.2)) false
               (stable_sort unit_le (n_dependencies n.2));
    back ← edges_to keyOf from (edge_noWait (n_cycleBackedges n.2)) true
               (stable_sort id_le (map_keys (n_cycleBackedges n.2)));
    Ok (direct ++ back).

Definition blockingEdgesFromGraph (g : graph) (keyOf : jstr -> jstr) (explicitWaits : list explicit_wait) :
    availabilityR (list availability_edge) :=
  manifest ← mapM_result (node_edges keyOf) (stable_sort (fun a b => id_le a.1 b.1) (nodes g));
  waits ← mapM_result (fun w =>
            availabilityEdge (w_from w) (w_to w) "explicit-status-wait" "scheduler" (w_backedge w)) explicitWaits;
  Ok (concat manifest ++ waits).
End Edges.

(** ** Searches *)

Section Search.
Context (roots : list jstr) (adjacency : jmap jstr (list jstr)).

Definition targets (key : jstr) : list jstr := default [] (map_get key adjacency).

(** [for (cursor = current; cursor !== null; cursor = previous.get(cursor)) path.unshift(cursor)] *)
Fixpoint walk_back (fuel : nat) (previous : jmap jstr (option jstr)) (cursor : jstr) (path : list jstr) : list jstr :=
  match fuel with
  | O => path
  | S fuel =>
      match map_get cursor previous with
      | Some (Some before) => walk_back fuel previous before (cursor :: path)
      | _ => cursor :: path
      end
  end.

(** One neighbour: recorded and queued unless it was met before. *)
Definition discover (current : jstr) (s : jmap jstr (option jstr) * list jstr) (next : jstr) :
    jmap jstr (option jstr) * list jstr :=
  if map_has next s.1 then s else (map_set next (Some current) s.1, s.2 ++ [next]).

(** The loop over the queue. *)
Fixpoint search (fuel : nat) (start : jstr) (previous : jmap jstr (option jstr)) (queue : list jstr) :
    option (list jstr) :=
  match fuel, queue with
  | S fuel, current :: queue =>
      if negb (jeqb current start) && one_of current roots then
        Some (walk_back (S (map_size previous)) previous current [])
      else
        let '(previous, queue) := fold_left (discover current) (targets current) (previous, queue) in
        search fuel start previous queue
  | _, _ => None
  end.

(** Every key the search can meet. *)
Definition universe (start : jstr) : list jstr := start :: concat (map_values adjacency).

Definition shortestPathToRoot (start : jstr) : option (list jstr) :=
  search (S (length (universe start))) start [(start, None)] [start].

(** The state of the second search: what was seen, the stack (its top first),
    and the roots that were found. *)
Record reach_state : Type := ReachState {
  rs_seen : list jstr;
  rs_stack : list jstr;
  rs_found : list jstr
}.

Definition meet (s : reach_state) (next : jstr) : reach_state :=
  if one_of next (rs_seen s) then s
  else if one_of next roots then ReachState (next :: rs_seen s) (rs_stack s) (set_add next (rs_found s))
  else ReachState (next :: rs_seen s) (next :: rs_stack s) (rs_found s).

Fixpoint reach (fuel : nat) (s : reach_state) : reach_state :=
  match fuel, rs_stack s with
  | S fuel, current :: stack =>
      reach fuel (fold_left meet (targets current) (ReachState (rs_seen s) stack (rs_found s)))
  | _, _ => s
  end.

Definition reachableRoots (start : jstr) : list jstr :=
  rs_found (reach (S (length (universe start))) (ReachState [start] [start] [])).
End Search.

(** ** Causal paths *)

Definition path_fits (l : list jstr) : bool :=
  (length l <=? BOUND_causalPathEntries) &&
  (byte_length (json_stringify (Arr (Str <$> l))) <=? BOUND_causalPathBytes).

(** The head of the path and the root are kept; [fuel] is the length. *)
Fixpoint bound_path (fuel : nat) (entries : list jstr) (omitted : Z) : list jstr * Z :=
  match fuel with
  | O => (entries, omitted)
  | S fuel =>
      if negb (path_fits entries) && (2 <? length entries) then
        bound_path fuel (take (length entries - 2) entries ++ [default ([] : jstr) (last entries)]) (omitted + 1)
      else (entries, omitted)
  end.

Definition boundPath (path : list jstr) : list jstr * Z := bound_path (length path) path 0.

(** ** Classification *)

Record availability_node : Type := AvailabilityNode {
  an_key : jstr;
  an_ref : jstr;
  an_alias : js;
  an_refusal : js
}.

(** [state] with its outcome. *)
Inductive availability : Type :=
  | RefusedBy (o : outcome)
  | Eligible
  | BlockedBy (o : outcome).

Fixpoint index_nodes (l : list availability_node) (byKey : jmap jstr availability_node) :
    availabilityR (jmap jstr availability_node) :=
  match l with
  | [] => Ok byKey
  | n :: l =>
      if negb (truthy (an_key n)) then Err NodeWithoutKey
      else if map_has (an_key n) byKey then Err (DuplicateNode (an_key n))
      else index_nodes l (map_set (an_key n) n byKey)
  end.

Definition add_target (byKey : jmap jstr availability_node) (adjacency : jmap jstr (list jstr))
    (e : availability_edge) : jmap jstr (list jstr) :=
  if negb (map_has (fromKey e) byKey) || negb (map_has (toKey e) byKey) then adjacency
  else map_set (fromKey e) (set_add (toKey e) (default [] (map_get (fromKey e) adjacency))) adjacency.

Definition adjacency_of (byKey : jmap jstr availability_node) (edges : list availability_edge) :
    jmap jstr (list jstr) :=
  map_fmap (stable_sort unit_le) (fold_left (add_target byKey) edges []).

Definition refused_node (n : availability_node) : bool := js_truthy (an_refusal n).

Definition roots_of (byKey : jmap jstr availability_node) : list jstr :=
  an_key <$> bfilter refused_node (map_values byKey).

Definition validated {A} (r : result outcome_error A) : availabilityR A :=
  match r with
  | Ok a => Ok a
  | Err e => Err (InvalidOutcome e)
  end.

Section Classify.
Context `{Sha256}.

(** The outcome of a blocked node, before it is validated. *)
Definition blocked_js (n : availability_node) (path : list jstr) (root : outcome) (direct : availability_node)
    (rootCount : nat) : js :=
  let '(causalPath, omitted) := boundPath path in
  Obj [("state", Str "blocked"); ("code", Str HARDWARE_DEPENDENCY_BLOCKED);
       ("reasonCode", Str "dependency_blocked"); ("key", Str (an_key n)); ("ref", Str (an_ref n));
       ("alias", js_or (an_alias n) Null);
       ("inputFingerprint", Str (hex64 (Obj [("schema", Num (Fin 1)); ("key", Str (an_key n));
          ("path", Arr (Str <$> path)); ("root", oc_inputFingerprint root)])));
       ("reason", Str (take 2000 ("Required dependency " ++ an_ref direct ++ " cannot start: " ++ oc_reason root)));
       ("fix", Str (oc_fix root)); ("requested", Arr []);
       ("blockedBy", Obj [("key", Str (an_key direct)); ("ref", Str (an_ref direct))]);
       ("rootCause", root_js (oc_rootCause root)); ("causalPath", Arr (Str <$> causalPath));
       ("omittedPathCount", Num (Fin omitted));
       ("additionalCauseCount", Num (Fin (Z.max 0 (Z.of_nat rootCount - 1))))].

Definition node_at (byKey : jmap jstr availability_node) (key : jstr) : availability_node :=
  default (AvailabilityNode [] [] Undefined Undefined) (map_get key byKey).

Definition classify_node (byKey : jmap jstr availability_node) (adjacency : jmap jstr (list jstr))
    (key : jstr) : availabilityR availability :=
  let n := node_at byKey key in
  let roots := roots_of byKey in
  if refused_node n then
    o ← validated (validateHardwareOutcome (an_refusal n)); Ok (RefusedBy o)
  else
    match shortestPathToRoot roots adjacency key with
    | None => Ok Eligible
    | Some path =>
        let allRoots := reachableRoots roots adjacency key in
        let rootKey := default ([] : jstr) (last path) in
        root ← validated (validateHardwareOutcome (an_refusal (node_at byKey rootKey)));
        let direct := node_at byKey (default ([] : jstr) (path !! 1)) in
        o ← validated (validateHardwareOutcome (blocked_js n path root direct (length allRoots)));
        Ok (BlockedBy o)
    end.

Definition classifyAvailability (l : list availability_node) (edges : list availability_edge) :
    availabilityR (jmap jstr availability) :=
  byKey ← index_nodes l [];
  let adjacency := adjacency_of byKey edges in
  mapM_result (fun key => a ← classify_node byKey adjacency key; Ok (key, a))
    (stable_sort unit_le (map_keys byKey)).

(** The consumer of a producer that ended refused or blocked. *)
Definition blockedByProducerOutcome (key ref : jstr) (alias : js) (producer : js) : availabilityR outcome :=
  root ← validated (validateHardwareOutcome producer);
  let '(causalPath, omitted) := boundPath (key :: oc_causalPath root) in
  validated (validateHardwareOutcome
    (Obj [("state", Str "blocked"); ("code", Str HARDWARE_DEPENDENCY_BLOCKED);
       ("reasonCode", Str "dependency_blocked"); ("key", Str key); ("ref", Str ref);
       ("alias", js_or alias Null);
       ("inputFingerprint", Str (hex64 (Obj [("schema", Num (Fin 1)); ("key", Str key);
          ("producer", oc_inputFingerprint root)])));
       ("reason", Str (take 2000 ("Required dependency " ++ oc_ref root ++ " cannot start: " ++
          rc_reason (oc_rootCause root))));
       ("fix", Str (rc_fix (oc_rootCause root))); ("requested", Arr []);
       ("blockedBy", Obj [("key", Str (oc_key root)); ("ref", Str (oc_ref root))]);
       ("rootCause", root_js (oc_rootCause root)); ("causalPath", Arr (Str <$> causalPath));
       ("omittedPathCount", Num (Fin (omitted + oc_omittedPathCount root)));
       ("additionalCauseCount", Num (Fin (oc_additionalCauseCount root)))])).
End Classify.

(** ** The summary of a start *)

Definition START_RESULT_LIMIT : nat := 64.

Record bounded_list (A : Type) : Type := BoundedList {
  bl_entries : list A;
  bl_count : nat
}.

Arguments BoundedList {A} bl_entries bl_count.

Definition boundedList {A} (entries : list A) : bounded_list A :=
  BoundedList (take START_RESULT_LIMIT entries) (length entries).

Inductive start_state : Type :=
  | StartReady
  | StartDegraded
  | StartStarting.

Record start_result (A : Type) : Type := StartResult {
  sr_state : start_state;
  sr_ready : bounded_list A;
  sr_asynchronous : bounded_list A;
  sr_refused : bounded_list A;
  sr_blocked : bounded_list A;
  sr_failed : bounded_list A
}.

Arguments StartResult {A}.

Definition summarizeStartResult {A} (ready asynchronous refused blocked failed : list A) : start_result A :=
  let state :=
    match refused, blocked, failed with
    | [], [], [] =>
        match asynchronous with
        | [] => StartReady
        | _ => StartStarting
        end
    | _, _, _ => StartDegraded
    end in
  StartResult state (boundedList ready) (boundedList asynchronous) (boundedList refused)
    (boundedList blocked) (boundedList failed).
