(* ===== verification/AvailabilitySearch.v ===== *)
(** The searches of [Availability] over the blocking relation: the first finds
    a shortest path to a refused instance, the second all refused instances
    that are reached; both end by themselves. *)

From stdpp Require Import prelude.
From Stdlib Require Import NArith.
From S2P Require Import Prelude.
From S2P Require Import JsString.
From S2P Require Import JsMap.
From S2P Require Import HttpRouteCompiler.
From S2P Require Import Availability.

Local Open Scope js_scope.

Section Search.
Context (roots : list jstr) (adjacency : jmap jstr (list jstr)).

Notation targets := (targets adjacency).

(** Consecutive keys are joined by edges. *)
Fixpoint trail (p : list jstr) : Prop :=
  match p with
  | a :: ((b :: _) as r) => b ∈ targets a /\ trail r
  | _ => True
  end.

(** A way to a refused key through keys that are not refused. *)
Definition blocking_path (start : jstr) (middle : list jstr) (root : jstr) : Prop :=
  root ∈ roots /\ Forall (fun k => k ∉ roots) (start :: middle) /\ trail (start :: middle ++ [root]).

Lemma trail_snoc p u v : trail p -> last p = Some u -> v ∈ targets u -> trail (p ++ [v]).
Proof.
  induction p as [|a p IH]; [done|]. intros Ht Hl Hv. destruct p as [|b p].
  - simpl in Hl. injection Hl as ->. by split.
  - destruct Ht as [Hb Ht]. split; [done|]. apply IH; [done|by rewrite last_cons_cons in Hl|done].
Qed.

(** ** Counting what is left to discover *)

Lemma length_bfilter_mono {A} (f g : A -> bool) l :
  (forall x, f x = true -> g x = true) -> length (bfilter f l) <= length (bfilter g l).
Proof.
  intros H. induction l as [|x l IH]; simpl; [lia|].
  destruct (f x) eqn:Hf; [rewrite (H x Hf); simpl; lia|]. destruct (g x); simpl; lia.
Qed.

Lemma length_bfilter_lt {A} (f g : A -> bool) l x :
  (forall x, f x = true -> g x = true) -> x ∈ l -> f x = false -> g x = true ->
  length (bfilter f l) < length (bfilter g l).
Proof.
  intros H. induction l as [|y l IH]; [by intros ?%not_elem_of_nil|].
  intros [->|Hx]%elem_of_cons Hf Hg; simpl.
  - rewrite Hf, Hg. simpl. pose proof (length_bfilter_mono f g l H). lia.
  - specialize (IH Hx Hf Hg). destruct (f y) eqn:Hy; [rewrite (H y Hy); simpl; lia|].
    destruct (g y); simpl; lia.
Qed.

Lemma targets_universe start u v : v ∈ targets u -> v ∈ universe adjacency start.
Proof.
  unfold Availability.targets, universe. destruct (map_get u adjacency) as [l|] eqn:Hu; simpl;
    [|by intros ?%not_elem_of_nil].
  intros Hv. apply elem_of_cons. right. apply list_elem_of_In, in_concat. exists l.
  split; [|by apply list_elem_of_In]. apply list_elem_of_In. apply map_get_Some_in in Hu.
  apply list_elem_of_fmap. by exists (u, l).
Qed.

(** ** The first search *)

Section Breadth.
Context (start : jstr) (start_not_root : start ∉ roots).

Notation prev_map := (jmap jstr (option jstr)).
Implicit Types (previous : prev_map) (queue : list jstr) (P : jstr -> list jstr).

Definition met previous (v : jstr) : Prop := is_Some (map_get v previous).

(** [P v] is the path recorded for [v]; keys that left the queue are not
    refused, but for the one being expanded all their targets are met, and at
    most one step further. *)
Record explored (busy : jstr -> Prop) previous queue P : Prop := Explored {
  ex_start : map_get start previous = Some None /\ P start = [start];
  ex_none : forall v, map_get v previous = Some None -> v = start;
  ex_prev : forall v u, map_get v previous = Some (Some u) -> met previous u /\ P v = P u ++ [v];
  ex_path : forall v, met previous v -> exists q, P v = q ++ [v] /\ head (P v) = Some start /\
              trail (P v) /\ Forall (fun k => k ∉ roots) q;
  ex_size : forall v, met previous v -> length (P v) <= map_size previous;
  ex_queue : forall v, v ∈ queue -> met previous v;
  ex_done : forall v, met previous v -> v ∉ queue -> v ∉ roots /\
              (~ busy v -> forall w, w ∈ targets v -> met previous w /\ length (P w) <= S (length (P v)))
}.

(** The queue is ordered by the length of the recorded paths, which differ by
    one at most. *)
Fixpoint layered (d : nat) P (queue : list jstr) : Prop :=
  match queue with
  | [] => True
  | v :: queue => d <= length (P v) /\ layered (length (P v)) P queue
  end.

(** No recorded path is longer than [d]. *)
Definition no_deeper (d : nat) previous P : Prop := forall v, met previous v -> length (P v) <= d.

Lemma layered_ge d P queue v : layered d P queue -> v ∈ queue -> d <= length (P v).
Proof.
  revert d. induction queue as [|w queue IH]; intros d; [by intros _ ?%not_elem_of_nil|].
  intros [Hd Hl] [->|Hv]%elem_of_cons; [done|]. specialize (IH _ Hl Hv). lia.
Qed.

Lemma layered_snoc d P queue v :
  layered d P queue -> (forall w, w ∈ queue -> length (P w) <= length (P v)) -> d <= length (P v) ->
  layered d P (queue ++ [v]).
Proof.
  revert d. induction queue as [|w queue IH]; intros d; simpl; [by intros _ _ ?|].
  intros [Hd Hl] Hb _. split; [done|]. apply IH; [done| |].
  - intros x Hx. apply Hb, elem_of_cons. by right.
  - apply Hb, elem_of_cons. by left.
Qed.

Lemma layered_ext d P P' queue :
  (forall v, v ∈ queue -> P' v = P v) -> layered d P queue -> layered d P' queue.
Proof.
  revert d. induction queue as [|w queue IH]; intros d He; [done|]. intros [Hd Hl].
  simpl. rewrite (He w) by (apply elem_of_cons; by left). split; [done|].
  apply IH; [|done]. intros v Hv. apply He, elem_of_cons. by right.
Qed.

Lemma walk_back_path previous queue busy P :
  explored busy previous queue P ->
  forall fuel v acc, met previous v -> length (P v) <= fuel ->
  walk_back fuel previous v acc = P v ++ acc.
Proof.
  intros X. induction fuel as [|fuel IH]; intros v acc Hv Hf.
  { destruct (ex_path _ _ _ _ X v Hv) as (q & Hq & _). rewrite Hq, length_app in Hf. simpl in Hf. lia. }
  simpl. destruct Hv as [[u|] Hu]; rewrite Hu.
  - destruct (ex_prev _ _ _ _ X _ _ Hu) as [Hm HP]. rewrite HP, length_app in Hf. simpl in Hf.
    rewrite IH by (done || lia). by rewrite HP, <- app_assoc.
  - apply (ex_none _ _ _ _ X) in Hu as ->. by rewrite (proj2 (ex_start _ _ _ _ X)).
Qed.
(** The state while [current], at depth [d], is expanded. *)
Record expanding (current : jstr) (d : nat) previous queue P : Prop := Expanding {
  xp_explored : explored (fun v => v = current) previous queue P;
  xp_current : met previous current /\ current ∉ roots /\ length (P current) = d;
  xp_layered : layered d P queue;
  xp_depth : no_deeper (S d) previous P
}.

Definition extends previous P previous' P' : Prop :=
  forall v, met previous v -> met previous' v /\ P' v = P v.

Lemma met_set previous next u v :
  met (map_set next u previous) v <-> v = next \/ met previous v.
Proof.
  unfold met. rewrite map_get_set. case_decide as Hv; [subst|].
  - split; [by left|]. by eexists.
  - split; [by right|]. by intros [?|?].
Qed.

Lemma discover_expanding current d previous queue P next previous' queue' :
  expanding current d previous queue P -> next ∈ targets current ->
  discover current (previous, queue) next = (previous', queue') ->
  exists P', expanding current d previous' queue' P' /\ extends previous P previous' P' /\
    met previous' next.
Proof.
  intros [X (Hc & Hcr & Hd) Hl Hn] Ht. unfold discover. simpl. unfold map_has.
  destruct (map_get next previous) as [o|] eqn:Hnext; intros [= <- <-].
  { exists P. split; [by constructor|]. split; [by split|]. by exists o. }
  assert (~ met previous next) as Hnew by (intros [? ?]; congruence).
  set (P' := fun v => if decide (v = next) then P current ++ [next] else P v).
  assert (forall v, met previous v -> P' v = P v) as Hold.
  { intros v Hv. unfold P'. case_decide; [by subst|done]. }
  assert (P' next = P current ++ [next]) as HPn by (unfold P'; by rewrite decide_True).
  assert (length (P' next) = S d) as Hln by (rewrite HPn, length_app; simpl; lia).
  exists P'. split; [|split; [|apply met_set; by left]].
  2: { intros v Hv. split; [apply met_set; by right|by apply Hold]. }
  constructor.
  - constructor.
    + destruct (ex_start _ _ _ _ X) as [H1 H2].
      assert (start <> next) as Hs by (intros ->; congruence).
      rewrite map_get_set_ne by done. split; [done|]. rewrite Hold; [done|by eexists].
    + intros v. rewrite map_get_set. case_decide; [done|apply (ex_none _ _ _ _ X)].
    + intros v u. rewrite map_get_set. case_decide as Hv.
      * intros [= <-]. subst v. split; [apply met_set; by right|]. by rewrite HPn, (Hold current).
      * intros Hu. destruct (ex_prev _ _ _ _ X _ _ Hu) as [Hm HP]. split; [apply met_set; by right|].
        rewrite !Hold; [done|done|by eexists].
    + intros v [->|Hv]%met_set.
      * destruct (ex_path _ _ _ _ X current Hc) as (q & Hq & Hh & Htr & Hf).
        exists (P current). rewrite HPn. split; [done|]. split; [by rewrite Hq in *; destruct q|].
        split; [|rewrite Hq; apply Forall_app; by split; [|constructor]].
        apply trail_snoc with current; [done| |done]. by rewrite Hq, last_snoc.
      * rewrite Hold by done. by apply (ex_path _ _ _ _ X).
    + rewrite map_size_set_absent by done. intros v [->|Hv]%met_set.
      * pose proof (ex_size _ _ _ _ X current Hc). lia.
      * rewrite Hold by done. pose proof (ex_size _ _ _ _ X v Hv). lia.
    + intros v [Hv| ->%list_elem_of_singleton]%elem_of_app; apply met_set; [|by left].
      right. by apply (ex_queue _ _ _ _ X).
    + intros v [->|Hv]%met_set Hq.
      { destruct Hq. apply elem_of_app. right. by apply list_elem_of_singleton. }
      destruct (ex_done _ _ _ _ X v Hv) as [Hr Hw]; [intros Hin; apply Hq, elem_of_app; by left|].
      split; [done|]. intros Hb w Hwt. destruct (Hw Hb w Hwt) as [Hmw Hlw].
      split; [apply met_set; by right|]. by rewrite !Hold.
  - split; [apply met_set; by right|]. split; [done|]. by rewrite Hold.
  - apply layered_snoc; [|intros w Hw|lia].
    + apply (layered_ext _ P); [|done]. intros v Hv. by apply Hold, (ex_queue _ _ _ _ X).
    + rewrite Hold, Hln by (by apply (ex_queue _ _ _ _ X)). by apply Hn, (ex_queue _ _ _ _ X).
  - intros v [->|Hv]%met_set; [by rewrite Hln|]. rewrite Hold by done. by apply Hn.
Qed.

Lemma fold_discover current d l : forall previous queue P previous' queue',
  expanding current d previous queue P -> (forall w, w ∈ l -> w ∈ targets current) ->
  fold_left (discover current) l (previous, queue) = (previous', queue') ->
  exists P', expanding current d previous' queue' P' /\ extends previous P previous' P' /\
    forall w, w ∈ l -> met previous' w.
Proof.
  induction l as [|next l IH]; intros previous queue P previous' queue' X Ht.
  { intros [= <- <-]. exists P. split_and!; [done|by split|by intros ? ?%not_elem_of_nil]. }
  simpl. destruct (discover current (previous, queue) next) as [previous1 queue1] eqn:H1. intros H2.
  destruct (discover_expanding _ _ _ _ _ _ _ _ X (Ht next (list_elem_of_here _ _)) H1) as (P1 & X1 & E1 & M1).
  destruct (IH _ _ _ previous' queue' X1) as (P2 & X2 & E2 & M2); [|exact H2|].
  { intros w Hw. apply Ht, elem_of_cons. by right. }
  exists P2. split; [done|]. split.
  - intros v Hv. destruct (E1 v Hv) as [Hv1 HP1], (E2 v (proj1 (E1 v Hv))) as [Hv2 HP2].
    split; [done|]. congruence.
  - intros w [->|Hw]%elem_of_cons; [|by apply M2]. by apply E2.
Qed.

(** What holds each time the queue is looked at. *)
Record searching previous queue P : Prop := Searching {
  sg_explored : explored (fun _ => False) previous queue P;
  sg_layered : layered 0 P queue;
  sg_depth : forall v, head queue = Some v -> no_deeper (S (length (P v))) previous P
}.

Lemma layered_weaken d d' P queue : d' <= d -> layered d P queue -> layered d' P queue.
Proof. destruct queue as [|v queue]; [done|]. simpl. intros Hd [? ?]. split; [lia|done]. Qed.

Lemma expand_searching current previous queue P previous' queue' :
  searching previous (current :: queue) P -> (current = start \/ current ∉ roots) ->
  fold_left (discover current) (targets current) (previous, queue) = (previous', queue') ->
  exists P', searching previous' queue' P'.
Proof.
  intros [X Hl Hd] Hroot Hf. assert (current ∉ roots) as Hc by (destruct Hroot; [by subst|done]).
  assert (met previous current) as Hm by (apply (ex_queue _ _ _ _ X), list_elem_of_here).
  destruct (fold_discover current (length (P current)) (targets current) previous queue P previous' queue')
    as (P' & [X' Hc' Hl' Hd'] & HE & HM); [| |exact Hf|].
  - constructor; [|done|destruct Hl as [_ Hl]; exact Hl|by apply Hd].
    destruct X as [x1 x2 x3 x4 x5 x6 x7]. constructor; try done.
    + intros v Hv. apply x6, elem_of_cons. by right.
    + intros v Hv Hq. destruct (decide (v = current)) as [->|Hvc]; [by split|].
      destruct (x7 v Hv) as [Hr Hw]; [by intros [?|?]%elem_of_cons|].
      split; [done|]. intros _. apply Hw; tauto.
  - done.
  - exists P'. constructor.
    + destruct X' as [x1 x2 x3 x4 x5 x6 x7]. constructor; try done.
      intros v Hv Hq. destruct (x7 v Hv Hq) as [Hr Hw]. split; [done|]. intros _ w Hwt.
      destruct (decide (v = current)) as [->|Hvc]; [|by apply Hw].
      split; [by apply HM|]. destruct Hc' as (_ & _ & ->). by apply Hd', HM.
    + by apply (layered_weaken (length (P current))); [lia|].
    + intros v Hv w Hw. specialize (Hd' w Hw). destruct queue' as [|x q]; simplify_eq/=. lia.
Qed.

(** How the loop ends: at a refused key at the front, or with an empty queue. *)
Definition finished (r : option (list jstr)) : Prop :=
  match r with
  | Some p => exists previous queue P root,
      searching previous (root :: queue) P /\ root ∈ roots /\ p = P root
  | None => exists previous P, searching previous [] P
  end.

Definition unmet previous : nat := length (bfilter (fun v => negb (map_has v previous)) (universe adjacency start)).

Lemma discover_unmet current previous queue next previous' queue' :
  next ∈ universe adjacency start -> discover current (previous, queue) next = (previous', queue') ->
  unmet previous' + length queue' <= unmet previous + length queue.
Proof.
  intros Hu. unfold discover. simpl. destruct (map_has next previous) eqn:Hn; intros [= <- <-]; [done|].
  rewrite length_app. simpl.
  assert (unmet (map_set next (Some current) previous) < unmet previous); [|lia].
  apply (length_bfilter_lt _ _ _ next); [|done| |by rewrite Hn].
  - intros x. rewrite !negb_true_iff. unfold map_has. rewrite map_get_set. by case_decide.
  - unfold map_has. by rewrite map_get_set_eq.
Qed.

Lemma fold_unmet current l : forall previous queue previous' queue',
  (forall w, w ∈ l -> w ∈ universe adjacency start) ->
  fold_left (discover current) l (previous, queue) = (previous', queue') ->
  unmet previous' + length queue' <= unmet previous + length queue.
Proof.
  induction l as [|next l IH]; intros previous queue previous' queue' Hl; [by intros [= <- <-]|].
  simpl. destruct (discover current (previous, queue) next) as [p1 q1] eqn:H1. intros H2.
  apply discover_unmet in H1; [|apply Hl, list_elem_of_here]. apply IH in H2; [lia|].
  intros w Hw. apply Hl, elem_of_cons. by right.
Qed.

Lemma search_finished fuel : forall previous queue P,
  searching previous queue P -> unmet previous + length queue < fuel ->
  finished (search roots adjacency fuel start previous queue).
Proof.
  induction fuel as [|fuel IH]; intros previous queue P X Hf; [lia|].
  destruct queue as [|current queue]; [by exists previous, P|]. simpl.
  destruct (negb (jeqb current start) && one_of current roots) eqn:Hend.
  - apply andb_true_iff in Hend as [_ Hr%one_of_elem].
    exists previous, queue, P, current. split; [done|]. split; [done|].
    destruct X as [X _ _]. assert (met previous current) as Hm by (apply (ex_queue _ _ _ _ X), list_elem_of_here).
    pose proof (ex_size _ _ _ _ X current Hm).
    change (walk_back (S (map_size previous)) previous current [] = P current).
    by rewrite (walk_back_path _ _ _ _ X), app_nil_r by (done || lia).
  - destruct (fold_left _ _ _) as [previous' queue'] eqn:Hfold.
    destruct (expand_searching _ _ _ _ previous' queue' X) as [P' X']; [|exact Hfold|].
    { apply andb_false_iff in Hend as [Hs%negb_false_iff%jeqb_eq|Hr]; [by left|].
      right. intros Hin%one_of_elem. congruence. }
    apply (IH _ _ _ X'). apply fold_unmet in Hfold; [simpl in Hf; lia|]. apply targets_universe.
Qed.

(** A trail from a met key, shorter than every path in the queue, ends at a
    key that is not refused. *)
Lemma short_trail previous queue P :
  searching previous queue P -> forall l x,
  trail (x :: l) -> met previous x ->
  (forall q, q ∈ queue -> length (P x) + length l < length (P q)) ->
  default x (last l) ∉ roots.
Proof.
  intros [X _ _]. induction l as [|y l IH]; intros x Ht Hx Hq.
  - simpl. apply (ex_done _ _ _ _ X x Hx). intros Hin%Hq. simpl in Hin. lia.
  - destruct Ht as [Hy Ht]. destruct (ex_done _ _ _ _ X x Hx) as [_ Hw].
    { intros Hin%Hq. simpl in Hin. lia. }
    destruct (Hw ltac:(tauto) y Hy) as [Hmy Hly].
    assert (default x (last (y :: l)) = default y (last l)) as ->
      by (rewrite last_cons; by destruct (last l)).
    apply IH; [done|done|]. intros q Hin. specialize (Hq q Hin). simpl in Hq. lia.
Qed.

Lemma searching_initial : searching [(start, None)] [start] (fun _ => [start]).
Proof.
  assert (forall v, met [(start, @None jstr)] v -> v = start) as Hmet.
  { intros v [o Ho]. simpl in Ho. by case_bool_decide. }
  constructor.
  - constructor.
    + simpl. by rewrite bool_decide_true.
    + intros v Hv. apply Hmet. by eexists.
    + intros v u. simpl. by case_bool_decide.
    + intros v ->%Hmet. by exists [].
    + by intros v _.
    + intros v ->%list_elem_of_singleton. eexists. simpl. by rewrite bool_decide_true.
    + intros v ->%Hmet Hq. destruct Hq. by apply list_elem_of_singleton.
  - simpl. lia.
  - intros v _ w _. simpl. lia.
Qed.

Lemma search_ends : finished (shortestPathToRoot roots adjacency start).
Proof.
  apply (search_finished _ _ _ _ searching_initial).
  assert (unmet [(start, None)] < length (universe adjacency start)) as Hu; [|simpl in *; lia].
  unfold unmet. set (l := universe adjacency start).
  assert (length (bfilter (fun _ => true) l) = length l) as <-.
  { induction l as [|x l IH]; [done|]. simpl. by rewrite IH. }
  apply (length_bfilter_lt _ _ _ start); [done|by apply list_elem_of_here| |done].
  unfold map_has. simpl. by rewrite bool_decide_true.
Qed.

Lemma no_blocking_path previous queue P middle root :
  searching previous queue P -> blocking_path start middle root ->
  exists q, q ∈ queue /\ length (P q) <= S (S (length middle)).
Proof.
  intros X (Hr & _ & Ht). destruct (ex_start _ _ _ _ (sg_explored _ _ _ X)) as [Hs HP].
  destruct (existsb (fun q => length (P q) <=? S (S (length middle))) queue) eqn:He.
  - apply existsb_exists in He as (q & Hq & Hl%Nat.leb_le). exists q. by rewrite list_elem_of_In.
  - exfalso. apply not_true_iff_false in He.
    pose proof (short_trail previous queue P X (middle ++ [root]) start Ht) as Hn.
    rewrite last_snoc in Hn. apply Hn; [by eexists| |done].
    intros q Hq. rewrite HP, length_app. simpl.
    destruct (Nat.leb_spec (length (P q)) (S (S (length middle)))) as [Hle|]; [|lia].
    destruct He. apply existsb_exists. exists q. rewrite <- list_elem_of_In. split; [done|by apply Nat.leb_le].
Qed.

(** What the search returns: a shortest way to a refused key, if there is one. *)
Lemma shortest_path_spec :
  match shortestPathToRoot roots adjacency start with
  | Some p => exists middle root, p = start :: middle ++ [root] /\ blocking_path start middle root /\
      forall middle' root', blocking_path start middle' root' -> length middle <= length middle'
  | None => forall middle root, ~ blocking_path start middle root
  end.
Proof.
  pose proof search_ends as Hf. destruct (shortestPathToRoot _ _ _) as [p|]; simpl in Hf.
  - destruct Hf as (previous & queue & P & root & X & Hr & ->).
    pose proof (sg_explored _ _ _ X) as E.
    destruct (ex_path _ _ _ _ E root) as (q & Hq & Hh & Ht & Hnr); [apply (ex_queue _ _ _ _ E), list_elem_of_here|].
    destruct q as [|x middle].
    { rewrite Hq in Hh. injection Hh as ->. done. }
    rewrite Hq in Hh. injection Hh as ->. exists middle, root. split; [done|].
    split; [by rewrite Hq in Ht|]. intros middle' root' Hb.
    destruct (no_blocking_path _ _ _ _ _ X Hb) as (v & Hv & Hl).
    assert (length (P root) <= length (P v)) as Hle.
    { apply elem_of_cons in Hv as [->|Hv]; [done|].
      destruct (sg_layered _ _ _ X) as [_ Hla]. by apply (layered_ge _ _ _ _ Hla). }
    rewrite Hq in Hle. simpl in Hle. rewrite length_app in Hle. simpl in Hle. lia.
  - destruct Hf as (previous & P & X). intros middle root Hb.
    destruct (no_blocking_path _ _ _ _ _ X Hb) as (v & Hv & _). by apply not_elem_of_nil in Hv.
Qed.
End Breadth.

(** ** The second search *)

Section Depth.
Context (start : jstr) (start_not_root : start ∉ roots).

(** A key on a way that has met no refused key before it. *)
Inductive blocked_reach : jstr -> Prop :=
  | reach_start : blocked_reach start
  | reach_step u v : blocked_reach u -> u ∉ roots -> v ∈ targets u -> blocked_reach v.

Lemma blocked_reach_path v :
  blocked_reach v -> v = start \/
  exists middle, Forall (fun k => k ∉ roots) (start :: middle) /\ trail (start :: middle ++ [v]).
Proof.
  induction 1 as [|u v Hu [->|(middle & Hf & Ht)] Hn Hv]; [by left|right..].
  - exists []. split; [by constructor|]. by split.
  - exists (middle ++ [u]). split.
    + rewrite app_comm_cons, Forall_app. split; [done|by constructor].
    + rewrite app_comm_cons. apply trail_snoc with u; [done| |done]. by rewrite app_comm_cons, last_snoc.
Qed.

Lemma trail_reach l : forall x, blocked_reach x -> trail (x :: l) ->
  Forall (fun k => k ∉ roots) (removelast (x :: l)) -> blocked_reach (default x (last l)).
Proof.
  induction l as [|y l IH]; intros x Hx Ht Hf; [done|]. destruct Ht as [Hy Ht].
  apply Forall_cons in Hf as [Hnx Hf].
  assert (default x (last (y :: l)) = default y (last l)) as -> by (rewrite last_cons; by destruct (last l)).
  apply IH; [by apply (reach_step x)|done|done].
Qed.

Lemma reach_root_iff r : r ∈ roots ->
  blocked_reach r <-> exists middle, blocking_path start middle r.
Proof.
  intros Hr. split.
  - intros [->|(middle & Hf & Ht)]%blocked_reach_path; [done|]. by exists middle.
  - intros (middle & _ & Hf & Ht).
    pose proof (trail_reach (middle ++ [r]) start reach_start Ht) as H. rewrite last_snoc in H.
    apply H. rewrite app_comm_cons, removelast_last. done.
Qed.

Implicit Types (s : reach_state).

(** What was seen is reached; the stack holds seen keys that are not refused,
    and every other such key but the busy one has its targets seen. *)
Record reaching (busy : jstr -> Prop) s : Prop := Reaching {
  rg_start : start ∈ rs_seen s;
  rg_seen : forall v, v ∈ rs_seen s -> blocked_reach v;
  rg_stack : forall v, v ∈ rs_stack s -> v ∈ rs_seen s /\ v ∉ roots;
  rg_found : forall v, v ∈ rs_found s <-> v ∈ rs_seen s /\ v ∈ roots;
  rg_unique : NoDup (rs_found s);
  rg_done : forall v, v ∈ rs_seen s -> v ∉ roots -> v ∉ rs_stack s -> ~ busy v ->
              forall w, w ∈ targets v -> w ∈ rs_seen s
}.

Lemma set_add_spec (x y : jstr) l : y ∈ set_add x l <-> y = x \/ y ∈ l.
Proof.
  unfold set_add. destruct (one_of x l) eqn:Hx; [apply one_of_elem in Hx; naive_solver|].
  rewrite elem_of_app, list_elem_of_singleton. tauto.
Qed.

Lemma set_add_NoDup (x : jstr) l : NoDup l -> NoDup (set_add x l).
Proof.
  intros Hl. unfold set_add. destruct (one_of x l) eqn:Hx; [done|].
  apply NoDup_app. split; [done|]. split; [|apply NoDup_singleton].
  intros y Hy ->%list_elem_of_singleton. apply one_of_elem in Hy. congruence.
Qed.

Lemma meet_reaching current s next :
  reaching (fun v => v = current) s -> blocked_reach current -> current ∉ roots -> next ∈ targets current ->
  reaching (fun v => v = current) (meet roots s next) /\ next ∈ rs_seen (meet roots s next) /\
  (forall v, v ∈ rs_seen s -> v ∈ rs_seen (meet roots s next)).
Proof.
  intros [r1 r2 r3 r4 r5 r6] Hc Hcr Hn. unfold meet.
  destruct (one_of next (rs_seen s)) eqn:Hs; [apply one_of_elem in Hs; split_and!; done|].
  assert (next ∉ rs_seen s) as Hnew by (intros Hin%one_of_elem; congruence).
  assert (blocked_reach next) as Hb by by apply (reach_step current).
  destruct (one_of next roots) eqn:Hr.
  - apply one_of_elem in Hr. split; [|split; simpl; set_solver]. constructor; simpl.
    + set_solver.
    + intros v [->|Hv]%elem_of_cons; [done|by apply r2].
    + intros v Hv. destruct (r3 v Hv). set_solver.
    + intros v. rewrite set_add_spec, r4, elem_of_cons. naive_solver.
    + by apply set_add_NoDup.
    + intros v [->|Hv]%elem_of_cons Hvr Hvs Hvb w Hw; [done|]. apply elem_of_cons. right. by apply (r6 v).
  - assert (next ∉ roots) as Hnr by (intros Hin%one_of_elem; congruence).
    split; [|split; simpl; set_solver]. constructor; simpl.
    + set_solver.
    + intros v [->|Hv]%elem_of_cons; [done|by apply r2].
    + intros v [->|Hv]%elem_of_cons; [set_solver|]. destruct (r3 v Hv). set_solver.
    + intros v. rewrite r4, elem_of_cons. naive_solver.
    + done.
    + intros v [->|Hv]%elem_of_cons Hvr Hvs Hvb w Hw; [set_solver|].
      apply elem_of_cons. right. apply (r6 v); set_solver.
Qed.

Lemma fold_meet current l : forall s,
  reaching (fun v => v = current) s -> blocked_reach current -> current ∉ roots ->
  (forall w, w ∈ l -> w ∈ targets current) ->
  reaching (fun v => v = current) (fold_left (meet roots) l s) /\
  (forall w, w ∈ l -> w ∈ rs_seen (fold_left (meet roots) l s)) /\
  (forall v, v ∈ rs_seen s -> v ∈ rs_seen (fold_left (meet roots) l s)).
Proof.
  induction l as [|next l IH]; intros s R Hc Hcr Ht.
  { simpl. split_and!; [done|by intros ? ?%not_elem_of_nil|done]. }
  simpl. destruct (meet_reaching _ _ next R Hc Hcr (Ht next (list_elem_of_here _ _))) as (R1 & S1 & M1).
  destruct (IH _ R1 Hc Hcr) as (R2 & S2 & M2); [intros w Hw; apply Ht, elem_of_cons; by right|].
  split; [done|]. split; [|by auto]. intros w [->|Hw]%elem_of_cons; auto.
Qed.

Definition unseen s : nat := length (bfilter (fun v => negb (one_of v (rs_seen s))) (universe adjacency start)).

Lemma meet_unseen s next :
  next ∈ universe adjacency start ->
  unseen (meet roots s next) + length (rs_stack (meet roots s next)) <= unseen s + length (rs_stack s).
Proof.
  intros Hu. unfold meet. destruct (one_of next (rs_seen s)) eqn:Hs; [done|].
  assert (forall stack found, unseen (ReachState (next :: rs_seen s) stack found) < unseen s) as H.
  { intros stack found. apply (length_bfilter_lt _ _ _ next); [|done| |by rewrite Hs].
    - intros x. simpl. rewrite !negb_true_iff, orb_false_iff. tauto.
    - simpl. by rewrite jeqb_refl. }
  destruct (one_of next roots); simpl; [pose proof (H (rs_stack s) (set_add next (rs_found s)))|
    pose proof (H (next :: rs_stack s) (rs_found s))]; lia.
Qed.

Lemma fold_meet_unseen l : forall s,
  (forall w, w ∈ l -> w ∈ universe adjacency start) ->
  unseen (fold_left (meet roots) l s) + length (rs_stack (fold_left (meet roots) l s)) <=
  unseen s + length (rs_stack s).
Proof.
  induction l as [|next l IH]; intros s Hl; [done|]. simpl.
  pose proof (meet_unseen s next (Hl next (list_elem_of_here _ _))).
  specialize (IH (meet roots s next)). rewrite IH; [done|]. intros w Hw. apply Hl, elem_of_cons. by right.
Qed.

Lemma reach_ends fuel : forall s,
  reaching (fun _ => False) s -> unseen s + length (rs_stack s) < fuel ->
  let s' := reach roots adjacency fuel s in reaching (fun _ => False) s' /\ rs_stack s' = [].
Proof.
  induction fuel as [|fuel IH]; intros s R Hf; [lia|]. simpl.
  destruct (rs_stack s) as [|current stack] eqn:Hst; [done|]. destruct R as [r1 r2 r3 r4 r5 r6].
  destruct (r3 current) as [Hcs Hcr]; [rewrite Hst; apply list_elem_of_here|].
  set (s1 := ReachState (rs_seen s) stack (rs_found s)).
  assert (reaching (fun v => v = current) s1) as R1.
  { constructor; simpl; try done.
    - intros v Hv. apply r3. rewrite Hst. apply elem_of_cons. by right.
    - intros v Hv Hvr Hvs Hvc. apply (r6 v); [done|done| |tauto]. rewrite Hst. set_solver. }
  destruct (fold_meet current (targets current) s1 R1) as (R2 & S2 & M2); [by apply r2|done|done|].
  apply IH.
  - destruct R2 as [q1 q2 q3 q4 q5 q6]. constructor; try done. intros v Hv Hvr Hvs _ w Hw.
    destruct (decide (v = current)) as [->|]; [by apply S2|by apply (q6 v)].
  - pose proof (fold_meet_unseen (targets current) s1 (fun w => targets_universe start current w)) as Hm.
    assert (unseen s1 = unseen s) as Hs1 by done. simpl in Hf. simpl rs_stack in Hm. lia.
Qed.

(** The roots that are found: those some blocking path ends at, each once. *)
Lemma reachable_roots_spec :
  NoDup (reachableRoots roots adjacency start) /\
  forall r, r ∈ reachableRoots roots adjacency start <-> exists middle, blocking_path start middle r.
Proof.
  unfold reachableRoots. set (s0 := ReachState [start] [start] []).
  destruct (reach_ends (S (length (universe adjacency start))) s0) as [[r1 r2 r3 r4 r5 r6] Hst].
  - constructor; simpl.
    + apply list_elem_of_here.
    + intros v ->%list_elem_of_singleton. constructor.
    + intros v ->%list_elem_of_singleton. split; [apply list_elem_of_here|done].
    + intros v. rewrite list_elem_of_singleton. split; [by intros ?%not_elem_of_nil|]. by intros [-> ?].
    + constructor.
    + intros v ->%list_elem_of_singleton _ Hn. destruct Hn. apply list_elem_of_here.
  - assert (unseen s0 < length (universe adjacency start)) as Hu; [|change (length (rs_stack s0)) with 1; lia].
    unfold unseen. set (l := universe adjacency start).
    assert (length (bfilter (fun _ => true) l) = length l) as <-.
    { clearbody l. induction l as [|x l IH]; [done|]. simpl. by rewrite IH. }
    apply (length_bfilter_lt _ _ _ start); [done|by apply list_elem_of_here| |done].
    simpl. by rewrite jeqb_refl.
  - set (s := reach _ _ _ _) in *. split; [done|].
    assert (forall v, blocked_reach v -> v ∈ rs_seen s) as Hall.
    { induction 1 as [|u v Hu IH Hn Hv]; [done|]. apply (r6 u); [done|done| |tauto|done].
      rewrite Hst. apply not_elem_of_nil. }
    intros r. rewrite r4. split.
    + intros [Hs Hr]. apply reach_root_iff; [done|by apply r2].
    + intros Hb. assert (r ∈ roots) as Hr by (by destruct Hb as (? & ? & _)).
      split; [|done]. by apply Hall, reach_root_iff.
Qed.
End Depth.
End Search.
