(* ===== verification/AvailabilityTheorems.v ===== *)
(** Which instances may start: the decision of [classifyAvailability] against
    its specification, the causes it names, and the dependency graph it is
    applied to. *)

From stdpp Require Import prelude.
From Stdlib Require Import NArith.
From S2P Require Import Prelude.
From S2P Require Import JsString.
From S2P Require Import JsNumber.
From S2P Require Import JsMap.
From S2P Require Import JsValue.
From S2P Require Import JsJson.
From S2P Require Import HttpRoutePath.
From S2P Require Import HttpRouteCompiler.
From S2P Require Import HttpRouteTheorems.
From S2P Require Import NetworkContract.
From S2P Require Import DependencyGraph.
From S2P Require Import CanonicalHash.
From S2P Require Import HardwareOutcome.
From S2P Require Import HardwareOutcomeTheorems.
From S2P Require Import Availability.
From S2P Require Import AvailabilitySearch.

Local Open Scope js_scope.

(** ** The specification

    What waits for what, and what is refused by itself: an instance is held
    when it waits for a refused instance or for one that is held. *)

Section Specification.
Context (waits : jstr -> jstr -> Prop) (refused : jstr -> Prop).

Inductive held : jstr -> Prop :=
  | held_by_refused k v : waits k v -> refused v -> held k
  | held_by_held k v : waits k v -> held v -> held k.
End Specification.

(** An edge between two of the nodes that are classified. *)
Definition waits_for (l : list availability_node) (edges : list availability_edge) (u v : jstr) : Prop :=
  u ∈ an_key <$> l /\ v ∈ an_key <$> l /\ exists e, e ∈ edges /\ fromKey e = u /\ toKey e = v.

Definition refused_key (l : list availability_node) (k : jstr) : Prop :=
  exists n, n ∈ l /\ an_key n = k /\ refused_node n = true.

(** ** Indexes *)

Lemma index_nodes_spec l : forall byKey byKey',
  index_nodes l byKey = Ok byKey' -> map_wf byKey ->
  byKey' = byKey ++ ((fun n => (an_key n, n)) <$> l) /\ map_wf byKey'.
Proof.
  induction l as [|n l IH]; intros byKey byKey'; simpl.
  { intros [= <-] Hw. by rewrite app_nil_r. }
  destruct (negb (truthy (an_key n))); [done|]. unfold map_has.
  destruct (map_get (an_key n) byKey) eqn:Hn; [done|]. intros H Hw.
  destruct (IH _ _ H) as [-> Hw']; [by apply map_wf_set|].
  split; [|done]. rewrite map_set_absent by done. by rewrite <- app_assoc.
Qed.

Lemma index_nodes_nil l byKey :
  index_nodes l [] = Ok byKey ->
  byKey = ((fun n => (an_key n, n)) <$> l) /\ map_wf byKey /\ NoDup (an_key <$> l).
Proof.
  intros H. destruct (index_nodes_spec _ _ _ H map_wf_nil) as [-> Hw]. simpl in *.
  split; [done|]. split; [done|]. unfold map_wf in Hw. rewrite <- list_fmap_compose in Hw. done.
Qed.

Section Index.
Context (l : list availability_node) (byKey : jmap jstr availability_node).
Hypothesis indexed : index_nodes l [] = Ok byKey.

Lemma index_get k n : map_get k byKey = Some n <-> n ∈ l /\ an_key n = k.
Proof.
  destruct (index_nodes_nil _ _ indexed) as (-> & Hw & _). split.
  - intros (n' & [= -> ->] & Hn)%map_get_Some_in%list_elem_of_fmap. done.
  - intros [Hn <-]. apply map_get_in; [done|]. apply list_elem_of_fmap. by exists n.
Qed.

Lemma index_has k : map_has k byKey = true <-> k ∈ an_key <$> l.
Proof.
  unfold map_has. split.
  - destruct (map_get k byKey) as [n|] eqn:Hn; [|done]. intros _. apply index_get in Hn as [Hn <-].
    by apply list_elem_of_fmap_2.
  - intros (n & -> & Hn)%list_elem_of_fmap. by rewrite (proj2 (index_get (an_key n) n)).
Qed.

Lemma index_keys : map_keys byKey = an_key <$> l.
Proof.
  destruct (index_nodes_nil _ _ indexed) as (-> & _). unfold map_keys. by rewrite <- list_fmap_compose.
Qed.

Lemma index_roots k : k ∈ roots_of byKey <-> refused_key l k.
Proof.
  unfold roots_of, refused_key. rewrite list_elem_of_fmap. split.
  - intros (n & -> & [Hn Hr]%elem_of_bfilter). unfold map_values in Hn.
    apply list_elem_of_fmap in Hn as ([k n'] & -> & Hin).
    destruct (index_nodes_nil _ _ indexed) as (Hb & _). rewrite Hb in Hin.
    apply list_elem_of_fmap in Hin as (n2 & [= -> ->] & Hn2). by exists n2.
  - intros (n & Hn & <- & Hr). exists n. split; [done|]. apply elem_of_bfilter. split; [|done].
    apply list_elem_of_fmap. exists (an_key n, n). split; [done|]. apply map_get_Some_in.
    by apply index_get.
Qed.

Lemma index_refused n : n ∈ l -> refused_key l (an_key n) <-> refused_node n = true.
Proof.
  intros Hn. split; [|by exists n]. intros (n' & Hn' & He & Hr).
  assert (map_get (an_key n) byKey = Some n) as H1 by by apply index_get.
  assert (map_get (an_key n) byKey = Some n') as H2 by by apply index_get. congruence.
Qed.

(** Targets, before they are sorted. *)
Lemma add_target_spec adj e u v :
  v ∈ default [] (map_get u (add_target byKey adj e)) <->
  v ∈ default [] (map_get u adj) \/
  (u = fromKey e /\ v = toKey e /\ u ∈ an_key <$> l /\ v ∈ an_key <$> l).
Proof.
  unfold add_target. rewrite <- !index_has.
  destruct (map_has (fromKey e) byKey) eqn:Hf; [destruct (map_has (toKey e) byKey) eqn:Ht|]; simpl.
  - rewrite map_get_set. case_decide as Hu; [subst u|]; simpl.
    + rewrite set_add_spec. naive_solver.
    + naive_solver.
  - naive_solver congruence.
  - naive_solver congruence.
Qed.

Lemma targets_spec edges u v :
  v ∈ targets (adjacency_of byKey edges) u <-> waits_for l edges u v.
Proof.
  unfold targets, adjacency_of. rewrite map_get_fmap.
  assert (v ∈ default [] (stable_sort unit_le <$> map_get u (fold_left (add_target byKey) edges [])) <->
          v ∈ default [] (map_get u (fold_left (add_target byKey) edges []))) as ->.
  { destruct (map_get u _); simpl; [|done]. by rewrite stable_sort_Permutation. }
  assert (forall es adj, v ∈ default [] (map_get u (fold_left (add_target byKey) es adj)) <->
            v ∈ default [] (map_get u adj) \/ waits_for l es u v) as ->.
  { unfold waits_for. induction es as [|e es IH]; intros adj; simpl.
    - split; [by left|]. intros [?|(_ & _ & e & ?%not_elem_of_nil & _)]; done.
    - rewrite IH, add_target_spec. setoid_rewrite elem_of_cons. naive_solver. }
  simpl. rewrite elem_of_nil. tauto.
Qed.

(** Held, seen from the paths the searches follow. *)
Lemma held_paths edges k : ~ refused_key l k ->
  held (waits_for l edges) (refused_key l) k <->
  exists middle root, blocking_path (roots_of byKey) (adjacency_of byKey edges) k middle root.
Proof.
  intros Hk. split.
  - intros Hh. revert Hk. induction Hh as [k v Hw Hv|k v Hw Hh IH]; intros Hk.
    + exists [], v. split; [by apply index_roots|]. split; [constructor; [by rewrite index_roots|done]|].
      simpl. split; [by apply targets_spec|done].
    + destruct (decide (v ∈ roots_of byKey)) as [Hv|Hv].
      * exists [], v. split; [done|]. split; [constructor; [by rewrite index_roots|done]|].
        simpl. split; [by apply targets_spec|done].
      * destruct IH as (middle & root & Hr & Hf & Ht); [by rewrite <- index_roots|].
        exists (v :: middle), root. split; [done|]. split; [constructor; [by rewrite index_roots|done]|].
        split; [by apply targets_spec|done].
  - intros (middle & root & Hr & Hf & Ht). clear Hk. revert k Hf Ht.
    induction middle as [|m middle IH]; intros k Hf Ht.
    + destruct Ht as [Ht _]. apply held_by_refused with root; [by apply targets_spec|by apply index_roots].
    + destruct Ht as [Hm Ht]. apply Forall_cons in Hf as [_ Hf].
      apply held_by_held with m; [by apply targets_spec|by apply IH].
Qed.
End Index.

(** ** Causal paths *)

(** The head of the path and the root stay; what is dropped is in between, and
    it is counted. *)
Lemma bound_path_spec (full : list jstr) (r : jstr) fuel : forall k omitted,
  1 <= k -> k < length full ->
  exists k', 1 <= k' <= k /\
    bound_path fuel (take k full ++ [r]) omitted = (take k' full ++ [r], (omitted + Z.of_nat (k - k'))%Z).
Proof.
  induction fuel as [|fuel IH]; intros k omitted H1 H2; simpl.
  { exists k. split; [lia|]. f_equal. lia. }
  assert (length (take k full ++ [r]) = S k) as Hl by (rewrite length_app, length_take; simpl; lia).
  destruct (negb (path_fits _) && (2 <? _)) eqn:Hc.
  - apply andb_true_iff in Hc as [_ Hlt%Nat.ltb_lt]. rewrite Hl in Hlt |- *.
    rewrite last_snoc. simpl default.
    assert (take (S k - 2) (take k full ++ [r]) = take (k - 1) full) as ->.
    { rewrite take_app_le by (rewrite length_take; lia). rewrite take_take. f_equal. lia. }
    destruct (IH (k - 1) (omitted + 1)%Z) as (k' & Hk & ->); [lia..|].
    exists k'. split; [lia|]. f_equal. lia.
  - exists k. split; [lia|]. f_equal. lia.
Qed.

Lemma boundPath_spec (start : jstr) (middle : list jstr) (root : jstr) :
  exists k, k <= length middle /\
    boundPath (start :: middle ++ [root]) =
      (start :: take k middle ++ [root], Z.of_nat (length middle - k)).
Proof.
  unfold boundPath. set (full := start :: middle ++ [root]).
  assert (full = take (S (length middle)) full ++ [root]) as He.
  { unfold full. simpl. by rewrite take_app_length. }
  destruct (bound_path_spec full root (length full) (S (length middle)) 0) as (k & Hk & Hb).
  - lia.
  - unfold full. simpl. rewrite length_app. simpl. lia.
  - rewrite <- He in Hb. destruct k as [|k]; [lia|]. exists k. split; [lia|].
    rewrite Hb. unfold full. simpl. rewrite take_app_le by lia. done.
Qed.

(** ** Ways to a refused instance *)

Fixpoint chained (W : jstr -> jstr -> Prop) (p : list jstr) : Prop :=
  match p with
  | a :: ((b :: _) as r) => W a b /\ chained W r
  | _ => True
  end.

(** From [k] through instances that are not refused to a refused one. *)
Definition waiting_path (l : list availability_node) (edges : list availability_edge)
    (k : jstr) (middle : list jstr) (root : jstr) : Prop :=
  refused_key l root /\ Forall (fun v => ~ refused_key l v) (k :: middle) /\
  chained (waits_for l edges) (k :: middle ++ [root]).

Lemma waiting_path_iff l byKey edges k middle root :
  index_nodes l [] = Ok byKey ->
  blocking_path (roots_of byKey) (adjacency_of byKey edges) k middle root <-> waiting_path l edges k middle root.
Proof.
  intros Hi. unfold blocking_path, waiting_path. rewrite (index_roots _ _ Hi).
  assert (Forall (fun v => v ∉ roots_of byKey) (k :: middle) <-> Forall (fun v => ~ refused_key l v) (k :: middle)) as ->.
  { rewrite !Forall_forall. setoid_rewrite (index_roots _ _ Hi). done. }
  assert (forall p, trail (adjacency_of byKey edges) p <-> chained (waits_for l edges) p) as ->; [|done].
  induction p as [|a [|b p] IH]; [done|done|]. cbn [trail chained]. by rewrite IH, (targets_spec _ _ Hi).
Qed.

(** ** The decision on a node *)

(** The cause a blocked outcome names: a shortest way to a refused instance,
    its first step, the outcome of its end, and how many refused instances
    hold the node besides. *)
Definition cause_named (l : list availability_node) (edges : list availability_edge)
    (n : availability_node) (o : outcome) : Prop :=
  oc_state o = Blocked /\ oc_key o = an_key n /\ oc_ref o = an_ref n /\
  exists middle root rn ro dn k rs,
    waiting_path l edges (an_key n) middle root /\
    (forall middle' root', waiting_path l edges (an_key n) middle' root' -> length middle <= length middle') /\
    (rn ∈ l /\ an_key rn = root /\ validateHardwareOutcome (an_refusal rn) = Ok ro /\
     oc_rootCause o = oc_rootCause ro) /\
    (dn ∈ l /\ waits_for l edges (an_key n) (an_key dn) /\ an_key dn = default root (head middle) /\
     oc_blockedBy o = Some (an_key dn, an_ref dn)) /\
    (k <= length middle /\ oc_causalPath o = an_key n :: take k middle ++ [root] /\
     oc_omittedPathCount o = Z.of_nat (length middle - k)) /\
    (NoDup rs /\ (forall r, r ∈ rs <-> exists m, waiting_path l edges (an_key n) m r) /\
     oc_additionalCauseCount o = (Z.of_nat (length rs) - 1)%Z).

Definition decided (l : list availability_node) (edges : list availability_edge)
    (n : availability_node) (a : availability) : Prop :=
  match a with
  | RefusedBy o => refused_node n = true /\ validateHardwareOutcome (an_refusal n) = Ok o
  | Eligible => refused_node n = false /\ ~ held (waits_for l edges) (refused_key l) (an_key n)
  | BlockedBy o =>
      refused_node n = false /\ held (waits_for l edges) (refused_key l) (an_key n) /\
      cause_named l edges n o
  end.

Section Decision.
Context `{Sha256}.
Context (l : list availability_node) (byKey : jmap jstr availability_node) (edges : list availability_edge).
Hypothesis indexed : index_nodes l [] = Ok byKey.

Lemma indexed_node_key k : k ∈ an_key <$> l -> node_at byKey k ∈ l /\ an_key (node_at byKey k) = k.
Proof.
  intros (n & -> & Hn)%list_elem_of_fmap. unfold node_at.
  by rewrite (proj2 (index_get _ _ indexed (an_key n) n)).
Qed.

Lemma node_at_node n : n ∈ l -> node_at byKey (an_key n) = n.
Proof. intros Hn. unfold node_at. by rewrite (proj2 (index_get _ _ indexed (an_key n) n)). Qed.

Lemma waiting_path_ends k middle root : waiting_path l edges k middle root ->
  waits_for l edges k (default root (head middle)) /\ root ∈ an_key <$> l.
Proof.
  intros ((n & Hn & <- & _) & _ & Hc). split; [|by apply list_elem_of_fmap_2].
  destruct middle as [|m middle]; by destruct Hc.
Qed.

(** What a validated blocked outcome holds. *)
Lemma blocked_js_reads n middle root ro dn (rs : list jstr) v o :
  validateHardwareOutcome v = Ok ro ->
  validateHardwareOutcome (blocked_js n (an_key n :: middle ++ [root]) ro dn (length rs)) = Ok o ->
  1 <= length rs ->
  oc_state o = Blocked /\ oc_key o = an_key n /\ oc_ref o = an_ref n /\ oc_rootCause o = oc_rootCause ro /\
  oc_blockedBy o = Some (an_key dn, an_ref dn) /\
  oc_additionalCauseCount o = (Z.of_nat (length rs) - 1)%Z /\
  exists k, k <= length middle /\ oc_causalPath o = an_key n :: take k middle ++ [root] /\
    oc_omittedPathCount o = Z.of_nat (length middle - k).
Proof.
  intros Hro Ho Hrs. apply validate_sound in Hro as [].
  destruct (boundPath_spec (an_key n) middle root) as (k & Hk & Hb).
  unfold blocked_js in Ho. rewrite Hb in Ho.
  apply validate_reads in Ho as (R1 & R2 & R3 & R4 & R5 & R6 & R7 & R8).
  match type of R4 with validateRoot ?t = _ => change t with (root_js (oc_rootCause ro)) in R4 end.
  rewrite (validateRoot_complete _ ov_root) in R4. injection R4 as R4.
  specialize (R6 (an_key dn) (an_ref dn) eq_refl). symmetry in R4.
  change (Str (an_key n) = Str (oc_key o)) in R1. change (Str (an_ref n) = Str (oc_ref o)) in R2.
  change (Str "blocked" = Str (state_text (oc_state o))) in R3.
  change (Num (Fin (Z.of_nat (length middle - k))) = Num (Fin (oc_omittedPathCount o))) in R7.
  change (Num (Fin (Z.max 0 (Z.of_nat (length rs) - 1))) = Num (Fin (oc_additionalCauseCount o))) in R8.
  injection R1 as R1. injection R2 as R2. injection R7 as R7. injection R8 as R8.
  split; [by destruct (oc_state o)|]. split; [done|]. split; [done|]. split; [done|]. split; [done|].
  split; [lia|]. exists k. split; [done|]. split; [|done].
  change (validate_path (Arr (Str <$> (an_key n :: take k middle ++ [root]))) (oc_key o) (oc_rootCause o) =
    Ok (oc_causalPath o)) in R5.
  unfold validate_path in R5. unbind.
  match goal with H : mapM_result _ _ = _ |- _ => by apply mapM_keys_same in H end.
Qed.

Lemma classify_node_decided n a :
  n ∈ l -> classify_node byKey (adjacency_of byKey edges) (an_key n) = Ok a -> decided l edges n a.
Proof.
  intros Hn. unfold classify_node. rewrite node_at_node by done.
  pose proof (index_refused _ _ indexed n Hn) as Href.
  destruct (refused_node n) eqn:Hr.
  { intros (o & Ho & [= <-])%result_bind_Ok. split; [done|].
    by destruct (validateHardwareOutcome (an_refusal n)) as [o'|] eqn:Hv; simpl in Ho; simplify_eq. }
  assert (~ refused_key l (an_key n)) as Hnr by (rewrite Href; done).
  assert (an_key n ∉ roots_of byKey) as Hns by (by rewrite (index_roots _ _ indexed)).
  pose proof (shortest_path_spec (roots_of byKey) (adjacency_of byKey edges) (an_key n) Hns) as Hp.
  destruct (shortestPathToRoot _ _ _) as [path|].
  - destruct Hp as (middle & root & -> & Hb & Hmin).
    destruct (reachable_roots_spec (roots_of byKey) (adjacency_of byKey edges) (an_key n) Hns) as [Hnd Hrs].
    set (rs := reachableRoots _ _ _) in *.
    pose proof (proj1 (waiting_path_iff _ _ _ _ _ _ indexed) Hb) as Hw.
    destruct (waiting_path_ends _ _ _ Hw) as [Hfirst Hroot].
    intros (ro & Hro & (o & Ho & [= <-])%result_bind_Ok)%result_bind_Ok.
    assert (last (an_key n :: middle ++ [root]) = Some root) as Hlast
      by (rewrite app_comm_cons; apply last_snoc).
    rewrite Hlast in Hro. simpl default in Hro.
    assert (default ([] : jstr) ((an_key n :: middle ++ [root]) !! 1) = default root (head middle)) as Hd
      by (by destruct middle).
    rewrite Hd in Ho. destruct (indexed_node_key root Hroot) as [Hrn Hrk].
    destruct (indexed_node_key _ (proj1 (proj2 Hfirst))) as [Hdn Hdk].
    set (rn := node_at byKey root) in *. set (dn := node_at byKey (default root (head middle))) in *.
    assert (validateHardwareOutcome (an_refusal rn) = Ok ro) as Hro'
      by (destruct (validateHardwareOutcome (an_refusal rn)); simpl in Hro; by simplify_eq).
    assert (validateHardwareOutcome (blocked_js n (an_key n :: middle ++ [root]) ro dn (length rs)) = Ok o) as Ho'
      by (destruct (validateHardwareOutcome _) eqn:Hv in Ho; simpl in Ho; by simplify_eq).
    destruct (blocked_js_reads n middle root ro dn rs _ _ Hro' Ho')
      as (H1 & H2 & H3 & H4 & H5 & H6 & k & H7 & H8 & H9).
    { assert (root ∈ rs) as Hin by (apply Hrs; by exists middle). destruct rs; [by apply not_elem_of_nil in Hin|].
      simpl. lia. }
    split; [done|]. split; [apply (held_paths _ _ indexed); [done|by exists middle, root]|].
    split; [done|]. split; [done|]. split; [done|].
    exists middle, root, rn, ro, dn, k, rs. split; [done|]. split.
    { intros middle' root' Hw'. apply (Hmin middle' root'). by apply (waiting_path_iff _ _ _ _ _ _ indexed). }
    split; [done|]. split; [split_and!; [exact Hdn|by rewrite Hdk|exact Hdk|exact H5]|]. split; [done|]. split; [done|].
    split; [|done]. intros r. rewrite Hrs. setoid_rewrite (waiting_path_iff _ _ _ _ _ _ indexed). done.
  - intros [= <-]. split; [done|]. intros (middle & root & Hb)%(held_paths _ _ indexed); [|done].
    by apply (Hp middle root).
Qed.
End Decision.

(** ** All nodes *)

Lemma mapM_keyed {A} (f : jstr -> availabilityR A) keys result :
  mapM_result (fun k => a ← f k; Ok (k, a)) keys = Ok result ->
  map_keys result = keys /\ forall k a, (k, a) ∈ result -> f k = Ok a.
Proof.
  revert result. induction keys as [|k keys IH]; intros result; simpl.
  { intros [= <-]. split; [done|]. by intros ? ? ?%not_elem_of_nil. }
  intros ((k', a) & (a' & Ha & [= <- <-])%result_bind_Ok & (rest & Hr & [= <-])%result_bind_Ok)%result_bind_Ok.
  destruct (IH _ Hr) as [Hk Hf]. split; [unfold map_keys in *; csimpl; by rewrite Hk|].
  intros x b [[= -> ->]|Hx]%elem_of_cons; [done|by apply Hf].
Qed.

Lemma classified `{Sha256} l edges result :
  classifyAvailability l edges = Ok result ->
  map_keys result = stable_sort unit_le (an_key <$> l) /\ NoDup (an_key <$> l) /\
  forall n, n ∈ l -> exists a, map_get (an_key n) result = Some a /\ decided l edges n a.
Proof.
  unfold classifyAvailability. intros (byKey & Hi & Hm)%result_bind_Ok.
  apply mapM_keyed in Hm as [Hk Hf]. rewrite (index_keys _ _ Hi) in Hk.
  destruct (index_nodes_nil _ _ Hi) as (_ & _ & Hnd). split; [done|]. split; [done|]. intros n Hn.
  assert (an_key n ∈ map_keys result) as Hin.
  { rewrite Hk, stable_sort_Permutation. by apply list_elem_of_fmap_2. }
  apply list_elem_of_fmap in Hin as ([k a] & Hka & Hin). simpl in Hka. subst k. exists a. split.
  - apply map_get_in; [|done]. unfold map_wf. change (NoDup (map_keys result)).
    by rewrite Hk, stable_sort_Permutation.
  - by apply (classify_node_decided _ _ _ Hi); [|apply Hf].
Qed.

Lemma held_reach W R k : held W R k <-> exists v, tc W k v /\ R v.
Proof.
  split.
  - induction 1 as [k v Hw Hv|k v Hw _ (r & Hr & Hv)]; [exists v|exists r]; split; [by apply tc_once|done|by eapply tc_l|done].
  - intros (v & Ht & Hv). induction Ht as [k v Hw|k u v Hw _ IH]; [by apply held_by_refused with v|].
    apply held_by_held with u; auto.
Qed.

Lemma decided_eligible l edges n a :
  decided l edges n a ->
  a = Eligible <-> refused_node n = false /\ ~ held (waits_for l edges) (refused_key l) (an_key n).
Proof.
  destruct a as [o| |o]; simpl; [|tauto|].
  - intros [Hr _]. split; [done|]. intros [Hr' _]. congruence.
  - intros (_ & Hh & _). split; [done|]. tauto.
Qed.

Lemma same_key (l : list availability_node) n m :
  NoDup (an_key <$> l) -> n ∈ l -> m ∈ l -> an_key n = an_key m -> n = m.
Proof.
  induction l as [|x l IH]; [by intros _ ?%not_elem_of_nil|]. csimpl. rewrite NoDup_cons.
  intros [Hx Hl] [->|Hn]%elem_of_cons [->|Hm]%elem_of_cons He; try done.
  - destruct Hx. rewrite He. by apply list_elem_of_fmap_2.
  - destruct Hx. rewrite <- He. by apply list_elem_of_fmap_2.
  - by apply IH.
Qed.

(** ** The graph *)

Section Graph.
Context `{Collation}.
Context (g : graph) (keyOf : jstr -> jstr).

(** An instance requires another when its node has the other as a dependency or
    as the end of a cycle, by an edge that waits, and both have keys. *)
Definition requires (u v : jstr) : Prop :=
  exists id n child, (id, n) ∈ nodes g /\ keyOf id = u /\ keyOf child = v /\ u <> [] /\ v <> [] /\
    ((child ∈ n_dependencies n /\ edge_noWait (n_dependencyEdges n) child = false) \/
     (child ∈ map_keys (n_cycleBackedges n) /\ edge_noWait (n_cycleBackedges n) child = false)).

Definition joins (es : list availability_edge) (u v : jstr) : Prop :=
  exists e, e ∈ es /\ fromKey e = u /\ toKey e = v.

Lemma manifest_edge from to backedge :
  from <> [] -> to <> [] ->
  availabilityEdge from to "blocking" "manifest" backedge = Ok (AvailabilityEdge from to "blocking" "manifest" backedge).
Proof.
  intros Hf Ht. unfold availabilityEdge. apply truthy_true in Hf, Ht. by rewrite Hf, Ht.
Qed.

Lemma edges_to_spec from noWait backedge children : from <> [] ->
  exists es, edges_to keyOf from noWait backedge children = Ok es /\
  forall u v, joins es u v <->
    u = from /\ exists child, child ∈ children /\ noWait child = false /\ keyOf child = v /\ v <> [].
Proof.
  intros Hf. induction children as [|c children (es & He & Hes)]; simpl.
  { exists []. split; [done|]. intros u v. split; [by intros (e & ?%not_elem_of_nil & _)|].
    by intros (_ & c & ?%not_elem_of_nil & _). }
  destruct (noWait c || negb (truthy (keyOf c))) eqn:Hc.
  - exists es. split; [done|]. intros u v. rewrite Hes. setoid_rewrite elem_of_cons.
    split; [naive_solver|]. intros (-> & child & [->|Hin] & Hn & <- & Hne); [|naive_solver].
    rewrite Hn in Hc. apply truthy_true in Hne. by rewrite Hne in Hc.
  - apply orb_false_iff in Hc as [Hn Ht%negb_false_iff]. apply truthy_true in Ht.
    rewrite manifest_edge by done. cbn [mbind result_bind]. rewrite He. cbn [mbind result_bind].
    eexists. split; [done|]. intros u v. split.
    + intros (e & [->|Hin]%elem_of_cons & Hu & Hv).
      * simpl in *. subst. split; [done|]. exists c. split_and!; try done. apply list_elem_of_here.
      * destruct (proj1 (Hes u v)) as (-> & child & ?); [by exists e|].
        split; [done|]. exists child. rewrite elem_of_cons. tauto.
    + intros (-> & child & [->|Hin]%elem_of_cons & Hnw & <- & Hne).
      * eexists. split; [apply list_elem_of_here|]. done.
      * destruct (proj2 (Hes from (keyOf child))) as (e & He1 & He2); [split; [done|by exists child]|].
        exists e. split; [apply elem_of_cons; by right|done].
Qed.

Lemma joins_app es es' u v : joins (es ++ es') u v <-> joins es u v \/ joins es' u v.
Proof. unfold joins. setoid_rewrite elem_of_app. naive_solver. Qed.

(** What a node of the graph requires. *)
Definition node_requires (id : jstr) (n : node) (u v : jstr) : Prop :=
  keyOf id = u /\ u <> [] /\ exists child, keyOf child = v /\ v <> [] /\
    ((child ∈ n_dependencies n /\ edge_noWait (n_dependencyEdges n) child = false) \/
     (child ∈ map_keys (n_cycleBackedges n) /\ edge_noWait (n_cycleBackedges n) child = false)).

Lemma node_edges_spec id n :
  exists es, node_edges keyOf (id, n) = Ok es /\ forall u v, joins es u v <-> node_requires id n u v.
Proof.
  unfold node_edges. simpl. destruct (truthy (keyOf id)) eqn:Ht; simpl.
  - apply truthy_true in Ht.
    destruct (edges_to_spec (keyOf id) (edge_noWait (n_dependencyEdges n)) false
      (stable_sort unit_le (n_dependencies n)) Ht) as (es1 & -> & H1).
    destruct (edges_to_spec (keyOf id) (edge_noWait (n_cycleBackedges n)) true
      (stable_sort id_le (map_keys (n_cycleBackedges n))) Ht) as (es2 & -> & H2).
    cbn [mbind result_bind]. eexists. split; [done|]. intros u v. rewrite joins_app, H1, H2.
    setoid_rewrite stable_sort_Permutation. unfold node_requires. naive_solver.
  - exists []. split; [done|]. apply truthy_false in Ht. intros u v. split.
    + by intros (e & ?%not_elem_of_nil & _).
    + intros (<- & Hne & _). done.
Qed.

Lemma manifest_edges_spec (ns : list (jstr * node)) :
  exists ess, mapM_result (node_edges keyOf) ns = Ok ess /\
    forall u v, joins (concat ess) u v <-> exists id n, (id, n) ∈ ns /\ node_requires id n u v.
Proof.
  induction ns as [|[id n] ns (ess & He & Hes)].
  - exists []. split; [done|]. intros u v. split; [by intros (e & ?%not_elem_of_nil & _)|].
    by intros (? & ? & ?%not_elem_of_nil & _).
  - destruct (node_edges_spec id n) as (es & Hn & Hns). cbn [mapM_result]. rewrite Hn, He.
    eexists. split; [done|]. intros u v. simpl. rewrite joins_app, Hns, Hes.
    setoid_rewrite elem_of_cons. naive_solver.
Qed.

(** The waits of the scheduler, which have keys. *)
Definition wait_edge (w : explicit_wait) : availabilityR availability_edge :=
  availabilityEdge (w_from w) (w_to w) "explicit-status-wait" "scheduler" (w_backedge w).

Lemma wait_edges_spec ws es : mapM_result wait_edge ws = Ok es ->
  forall u v, joins es u v <-> exists w, w ∈ ws /\ w_from w = u /\ w_to w = v.
Proof.
  revert es. induction ws as [|w ws IH]; intros es; simpl.
  - intros [= <-] u v. split; [by intros (e & ?%not_elem_of_nil & _)|by intros (? & ?%not_elem_of_nil & _)].
  - intros (e & He & (es' & Hes & [= <-])%result_bind_Ok)%result_bind_Ok u v.
    assert (fromKey e = w_from w /\ toKey e = w_to w) as [Hf Ht].
    { unfold wait_edge, availabilityEdge in He. destruct (_ || _); [done|]. by injection He as <-. }
    assert (joins (e :: es') u v <-> (fromKey e = u /\ toKey e = v) \/ joins es' u v) as ->.
    { unfold joins. setoid_rewrite elem_of_cons. naive_solver. }
    rewrite (IH es' Hes u v), Hf, Ht. setoid_rewrite elem_of_cons. naive_solver.
Qed.

(** What an instance waits for: what its node requires, and the waits of the scheduler. *)
Definition awaits (ws : list explicit_wait) (u v : jstr) : Prop :=
  requires u v \/ exists w, w ∈ ws /\ w_from w = u /\ w_to w = v.

Lemma graph_edges_spec ws es :
  blockingEdgesFromGraph g keyOf ws = Ok es -> forall u v, joins es u v <-> awaits ws u v.
Proof.
  unfold blockingEdgesFromGraph.
  destruct (manifest_edges_spec (stable_sort (fun a b => id_le a.1 b.1) (nodes g))) as (ess & -> & Hes).
  cbn [mbind result_bind]. fold wait_edge. intros (wes & Hws & [= <-])%result_bind_Ok u v.
  rewrite joins_app, Hes, (wait_edges_spec ws wes Hws). unfold awaits, requires, node_requires.
  setoid_rewrite stable_sort_Permutation. naive_solver.
Qed.
End Graph.

(** ** The properties *)

(** C12. Classification decides every instance as the specification says: an
    instance whose own limits are unenforceable is refused with its outcome;
    one that waits for a refused instance, directly or through others, is
    blocked, and its outcome names a shortest way to the refusal, the first
    step of it, and how many refused instances hold it; any other is eligible.
    The result lists the instances in the order of their keys. *)
Theorem availability_decided `{Sha256} (l : list availability_node) (edges : list availability_edge)
    (result : jmap jstr availability) :
  classifyAvailability l edges = Ok result ->
  map_keys result = stable_sort unit_le (an_key <$> l) /\ NoDup (an_key <$> l) /\
  forall n, n ∈ l -> exists a, map_get (an_key n) result = Some a /\ decided l edges n a.
Proof. apply classified. Qed.

(** C15. Over the dependency graph, an instance may start exactly when neither it
    nor any instance it waits for, directly or through others that are classified,
    is refused.  It waits for what its node requires, by a dependency or the
    back edge of a cycle, and for what the scheduler makes it wait for; a
    dependency that is not waited for never blocks, and a cycle of waits blocks
    only through a refusal. *)
Theorem only_requirements_block `{Collation, Sha256} (g : graph) (keyOf : jstr -> jstr) (ws : list explicit_wait)
    (l : list availability_node) (result : jmap jstr availability) (n : availability_node) :
  (edges ← blockingEdgesFromGraph g keyOf ws; classifyAvailability l edges) = Ok result -> n ∈ l ->
  map_get (an_key n) result = Some Eligible <->
  forall m, m ∈ l -> rtc (fun u v => v ∈ an_key <$> l /\ awaits g keyOf ws u v) (an_key n) (an_key m) ->
    refused_node m = false.
Proof.
  intros (es & Hg & Hc)%result_bind_Ok Hn. pose proof (graph_edges_spec g keyOf ws es Hg) as Hes.
  apply classified in Hc as (_ & Hnd & Hd). destruct (Hd n Hn) as (a & -> & Ha). apply decided_eligible in Ha.
  assert (forall u v, u ∈ an_key <$> l -> waits_for l es u v <-> v ∈ an_key <$> l /\ awaits g keyOf ws u v) as Hw.
  { intros u v Hu. unfold waits_for. rewrite <- Hes. unfold joins. tauto. }
  assert (forall m, m ∈ l -> refused_key l (an_key m) -> refused_node m = true) as Hrefused.
  { intros m Hm (m' & Hm' & He & Hr'). by rewrite <- (same_key _ _ _ Hnd Hm' Hm He). }
  set (reaches := rtc _).
  assert (forall u v, u ∈ an_key <$> l -> reaches u v <-> u = v \/ tc (waits_for l es) u v) as Hreach.
  { intros u v Hu. split.
    - intros Hr. revert Hu. induction Hr as [u|u w v Huw _ IH]; intros Hu; [by left|right].
      assert (waits_for l es u w) as Hw' by by apply Hw. destruct Huw as [Hwl _].
      destruct (IH Hwl) as [<- | Ht]; [by apply tc_once|by eapply tc_l].
    - intros [<- | Ht]; [reflexivity|]. induction Ht as [u v Huv|u w v Huw _ IH].
      + apply rtc_once. by apply Hw.
      + apply rtc_l with w; [by apply Hw|]. apply IH. apply Huw. }
  assert (Some a = Some Eligible <-> a = Eligible) as -> by (split; congruence).
  rewrite Ha, held_reach. apply (list_elem_of_fmap_2 an_key) in Hn as Hk. split.
  - intros [Hr Hh] m Hm [He | Ht]%Hreach; [by rewrite <- (same_key _ _ _ Hnd Hn Hm He)| |done].
    destruct (refused_node m) eqn:Hrm; [|done]. destruct Hh. exists (an_key m). split; [done|by exists m].
  - intros Hall. split; [apply (Hall n Hn), Hreach; auto|]. intros (v & Ht & m & Hm & <- & Hrm).
    specialize (Hall m Hm). rewrite Hreach in Hall by done. rewrite Hall in Hrm by auto. done.
Qed.

(** ** Instances *)

(** Digests of 64 hexadecimal digits. *)
Definition sample_sha256 : Sha256 := fun _ => repeat 97%N 64.

(** [web] waits for [db], which waits for the refused [cache]; [web] also names
    the refused [stats], which it does not wait for. *)
Definition sample_graph_node (id : jstr) (edges : list (jstr * bool)) : jstr * node :=
  (id, Node id id id id "default" false "r" id [] Null (Isolated "none") [] (edges.*1) [] edges [] false []).

Definition sample_graph : graph :=
  Graph "web" [sample_graph_node "web" [("db", false); ("stats", true)];
               sample_graph_node "db" [("cache", false)];
               sample_graph_node "cache" []; sample_graph_node "stats" []].

Definition sample_nodes : list availability_node :=
  [AvailabilityNode "web" "r/web" Null Null; AvailabilityNode "db" "r/db" Null Null;
   AvailabilityNode "cache" "r/cache" Null (outcome_js (sample_refusal "cache" "r/cache"));
   AvailabilityNode "stats" "r/stats" Null (outcome_js (sample_refusal "stats" "r/stats"))].

#[local] Existing Instance sample_sha256.
#[local] Existing Instance unit_collation.

Definition sample_edges : list availability_edge :=
  [AvailabilityEdge "db" "cache" "blocking" "manifest" false;
   AvailabilityEdge "web" "db" "blocking" "manifest" false].

Example availability_decided_witness :
  exists result a, classifyAvailability sample_nodes sample_edges = Ok result /\
    map_get "web" result = Some a /\
    decided sample_nodes sample_edges (AvailabilityNode "web" "r/web" Null Null) a.
Proof.
  assert (exists result, classifyAvailability sample_nodes sample_edges = Ok result) as [result Hr]
    by (vm_compute; by eexists).
  destruct (availability_decided sample_nodes sample_edges result Hr) as (_ & _ & Hd).
  destruct (Hd (AvailabilityNode "web" "r/web" Null Null)) as (a & Ha & Hda).
  { apply list_elem_of_here. }
  exists result, a. split; [exact Hr|]. split; [exact Ha|exact Hda].
Defined.

(** The scheduler makes [cron] wait for [db]. *)
Definition waiting_nodes : list availability_node := AvailabilityNode "cron" "r/cron" Null Null :: sample_nodes.

Example only_requirements_block_witness :
  exists result,
    (edges ← blockingEdgesFromGraph sample_graph (fun id => id) [ExplicitWait "cron" "db" false];
     classifyAvailability waiting_nodes edges) = Ok result /\
    (map_get "cron" result = Some Eligible <->
     forall m, m ∈ waiting_nodes ->
       rtc (fun u v => v ∈ an_key <$> waiting_nodes /\
              awaits sample_graph (fun id => id) [ExplicitWait "cron" "db" false] u v) "cron" (an_key m) ->
       refused_node m = false).
Proof.
  assert (exists result,
    (edges ← blockingEdgesFromGraph sample_graph (fun id => id) [ExplicitWait "cron" "db" false];
     classifyAvailability waiting_nodes edges) = Ok result) as [result Hr] by (vm_compute; by eexists).
  exists result. split; [exact Hr|].
  apply (only_requirements_block sample_graph (fun id => id) [ExplicitWait "cron" "db" false] waiting_nodes result
    (AvailabilityNode "cron" "r/cron" Null Null) Hr). apply list_elem_of_here.
Defined.
