(* ===== verification/AvailabilityTotality.v ===== *)
(** Classification returns: for instances with ordinary names and refusals of
    ordinary size no bound of an outcome is exceeded. *)

From stdpp Require Import prelude.
From Stdlib Require Import NArith.
From S2P Require Import Prelude.
From S2P Require Import JsString.
From S2P Require Import JsNumber.
From S2P Require Import JsDecimal.
From S2P Require Import JsMap.
From S2P Require Import JsValue.
From S2P Require Import JsJson.
From S2P Require Import HttpRoutePath.
From S2P Require Import HttpRouteCompiler.
From S2P Require Import NetworkContract.
From S2P Require Import CanonicalHash.
From S2P Require Import HardwareOutcome.
From S2P Require Import HardwareOutcomeTheorems.
From S2P Require Import Availability.
From S2P Require Import AvailabilitySearch.
From S2P Require Import AvailabilityTheorems.

Local Open Scope js_scope.

(** ** Printable texts *)

(** Units JSON writes as they are, in one byte. *)
Definition plain_unit (c : N) : bool :=
  ((32 <=? c)%N && (c <? 127)%N) && negb ((c =? 34)%N || (c =? 92)%N).

Definition plain (s : jstr) : bool := forallb plain_unit s.
Definition ascii (s : jstr) : bool := forallb (fun c => (c <? 128)%N) s.

Lemma plain_app a b : plain (a ++ b) = plain a && plain b.
Proof. apply forallb_app. Qed.

Lemma ascii_app a b : ascii (a ++ b) = ascii a && ascii b.
Proof. apply forallb_app. Qed.

Lemma plain_unit_range c : plain_unit c = true -> (32 <= c < 127)%N /\ c <> 34%N /\ c <> 92%N.
Proof.
  unfold plain_unit. rewrite !andb_true_iff, negb_true_iff, orb_false_iff, N.leb_le, N.ltb_lt, !N.eqb_neq. tauto.
Qed.

Lemma plain_ascii s : plain s = true -> ascii s = true.
Proof.
  unfold plain, ascii. rewrite !forallb_forall. intros H c Hc. apply N.ltb_lt.
  pose proof (plain_unit_range c (H c Hc)). lia.
Qed.

Lemma byte_length_ascii s : ascii s = true -> byte_length s = length s.
Proof.
  induction s as [|c s IH]; [done|]. simpl. intros [Hc Hs]%andb_true_iff. by rewrite Hc, IH.
Qed.

Lemma has_unit_plain s : plain s = true -> has_unit 0 s = false.
Proof.
  intros Hp. apply not_true_iff_false. unfold has_unit. intros (c & Hc & He%N.eqb_eq)%existsb_exists.
  unfold plain in Hp. rewrite forallb_forall in Hp. pose proof (plain_unit_range c (Hp c Hc)). lia.
Qed.

Lemma bounded_plain max e s :
  plain s = true -> length s <= max -> (e = true \/ s <> []) -> bounded max e s = true.
Proof.
  intros Hp Hl He. unfold bounded. rewrite (has_unit_plain s Hp), byte_length_ascii by by apply plain_ascii.
  rewrite (proj2 (Nat.leb_le _ _) Hl), !andb_true_r. destruct He as [->|Hn]; [done|].
  apply truthy_true in Hn. rewrite Hn. apply orb_true_r.
Qed.

Lemma plain_json s : plain s = true -> json_units s = s.
Proof.
  induction s as [|c s IH]; [done|]. simpl. intros [Hc Hs]%andb_true_iff. rewrite (IH Hs).
  destruct (plain_unit_range c Hc) as (Hr & H34 & H92).
  unfold is_high_surrogate, is_low_surrogate.
  rewrite (proj2 (N.leb_gt 55296 c)), (proj2 (N.leb_gt 56320 c)) by lia. simpl. unfold json_unit.
  rewrite (proj2 (N.eqb_neq c 34)), (proj2 (N.eqb_neq c 92)) by done.
  rewrite (proj2 (N.eqb_neq c 8)), (proj2 (N.eqb_neq c 9)), (proj2 (N.eqb_neq c 10)),
    (proj2 (N.eqb_neq c 12)), (proj2 (N.eqb_neq c 13)), (proj2 (N.ltb_ge c 32)) by lia. done.
Qed.

(** [v] is printed in ASCII with at most [n] units. *)
Definition prints (v : js) (n : nat) : Prop :=
  exists t, json_text v = Some t /\ ascii t = true /\ length t <= n.

Lemma prints_weaken v n m : prints v n -> n <= m -> prints v m.
Proof. intros (t & ? & ? & ?) ?. exists t. split_and!; [done|done|lia]. Qed.

Lemma json_quote_plain s : plain s = true -> ascii (json_quote s) = true /\ length (json_quote s) = length s + 2.
Proof.
  intros Hp. unfold json_quote. rewrite (plain_json s Hp). split.
  - simpl. rewrite ascii_app, (plain_ascii s Hp). done.
  - simpl. rewrite length_app. simpl. lia.
Qed.

Lemma prints_str s n : plain s = true -> length s <= n -> prints (Str s) (n + 2).
Proof.
  intros Hp Hl. destruct (json_quote_plain s Hp) as [Ha Hn]. exists (json_quote s). split_and!; [done|done|lia].
Qed.

Lemma prints_null n : 4 <= n -> prints Null n.
Proof. intros H. exists "null". by split_and!. Qed.

(** The digits of a number below [10 ^ k]. *)
Lemma decimal_digits_length fuel k n acc :
  (n < 10 ^ N.of_nat k)%N -> 1 <= k -> length (decimal_digits fuel n acc) <= k + length acc.
Proof.
  revert k n acc. induction fuel as [|fuel IH]; intros k n acc Hn Hk; simpl; [lia|].
  destruct (N.ltb_spec n 10); [simpl; lia|]. destruct k as [|[|k]]; [lia| |].
  - change (10 ^ N.of_nat 1)%N with 10%N in Hn. lia.
  - rewrite (IH (S k)); [simpl; lia| |lia]. apply N.Div0.div_lt_upper_bound.
    rewrite Nat2N.inj_succ, N.pow_succ_r' in Hn. done.
Qed.

Lemma prints_num z : (0 <= z < 10 ^ 10)%Z -> prints (Num (Fin z)) 10.
Proof.
  intros Hz. exists (string_of_Z z). split; [done|].
  destruct (string_of_Z_spec z) as [Hd _]; [lia|]. split.
  - unfold is_decimal in Hd. apply andb_true_iff in Hd as [_ Hd]. unfold ascii. rewrite forallb_forall in Hd |- *.
    intros c Hc. specialize (Hd c Hc). unfold is_digit in Hd. apply andb_true_iff in Hd as [_ Hd%N.leb_le].
    apply N.ltb_lt. lia.
  - assert (string_of_Z z = string_of_N (Z.to_N z)) as -> by (by destruct z; [done|done|lia]).
    unfold string_of_N. rewrite (decimal_digits_length _ 10); [simpl; lia| |lia].
    change (10 ^ N.of_nat 10)%N with 10000000000%N. lia.
Qed.

Lemma join_size (ws : list jstr) :
  ascii (join "," ws) = forallb ascii ws /\
  length (join "," ws) <= foldr (fun w n => length w + 1 + n) 0 ws.
Proof.
  induction ws as [|w ws [IH1 IH2]]; [done|]. destruct ws as [|w' ws].
  - simpl. rewrite andb_true_r. split; [done|lia].
  - rewrite join_cons by done. rewrite !ascii_app, !length_app, IH1. simpl in *. split; [done|lia].
Qed.

(** The fields of an object, each with a bound. *)
Lemma prints_obj (l : list (jstr * js)) (sizes : list nat) :
  Forall2 (fun f n => plain f.1 = true /\ prints f.2 n) l sizes ->
  prints (Obj l) (2 + foldr (fun f n => length f.1 + 4 + n) 0 l + foldr Nat.add 0 sizes).
Proof.
  intros H. unfold prints. cbn [json_text]. match goal with |- context [join "," (?f l)] => set (texts := f) end.
  assert (forallb ascii (texts l) = true /\
    foldr (fun w n => length w + 1 + n) 0 (texts l) <=
    foldr (fun f n => length f.1 + 4 + n) 0 l + foldr Nat.add 0 sizes) as [Ha Hl].
  { induction H as [|[k v] n l sizes [Hk (t & Ht & Hta & Htn)] _ [IH1 IH2]]; [done|].
    destruct (json_quote_plain k Hk) as [Hqa Hql]. simpl in Hk, Ht.
    assert (texts ((k, v) :: l) = (json_quote k ++ ":" ++ t) :: texts l) as -> by (simpl; by rewrite Ht).
    cbn [forallb foldr fst]. rewrite !ascii_app, !length_app, Hqa, Hql, Hta, IH1. split; [done|].
    simpl in *. lia. }
  destruct (join_size (texts l)) as [Hja Hjl]. eexists. split; [done|]. split.
  - rewrite !ascii_app, Hja, Ha. done.
  - rewrite !length_app. simpl length at 1 3. lia.
Qed.

(** ** The length of a path that is found *)

Section Length.
Context (roots : list jstr) (adjacency : jmap jstr (list jstr)) (start : jstr).

Notation unmet := (unmet adjacency start).

Lemma discover_count current previous queue next previous' queue' :
  next ∈ universe adjacency start -> discover current (previous, queue) next = (previous', queue') ->
  unmet previous' + map_size previous' <= unmet previous + map_size previous.
Proof.
  intros Hu. unfold discover. simpl. destruct (map_has next previous) eqn:Hn; intros [= <- <-]; [done|].
  unfold map_has in Hn. destruct (map_get next previous) eqn:Hg; [done|]. rewrite map_size_set_absent by done.
  assert (unmet (map_set next (Some current) previous) < unmet previous); [|lia].
  apply (length_bfilter_lt _ _ _ next); [|done| |unfold map_has; by rewrite Hg].
  - intros x. rewrite !negb_true_iff. unfold map_has. rewrite map_get_set. by case_decide.
  - unfold map_has. by rewrite map_get_set_eq.
Qed.

Lemma fold_count current l : forall previous queue previous' queue',
  (forall w, w ∈ l -> w ∈ universe adjacency start) ->
  fold_left (discover current) l (previous, queue) = (previous', queue') ->
  unmet previous' + map_size previous' <= unmet previous + map_size previous.
Proof.
  induction l as [|next l IH]; intros previous queue previous' queue' Hl; [by intros [= <- <-]|].
  simpl. destruct (discover current (previous, queue) next) as [p1 q1] eqn:H1. intros H2.
  apply discover_count in H1; [|apply Hl, list_elem_of_here]. apply IH in H2; [lia|].
  intros w Hw. apply Hl, elem_of_cons. by right.
Qed.

Lemma walk_back_length fuel : forall previous v acc,
  length (walk_back fuel previous v acc) <= fuel + length acc.
Proof.
  induction fuel as [|fuel IH]; intros previous v acc; [done|]. simpl.
  destruct (map_get v previous) as [[u|]|]; simpl; [rewrite IH; simpl; lia|lia..].
Qed.

Lemma search_length fuel : forall previous queue p,
  search roots adjacency fuel start previous queue = Some p ->
  length p <= S (unmet previous + map_size previous).
Proof.
  induction fuel as [|fuel IH]; intros previous queue p; [done|].
  destruct queue as [|current queue]; [done|]. cbn [search].
  destruct (negb (jeqb current start) && one_of current roots).
  - intros [= <-]. pose proof (walk_back_length (S (map_size previous)) previous current []). simpl in *. lia.
  - destruct (fold_left _ _ _) as [previous' queue'] eqn:Hf. intros Hs%IH.
    apply fold_count in Hf; [lia|]. intros w. apply targets_universe.
Qed.

Lemma shortest_path_length p :
  shortestPathToRoot roots adjacency start = Some p -> length p <= S (S (length (universe adjacency start))).
Proof.
  intros H%search_length. change (map_size [(start, @None jstr)]) with 1 in H.
  assert (unmet [(start, None)] <= length (universe adjacency start)) by apply length_bfilter. lia.
Qed.
End Length.

(** ** Causal paths fit *)

Lemma keys_print (path : list jstr) n :
  Forall (fun k => plain k = true /\ length k <= n) path ->
  exists t, json_text (Arr (Str <$> path)) = Some t /\ ascii t = true /\ length t <= 2 + length path * (n + 3).
Proof.
  intros H. cbn [json_text]. match goal with |- context [join "," (?f (Str <$> path))] => set (texts := f) end.
  assert (texts (Str <$> path) = (json_quote <$> path : list jstr)) as Htexts.
  { clear H. induction path as [|k path IH]; [done|].
    change (json_quote k :: texts (Str <$> path) = json_quote k :: (json_quote <$> path)). by rewrite IH. }
  rewrite Htexts. clear Htexts texts.
  destruct (join_size (json_quote <$> path)) as [Ha Hl]. eexists. split; [done|].
  assert (forallb ascii (json_quote <$> path) = true /\
    foldr (fun w n => length w + 1 + n) 0 (json_quote <$> path) <= length path * (n + 3)) as [H1 H2].
  { clear Ha Hl. induction H as [|k path [Hp Hk] _ [IH1 IH2]]; [done|].
    destruct (json_quote_plain k Hp) as [Hqa Hql]. cbn [fmap list_fmap forallb foldr length]. rewrite Hqa, IH1, Hql. split; [done|]. lia. }
  split.
  - rewrite !ascii_app, Ha, H1. done.
  - rewrite !length_app. simpl length at 1 3. lia.
Qed.

Definition ordinary_key (k : jstr) : Prop := plain k = true /\ 1 <= length k <= 256.

(** Cutting ends with a path that fits. *)
Lemma bound_path_fits fuel : forall entries omitted,
  Forall ordinary_key entries -> 2 <= length entries -> length entries <= fuel + 2 ->
  path_fits (bound_path fuel entries omitted).1 = true.
Proof.
  assert (forall entries, Forall ordinary_key entries -> length entries <= 2 -> path_fits entries = true) as Htwo.
  { intros entries He Hl. unfold path_fits, json_stringify.
    destruct (keys_print entries 256) as (t & -> & Ha & Ht).
    { eapply Forall_impl; [exact He|]. intros k [? ?]. split; [done|lia]. }
    cbn [default from_option id]. rewrite byte_length_ascii by done.
    unfold BOUND_causalPathEntries, BOUND_causalPathBytes. apply andb_true_iff. rewrite !Nat.leb_le. lia. }
  induction fuel as [|fuel IH]; intros entries omitted He Hl Hf; simpl; [apply Htwo; [done|lia]|].
  destruct (negb (path_fits entries) && (2 <? length entries)) eqn:Hc.
  - apply andb_true_iff in Hc as [_ Hlt%Nat.ltb_lt].
    destruct (last entries) as [r|] eqn:Hr; [|apply last_None in Hr as ->; simpl in Hlt; lia]. simpl default.
    apply IH; [|rewrite length_app, length_take; simpl; lia..].
    apply Forall_app. split; [by apply Forall_take|]. constructor; [|done].
    rewrite Forall_forall in He. apply He. apply last_Some in Hr as [l' ->]. apply elem_of_app. right.
    by apply list_elem_of_singleton.
  - simpl. apply andb_false_iff in Hc as [Hc%negb_false_iff|Hc%Nat.ltb_ge]; [done|]. by apply Htwo.
Qed.

(** ** Sizes of the graph *)

Lemma targets_set_size k (v : list jstr) (m : jmap jstr (list jstr)) :
  length (concat (map_values (map_set k v m))) + length (default [] (map_get k m)) =
  length (concat (map_values m)) + length v.
Proof.
  unfold map_values in *. induction m as [|[k' v'] m IH]; csimpl; [rewrite app_nil_r; lia|].
  case_bool_decide; csimpl; rewrite !length_app; lia.
Qed.

Lemma set_add_size (x : jstr) l : length (set_add x l) <= S (length l).
Proof. unfold set_add. destruct (one_of x l); [lia|]. rewrite length_app. simpl. lia. Qed.

Lemma universe_size byKey edges start :
  length (universe (adjacency_of byKey edges) start) <= S (length edges).
Proof.
  unfold universe, adjacency_of. cbn [length].
  assert (forall m : jmap jstr (list jstr),
    length (concat (map_values (map_fmap (stable_sort unit_le) m))) = length (concat (map_values m))) as ->.
  { unfold map_values. induction m as [|[k v] m IH]; [done|]. csimpl. rewrite !length_app, <- IH.
    by rewrite (Permutation_length (stable_sort_Permutation _ v)). }
  assert (forall m, length (concat (map_values (fold_left (add_target byKey) edges m))) <=
    length edges + length (concat (map_values m))) as H; [|specialize (H []); simpl in *; lia].
  induction edges as [|e edges IH]; intros m; [done|]. simpl. rewrite IH.
  unfold add_target. destruct (_ || _); [lia|].
  pose proof (targets_set_size (fromKey e)
    (set_add (toKey e) (default [] (map_get (fromKey e) m))) m) as Hs.
  pose proof (set_add_size (toKey e) (default [] (map_get (fromKey e) m))). lia.
Qed.

(** ** Ordinary instances *)

Lemma ref_unit_plain c : is_ref_unit c = true -> plain_unit c = true.
Proof.
  unfold is_ref_unit, is_alnum, is_alpha, is_lower, is_upper, is_digit, plain_unit.
  rewrite !orb_true_iff, !andb_true_iff, negb_true_iff, orb_false_iff, !N.eqb_eq, !N.leb_le, N.ltb_lt, !N.eqb_neq. lia.
Qed.

Lemma ref_component_plain s : REF_COMPONENT s = true -> plain s = true.
Proof.
  destruct s as [|c s]; [done|]. unfold REF_COMPONENT. rewrite !andb_true_iff. intros [[Hc Hs] _].
  unfold plain. simpl. rewrite ref_unit_plain by (unfold is_ref_unit; by rewrite Hc). simpl.
  rewrite forallb_forall in Hs |- *. intros x Hx. by apply ref_unit_plain, Hs.
Qed.

Lemma ref_plain s : isHardwareRef (Str s) = true -> plain s = true /\ 1 <= length s <= 257.
Proof.
  unfold isHardwareRef. intros [Hb Hs]%andb_true_iff.
  pose proof (join_split 47 s) as Hj. destruct (split_on 47 s) as [|a [|b [|]]] eqn:He; try done.
  apply andb_true_iff in Hs as [Ha%ref_component_plain Hb'%ref_component_plain].
  simpl in Hj. assert (plain s = true) as Hp.
  { rewrite <- Hj. change (plain (a ++ 47%N :: b) = true). rewrite plain_app, Ha. simpl. done. }
  split; [done|]. apply Nat.leb_le in Hb. rewrite byte_length_ascii in Hb by by apply plain_ascii.
  unfold BOUND_ref in Hb. split; [|done]. rewrite <- Hj, length_app. simpl. lia.
Qed.

Definition ordinary_text (s : jstr) : Prop := plain s = true /\ length s <= 1000.

(** A refusal of the instance with key [key]. *)
Record ordinary_refusal (key : jstr) (o : outcome) : Prop := OrdinaryRefusal {
  or_valid : outcome_valid o;
  or_state : oc_state o = Refused;
  or_key : oc_key o = key;
  or_reason : ordinary_text (oc_reason o);
  or_fix : ordinary_text (oc_fix o);
  or_root_reason : ordinary_text (rc_reason (oc_rootCause o));
  or_root_fix : ordinary_text (rc_fix (oc_rootCause o))
}.

Record ordinary_node (n : availability_node) : Prop := OrdinaryNode {
  on_key : ordinary_key (an_key n);
  on_ref : isHardwareRef (Str (an_ref n)) = true;
  on_alias : js_truthy (an_alias n) = false \/ exists a, an_alias n = Str a /\ ordinary_key a;
  on_refusal : js_truthy (an_refusal n) = false \/
    exists o, an_refusal n = outcome_js o /\ ordinary_refusal (an_key n) o
}.

(** ** A blocked outcome of ordinary size is valid *)

Section Blocked.
Context `{Sha256}.
Hypothesis digests_hex : forall s, HEX64 (sha256_hex s) = true.

Context (n dn : availability_node) (ro : outcome) (root : jstr) (middle rs : list jstr).
Context (n_ordinary : ordinary_node n) (dn_key : ordinary_key (an_key dn)).
Context (dn_ref : isHardwareRef (Str (an_ref dn)) = true).
Context (ro_ordinary : ordinary_refusal root ro).
Context (path_ordinary : Forall ordinary_key (an_key n :: middle ++ [root])).
Context (middle_length : (Z.of_nat (length middle) < 10 ^ 10)%Z).
Context (rs_length : 1 <= length rs /\ (Z.of_nat (length rs) < 10 ^ 10)%Z).

Let path := an_key n :: middle ++ [root].
Let reason : jstr := take 2000 ("Required dependency " ++ an_ref dn ++ " cannot start: " ++ oc_reason ro).
Let digest : jstr := hex64 (Obj [("schema", Num (Fin 1)); ("key", Str (an_key n));
          ("path", Arr (Str <$> path)); ("root", oc_inputFingerprint ro)]).

Definition blocked_alias : option jstr :=
  match js_or (an_alias n) Null with
  | Str a => Some a
  | _ => None
  end.

Definition blocked_outcome : outcome :=
  Outcome Blocked HARDWARE_DEPENDENCY_BLOCKED "dependency_blocked" (an_key n) (an_ref n) blocked_alias
    (Str digest) reason (oc_fix ro) [] (Some (an_key dn, an_ref dn)) (oc_rootCause ro)
    (boundPath path).1 (boundPath path).2 (Z.max 0 (Z.of_nat (length rs) - 1)).

Lemma blocked_alias_ok :
  js_or (an_alias n) Null = null_or_str blocked_alias /\ forall a, blocked_alias = Some a -> ordinary_key a.
Proof.
  unfold blocked_alias, js_or. destruct (on_alias _ n_ordinary) as [-> | (a & -> & Ha)]; [done|].
  destruct a as [|c a]; [destruct Ha as [_ Ha]; simpl in Ha; lia|]. split; [done|]. by intros ? [= <-].
Qed.

Lemma blocked_js_outcome : blocked_js n path ro dn (length rs) = outcome_js blocked_outcome.
Proof.
  unfold blocked_js, outcome_js, blocked_outcome. rewrite (proj1 blocked_alias_ok).
  by destruct (boundPath path).
Qed.

Lemma reason_ordinary : plain reason = true /\ length reason <= 1300 /\ reason <> [].
Proof.
  destruct (ref_plain _ dn_ref) as [Hp Hl], (or_reason _ _ ro_ordinary) as [Hr Hrl].
  assert (plain ("Required dependency " ++ an_ref dn ++ " cannot start: " ++ oc_reason ro) = true) as Hall.
  { by rewrite !plain_app, Hp, Hr. }
  unfold reason. rewrite take_ge by (rewrite !length_app; simpl; lia).
  split; [done|]. split; [rewrite !length_app; simpl; lia|done].
Qed.

Lemma digest_plain : plain digest = true /\ length digest = 64.
Proof.
  pose proof (digests_hex (json_stringify (canonical (Obj [("schema"%js, Num (Fin 1)); ("key"%js, Str (an_key n));
          ("path"%js, Arr (Str <$> path)); ("root"%js, oc_inputFingerprint ro)])))) as Hd.
  apply andb_true_iff in Hd as [Hl%Nat.eqb_eq Hd]. split; [|done].
  unfold plain. rewrite forallb_forall in Hd |- *. intros c Hc. specialize (Hd c Hc).
  unfold is_digit, plain_unit in *. revert Hd.
  rewrite !orb_true_iff, !andb_true_iff, negb_true_iff, orb_false_iff, !N.leb_le, N.ltb_lt, !N.eqb_neq. lia.
Qed.

Lemma root_prints : prints (root_js (oc_rootCause ro)) 2577.
Proof.
  destruct ro_ordinary as [V _ _ _ _ [Hr Hrl] [Hf Hfl]]. destruct (ov_root _ V) as (Hk & Href & Hfi & _).
  destruct (ov_path _ V) as (_ & _ & _ & _ & Hlast). destruct (ref_plain _ Href) as [Hp Hl].
  pose proof path_ordinary as Hpo. apply Forall_cons in Hpo as [_ Hpo]. apply Forall_app in Hpo as [_ Hroot].
  assert (rc_key (oc_rootCause ro) = root) as Hkey.
  { pose proof (ov_state _ V) as Hs. unfold state_valid in Hs. rewrite (or_state _ _ ro_ordinary) in Hs.
    destruct Hs as (_ & _ & -> & _). apply (or_key _ _ ro_ordinary). }
  apply Forall_singleton in Hroot as [Hrp Hrlen].
  eapply prints_weaken.
  - apply (prints_obj _ [258; 259; 14; 1002; 1002]).
    repeat constructor.
    + rewrite Hkey. apply (prints_str _ 256); [done|lia].
    + apply (prints_str _ 257); [done|lia].
    + destruct (rc_field (oc_rootCause ro)) as [f|]; [|apply prints_null; lia].
      specialize (Hfi f eq_refl). apply one_of_elem in Hfi. simpl.
      assert (forallb (fun f => plain f && (length f <=? 12)) HARDWARE_FIELDS = true) as Hall by done.
      rewrite forallb_forall in Hall. apply list_elem_of_In, Hall, andb_true_iff in Hfi as [Hfp Hfl'%Nat.leb_le].
      by apply (prints_str f 12).
    + by apply (prints_str _ 1000).
    + by apply (prints_str _ 1000).
  - simpl. lia.
Qed.

Lemma path_bounds :
  exists k, k <= length middle /\ boundPath path = (an_key n :: take k middle ++ [root], Z.of_nat (length middle - k)) /\
    path_fits (an_key n :: take k middle ++ [root]) = true /\
    Forall ordinary_key (an_key n :: take k middle ++ [root]).
Proof.
  destruct (boundPath_spec (an_key n) middle root) as (k & Hk & Hb). exists k. split; [done|].
  split; [done|]. split.
  - pose proof (bound_path_fits (length path) path 0 path_ordinary) as Hf.
    change (bound_path (length path) path 0) with (boundPath path) in Hf. unfold path in *.
    rewrite Hb in Hf. apply Hf; simpl; rewrite length_app; simpl; lia.
  - pose proof path_ordinary as Hpo. apply Forall_cons in Hpo as [Hn Hpo]. apply Forall_app in Hpo as [Hm Hr].
    apply Forall_cons. split; [done|]. apply Forall_app. split; [by apply Forall_take|done].
Qed.

Lemma blocked_prints : prints (outcome_js blocked_outcome) BOUND_outcomeBytes.
Proof.
  destruct path_bounds as (k & Hk & Hb & Hfits & Hord), reason_ordinary as (Hrp & Hrl & _), digest_plain as [Hdp Hdl].
  destruct (or_fix _ _ ro_ordinary) as [Hfp Hfl], (ref_plain _ dn_ref) as [Hdrp Hdrl].
  destruct (ref_plain _ (on_ref _ n_ordinary)) as [Hnrp Hnrl].
  destruct (on_key _ n_ordinary) as [Hnp Hnl], dn_key as [Hdkp Hdkl].
  unfold outcome_js, blocked_outcome.
  cbn [oc_state oc_code oc_reasonCode oc_key oc_ref oc_alias oc_inputFingerprint oc_reason oc_fix
    oc_requested oc_blockedBy oc_rootCause oc_causalPath oc_omittedPathCount oc_additionalCauseCount].
  rewrite Hb. cbn [fst snd]. eapply prints_weaken.
  - apply (prints_obj _ [9; 62; 32; 258; 259; 258; 66; 1302; 1002; 2; 533; 2577; 8192; 10; 10]).
    repeat apply Forall2_cons_2; [split; [by vm_compute|]..|constructor]; cbn [snd].
    + by apply (prints_str _ 7).
    + apply (prints_str _ 60); [by vm_compute|apply Nat.leb_le; by vm_compute].
    + apply (prints_str _ 30); [by vm_compute|apply Nat.leb_le; by vm_compute].
    + apply (prints_str _ 256); [done|lia].
    + apply (prints_str _ 257); [done|lia].
    + destruct blocked_alias_ok as [_ Ha]. destruct blocked_alias as [a|]; [|apply prints_null; lia].
      destruct (Ha a eq_refl). apply (prints_str _ 256); [done|lia].
    + apply (prints_str _ 64); [done|lia].
    + by apply (prints_str _ 1300).
    + by apply (prints_str _ 1000).
    + exists "[]". by split_and!.
    + eapply prints_weaken; [apply (prints_obj _ [258; 259]); repeat constructor|simpl; lia].
      * apply (prints_str _ 256); [done|lia].
      * apply (prints_str _ 257); [done|lia].
    + apply root_prints.
    + destruct (keys_print (an_key n :: take k middle ++ [root]) 256) as (t & Ht & Hta & _).
      { eapply Forall_impl; [exact Hord|]. intros x [? ?]. split; [done|lia]. }
      exists t. split; [done|]. split; [done|]. apply andb_true_iff in Hfits as [_ Hfits%Nat.leb_le].
      unfold json_stringify in Hfits. rewrite Ht in Hfits. cbn [default from_option id] in Hfits.
      by rewrite byte_length_ascii in Hfits.
    + apply prints_num. lia.
    + apply prints_num. lia.
  - apply Nat.leb_le. by vm_compute.
Qed.

Lemma blocked_valid : outcome_valid blocked_outcome.
Proof.
  destruct path_bounds as (k & Hk & Hb & Hfits & Hord), reason_ordinary as (Hrp & Hrl & Hrn), digest_plain as [Hdp Hdl].
  destruct (or_fix _ _ ro_ordinary) as [Hfp Hfl]. pose proof (or_valid _ _ ro_ordinary) as V.
  assert (forall x, ordinary_key x -> bounded BOUND_key false x = true) as Hkey.
  { intros x [Hp Hl]. apply bounded_plain; [done|unfold BOUND_key; lia|]. right. intros ->. simpl in Hl. lia. }
  assert (rc_key (oc_rootCause ro) = root) as Hroot.
  { pose proof (ov_state _ V) as Hs. unfold state_valid in Hs. rewrite (or_state _ _ ro_ordinary) in Hs.
    destruct Hs as (_ & _ & -> & _). apply (or_key _ _ ro_ordinary). }
  destruct blocked_prints as (t & Ht & Hta & Htl).
  constructor; unfold blocked_outcome;
  cbn [oc_state oc_code oc_reasonCode oc_key oc_ref oc_alias oc_inputFingerprint oc_reason oc_fix
    oc_requested oc_blockedBy oc_rootCause oc_causalPath oc_omittedPathCount oc_additionalCauseCount]; try done.
  - unfold state_valid. cbn [oc_state oc_code oc_reasonCode oc_requested oc_blockedBy]. split_and!; try done.
    exists (an_key dn), (an_ref dn). split; [done|]. split; [by apply Hkey|done].
  - apply Hkey, n_ordinary.
  - apply n_ordinary.
  - intros a Ha. apply (Hkey a). by apply blocked_alias_ok.
  - exists digest. split; [done|]. apply digests_hex.
  - apply bounded_plain; [done|unfold BOUND_reason; lia|by right].
  - apply bounded_plain; [done|unfold BOUND_fix; lia|by left].
  - simpl. unfold BOUND_requested. lia.
  - constructor.
  - apply V.
  - rewrite Hb. cbn [fst]. unfold path_valid. apply andb_true_iff in Hfits as [Hf1%Nat.leb_le Hf2%Nat.leb_le].
    split; [split; [simpl; lia|done]|]. split.
    { eapply Forall_impl; [exact Hord|exact Hkey]. }
    split; [done|]. split; [done|]. rewrite app_comm_cons, last_snoc. by rewrite Hroot.
  - rewrite Hb. cbn [snd]. unfold max_safe_integer. lia.
  - unfold max_safe_integer. lia.
  - unfold json_stringify. unfold blocked_outcome in Ht. rewrite Ht. cbn [default from_option id].
    by rewrite byte_length_ascii.
Qed.

Lemma blocked_validates :
  validateHardwareOutcome (blocked_js n path ro dn (length rs)) = Ok blocked_outcome.
Proof. rewrite blocked_js_outcome. apply validate_complete, blocked_valid. Qed.
End Blocked.

(** ** Classification returns *)

Lemma index_nodes_returns l : forall byKey,
  Forall ordinary_node l -> NoDup (map_keys byKey ++ (an_key <$> l)) ->
  exists byKey', index_nodes l byKey = Ok byKey'.
Proof.
  induction l as [|n l IH]; intros byKey Hl Hn; [by eexists|]. simpl.
  apply Forall_cons in Hl as [Ho Hl]. destruct (on_key _ Ho) as [_ Hlen].
  assert (truthy (an_key n) = true) as -> by (apply truthy_true; intros E; rewrite E in Hlen; simpl in Hlen; lia). cbn [negb].
  csimpl in Hn. apply NoDup_app in Hn as (Hb & Hd & Hn).
  assert (map_get (an_key n) byKey = None) as Hg.
  { apply map_get_None. intros Hin. apply (Hd _ Hin). apply list_elem_of_here. }
  unfold map_has. rewrite Hg. apply IH; [done|]. rewrite map_set_absent by done. unfold map_keys.
  rewrite fmap_app, <- app_assoc. apply NoDup_app. split; [done|]. by split.
Qed.

Lemma mapM_returns {A} (f : jstr -> availabilityR A) keys :
  (forall k, k ∈ keys -> exists a, f k = Ok a) ->
  exists result, mapM_result (fun k => a ← f k; Ok (k, a)) keys = Ok result.
Proof.
  induction keys as [|k keys IH]; intros Hf; [by eexists|]. cbn [mapM_result].
  destruct (Hf k) as [a ->]; [apply list_elem_of_here|].
  destruct IH as [result Hr]; [intros x Hx; apply Hf, elem_of_cons; by right|].
  cbn [mbind result_bind]. rewrite Hr. by eexists.
Qed.

Lemma chained_keys l edges p : 2 <= length p -> chained (waits_for l edges) p -> Forall (fun k => k ∈ an_key <$> l) p.
Proof.
  induction p as [|a [|b p] IH]; simpl; [lia|lia|]. intros _ [(Ha & Hb & _) Hc]. constructor; [done|].
  destruct p as [|c p]; [by constructor|]. apply IH; [simpl; lia|done].
Qed.

Lemma classify_node_returns `{Sha256} l byKey edges n :
  (forall s, HEX64 (sha256_hex s) = true) -> index_nodes l [] = Ok byKey -> Forall ordinary_node l ->
  (Z.of_nat (length l) < 10 ^ 9)%Z -> (Z.of_nat (length edges) < 10 ^ 9)%Z -> n ∈ l ->
  exists a, classify_node byKey (adjacency_of byKey edges) (an_key n) = Ok a.
Proof.
  intros Hhex Hi Ho Hl He Hn. unfold classify_node. rewrite (node_at_node _ _ Hi) by done.
  assert (forall m, m ∈ l -> ordinary_node m) as Hord by (by apply Forall_forall).
  assert (forall m, m ∈ l -> refused_node m = true ->
    exists ro, ordinary_refusal (an_key m) ro /\ validateHardwareOutcome (an_refusal m) = Ok ro) as Href.
  { intros m Hm Hr. destruct (on_refusal _ (Hord m Hm)) as [Hf|(ro & -> & Hro)].
    - unfold refused_node in Hr. congruence.
    - exists ro. split; [done|]. apply validate_complete, Hro. }
  destruct (refused_node n) eqn:Hr.
  { destruct (Href n Hn Hr) as (ro & _ & ->). by eexists. }
  assert (an_key n ∉ roots_of byKey) as Hns.
  { rewrite (index_roots _ _ Hi), (index_refused _ _ Hi) by done. by rewrite Hr. }
  pose proof (shortest_path_spec (roots_of byKey) (adjacency_of byKey edges) (an_key n) Hns) as Hp.
  destruct (shortestPathToRoot _ _ _) as [path|] eqn:Hsp; [|by eexists].
  destruct Hp as (middle & root & -> & Hb & _). apply shortest_path_length in Hsp.
  pose proof (universe_size byKey edges (an_key n)) as Hu.
  apply (waiting_path_iff _ _ _ _ _ _ Hi) in Hb as Hw.
  destruct (waiting_path_ends _ _ _ _ _ Hw) as [Hfirst Hroot].
  assert (Forall ordinary_key (an_key n :: middle ++ [root])) as Hpo.
  { destruct Hw as (_ & _ & Hc). apply chained_keys in Hc; [|simpl; rewrite length_app; simpl; lia].
    eapply Forall_impl; [exact Hc|]. intros k (m & -> & Hm)%list_elem_of_fmap. apply Hord; done. }
  assert (last (an_key n :: middle ++ [root]) = Some root) as -> by (rewrite app_comm_cons; apply last_snoc).
  assert (default ([] : jstr) ((an_key n :: middle ++ [root]) !! 1) = default root (head middle)) as ->
    by (by destruct middle).
  simpl default. destruct (indexed_node_key _ _ Hi root Hroot) as [Hrn Hrk].
  destruct (indexed_node_key _ _ Hi _ (proj1 (proj2 Hfirst))) as [Hdn Hdk].
  destruct (Href (node_at byKey root) Hrn) as (ro & Hro & ->).
  { apply (index_refused _ _ Hi _ Hrn). rewrite Hrk. by destruct Hw as [? _]. }
  rewrite Hrk in Hro. cbn [validated mbind result_bind].
  destruct (reachable_roots_spec (roots_of byKey) (adjacency_of byKey edges) (an_key n) Hns) as [Hnd Hrs].
  set (rs := reachableRoots _ _ _) in *.
  assert (1 <= length rs /\ (Z.of_nat (length rs) < 10 ^ 10)%Z) as Hrl.
  { split.
    - assert (root ∈ rs) as Hin by (apply Hrs; by exists middle).
      destruct rs; [by apply not_elem_of_nil in Hin|]. simpl. lia.
    - assert (length rs <= length l) as Hle; [|lia]. rewrite <- (length_fmap an_key l).
      apply submseteq_length, NoDup_submseteq; [done|]. intros r (m & Hm & _)%Hrs.
      apply (index_roots _ _ Hi) in Hm as (x & Hx & <- & _). by apply list_elem_of_fmap_2. }
  assert (Z.of_nat (length middle) < 10 ^ 10)%Z as Hml.
  { cbn [length] in Hsp. rewrite length_app in Hsp. lia. }
  rewrite (blocked_validates Hhex n (node_at byKey (default root (head middle))) ro root middle rs); try done.
  - by eexists.
  - by apply Hord.
  - apply Hord. done.
  - apply (on_ref _ (Hord _ Hdn)).
Qed.

(** Classification returns a decision for every instance: with distinct
    ordinary keys, valid references and refusals of ordinary size it never
    throws, whatever the edges are, so no instance is left undecided; and the
    decision is the specified one. *)
Theorem classification_returns `{Sha256} (l : list availability_node) (edges : list availability_edge) :
  (forall s, HEX64 (sha256_hex s) = true) ->
  Forall ordinary_node l -> NoDup (an_key <$> l) ->
  (Z.of_nat (length l) < 10 ^ 9)%Z -> (Z.of_nat (length edges) < 10 ^ 9)%Z ->
  exists result, classifyAvailability l edges = Ok result /\
    forall n, n ∈ l -> exists a, map_get (an_key n) result = Some a /\ decided l edges n a.
Proof.
  intros Hhex Ho Hn Hl He. destruct (index_nodes_returns l [] Ho Hn) as [byKey Hi].
  assert (exists result, classifyAvailability l edges = Ok result) as [result Hr].
  { unfold classifyAvailability. rewrite Hi. cbn [mbind result_bind]. apply mapM_returns.
    intros k Hk. rewrite stable_sort_Permutation, (index_keys _ _ Hi) in Hk.
    apply list_elem_of_fmap in Hk as (n & -> & Hk). by apply (classify_node_returns l). }
  exists result. split; [done|]. by apply classified in Hr as (_ & _ & Hd).
Qed.

Lemma sample_refusal_ordinary key ref :
  validateHardwareOutcome (outcome_js (sample_refusal key ref)) = Ok (sample_refusal key ref) ->
  ordinary_refusal key (sample_refusal key ref).
Proof.
  intros Hv. constructor; [by apply (validate_sound _ _ Hv)|done|done|..].
  all: split; [by vm_compute|apply Nat.leb_le; by vm_compute].
Qed.

Lemma sample_node_ordinary k r v :
  plain k && (1 <=? length k) && (length k <=? 256) = true -> isHardwareRef (Str r) = true ->
  (js_truthy v = false \/ exists o, v = outcome_js o /\ ordinary_refusal k o) ->
  ordinary_node (AvailabilityNode k r Null v).
Proof.
  rewrite !andb_true_iff, !Nat.leb_le. intros [[Hp H1] H2] Hr Hv.
  constructor; [by split|done|by left|done].
Qed.

Lemma sample_nodes_ordinary : Forall ordinary_node sample_nodes.
Proof.
  unfold sample_nodes. repeat (apply Forall_cons; split); try done.
  all: apply sample_node_ordinary; [by vm_compute|by vm_compute|].
  all: try by left.
  all: right; eexists; split; [reflexivity|]; apply sample_refusal_ordinary; by vm_compute.
Qed.

Example classification_returns_witness :
  exists result, classifyAvailability (H := sample_sha256) sample_nodes sample_edges = Ok result /\
    forall n, n ∈ sample_nodes -> exists a, map_get (an_key n) result = Some a /\ decided sample_nodes sample_edges n a.
Proof.
  apply (classification_returns (H := sample_sha256)).
  - intros s. by vm_compute.
  - apply sample_nodes_ordinary.
  - apply (bool_decide_unpack _). by vm_compute.
  - by vm_compute.
  - by vm_compute.
Defined.
