(* ===== verification/RelayToken.v ===== *)
(** Relay tokens and the cache of the consumed ones:
    [src/Agent/lib/relayTokenVerify.mjs].  A token is a compact JWS with an
    HS256 signature; it is checked for its signature, its times, its audience
    and that its identifier was not consumed before. *)

From stdpp Require Import prelude.
From Stdlib Require Import NArith.
From S2P Require Import Prelude.
From S2P Require Import JsString.
From S2P Require Import JsNumber.
From S2P Require Import JsMap.
From S2P Require Import JsValue.
From S2P Require Import JsBytes.
From S2P Require Import JsDouble.

Local Open Scope js_scope.

(** The host: base64 decoding as [Buffer.from(s, 'base64')] does it, [JSON.parse]
    and the HMAC of [node:crypto]. *)
Class TokenHost : Type := {
  base64_bytes : jstr -> bytes;
  parse_json : jstr -> option js;
  hmac_sha256 : bytes -> bytes -> bytes
}.

Inductive token_error : Type :=
  | SecretRequired
  | TokenNotString
  | MalformedToken
  | TokenSyntax
  | UnsupportedAlg
  | SignatureInvalid
  | TimesInvalid
  | LifetimeExceeded
  | UsedTooEarly
  | TokenExpired
  | AudienceMismatch
  | JtiMissing
  | JtiConsumed
  | CacheExhausted
  | TokenLanguage (e : js_error).

#[export] Instance token_error_eq_dec : EqDecision token_error.
Proof. solve_decision. Defined.

Definition of_language {A} (r : result js_error A) : result token_error A :=
  match r with
  | Ok a => Ok a
  | Err e => Err (TokenLanguage e)
  end.

Definition MAX_RELAY_TOKEN_TTL_SECONDS : Z := 30.
Definition DEFAULT_CLOCK_SKEW_SECONDS : Z := 30.

(** ** The cache *)

Record relay_cache : Type := RelayCache {
  rc_capacity : Z;
  rc_entries : jmap jstr real
}.

(** [createRelayReplayCache({ maxSize })] *)
Definition createRelayReplayCache (maxSize : js) : result token_error relay_cache :=
  n ← of_language (number_of (match maxSize with Undefined => Num (Fin 2048) | _ => maxSize end));
  Ok (RelayCache
    (match n with
     | Int (Fin z) => if is_safe_integer (Fin z) && (0 <? z)%Z then z else 2048%Z
     | _ => 2048%Z
     end) []).

(** The clock is read once: [currentTime]. *)
Definition prune (currentTime : Z) (c : relay_cache) : relay_cache :=
  RelayCache (rc_capacity c)
    (bfilter (fun e => negb (real_le e.2 (Int (Fin currentTime)))) (rc_entries c)).

Definition cache_seen (tokenId : jstr) (currentTime : Z) (c : relay_cache) : bool * relay_cache :=
  let c := prune currentTime c in (map_has tokenId (rc_entries c), c).

(** [Math.max(1, Number(ttlMs) || 1)] *)
Definition kept_ms (ttlMs : real) : real :=
  real_max_1
    match ttlMs with
    | Int NaN | Int (Fin 0) => Int (Fin 1)
    | _ => ttlMs
    end.

(** The clock is read twice: by [prune], and for the expiry. *)
Definition cache_remember (tokenId : jstr) (ttlMs : real) (pruneTime storeTime : Z) :
    stateM relay_cache token_error unit := fun c =>
  let c := prune pruneTime c in
  if negb (map_has tokenId (rc_entries c)) && (rc_capacity c <=? Z.of_nat (map_size (rc_entries c)))%Z
  then (Err CacheExhausted, c)
  else
    (Ok tt, RelayCache (rc_capacity c)
      (map_set tokenId (real_add (Int (Fin storeTime)) (kept_ms ttlMs)) (rc_entries c))).

Definition cache_reset (c : relay_cache) : relay_cache := RelayCache (rc_capacity c) [].

(** ** Tokens *)

(** A decoded token. *)
Record jws : Type := Jws {
  jws_header : js;
  jws_payload : js;
  jws_signature : bytes;
  jws_signingInput : jstr
}.

(** The readings of the clock one verification makes, in this order: for the
    times, in [seen], for the time to live, in [remember] for the pruning and
    for the expiry. *)
Record readings : Type := Readings {
  at_time : Z;
  at_seen : Z;
  at_ttl : Z;
  at_prune : Z;
  at_store : Z
}.

(** What a caller verifies a token against; [vo_now] and [vo_clockSkewSeconds]
    are [None] where they are not given. *)
Record verify_options : Type := VerifyOptions {
  vo_secret : option bytes;
  vo_expectedAudience : jstr;
  vo_clockSkewSeconds : option Z;
  vo_now : option Z
}.

Section Tokens.
Context `{TokenHost}.

Definition base64urlDecode (segment : jstr) : bytes :=
  let padding := drop ((length segment + 3) mod 4) ("===" : jstr) in
  base64_bytes
    ((fun c => if (c =? 45)%N then 43%N else if (c =? 95)%N then 47%N else c) <$> (segment ++ padding)).

Definition parsed_segment (segment : jstr) : result token_error js :=
  match parse_json (utf8_text (base64urlDecode segment)) with
  | Some v => Ok v
  | None => Err TokenSyntax
  end.

Definition decodeJws (token : js) : result token_error jws :=
  match token with
  | Str s =>
      if negb (truthy s) then Err TokenNotString
      else
        match split_on 46 s with
        | [a; b; c] =>
            header ← parsed_segment a;
            payload ← parsed_segment b;
            Ok (Jws header payload (base64urlDecode c) (a ++ "." ++ b))
        | _ => Err MalformedToken
        end
  | _ => Err TokenNotString
  end.

Definition assertSignatureMatches (token : jws) (secret : bytes) : result token_error unit :=
  if negb (is_str (optional "alg" (jws_header token)) "HS256") then Err UnsupportedAlg
  else if bool_decide (jws_signature token = hmac_sha256 secret (utf8_bytes (jws_signingInput token)))
  then Ok tt else Err SignatureInvalid.

(** [nowMs] is [now ?? Date.now()], a date: its quotient by 1000 is rounded down
    exactly. *)
Definition assertTimeValid (payload : js) (clockSkewSeconds nowMs : Z) : result token_error unit :=
  let nowSeconds := Int (Fin (nowMs / 1000)) in
  let skew := Int (Fin clockSkewSeconds) in
  issuedAt ← of_language (number_of (optional "iat" payload));
  expiresAt ← of_language (number_of (optional "exp" payload));
  if negb (real_finite issuedAt) || negb (real_finite expiresAt) then Err TimesInvalid
  else if real_lt (Int (Fin MAX_RELAY_TOKEN_TTL_SECONDS)) (real_sub expiresAt issuedAt) then Err LifetimeExceeded
  else if real_lt (real_add nowSeconds skew) issuedAt then Err UsedTooEarly
  else if real_lt (real_add expiresAt skew) nowSeconds then Err TokenExpired
  else Ok tt.

Definition assertAudience (payload : js) (expectedAudience : jstr) : result token_error unit :=
  matches ← of_language
    match optional "aud" payload with
    | Arr l => Ok (existsb (fun v => is_str v expectedAudience) l)
    | audience => s ← to_string (js_or audience (Str [])); Ok (jeqb s expectedAudience)
    end;
  if negb (truthy expectedAudience) || negb matches then Err AudienceMismatch else Ok tt.

(** [(Number(payload.exp) * 1000) + (clockSkewSeconds * 1000) - nowMs] *)
Definition remaining_ms (expiresAt : real) (clockSkewSeconds nowMs : Z) : real :=
  real_sub (real_add (real_mul expiresAt (Int (Fin 1000))) (Int (Fin (clockSkewSeconds * 1000)))) (Int (Fin nowMs)).

(** The state is the cache, if there is one. *)
Definition assertReplayProtected (payload : js) (clockSkewSeconds : Z) (now : option Z) (r : readings) :
    stateM (option relay_cache) token_error unit := fun cache =>
  match of_language (trimmed_text (optional "jti" payload)) with
  | Err e => (Err e, cache)
  | Ok tokenId =>
      if negb (truthy tokenId) then (Err JtiMissing, cache)
      else
        match cache with
        | None => (Ok tt, None)
        | Some c =>
            let '(seen, c) := cache_seen tokenId (at_seen r) c in
            if seen : bool then (Err JtiConsumed, Some c)
            else
              match of_language (number_of (optional "exp" payload)) with
              | Err e => (Err e, Some c)
              | Ok expiresAt =>
                  let nowMs := default (at_ttl r) now in
                  let ttlMs := real_add (real_max_1 (remaining_ms expiresAt clockSkewSeconds nowMs)) (Int (Fin 1000)) in
                  let '(res, c) := cache_remember tokenId ttlMs (at_prune r) (at_store r) c in
                  (res, Some c)
              end
        end
  end.

(** The header and the payload of an accepted token. *)
Definition verifyRelayJws (token : js) (options : verify_options) (r : readings) :
    stateM (option relay_cache) token_error (js * js) :=
  match vo_secret options with
  | None => throw SecretRequired
  | Some secret =>
      if (length secret <? 32) then throw SecretRequired
      else
        let skew := default DEFAULT_CLOCK_SKEW_SECONDS (vo_clockSkewSeconds options) in
        decoded ← lift (decodeJws token);
        _ ← lift (assertSignatureMatches decoded secret);
        _ ← lift (assertTimeValid (jws_payload decoded) skew (default (at_time r) (vo_now options)));
        _ ← lift (assertAudience (jws_payload decoded) (vo_expectedAudience options));
        _ ← assertReplayProtected (jws_payload decoded) skew (vo_now options) r;
        mret (jws_header decoded, jws_payload decoded)
  end.
End Tokens.
