(* ===== verification/RelayFrames.v ===== *)
(** The frames between the router and a relay, a length and a JSON text each:
    [src/Agent/lib/runtimeRelayProtocol.mjs].  The decoder takes the stream in
    chunks of any size and emits the frames they complete. *)

From stdpp Require Import prelude.
From Stdlib Require Import NArith.
From S2P Require Import Prelude.
From S2P Require Import JsString.
From S2P Require Import JsNumber.
From S2P Require Import JsMap.
From S2P Require Import JsValue.
From S2P Require Import JsJson.
From S2P Require Import JsUri.
From S2P Require Import JsBytes.

Local Open Scope js_scope.

(** [JSON.parse]; [None] where it throws. *)
Class FrameParser := frame_json : jstr -> option js.

(** A frame: the properties of the object, and the bytes of its property [data]
    where that is a [Buffer]; [fr_fields] then holds any value in its place. *)
Record frame : Type := Frame {
  fr_fields : js;
  fr_data : option bytes
}.

Definition field (k : jstr) (f : frame) : js := prop k (fr_fields f).

Inductive frame_error : Type :=
  | UnknownFrameType
  | DataNotText
  | MalformedBase64
  | MalformedFrame
  | InvalidLength (n : Z)
  | TruncatedFrame
  | FrameLanguage (e : js_error).

#[export] Instance frame_error_eq_dec : EqDecision frame_error.
Proof. solve_decision. Defined.

Definition DEFAULT_MAX_RELAY_FRAME_BYTES : Z := 8 * 1024 * 1024.

Definition RELAY_FRAME_TYPES : list jstr :=
  ["HELLO"; "READY"; "OPEN"; "DATA"; "HALF_CLOSE"; "CANCEL"; "END"; "ERROR"].

(** ** Encoding *)

(** [{ ...v }] *)
Definition spread (v : js) : jmap jstr js :=
  match v with
  | Obj l => l
  | Arr l => imap (fun i x => (string_of_Z (Z.of_nat i), x)) l
  | Str s => imap (fun i c => (string_of_Z (Z.of_nat i), Str [c])) s
  | _ => []
  end.

(** [data] are the bytes of the frame's property [data], if it is a [Buffer]. *)
Definition normalizeFrame (frameOrType payload : js) (data : option bytes) : result frame_error (jmap jstr js) :=
  let frame :=
    match frameOrType with
    | Str type => map_set "type" (Str type) (spread (js_or payload (Obj [])))
    | _ => spread (js_or frameOrType (Obj []))
    end in
  match to_string (js_or (default Undefined (map_get "type"%js frame)) (Str [])) with
  | Err e => Err (FrameLanguage e)
  | Ok type =>
      let type := to_upper type in
      if negb (one_of type RELAY_FRAME_TYPES) then Err UnknownFrameType
      else
        let normalized := map_set "type"%js (Str type) frame in
        Ok match data with
           | Some b => map_set "dataEncoding"%js (Str "base64") (map_set "data"%js (Str (base64_encode b)) normalized)
           | None => normalized
           end
  end.

Definition restoreFrameData (fields : js) : result frame_error frame :=
  if negb (is_str (optional "dataEncoding" fields) "base64") then Ok (Frame fields None)
  else
    match prop "data" fields with
    | Str s => if base64_text s then Ok (Frame fields (Some (base64_decode s))) else Err MalformedBase64
    | _ => Err DataNotText
    end.

(** [writeUInt32BE] of a number below 2^32, [readUInt32BE] of four bytes. *)
Definition uint32_be (n : N) : bytes :=
  [n / 16777216 mod 256; n / 65536 mod 256; n / 256 mod 256; n mod 256]%N.

Definition read_uint32_be (b : bytes) : N := fold_left (fun n c => n * 256 + c)%N (take 4 b) 0%N.

Definition MAX_UINT32 : Z := 4294967295.

Definition frame_body (fields : jmap jstr js) : bytes := utf8_bytes (json_stringify (Obj fields)).

Definition encodeRelayFrame (f : frame) (payload : js) (maxFrameBytes : Z) : result frame_error bytes :=
  fields ← normalizeFrame (fr_fields f) payload (fr_data f);
  let body := frame_body fields in
  let n := Z.of_nat (length body) in
  if (n =? 0)%Z || (maxFrameBytes <? n)%Z then Err (InvalidLength n)
  else if (MAX_UINT32 <? n)%Z then Err (FrameLanguage RangeError)
  else Ok (uint32_be (Z.to_N n) ++ body).

(** ** Decoding *)

(** [failed], and the bytes that wait for the rest of their frame. *)
Record decoder : Type := Decoder {
  de_maxFrameBytes : Z;
  de_buffer : bytes;
  de_failed : bool
}.

Definition new_decoder (maxFrameBytes : Z) : decoder := Decoder maxFrameBytes [] false.

Section Decoding.
Context `{FrameParser}.

Definition decodeRelayFrameBody (body : bytes) : result frame_error frame :=
  match frame_json (utf8_text body) with
  | None => Err MalformedFrame
  | Some v => fields ← normalizeFrame v Undefined None; restoreFrameData (Obj fields)
  end.

(** What one [push] does: the frames it emits in their order, the error it throws
    after them, and the bytes it keeps. *)
Record pushed : Type := Pushed {
  pu_frames : list frame;
  pu_error : option frame_error;
  pu_buffer : bytes
}.

(** The loop of [push]; every turn removes at least five bytes, so the length of the
    buffer is enough fuel. *)
Fixpoint push_loop (fuel : nat) (maxFrameBytes : Z) (buffer : bytes) : pushed :=
  match fuel with
  | O => Pushed [] None buffer
  | S fuel =>
      if length buffer <? 4 then Pushed [] None buffer
      else
        let n := Z.of_N (read_uint32_be buffer) in
        if (n =? 0)%Z || (maxFrameBytes <? n)%Z then Pushed [] (Some (InvalidLength n)) buffer
        else if (Z.of_nat (length buffer) <? 4 + n)%Z then Pushed [] None buffer
        else
          let body := take (Z.to_nat n) (drop 4 buffer) in
          let buffer := drop (4 + Z.to_nat n) buffer in
          match decodeRelayFrameBody body with
          | Err e => Pushed [] (Some e) buffer
          | Ok f =>
              let p := push_loop fuel maxFrameBytes buffer in
              Pushed (f :: pu_frames p) (pu_error p) (pu_buffer p)
          end
  end.

(** The frames emitted and the error, with the decoder after them. *)
Definition push (chunk : bytes) (d : decoder) : list frame * option frame_error * decoder :=
  if de_failed d then ([], None, d)
  else
    let buffer := de_buffer d ++ chunk in
    let p := push_loop (length buffer) (de_maxFrameBytes d) buffer in
    (pu_frames p, pu_error p,
     Decoder (de_maxFrameBytes d) (pu_buffer p) (bool_decide (is_Some (pu_error p)))).

(** [end()]: a frame that is not complete is an error. *)
Definition decoder_end (d : decoder) : option frame_error * decoder :=
  if length (de_buffer d) =? 0 then (None, d)
  else (Some TruncatedFrame, Decoder (de_maxFrameBytes d) (de_buffer d) true).

(** A stream in its chunks: the frames and errors emitted, one push after the other. *)
Fixpoint push_all (chunks : list bytes) (d : decoder) : list frame * list frame_error * decoder :=
  match chunks with
  | [] => ([], [], d)
  | chunk :: chunks =>
      let '(frames, error, d) := push chunk d in
      let '(frames', errors, d) := push_all chunks d in
      (frames ++ frames', option_list error ++ errors, d)
  end.
End Decoding.

#[global] Arguments pushed : clear implicits.
