(* ===== verification/RelayFramesTheorems.v ===== *)
(** Frames over a stream: how the bytes are cut into chunks does not matter, the
    buffer of a decoder stays below the frame limit, and the decoder emits
    exactly the frames that were encoded. *)

From stdpp Require Import prelude.
From Stdlib Require Import NArith.
From S2P Require Import Prelude.
From S2P Require Import JsString.
From S2P Require Import JsNumber.
From S2P Require Import JsMap.
From S2P Require Import JsValue.
From S2P Require Import JsJson.
From S2P Require Import JsUri.
From S2P Require Import JsBytes.
From S2P Require Import RelayFrames.
From S2P Require Import RequestHashTheorems.

Local Open Scope js_scope.

Section Stream.
Context `{FrameParser}.

(** ** The loop of a push *)

(** The loop with enough fuel. *)
Definition drain (max : Z) (b : bytes) : pushed := push_loop (length b) max b.

Definition continue (p q : pushed) : pushed := Pushed (pu_frames p ++ pu_frames q) (pu_error q) (pu_buffer q).

Lemma push_loop_fuel max b : forall k n, length b <= k -> length b <= n -> push_loop k max b = push_loop n max b.
Proof.
  remember (length b) as m eqn:Hm. revert b Hm. induction m as [m IH] using lt_wf_ind. intros b Hm k n Hk Hn.
  destruct k as [|k], n as [|n]; cbn [push_loop]; [done| | |].
  1,2: by rewrite (proj2 (Nat.ltb_lt (length b) 4)) by lia.
  destruct (Nat.ltb_spec (length b) 4); [done|].
  destruct (_ || _)%bool; [done|]. destruct (Z.ltb _ _); [done|].
  destruct (decodeRelayFrameBody _) as [f|e]; [|done].
  rewrite (IH (length (drop (4 + Z.to_nat (Z.of_N (read_uint32_be b))) b))) with (n := n); try done;
    rewrite length_drop; lia.
Qed.

Lemma drain_unfold max b :
  drain max b =
  if length b <? 4 then Pushed [] None b
  else
    let n := Z.of_N (read_uint32_be b) in
    if (n =? 0)%Z || (max <? n)%Z then Pushed [] (Some (InvalidLength n)) b
    else if (Z.of_nat (length b) <? 4 + n)%Z then Pushed [] None b
    else
      match decodeRelayFrameBody (take (Z.to_nat n) (drop 4 b)) with
      | Err e => Pushed [] (Some e) (drop (4 + Z.to_nat n) b)
      | Ok f => continue (Pushed [f] None []) (drain max (drop (4 + Z.to_nat n) b))
      end.
Proof.
  unfold drain at 1. destruct (length b) as [|k] eqn:Hk; [done|]. cbn [push_loop]. rewrite Hk.
  destruct (S k <? 4); [done|]. cbv zeta. destruct (_ || _)%bool; [done|]. destruct (Z.ltb _ _); [done|].
  destruct (decodeRelayFrameBody _) as [f|e]; [|done]. unfold continue, drain.
  rewrite (push_loop_fuel max (drop _ b) k (length (drop (4 + Z.to_nat (Z.of_N (read_uint32_be b))) b)));
    [done|rewrite length_drop; lia|done].
Qed.

Lemma read_uint32_app a b : 4 <= length a -> read_uint32_be (a ++ b) = read_uint32_be a.
Proof. intros Ha. unfold read_uint32_be. by rewrite take_app_le. Qed.

(** More bytes after a push: the loop goes on where it stopped, or has already
    failed. *)
Lemma drain_app max a b :
  drain max (a ++ b) =
  match pu_error (drain max a) with
  | None => continue (drain max a) (drain max (pu_buffer (drain max a) ++ b))
  | Some e => Pushed (pu_frames (drain max a)) (Some e) (pu_buffer (drain max a) ++ b)
  end.
Proof.
  remember (length a) as m eqn:Hm. revert a Hm. induction m as [m IH] using lt_wf_ind. intros a Hm.
  assert (forall c, drain max c = continue (Pushed [] None a) (drain max c)) as Hnil by (intros c; by destruct (drain max c)).
  rewrite (drain_unfold max a). destruct (Nat.ltb_spec (length a) 4); [apply Hnil|]. cbv zeta.
  set (n := Z.of_N (read_uint32_be a)).
  destruct ((n =? 0)%Z || (max <? n)%Z) eqn:Hinvalid.
  - cbn [pu_error pu_frames pu_buffer]. rewrite drain_unfold, length_app, read_uint32_app by done.
    rewrite (proj2 (Nat.ltb_ge _ _)) by lia. fold n. cbv zeta. by rewrite Hinvalid.
  - destruct (Z.ltb_spec (Z.of_nat (length a)) (4 + n)); [apply Hnil|].
    rewrite drain_unfold, length_app, read_uint32_app by done. fold n. cbv zeta.
    rewrite (proj2 (Nat.ltb_ge _ _)), Hinvalid, (proj2 (Z.ltb_ge _ _)) by lia.
    rewrite drop_app_le by lia. rewrite take_app_le by (rewrite length_drop; lia). rewrite drop_app_le by lia.
    destruct (decodeRelayFrameBody _) as [f|e]; [|done].
    apply orb_false_iff in Hinvalid as [Hn%Z.eqb_neq _].
    rewrite (IH (length (drop (4 + Z.to_nat n) a))); [|rewrite length_drop; lia|done].
    destruct (drain max (drop (4 + Z.to_nat n) a)) as [fs [e|] r]; done.
Qed.

(** What a push that does not fail keeps: less than a frame, and a second look finds
    nothing in it. *)
Lemma drain_rest max a :
  (0 <= max)%Z -> pu_error (drain max a) = None ->
  drain max (pu_buffer (drain max a)) = Pushed [] None (pu_buffer (drain max a)) /\
  (Z.of_nat (length (pu_buffer (drain max a))) < 4 + max)%Z.
Proof.
  intros Hmax. remember (length a) as m eqn:Hm. revert a Hm. induction m as [m IH] using lt_wf_ind. intros a Hm.
  rewrite (drain_unfold max a). destruct (Nat.ltb_spec (length a) 4) as [Hl|Hl].
  { intros _. cbn [pu_buffer]. rewrite drain_unfold, (proj2 (Nat.ltb_lt _ _) Hl). split; [done|lia]. }
  cbv zeta. destruct ((_ =? 0)%Z || _) eqn:Hinvalid; [done|]. destruct (Z.ltb_spec (Z.of_nat (length a)) (4 + Z.of_N (read_uint32_be a))) as [Hlt|Hge].
  - intros _. cbn [pu_buffer]. rewrite drain_unfold, (proj2 (Nat.ltb_ge _ _) Hl). cbv zeta.
    rewrite Hinvalid, (proj2 (Z.ltb_lt _ _) Hlt).
    split; [done|]. apply orb_false_iff in Hinvalid as [_ Hn%Z.ltb_ge]. lia.
  - apply orb_false_iff in Hinvalid as [Hn%Z.eqb_neq _].
    destruct (decodeRelayFrameBody _) as [f|e]; [|done]. cbn [continue pu_error pu_buffer].
    apply (IH (length (drop (4 + Z.to_nat (Z.of_N (read_uint32_be a))) a))); [rewrite length_drop; lia|done].
Qed.

(** ** Chunks *)

(** Nothing can be taken from the buffer. *)
Definition settled (d : decoder) : Prop := drain (de_maxFrameBytes d) (de_buffer d) = Pushed [] None (de_buffer d).

Lemma push_drain chunk d : de_failed d = false ->
  push chunk d =
  let p := drain (de_maxFrameBytes d) (de_buffer d ++ chunk) in
  (pu_frames p, pu_error p, Decoder (de_maxFrameBytes d) (pu_buffer p) (bool_decide (is_Some (pu_error p)))).
Proof. unfold push. by intros ->. Qed.

Lemma push_failed chunks d : de_failed d = true -> push_all chunks d = ([], [], d).
Proof. intros Hd. induction chunks as [|c chunks IH]; [done|]. cbn [push_all]. unfold push. by rewrite Hd, IH. Qed.

(** A stream in chunks is one push of all its bytes. *)
Lemma push_all_drain chunks d :
  (0 <= de_maxFrameBytes d)%Z -> de_failed d = false -> settled d ->
  let p := drain (de_maxFrameBytes d) (de_buffer d ++ concat chunks) in
  exists d', push_all chunks d = (pu_frames p, option_list (pu_error p), d') /\
    de_failed d' = bool_decide (is_Some (pu_error p)) /\
    (pu_error p = None -> d' = Decoder (de_maxFrameBytes d) (pu_buffer p) false).
Proof.
  revert d. induction chunks as [|c chunks IH]; intros d Hmax Hd Hs; cbn [concat push_all]; cbv zeta.
  - rewrite app_nil_r, Hs. exists d. split_and!; [done|by rewrite Hd|intros _; destruct d; simpl in *; by subst].
  - rewrite app_assoc, drain_app, push_drain by done. cbv zeta.
    destruct (pu_error (drain (de_maxFrameBytes d) (de_buffer d ++ c))) as [e|] eqn:He.
    + rewrite push_failed by done.
      rewrite app_nil_r. by eexists.
    + destruct (drain_rest _ _ Hmax He) as [Hrest _].
      destruct (IH (Decoder (de_maxFrameBytes d) (pu_buffer (drain (de_maxFrameBytes d) (de_buffer d ++ c)))
        (bool_decide (is_Some (@None frame_error))))) as (d' & E & Hf & Hb); [done|done|done|].
      rewrite E. exists d'. by split_and!.
Qed.

Lemma new_settled max : settled (new_decoder max).
Proof. done. Qed.

(** C39. How the bytes of a stream are cut into chunks does not matter.  Two
    decoders that are given the same bytes in any chunks emit the same frames
    in the same order and the same error at most once, and both have failed
    or neither; as long as they have not failed they hold the same bytes,
    fewer than a frame with its length takes. *)
Theorem relay_chunks_irrelevant max chunks chunks' fs es d fs' es' d' :
  (0 <= max)%Z -> concat chunks = concat chunks' ->
  push_all chunks (new_decoder max) = (fs, es, d) -> push_all chunks' (new_decoder max) = (fs', es', d') ->
  fs = fs' /\ es = es' /\ length es <= 1 /\ de_failed d = de_failed d' /\ (es = [] <-> de_failed d = false) /\
  (de_failed d = false -> d = d' /\ (Z.of_nat (length (de_buffer d)) < 4 + max)%Z).
Proof.
  intros Hmax Hc E E'.
  destruct (push_all_drain chunks (new_decoder max)) as (d1 & E1 & Hf1 & Hb1); [done..|].
  destruct (push_all_drain chunks' (new_decoder max)) as (d2 & E2 & Hf2 & Hb2); [done..|].
  rewrite E1 in E. rewrite E2 in E'. injection E as <- <- <-. injection E' as <- <- <-.
  rewrite <- Hc in *. cbn [new_decoder de_buffer de_maxFrameBytes app] in *.
  rewrite Hf1, Hf2. destruct (pu_error (drain max (concat chunks))) as [e|] eqn:He.
  - rewrite bool_decide_true by (by eexists). by split_and!.
  - rewrite bool_decide_false by (by intros []). destruct (drain_rest max (concat chunks)) as [_ Hl]; [done..|].
    rewrite Hb1, Hb2 by done. split_and!; [done|done|simpl; lia|done|done|done].
Qed.

(** ** Round trip *)

Lemma uint32_round_trip n r : (n < 4294967296)%N -> read_uint32_be (uint32_be n ++ r) = n.
Proof.
  intros Hn. unfold read_uint32_be, uint32_be. cbn [app take fold_left].
  replace 65536%N with (256 * 256)%N by done. replace 16777216%N with (256 * 256 * 256)%N by done.
  rewrite <- !N.Div0.div_div.
  destruct (cut 256 16777216 n) as (q1 & r1 & -> & -> & -> & ? & ?); [done|lia|].
  destruct (cut 256 65536 q1) as (q2 & r2 & -> & -> & -> & ? & ?); [done|lia|].
  destruct (cut 256 256 q2) as (q3 & r3 & -> & -> & -> & ? & ?); [done|lia|].
  rewrite (N.mod_small q3), take_0 by done. cbn [fold_left]. lia.
Qed.

Lemma texts_well_formed l : Forall (fun v => data_ok v = true ->
    forall s, json_text v = Some s -> well_formed s = true) l ->
  forallb data_ok l = true ->
  Forall (fun t => well_formed t = true) ((fix texts (l : list js) : list jstr :=
    match l with
    | [] => []
    | x :: r => default "null"%js (json_text x) :: texts r
    end) l).
Proof.
  induction 1 as [|v l Hv _ IH]; [constructor|]. cbn [forallb]. intros [Hd Hl]%andb_true_iff.
  constructor; [|by apply IH]. destruct (json_text v) as [s|] eqn:E; [by apply Hv|done].
Qed.

Lemma fields_well_formed l : Forall (fun e : jstr * js => data_ok e.2 = true ->
    forall s, json_text e.2 = Some s -> well_formed s = true) l ->
  forallb (fun e => units_ok e.1 && data_ok e.2) l = true ->
  Forall (fun t => well_formed t = true) ((fix texts (l : list (jstr * js)) : list jstr :=
    match l with
    | [] => []
    | (k, x) :: r =>
        match json_text x with
        | Some t => (json_quote k ++ ":" ++ t) :: texts r
        | None => texts r
        end
    end) l).
Proof.
  induction 1 as [|[k v] l Hv _ IH]; [constructor|]. cbn [forallb fst snd].
  intros [[Hk Hd]%andb_true_iff Hl]%andb_true_iff.
  destruct (json_text v) as [s|] eqn:E; [|by apply IH]. constructor; [|by apply IH].
  apply well_formed_app; [by apply json_quote_well_formed|]. apply (well_formed_app ":"); [done|by apply Hv].
Qed.

(** What [JSON.stringify] writes has no lone surrogate. *)
Lemma json_text_well_formed v : data_ok v = true -> forall s, json_text v = Some s -> well_formed s = true.
Proof.
  induction v as [| |b|n|u|u|l IH|l IH] using js_nested_ind; intros Hv s; cbn [json_text]; try done.
  - by intros [= <-].
  - intros [= <-]. by destruct b.
  - destruct n as [| |z|]; intros [= <-]; try done. apply number_well_formed.
    by apply (number_value (Num (Fin z))).
  - intros [= <-]. apply number_well_formed. simpl in Hv. unfold frac_ok in Hv.
    by rewrite !andb_true_iff in Hv; destruct Hv as [[? _] _].
  - intros [= <-]. by apply json_quote_well_formed.
  - intros [= <-]. apply (well_formed_app "["); [done|]. apply well_formed_app; [|done].
    by apply join_well_formed, texts_well_formed.
  - intros [= <-]. apply (well_formed_app "{"); [done|]. apply well_formed_app; [|done].
    apply andb_true_iff in Hv as [_ Hv]. by apply join_well_formed, fields_well_formed.
Qed.

Lemma map_set_same {V} k (v : V) (m : jmap jstr V) : map_get k m = Some v -> map_set k v m = m.
Proof.
  induction m as [|[k' v'] m IH]; [done|]. cbn [map_get map_set]. case_bool_decide.
  - by intros [= ->].
  - intros Hm. by rewrite IH.
Qed.

Lemma frame_type_upper type : one_of type RELAY_FRAME_TYPES = true -> to_upper type = type /\ truthy type = true.
Proof.
  intros Ht%one_of_elem. unfold RELAY_FRAME_TYPES in Ht.
  repeat (apply elem_of_cons in Ht as [-> | Ht]; [by vm_compute|]). by apply not_elem_of_nil in Ht.
Qed.

(** Normalizing the normalized object of a frame changes nothing. *)
Lemma normalize_type frame payload data l :
  normalizeFrame frame payload data = Ok l ->
  exists type, map_get "type"%js l = Some (Str type) /\ one_of type RELAY_FRAME_TYPES = true.
Proof.
  unfold normalizeFrame.
  set (fields := match frame with Str type => map_set _ _ _ | _ => _ end). clearbody fields.
  destruct (to_string _) as [type|e]; [|done]. destruct (one_of (to_upper type) RELAY_FRAME_TYPES) eqn:Ht; [|done].
  intros [= <-]. exists (to_upper type). split; [|done].
  destruct data as [b|]; [rewrite !map_get_set_ne by done|]; by rewrite map_get_set_eq.
Qed.

Lemma normalize_again frame payload data l :
  normalizeFrame frame payload data = Ok l -> normalizeFrame (Obj l) Undefined None = Ok l.
Proof.
  intros (type & Hl & Ht)%normalize_type. destruct (frame_type_upper _ Ht) as [Hu Htr].
  unfold normalizeFrame. change (spread (js_or (Obj l) (Obj []))) with l. rewrite Hl. cbn [from_option id].
  unfold js_or. cbn [js_truthy]. rewrite Htr. cbn [to_string]. rewrite Hu, Ht. cbn [negb].
  by rewrite map_set_same.
Qed.

(** A frame as the program sends it: the object is written and read back as it is
    (what JSON promises for such data), the bytes of [data] are bytes, and
    [dataEncoding] is what the encoder writes. *)
Record sendable (f : frame) (l : jmap jstr js) : Prop := {
  send_normal : normalizeFrame (fr_fields f) Undefined (fr_data f) = Ok l;
  send_data : data_ok (Obj l) = true;
  send_parsed : frame_json (json_stringify (Obj l)) = Some (Obj l);
  send_bytes : from_option (forallb byte_ok) true (fr_data f) = true;
  send_plain : fr_data f = None -> is_str (prop "dataEncoding" (Obj l)) "base64" = false
}.

Lemma body_decoded f l : sendable f l -> decodeRelayFrameBody (frame_body l) = Ok (Frame (Obj l) (fr_data f)).
Proof.
  intros [Hn Hd Hp Hb Hs]. unfold decodeRelayFrameBody, frame_body.
  rewrite utf8_text_bytes, Hp.
  2: { unfold json_stringify. destruct (json_text (Obj l)) as [s|] eqn:E; [|done].
       by apply (json_text_well_formed _ Hd). }
  rewrite (normalize_again _ _ _ _ Hn). cbn [mbind result_bind]. unfold restoreFrameData.
  destruct f as [fields [b|]]; cbn [fr_data from_option] in *.
  - assert (map_get "dataEncoding"%js l = Some (Str "base64") /\ map_get "data"%js l = Some (Str (base64_encode b)))
      as [He Ha].
    { unfold normalizeFrame in Hn. destruct (to_string _) as [type|e]; [|done]. destruct (negb _); [done|].
      injection Hn as <-. by rewrite map_get_set_eq, map_get_set_ne, map_get_set_eq by done. }
    change (optional "dataEncoding" (Obj l)) with (prop "dataEncoding" (Obj l)).
    assert (prop "dataEncoding" (Obj l) = Str "base64") as ->
      by (change (default Undefined (map_get "dataEncoding"%js l) = Str "base64"); by rewrite He).
    assert (prop "data" (Obj l) = Str (base64_encode b)) as ->
      by (change (default Undefined (map_get "data"%js l) = Str (base64_encode b)); by rewrite Ha).
    change (is_str (Str "base64") "base64") with true. by destruct (base64_round_trip b Hb) as [-> ->].
  - change (optional "dataEncoding" (Obj l)) with (prop "dataEncoding" (Obj l)). by rewrite (Hs eq_refl).
Qed.

(** An encoded frame at the head of a buffer. *)
Lemma drain_encoded f l max bs r :
  sendable f l -> encodeRelayFrame f Undefined max = Ok bs ->
  drain max (bs ++ r) = continue (Pushed [Frame (Obj l) (fr_data f)] None []) (drain max r).
Proof.
  intros Hf He. pose proof (body_decoded f l Hf) as Hbody. unfold encodeRelayFrame in He.
  rewrite (send_normal _ _ Hf) in He. cbn [mbind result_bind] in He.
  set (body := frame_body l) in *. set (n := Z.of_nat (length body)) in *.
  destruct ((n =? 0)%Z || (max <? n)%Z) eqn:Hn; [done|]. destruct (Z.ltb_spec MAX_UINT32 n) as [|Hu]; [done|].
  assert (uint32_be (Z.to_N n) ++ body = bs) as <- by congruence. rewrite <- app_assoc, drain_unfold.
  assert (read_uint32_be (uint32_be (Z.to_N n) ++ body ++ r) = Z.to_N n) as Hr
    by (apply uint32_round_trip; unfold MAX_UINT32 in Hu; lia).
  assert (length (uint32_be (Z.to_N n)) = 4) as Hl by done.
  rewrite Hr, !length_app, Hl. cbv zeta. rewrite (proj2 (Nat.ltb_ge _ _)) by lia.
  rewrite Z2N.id, Hn, (proj2 (Z.ltb_ge _ _)) by lia.
  replace (Z.to_nat n) with (length body) by lia.
  rewrite drop_app_length' by done. rewrite take_app_length, Hbody.
  by rewrite app_assoc, drop_app_length' by (rewrite length_app; lia).
Qed.

(** C27. The frames that are encoded are the frames that are decoded: when frames are
    written one after the other and the bytes arrive in any chunks, the decoder
    emits exactly these frames, normalized and in their order, without an
    error, and the end of the stream is no error either. *)
Theorem relay_frames_roundtrip max frames sent encoded chunks :
  (0 <= max)%Z -> Forall2 sendable frames sent ->
  Forall2 (fun f bs => encodeRelayFrame f Undefined max = Ok bs) frames encoded -> concat chunks = concat encoded ->
  exists d, push_all chunks (new_decoder max) = (zip_with (fun f l => Frame (Obj l) (fr_data f)) frames sent, [], d) /\
    decoder_end d = (None, d).
Proof.
  intros Hmax Hs He Hc.
  destruct (push_all_drain chunks (new_decoder max)) as (d & E & _ & Hd); [done..|].
  cbn [new_decoder de_buffer de_maxFrameBytes app] in *. rewrite Hc in *.
  assert (drain max (concat encoded) = Pushed (zip_with (fun f l => Frame (Obj l) (fr_data f)) frames sent) None [])
    as Hdr.
  { clear -Hs He. revert encoded He. induction Hs as [|f l frames sent Hf _ IH]; intros encoded He.
    - by inversion He.
    - inversion He as [|? bs ? encoded' Hb Hrest]; subst. cbn [concat zip_with].
      by rewrite (drain_encoded f l), (IH encoded'). }
  rewrite E, Hdr in *. exists d. split; [done|]. by rewrite Hd.
Qed.
End Stream.

(** ** An instance *)

Definition sample_data_frame : frame :=
  Frame (Obj [("type", Str "data"); ("requestId", Str "x"); ("data", Null)]) (Some [104; 105; 255]%N).

Definition sample_written : jmap jstr js :=
  [("type", Str "DATA"); ("requestId", Str "x"); ("data", Str "aGn/"); ("dataEncoding", Str "base64")].

(** A parser of this one text. *)
Definition sample_parser : FrameParser :=
  fun s => if jeqb s (json_stringify (Obj sample_written)) then Some (Obj sample_written) else None.

Definition sample_bytes : bytes := or_else (encodeRelayFrame sample_data_frame Undefined 1024) [].

Lemma sample_sendable : sendable (H := sample_parser) sample_data_frame sample_written.
Proof. by split; vm_compute. Qed.

Theorem relay_frames_roundtrip_witness :
  exists d, push_all (H := sample_parser) ((fun b => [b]) <$> sample_bytes ++ sample_bytes) (new_decoder 1024) =
    ([Frame (Obj sample_written) (Some [104; 105; 255]%N); Frame (Obj sample_written) (Some [104; 105; 255]%N)], [], d) /\
    decoder_end d = (None, d).
Proof.
  apply (relay_frames_roundtrip (H := sample_parser) 1024 [sample_data_frame; sample_data_frame]
    [sample_written; sample_written] [sample_bytes; sample_bytes]); [done| |by repeat constructor|by vm_compute].
  repeat constructor; apply sample_sendable.
Defined.

Definition whole_chunks : list bytes := [sample_bytes; [0; 0; 0; 0; 7]%N].

Definition single_chunks : list bytes := (fun b => [b]) <$> sample_bytes ++ [0; 0; 0; 0; 7]%N.

Theorem relay_chunks_irrelevant_witness :
  (push_all (H := sample_parser) whole_chunks (new_decoder 1024)).1.1 =
  (push_all (H := sample_parser) single_chunks (new_decoder 1024)).1.1.
Proof.
  destruct (push_all (H := sample_parser) whole_chunks (new_decoder 1024)) as [[fs es] d] eqn:E.
  destruct (push_all (H := sample_parser) single_chunks (new_decoder 1024)) as [[fs' es'] d'] eqn:E'.
  apply (relay_chunks_irrelevant (H := sample_parser) 1024 whole_chunks single_chunks fs es d fs' es' d');
    [done| |exact E|exact E'].
  by vm_compute.
Defined.

(** A frame of no bytes is an error; the frames after it are not read. *)
Example empty_frame_fails :
  push_all (H := sample_parser) [sample_bytes; [0; 0; 0; 0; 7]%N; sample_bytes] (new_decoder 1024) =
  ([Frame (Obj sample_written) (Some [104; 105; 255]%N)], [InvalidLength 0], Decoder 1024 [0; 0; 0; 0; 7]%N true).
Proof. by vm_compute. Qed.
