(* ===== verification/RelayAuth.v ===== *)
(** Relay sessions and requests: how the router mints their tokens,
    [src/cli/server/runtimeRelay/relayRequestMinter.js], and how the relay in an
    agent's container verifies them, [src/Agent/lib/relayRequestAuth.mjs].

   The router's side of relay tokens: [RelayRequestMinter] of
    [src/cli/server/runtimeRelay/relayRequestMinter.js]. *)

From stdpp Require Import prelude.
From Stdlib Require Import NArith.
From S2P Require Import Prelude.
From S2P Require Import JsString.
From S2P Require Import JsNumber.
From S2P Require Import JsMap.
From S2P Require Import JsValue.
From S2P Require Import JsUri.
From S2P Require Import JsBytes.
From S2P Require Import JsDouble.
From S2P Require Import RequestHash.
From S2P Require Import RelayToken.

Local Open Scope js_scope.

Inductive minter_error : Type :=
  | TextRequired (label : jstr)
  | AgentSecretRequired
  | InvalidBodyMode (mode : jstr)
  | MinterHash (e : hash_error).

#[export] Instance minter_error_eq_dec : EqDecision minter_error.
Proof. solve_decision. Defined.

Definition minter_text {A} (r : result hash_error A) : result minter_error A :=
  match r with
  | Ok a => Ok a
  | Err e => Err (MinterHash e)
  end.

(** [signHmacJwt] of the agent library: the compact JWS of a payload. *)
Class JwtSigner := sign_hmac_jwt : js -> bytes -> jstr.

Definition RELAY_TOKEN_TTL_SECONDS : Z := 30.

(** A secret as the router holds it: a [Buffer], or any other value. *)
Inductive secret_value : Type :=
  | SecretBytes (b : bytes)
  | SecretText (v : js).

Definition requireText (value : js) (label : jstr) : result minter_error jstr :=
  s ← minter_text (falsy_text value);
  if truthy (trim s) then Ok (trim s) else Err (TextRequired label).

(** [/^[0-9a-f]{64}$/i] *)
Definition is_hex_key (s : jstr) : bool :=
  (length s =? 64) && forallb (fun c => bool_decide (is_Some (hex_value c))) s.

(** [Buffer.from(hex, 'hex')] for pairs of digits. *)
Fixpoint hex_bytes (s : jstr) : bytes :=
  match s with
  | a :: b :: r =>
      match hex_value a, hex_value b with
      | Some x, Some y => (x * 16 + y)%N :: hex_bytes r
      | _, _ => []
      end
  | _ => []
  end.

Definition normalizeSecret (value : secret_value) : result minter_error bytes :=
  match value with
  | SecretBytes b =>
      if 32 <=? length b then Ok b
      else
        (* [String(buffer || '').trim()] *)
        let hex := trim (utf8_text b) in
        if is_hex_key hex then Ok (hex_bytes hex) else Err AgentSecretRequired
  | SecretText v =>
      s ← minter_text (falsy_text v);
      if is_hex_key (trim s) then Ok (hex_bytes (trim s)) else Err AgentSecretRequired
  end.

(** [Math.max(5, Math.min(Number(ttlSeconds) || 30, 30))] *)
Definition minter_ttl (ttlSeconds : js) : result minter_error real :=
  let top := Int (Fin RELAY_TOKEN_TTL_SECONDS) in
  n ← minter_text
    match number_of (match ttlSeconds with Undefined => Num (Fin RELAY_TOKEN_TTL_SECONDS) | _ => ttlSeconds end) with
    | Ok n => Ok n
    | Err e => Err (Language e)
    end;
  let n := match n with Int NaN | Int (Fin 0) => top | _ => n end in
  let n := if real_lt top n then top else n in
  Ok (if real_lt n (Int (Fin 5)) then Int (Fin 5) else n).

(** A number as a datum. *)
Definition js_of_real (r : real) : js :=
  match r with
  | Int n => Num n
  | Dbl x => Frac (double_text x)
  end.

(** What the callers pass, [undefined] where a field is missing. *)
Record session_input : Type := SessionInput {
  si_identity : relay_identity;
  si_deniedPorts : js
}.

Record request_input : Type := RequestInput {
  qi_identity : relay_identity;
  qi_surface : relay_surface
}.

Section Minting.
Context `{Sha256Url} `{JwtSigner}.

(** The secret a token is signed with: the one of the channel, or the agent's. *)
Definition sign_token (agentSecret : secret_value) (signingSecret : option secret_value) (payload : js) :
    result minter_error jstr :=
  secret ← normalizeSecret (default agentSecret signingSecret);
  Ok (sign_hmac_jwt payload secret).

(** The required texts of an identity, the session apart. *)
Definition required_identity (i : relay_identity) : result minter_error (jstr * (jstr * (jstr * (jstr * jstr)))) :=
  targetAgentId ← requireText (ri_targetAgentId i) "targetAgentId";
  effectiveInstanceId ← requireText (ri_effectiveInstanceId i) "effectiveInstanceId";
  enableGeneration ← requireText (ri_enableGeneration i) "enableGeneration";
  containerId ← requireText (ri_containerId i) "containerId";
  generationDigest ← requireText (ri_generationDigest i) "generationDigest";
  Ok (targetAgentId, (effectiveInstanceId, (enableGeneration, (containerId, generationDigest)))).

(** The payload of a session token; [now] is in milliseconds, [sessionNonce] and
    [jti] are random identifiers. *)
Definition session_payload (input : session_input) (ttl : real) (now : Z) (sessionNonce jti : jstr) :
    result minter_error js :=
  '(target, (instance, (generation, (container, digest)))) ← required_identity (si_identity input);
  session ← requireText (js_or (ri_relaySessionId (si_identity input)) (Str sessionNonce)) "relaySessionId";
  ports ← minter_text (normalizeCanonicalPortSet (js_or (si_deniedPorts input) (Arr [])));
  denySetDigest ← minter_text (computeRelayDenySetDigest (port_values ports));
  rch ← minter_text (computeRchRelaySession
    (RelayIdentity (Str target) (Str instance) (Str generation) (Str container) (Str digest) (Str session))
    (port_values ports) (Str denySetDigest));
  let iat := Int (Fin (now / 1000)) in
  Ok (Obj [("typ", Str "relay-session"); ("iss", Str "ploinky-router"); ("aud", Str target); ("sub", Str target);
    ("effectiveInstanceId", Str instance); ("enableGeneration", Str generation); ("containerId", Str container);
    ("generationDigest", Str digest); ("relaySessionId", Str session); ("deniedPorts", port_values ports);
    ("denySetDigest", Str denySetDigest); ("rch", Str rch); ("iat", js_of_real iat);
    ("exp", js_of_real (real_add iat ttl)); ("jti", Str jti)]).

Definition mintSession (agentSecret : secret_value) (signingSecret : option secret_value) (ttl : real)
    (input : session_input) (now : Z) (sessionNonce jti : jstr) : result minter_error (jstr * js) :=
  payload ← session_payload input ttl now sessionNonce jti;
  token ← sign_token agentSecret signingSecret payload;
  Ok (token, payload).

Definition request_payload (input : request_input) (ttl : real) (now : Z) (jti : jstr) : result minter_error js :=
  let s := qi_surface input in
  '(target, (instance, (generation, (container, digest)))) ← required_identity (qi_identity input);
  session ← requireText (ri_relaySessionId (qi_identity input)) "relaySessionId";
  denySetDigest ← requireText (rs_denySetDigest s) "denySetDigest";
  method ← requireText (rs_method s) "method";
  path ← requireText (rs_path s) "path";
  bodyMode ← requireText (rs_bodyMode s) "bodyMode";
  if negb (one_of bodyMode ["buffered"; "stream"; "none"]) then Err (InvalidBodyMode bodyMode)
  else
    let query := js_or (rs_query s) (Str []) in
    let bodyHash := js_or (rs_bodyHash s) (Str []) in
    rch ← minter_text (computeRchRelayRequest
      (RelayIdentity (Str target) (Str instance) (Str generation) (Str container) (Str digest) (Str session))
      (RelaySurface (Str denySetDigest) (Str (to_upper method)) (rs_port s) (Str path) query (Str bodyMode) bodyHash));
    let iat := Int (Fin (now / 1000)) in
    port ← minter_text (match to_string (rs_port s) with Ok t => Ok t | Err e => Err (Language e) end);
    query ← minter_text (falsy_text query);
    bodyHash ← minter_text (falsy_text bodyHash);
    Ok (Obj [("typ", Str "relay-request"); ("iss", Str "ploinky-router"); ("aud", Str target); ("sub", Str target);
      ("effectiveInstanceId", Str instance); ("enableGeneration", Str generation); ("containerId", Str container);
      ("generationDigest", Str digest); ("relaySessionId", Str session); ("denySetDigest", Str denySetDigest);
      ("method", Str (to_upper method)); ("port", Str port); ("path", Str path); ("query", Str query);
      ("bodyMode", Str bodyMode); ("bodyHash", Str bodyHash); ("rch", Str rch); ("iat", js_of_real iat);
      ("exp", js_of_real (real_add iat ttl)); ("jti", Str jti)]).

Definition mintRequest (agentSecret : secret_value) (signingSecret : option secret_value) (ttl : real)
    (input : request_input) (now : Z) (jti : jstr) : result minter_error (jstr * js) :=
  payload ← request_payload input ttl now jti;
  token ← sign_token agentSecret signingSecret payload;
  Ok (token, payload).
End Minting.

(** What a verification throws. *)
Inductive relay_error : Type :=
  | InToken (e : token_error)
  | InHash (e : hash_error)
  | TokenType
  | TokenIssuer
  | Mismatch (label : jstr).

#[export] Instance relay_error_eq_dec : EqDecision relay_error.
Proof. solve_decision. Defined.

Definition hashed {A} (r : result hash_error A) : result relay_error A :=
  match r with
  | Ok a => Ok a
  | Err e => Err (InHash e)
  end.

(** ** Verification *)

Definition requireEqual (actual expected : js) (label : jstr) : result relay_error unit :=
  match expected with
  | Undefined => Ok tt
  | _ =>
      a ← hashed (nullish_text actual);
      b ← hashed (nullish_text expected);
      if jeqb a b then Ok tt else Err (Mismatch label)
  end.

(** What a session token is verified against, [undefined] where nothing is
    expected. *)
Record expected_session : Type := ExpectedSession {
  es_options : verify_options;
  es_effectiveInstanceId : js;
  es_enableGeneration : js;
  es_containerId : js;
  es_generationDigest : js;
  es_relaySessionId : js;
  es_deniedPorts : js
}.

(** The fields of a request token that are compared, in this order. *)
Definition REQUEST_FIELDS : list jstr :=
  ["effectiveInstanceId"; "enableGeneration"; "containerId"; "generationDigest"; "relaySessionId";
   "denySetDigest"; "method"; "port"; "path"; "query"; "bodyMode"; "bodyHash"].

(** [expected[field]] for those fields. *)
Record expected_request : Type := ExpectedRequest {
  er_options : verify_options;
  er_fields : jmap jstr js
}.

(** The identity a payload names. *)
Definition payload_identity (payload : js) : relay_identity :=
  RelayIdentity (prop "aud" payload) (prop "effectiveInstanceId" payload) (prop "enableGeneration" payload)
    (prop "containerId" payload) (prop "generationDigest" payload) (prop "relaySessionId" payload).

Definition payload_surface (payload : js) : relay_surface :=
  RelaySurface (prop "denySetDigest" payload) (prop "method" payload) (prop "port" payload) (prop "path" payload)
    (match prop "query" payload with Undefined => Str [] | q => q end)
    (prop "bodyMode" payload)
    (match prop "bodyHash" payload with Undefined => Str [] | h => h end).

Section Verification.
Context `{TokenHost} `{Sha256Url}.

Notation verifyM := (stateM (option relay_cache) relay_error).

Definition verifyBase (token : js) (options : verify_options) (r : readings) : verifyM js := fun cache =>
  match verifyRelayJws token options r cache with
  | (Ok (_, payload), cache) => (Ok (js_or payload (Obj [])), cache)
  | (Err e, cache) => (Err (InToken e), cache)
  end.

Definition check_issued (payload : js) (typ : jstr) : result relay_error unit :=
  if negb (is_str (prop "typ" payload) typ) then Err TokenType
  else if negb (is_str (prop "iss" payload) "ploinky-router") then Err TokenIssuer
  else Ok tt.

Definition check_session (payload : js) (expected : expected_session) : result relay_error (list Z * jstr) :=
  _ ← check_issued payload "relay-session";
  _ ← requireEqual (prop "sub" payload) (Str (vo_expectedAudience (es_options expected))) "subject";
  _ ← requireEqual (prop "effectiveInstanceId" payload) (es_effectiveInstanceId expected) "effective instance";
  _ ← requireEqual (prop "enableGeneration" payload) (es_enableGeneration expected) "enable generation";
  _ ← requireEqual (prop "containerId" payload) (es_containerId expected) "container identity";
  _ ← requireEqual (prop "generationDigest" payload) (es_generationDigest expected) "generation";
  _ ← requireEqual (prop "relaySessionId" payload) (es_relaySessionId expected) "relay session";
  deniedPorts ← hashed (normalizeCanonicalPortSet (js_or (prop "deniedPorts" payload) (Arr [])));
  denySetDigest ← hashed (computeRelayDenySetDigest (port_values deniedPorts));
  _ ← requireEqual (prop "denySetDigest" payload) (Str denySetDigest) "deny set digest";
  _ ← match es_deniedPorts expected with
      | Undefined => Ok tt
      | ports =>
          ports ← hashed (normalizeCanonicalPortSet ports);
          if bool_decide (deniedPorts = ports) then Ok tt else Err (Mismatch "deny set")
      end;
  rch ← hashed (computeRchRelaySession (payload_identity payload) (port_values deniedPorts) (Str denySetDigest));
  _ ← requireEqual (prop "rch" payload) (Str rch) "request hash";
  Ok (deniedPorts, denySetDigest).

(** The payload, the denied ports and their digest. *)
Definition verifyRelaySessionToken (token : js) (expected : expected_session) (r : readings) :
    verifyM (js * (list Z * jstr)) :=
  payload ← verifyBase token (es_options expected) r;
  denied ← lift (check_session payload expected);
  mret (payload, denied).

Fixpoint check_fields (payload : js) (expected : jmap jstr js) (fields : list jstr) : result relay_error unit :=
  match fields with
  | [] => Ok tt
  | field :: fields =>
      _ ← requireEqual (prop field payload) (default Undefined (map_get field expected)) field;
      check_fields payload expected fields
  end.

Definition check_request (payload : js) (expected : expected_request) : result relay_error unit :=
  _ ← check_issued payload "relay-request";
  _ ← requireEqual (prop "sub" payload) (Str (vo_expectedAudience (er_options expected))) "subject";
  _ ← check_fields payload (er_fields expected) REQUEST_FIELDS;
  rch ← hashed (computeRchRelayRequest (payload_identity payload) (payload_surface payload));
  requireEqual (prop "rch" payload) (Str rch) "request hash".

Definition verifyRelayRequestToken (token : js) (expected : expected_request) (r : readings) : verifyM js :=
  payload ← verifyBase token (er_options expected) r;
  _ ← lift (check_request payload expected);
  mret payload.
End Verification.
