(* ===== verification/RelayTokenTheorems.v ===== *)
(** A relay token is accepted once: the cache keeps its identifier for as long as
    its times admit it. *)

From stdpp Require Import prelude sorting.
From Stdlib Require Import NArith.
From S2P Require Import Prelude.
From S2P Require Import JsString.
From S2P Require Import JsNumber.
From S2P Require Import JsMap.
From S2P Require Import JsValue.
From S2P Require Import JsBytes.
From S2P Require Import JsDouble.
From S2P Require Import RelayToken.

Local Open Scope js_scope.

(** ** What an accepted token satisfies *)

Section Acceptance.
Context `{TokenHost}.

Definition skew_of (o : verify_options) : Z := default DEFAULT_CLOCK_SKEW_SECONDS (vo_clockSkewSeconds o).

(** The payload of a token whose signature is that of the secret. *)
Definition signed_payload (token : js) (secret : bytes) (header payload : js) : Prop :=
  exists d, decodeJws token = Ok d /\ header = jws_header d /\ payload = jws_payload d /\
    optional "alg" header = Str "HS256" /\
    jws_signature d = hmac_sha256 secret (utf8_bytes (jws_signingInput d)).

Lemma verify_accepts token o r c header payload c' :
  verifyRelayJws token o r c = (Ok (header, payload), c') <->
  exists secret, vo_secret o = Some secret /\ 32 <= length secret /\
    signed_payload token secret header payload /\
    assertTimeValid payload (skew_of o) (default (at_time r) (vo_now o)) = Ok tt /\
    assertAudience payload (vo_expectedAudience o) = Ok tt /\
    assertReplayProtected payload (skew_of o) (vo_now o) r c = (Ok tt, c').
Proof.
  unfold verifyRelayJws. destruct (vo_secret o) as [secret|]; [|by split; [|intros (? & ? & _)]].
  destruct (Nat.ltb_spec (length secret) 32) as [Hl|Hl].
  { split; [done|]. intros (s & [= ->] & ? & _). lia. }
  split.
  - intros (d & c1 & [Hd ->]%lift_Ok & H1)%bind_Ok.
    apply bind_Ok in H1 as ([] & c1 & [Hs ->]%lift_Ok & H1).
    apply bind_Ok in H1 as ([] & c1 & [Ht ->]%lift_Ok & H1).
    apply bind_Ok in H1 as ([] & c1 & [Ha ->]%lift_Ok & H1).
    apply bind_Ok in H1 as ([] & c1 & Hr & [= <- <- ->]).
    exists secret. split_and!; [done|lia| |done..]. exists d. unfold assertSignatureMatches in Hs.
    destruct (is_str _ _) eqn:He; [|done]. apply is_str_eq in He. simpl in Hs.
    case_bool_decide; [|done]. done.
  - intros (s & [= <-] & _ & (d & Hd & -> & -> & Halg & Hsig) & Ht & Ha & Hr).
    fold (skew_of o). rewrite bind_lift, Hd, bind_lift. unfold assertSignatureMatches at 1.
    rewrite (proj2 (is_str_eq _ _) Halg). cbn [negb]. rewrite bool_decide_true by done.
    rewrite bind_lift, Ht, bind_lift, Ha. by rewrite (bind_run _ _ _ _ _ Hr).
Qed.

(** ** The cache *)

Definition cache_ok (c : relay_cache) : Prop := map_wf (rc_entries c).

(** [j] is kept until [until]. *)
Definition kept (j : jstr) (until : Z) (c : relay_cache) : Prop :=
  exists e, map_get j (rc_entries c) = Some (Int (Fin e)) /\ (until <= e)%Z.

Lemma prune_ok t c : cache_ok c -> cache_ok (prune t c).
Proof. apply map_wf_filter. Qed.

Lemma prune_kept j until t c : cache_ok c -> (t < until)%Z -> kept j until c -> kept j until (prune t c).
Proof.
  intros Hc Ht (e & He & Hle). exists e. split; [|done]. simpl. rewrite map_get_filter, He by done. simpl.
  unfold real_le, jle. rewrite (proj2 (Z.leb_gt e t)) by lia. done.
Qed.

Lemma remember_spec j ttl t1 t2 c res c' :
  cache_remember j ttl t1 t2 c = (res, c') ->
  c' = prune t1 c /\ res = Err CacheExhausted \/
  c' = RelayCache (rc_capacity c) (map_set j (real_add (Int (Fin t2)) (kept_ms ttl)) (rc_entries (prune t1 c))) /\
  res = Ok tt.
Proof.
  unfold cache_remember. destruct (_ && _); intros [= <- <-]; [by left|by right].
Qed.

(** A step of the cache in one verification refuses an identifier whose time is not
    over, and keeps it. *)
Lemma replay_step payload skew now r c res c' :
  assertReplayProtected payload skew now r (Some c) = (res, c') -> cache_ok c ->
  exists c'', c' = Some c'' /\ cache_ok c'' /\
    forall j until, (at_seen r < until)%Z -> kept j until c ->
      (trimmed_text (optional "jti" payload) = Ok j -> res <> Ok tt) /\
      ((at_prune r < until)%Z -> kept j until c'').
Proof.
  unfold assertReplayProtected. intros E Hc. destruct (trimmed_text _) as [id|e] eqn:Hid; cbn [of_language] in E.
  2: { injection E as <- <-. exists c. split_and!; try done; intros j until _ Hk; by split. }
  destruct (truthy id) eqn:Hne; cbn [negb] in E.
  2: { injection E as <- <-. exists c. split_and!; try done; intros j until _ Hk; by split. }
  unfold cache_seen in E. pose proof (prune_ok (at_seen r) c Hc) as Hc1.
  assert (forall j until, (at_seen r < until)%Z -> kept j until c -> kept j until (prune (at_seen r) c)) as Hk1
    by (intros; by apply prune_kept).
  destruct (map_has id (rc_entries (prune (at_seen r) c))) eqn:Hseen.
  { injection E as <- <-. eexists. split_and!; try done; intros j until H1 Hk; split; [done|by intros; apply Hk1]. }
  assert (forall j until, (at_seen r < until)%Z -> kept j until c -> Ok (E := js_error) id <> Ok j) as Hno.
  { intros j until H1 Hk [= ->]. destruct (Hk1 j until H1 Hk) as (e & He & _).
    unfold map_has in Hseen. by rewrite He in Hseen. }
  assert (forall j until, (at_seen r < until)%Z -> (at_prune r < until)%Z -> kept j until c ->
    kept j until (prune (at_prune r) (prune (at_seen r) c))) as Hk2 by (intros; apply prune_kept; auto).
  destruct (number_of _) as [x|e]; cbn [of_language] in E.
  2: { injection E as <- <-. eexists. split_and!; try done; intros j until H1 Hk; split; [done|by intros; apply Hk1]. }
  destruct (cache_remember _ _ _ _ _) as [res' c2] eqn:Hr. injection E as <- <-. exists c2. split; [done|].
  destruct (remember_spec _ _ _ _ _ _ _ Hr) as [[-> _] | [-> ->]].
  - split; [by apply prune_ok|]. intros j until H1 Hk.
    split; [intros Hj; by destruct (Hno j until H1 Hk)|intros H2; by apply Hk2].
  - split; [by apply map_wf_set, prune_ok|]. intros j until H1 Hk.
    split; [intros Hj; by destruct (Hno j until H1 Hk)|]. intros H2.
    destruct (Hk2 j until H1 H2 Hk) as (e & He & Hle). exists e. split; [|done]. cbn [rc_entries].
    rewrite map_get_set_ne; [done|]. intros ->. by apply (Hno id until H1 Hk).
Qed.

(** A whole verification: refused before the cache is asked, or a step of it. *)
Lemma verify_step token o r c res c' :
  verifyRelayJws token o r (Some c) = (res, c') -> cache_ok c ->
  exists c'', c' = Some c'' /\ cache_ok c'' /\
    forall j until, (at_seen r < until)%Z -> (at_prune r < until)%Z -> kept j until c -> kept j until c''.
Proof.
  intros E Hc.
  assert (c' = Some c \/ exists payload res', assertReplayProtected payload (skew_of o) (vo_now o) r (Some c) = (res', c'))
    as [-> | (p & res' & E')].
  - unfold verifyRelayJws in E. destruct (vo_secret o) as [secret|]; [|left; by injection E].
    destruct (_ <? _); [left; by injection E|]. fold (skew_of o) in E.
    rewrite bind_lift in E. destruct (decodeJws token) as [d|]; [|left; by injection E].
    rewrite bind_lift in E. destruct (assertSignatureMatches _ _); [|left; by injection E].
    rewrite bind_lift in E. destruct (assertTimeValid _ _ _); [|left; by injection E].
    rewrite bind_lift in E. destruct (assertAudience _ _); [|left; by injection E].
    right. exists (jws_payload d). unfold mbind, stateM_bind in E.
    destruct (assertReplayProtected _ _ _ _ _) as [[]]; injection E as <- <-; by eexists.
  - by exists c.
  - destruct (replay_step _ _ _ _ _ _ _ E' Hc) as (c'' & -> & Hc'' & H'). exists c''.
    split_and!; [done..|]. intros j until H1 H2 Hk. by apply (H' j until H1 Hk).
Qed.

(** ** Sequences of verifications *)

Record attempt : Type := Attempt {
  a_token : js;
  a_options : verify_options;
  a_readings : readings
}.

Definition run_attempt (a : attempt) : stateM (option relay_cache) token_error (js * js) :=
  verifyRelayJws (a_token a) (a_options a) (a_readings a).

Definition run_attempts (l : list attempt) (c : option relay_cache) : option relay_cache :=
  fold_left (fun c a => (run_attempt a c).2) l c.

(** The clock does not go back, within a verification and from one to the next. *)
Definition in_order (r : readings) : Prop :=
  (at_time r <= at_seen r /\ at_seen r <= at_ttl r /\ at_ttl r <= at_prune r /\ at_prune r <= at_store r)%Z.

Fixpoint clock_from (t : Z) (l : list attempt) : Prop :=
  match l with
  | [] => True
  | a :: l => (t <= at_time (a_readings a))%Z /\ in_order (a_readings a) /\ clock_from (at_store (a_readings a)) l
  end.

Lemma clock_from_app t l m : clock_from t (l ++ m) -> clock_from t l /\
  exists t', (t <= t')%Z /\ clock_from t' m /\ Forall (fun a => at_prune (a_readings a) <= t')%Z l.
Proof.
  revert t. induction l as [|a l IH]; simpl; intros t.
  - intros H'. split; [done|]. by exists t.
  - intros (H1 & H2 & H3). destruct (IH _ H3) as (H4 & t' & H5 & H6 & H7). split; [done|].
    unfold in_order in H2. exists t'. split_and!; [lia|done|]. constructor; [lia|done].
Qed.

Lemma attempts_ok l c : cache_ok c -> exists c', run_attempts l (Some c) = Some c' /\ cache_ok c'.
Proof.
  revert c. induction l as [|a l IH]; intros c Hc; [by exists c|]. cbn.
  destruct (run_attempt a (Some c)) as [res c1] eqn:E.
  destruct (verify_step _ _ _ _ _ _ E Hc) as (c2 & -> & Hc2 & _). by apply IH.
Qed.

Lemma attempts_keep l c j until t :
  cache_ok c -> clock_from t l -> Forall (fun a => at_prune (a_readings a) < until)%Z l -> kept j until c ->
  exists c', run_attempts l (Some c) = Some c' /\ cache_ok c' /\ kept j until c'.
Proof.
  revert c t. induction l as [|a l IH]; intros c t Hc; cbn; [intros _ _ Hk; by exists c|].
  intros (_ & Ho & Hl) [Ha Hla]%Forall_cons Hk. unfold in_order in Ho.
  destruct (run_attempt a (Some c)) as [res c1] eqn:E.
  destruct (verify_step _ _ _ _ _ _ E Hc) as (c2 & -> & Hc2 & Hk2).
  apply (IH c2 (at_store (a_readings a))); try done. apply Hk2; [lia..|done].
Qed.
(** ** One acceptance *)

(** The first millisecond at which the times of a token refuse it. *)
Definition refused_from (e skew : Z) : Z := ((e + skew + 1) * 1000)%Z.

Lemma kept_ms_Z z : kept_ms (Int (Fin z)) = Int (Fin (Z.max 1 z)).
Proof. unfold kept_ms. destruct z; by rewrite real_max_1_Z. Qed.

Lemma time_bound payload skew t e :
  assertTimeValid payload skew t = Ok tt -> number_of (optional "exp" payload) = Ok (Int (Fin e)) ->
  (t < refused_from e skew)%Z.
Proof.
  unfold assertTimeValid. intros E He. rewrite He in E.
  destruct (number_of (optional "iat" payload)) as [i|]; [|done]. cbn [of_language mbind result_bind] in E.
  repeat (case_match; [done|]). cbn in *. unfold jlt, jadd in *.
  match goal with H : (e + skew <? t / 1000)%Z = false |- _ => apply Z.ltb_ge in H as Hle end.
  unfold refused_from. pose proof (Z_div_mod_eq_full t 1000). pose proof (Z.mod_pos_bound t 1000). lia.
Qed.

Lemma accepted_kept payload skew r c c' j e :
  assertReplayProtected payload skew None r (Some c) = (Ok tt, c') ->
  trimmed_text (optional "jti" payload) = Ok j -> number_of (optional "exp" payload) = Ok (Int (Fin e)) ->
  (at_ttl r <= at_store r)%Z ->
  exists c'', c' = Some c'' /\ kept j (refused_from e skew) c''.
Proof.
  unfold assertReplayProtected. intros E Hj He Ht. rewrite Hj in E. cbn [of_language] in E.
  destruct (truthy j); cbn [negb] in E; [|done]. unfold cache_seen in E.
  destruct (map_has _ _); [done|]. rewrite He in E. cbn [of_language default] in E.
  destruct (cache_remember _ _ _ _ _) as [res c2] eqn:Hr. injection E as -> <-. exists c2. split; [done|].
  destruct (remember_spec _ _ _ _ _ _ _ Hr) as [[_ [=]] | [-> _]].
  unfold kept. cbn [rc_entries]. rewrite map_get_set_eq. unfold remaining_ms, refused_from.
  autorewrite with reals. rewrite kept_ms_Z. autorewrite with reals. eexists. split; [done|]. lia.
Qed.

(** Accepting [b] after [a], with the same identifier and expiry, takes a clock that
    passes the end of the token's times between the two readings of [b]. *)
Lemma accepted_again a between b c0 c1 c3 h p h' p' j e :
  cache_ok c0 -> run_attempt a (Some c0) = (Ok (h, p), c1) ->
  run_attempt b (run_attempts between c1) = (Ok (h', p'), c3) ->
  vo_now (a_options a) = None -> vo_now (a_options b) = None ->
  skew_of (a_options b) = skew_of (a_options a) ->
  trimmed_text (optional "jti" p) = Ok j -> trimmed_text (optional "jti" p') = Ok j ->
  number_of (optional "exp" p) = Ok (Int (Fin e)) -> number_of (optional "exp" p') = Ok (Int (Fin e)) ->
  in_order (a_readings a) -> clock_from (at_store (a_readings a)) (between ++ [b]) ->
  (at_time (a_readings b) < refused_from e (skew_of (a_options a)) <= at_seen (a_readings b))%Z.
Proof.
  intros Hc0 Ha Hb Hna Hnb Hskew Hj Hj' He He' Hoa Hclock.
  destruct (verify_step _ _ _ _ _ _ Ha Hc0) as (c1' & -> & Hc1 & _).
  apply verify_accepts in Ha as (s & _ & _ & _ & _ & _ & Ha). rewrite Hna in Ha.
  apply clock_from_app in Hclock as (Hbetween & t' & _ & (Htb & Hob & _) & Hprunes).
  apply verify_accepts in Hb as (s' & _ & _ & _ & Htime & _ & Hb). rewrite Hnb, Hskew in Htime, Hb.
  pose proof (time_bound _ _ _ _ Htime He') as Ht. split; [exact Ht|]. apply Z.nlt_ge. intros Hs.
  unfold in_order in *. destruct (accepted_kept _ _ _ _ _ _ _ Ha Hj He) as (c1'' & [= <-] & Hk); [lia|].
  destruct (attempts_keep between c1' j (refused_from e (skew_of (a_options a))) _ Hc1 Hbetween)
    as (c2 & E2 & Hc2 & Hk2); [|done|].
  { eapply Forall_impl; [exact Hprunes|]. simpl. intros x Hx. cbn in Ht. lia. }
  rewrite E2 in Hb. destruct (replay_step _ _ _ _ _ _ _ Hb Hc2) as (c3' & -> & _ & Hno).
  by destruct (Hno j _ Hs Hk2) as [Hno' _]; destruct (Hno' Hj').
Qed.
Lemma created_cache_ok m c : createRelayReplayCache m = Ok c -> cache_ok c.
Proof. intros (n & _ & [= <-])%result_bind_Ok. apply map_wf_nil. Qed.

(** C23. A relay token is accepted once, whatever other tokens are verified before,
    in between and after: when a token with the identifier and the expiry of an
    accepted one is accepted as well, the token's times ended (its expiry, the
    clock skew and the rest of that second) between the two clock readings of
    this one verification, the first for the times and the second for the
    cache. *)
Theorem relay_token_accepted_once maxSize c before a between b c1 c3 h p h' p' j e :
  createRelayReplayCache maxSize = Ok c ->
  run_attempt a (run_attempts before (Some c)) = (Ok (h, p), c1) ->
  run_attempt b (run_attempts between c1) = (Ok (h', p'), c3) ->
  vo_now (a_options a) = None -> vo_now (a_options b) = None ->
  skew_of (a_options b) = skew_of (a_options a) ->
  trimmed_text (optional "jti" p) = Ok j -> trimmed_text (optional "jti" p') = Ok j ->
  number_of (optional "exp" p) = Ok (Int (Fin e)) -> number_of (optional "exp" p') = Ok (Int (Fin e)) ->
  in_order (a_readings a) -> clock_from (at_store (a_readings a)) (between ++ [b]) ->
  (at_time (a_readings b) < (e + skew_of (a_options a) + 1) * 1000 <= at_seen (a_readings b))%Z.
Proof.
  intros Hc. destruct (attempts_ok before c (created_cache_ok _ _ Hc)) as (c0 & -> & Hc0).
  by apply accepted_again.
Qed.
End Acceptance.

(** ** An instance: the clock passes the end of the times *)

Definition sample_payload : js :=
  Obj [("iat", Num (Fin 100)); ("exp", Num (Fin 130)); ("aud", Str "agent"); ("jti", Str "id")].

(** A host with one token, [h.p.s]. *)
Definition sample_host : TokenHost := {|
  base64_bytes s := take 1 s;
  parse_json s :=
    if jeqb s "h" then Some (Obj [("alg", Str "HS256")]) else if jeqb s "p" then Some sample_payload else None;
  hmac_sha256 _ _ := "s"%js
|}.

Definition sample_options : verify_options := VerifyOptions (Some (repeat 7%N 32)) "agent" None None.

Definition at_once (t : Z) : readings := Readings t t t t t.

Definition first_attempt : attempt := Attempt (Str "h.p.s") sample_options (at_once 101000).

Definition second_attempt (t : readings) : attempt := Attempt (Str "h.p.s") sample_options t.

Definition late_readings : readings := Readings 160999 161000 161000 161000 161000.

Notation after_first := (run_attempt (H := sample_host) first_attempt (Some (RelayCache 2048 []))).2.

(** The token is accepted again when the clock passes the end of its times during
    the verification; a millisecond before or after it is refused. *)
Theorem relay_token_replayed :
  (run_attempt (H := sample_host) (second_attempt late_readings) after_first).1 =
    Ok (Obj [("alg", Str "HS256")], sample_payload) /\
  (run_attempt (H := sample_host) (second_attempt (at_once 160999)) after_first).1 = Err JtiConsumed /\
  (run_attempt (H := sample_host) (second_attempt (at_once 161000)) after_first).1 = Err TokenExpired.
Proof. by vm_compute. Qed.

Theorem relay_token_accepted_once_witness : (160999 < 161000 <= 161000)%Z.
Proof.
  apply (relay_token_accepted_once (H := sample_host) Undefined (RelayCache 2048 []) [] first_attempt []
    (second_attempt late_readings) after_first
    (run_attempt (H := sample_host) (second_attempt late_readings) after_first).2
    (Obj [("alg", Str "HS256")]) sample_payload (Obj [("alg", Str "HS256")]) sample_payload "id" 130);
    try (by vm_compute); cbn; unfold in_order; cbn; lia.
Defined.
