(* ===== verification/RelayAuthTheorems.v ===== *)
(** Relay tokens between the router and the relay: what a verified token says,
    and that the relay accepts what the router mints. *)

From stdpp Require Import prelude.
From Stdlib Require Import NArith.
From S2P Require Import Prelude.
From S2P Require Import JsString.
From S2P Require Import JsNumber.
From S2P Require Import JsMap.
From S2P Require Import JsValue.
From S2P Require Import JsUri.
From S2P Require Import JsBytes.
From S2P Require Import JsDouble.
From S2P Require Import AgentPort.
From S2P Require Import RequestHash.
From S2P Require Import RelayToken.
From S2P Require Import RelayTokenTheorems.
From S2P Require Import RelayAuth.

Local Open Scope js_scope.

(** ** Verified tokens *)

(** [v] reads as the text that [expected] does. *)
Definition same_text (v expected : js) : Prop :=
  exists t, nullish_text v = Ok t /\ nullish_text expected = Ok t.

Lemma hashed_Ok {A} (r : result hash_error A) a : hashed r = Ok a <-> r = Ok a.
Proof. unfold hashed. destruct r; [|by split]. split; congruence. Qed.

Lemma requireEqual_unfold actual expected label :
  expected = Undefined \/
  requireEqual actual expected label =
    a ← hashed (nullish_text actual); b ← hashed (nullish_text expected);
    if jeqb a b then Ok tt else Err (Mismatch label).
Proof. destruct expected; auto. Qed.

Lemma require_equal actual expected label :
  requireEqual actual expected label = Ok tt -> expected = Undefined \/ same_text actual expected.
Proof.
  destruct (requireEqual_unfold actual expected label) as [-> | ->]; [by left|right].
  apply result_bind_Ok in H as (a & Ha%hashed_Ok & H). apply result_bind_Ok in H as (b & Hb%hashed_Ok & H).
  destruct (jeqb a b) eqn:E; [|done]. apply jeqb_eq in E as ->. by exists b.
Qed.

Lemma require_same actual expected label : same_text actual expected -> requireEqual actual expected label = Ok tt.
Proof.
  intros (t & Ha & He). destruct (requireEqual_unfold actual expected label) as [-> | ->]; [done|].
  rewrite Ha, He. simpl. by rewrite jeqb_refl.
Qed.

Section Verified.
Context `{TokenHost} `{Sha256Url}.

(** What every verified token satisfies: it carries the signature of the secret, is
    of the wanted type, was issued by the router for the expected agent and
    holds the hash of the fields it names. *)
Definition issued (token : js) (o : verify_options) (typ : jstr) (payload : js) : Prop :=
  exists secret header, vo_secret o = Some secret /\ 32 <= length secret /\
    signed_payload token secret header payload /\
    prop "typ" payload = Str typ /\ prop "iss" payload = Str "ploinky-router" /\
    same_text (prop "sub" payload) (Str (vo_expectedAudience o)).

(** The fields of a payload a request is compared with. *)
Definition matches_fields (payload : js) (expected : jmap jstr js) : Prop :=
  forall field v, field ∈ REQUEST_FIELDS -> map_get field expected = Some v -> v <> Undefined ->
    same_text (prop field payload) v.

Lemma check_fields_match payload expected fields :
  check_fields payload expected fields = Ok tt ->
  forall field v, field ∈ fields -> map_get field expected = Some v -> v <> Undefined ->
    same_text (prop field payload) v.
Proof.
  induction fields as [|f fields IH]; cbn [check_fields]; intros E field v Hf Hv Hne; [by apply not_elem_of_nil in Hf|].
  apply result_bind_Ok in E as ([] & E1 & E2). apply elem_of_cons in Hf as [-> | Hf]; [|by apply (IH E2 field)].
  rewrite Hv in E1. by apply require_equal in E1 as [E1|E1].
Qed.

Lemma base_accepts token o r c payload c' :
  verifyBase token o r c = (Ok payload, c') -> payload <> Obj [] ->
  exists header, verifyRelayJws token o r c = (Ok (header, payload), c').
Proof.
  unfold verifyBase. destruct (verifyRelayJws token o r c) as [[[header p]|e] c1]; [|done].
  intros [= <- <-] Hne. exists header. unfold js_or in *. by destruct (js_truthy p).
Qed.

Lemma check_issued_Ok payload typ :
  check_issued payload typ = Ok tt ->
  prop "typ" payload = Str typ /\ prop "iss" payload = Str "ploinky-router".
Proof.
  unfold check_issued. destruct (is_str (prop "typ" payload) typ) eqn:E1; [|done].
  destruct (is_str (prop "iss" payload) "ploinky-router") eqn:E2; [|done].
  intros _. split; by apply is_str_eq.
Qed.

Lemma require_text actual s label : requireEqual actual (Str s) label = Ok tt -> same_text actual (Str s).
Proof. by intros [? | ?]%require_equal. Qed.

Lemma issued_base token o r c payload c' typ :
  verifyBase token o r c = (Ok payload, c') -> check_issued payload typ = Ok tt ->
  requireEqual (prop "sub" payload) (Str (vo_expectedAudience o)) "subject" = Ok tt ->
  issued token o typ payload.
Proof.
  intros Hb Hi Hs. destruct (check_issued_Ok _ _ Hi) as [Ht Hr].
  destruct (base_accepts _ _ _ _ _ _ Hb) as (header & Hv); [by intros ->|].
  apply verify_accepts in Hv as (secret & Hsec & Hl & Hp & _). exists secret, header.
  split_and!; [done..|by apply require_text in Hs].
Qed.

(** A verified request token. *)
Lemma request_verified token expected r c payload c' :
  verifyRelayRequestToken token expected r c = (Ok payload, c') ->
  issued token (er_options expected) "relay-request" payload /\
  matches_fields payload (er_fields expected) /\
  exists rch, computeRchRelayRequest (payload_identity payload) (payload_surface payload) = Ok rch /\
    same_text (prop "rch" payload) (Str rch).
Proof.
  unfold verifyRelayRequestToken. intros (p & c1 & Hb & E)%bind_Ok.
  apply bind_Ok in E as ([] & c2 & [Hc ->]%lift_Ok & [= -> ->]).
  unfold check_request in Hc. apply result_bind_Ok in Hc as ([] & Hi & Hc).
  apply result_bind_Ok in Hc as ([] & Hs & Hc). apply result_bind_Ok in Hc as ([] & Hf & Hc).
  apply result_bind_Ok in Hc as (rch & Hr%hashed_Ok & Hc). split_and!.
  - by eapply issued_base.
  - intros field v. by apply check_fields_match.
  - exists rch. split; [done|]. by apply require_text in Hc.
Qed.

(** A verified session token, its denied ports and their digest. *)
Lemma session_verified token expected r c payload ports digest c' :
  verifyRelaySessionToken token expected r c = (Ok (payload, (ports, digest)), c') ->
  issued token (es_options expected) "relay-session" payload /\
  normalizeCanonicalPortSet (js_or (prop "deniedPorts" payload) (Arr [])) = Ok ports /\
  computeRelayDenySetDigest (port_values ports) = Ok digest /\
  same_text (prop "denySetDigest" payload) (Str digest) /\
  (es_deniedPorts expected <> Undefined -> normalizeCanonicalPortSet (es_deniedPorts expected) = Ok ports).
Proof.
  unfold verifyRelaySessionToken. intros (p & c1 & Hb & E)%bind_Ok.
  apply bind_Ok in E as ([ports' digest'] & c2 & [Hc ->]%lift_Ok & [= -> <- <- ->]).
  unfold check_session in Hc. apply result_bind_Ok in Hc as ([] & Hi & Hc).
  apply result_bind_Ok in Hc as ([] & Hs & Hc).
  do 5 apply result_bind_Ok in Hc as ([] & _ & Hc).
  apply result_bind_Ok in Hc as (ps & Hp%hashed_Ok & Hc). apply result_bind_Ok in Hc as (d & Hd%hashed_Ok & Hc).
  apply result_bind_Ok in Hc as ([] & Hdd & Hc). apply result_bind_Ok in Hc as ([] & Hx & Hc).
  apply result_bind_Ok in Hc as (rch & _ & Hc). apply result_bind_Ok in Hc as ([] & _ & [= <- <-]).
  split_and!; [by eapply issued_base|done|done|by apply require_text in Hdd|].
  intros Hne. destruct (es_deniedPorts expected); try done;
    apply result_bind_Ok in Hx as (qs & Hq%hashed_Ok & Hx); by case_bool_decide; subst.
Qed.
End Verified.

(** ** Minted tokens *)

Section Minted.
Context `{TokenHost} `{Sha256Url} `{JwtSigner}.

Lemma minter_text_Ok {A} (r : result hash_error A) a : minter_text r = Ok a <-> r = Ok a.
Proof. unfold minter_text. destruct r; [|by split]. split; congruence. Qed.

Lemma require_text_Ok v label t : requireText v label = Ok t -> t <> [].
Proof.
  unfold requireText. intros (s & _ & E)%result_bind_Ok. destruct (truthy (trim s)) eqn:Ht; [|done].
  injection E as <-. by apply truthy_true.
Qed.

(** The hash of a request reads its fields as texts. *)
Lemma relay_rch_ext i s s' :
  nullish_text (rs_denySetDigest s) = nullish_text (rs_denySetDigest s') ->
  nullish_text (rs_method s) = nullish_text (rs_method s') -> nullish_text (rs_port s) = nullish_text (rs_port s') ->
  nullish_text (rs_path s) = nullish_text (rs_path s') -> nullish_text (rs_query s) = nullish_text (rs_query s') ->
  nullish_text (rs_bodyMode s) = nullish_text (rs_bodyMode s') ->
  nullish_text (rs_bodyHash s) = nullish_text (rs_bodyHash s') ->
  computeRchRelayRequest i s = computeRchRelayRequest i s'.
Proof. unfold computeRchRelayRequest. by intros -> -> -> -> -> -> ->. Qed.

Lemma nullish_or v s : falsy_text (js_or v (Str [])) = Ok s -> nullish_text (js_or v (Str [])) = Ok s.
Proof.
  unfold falsy_text, nullish_text, js_or. destruct (js_truthy v) eqn:Hv; [rewrite Hv|done].
  by destruct v.
Qed.

(** The port of a hashed request is not missing. *)
Lemma hashed_port i s h t : computeRchRelayRequest i s = Ok h -> to_string (rs_port s) = Ok t ->
  nullish_text (rs_port s) = Ok t.
Proof.
  unfold computeRchRelayRequest. intros (p & Hp & E)%result_bind_Ok Ht. rewrite Hp. f_equal.
  unfold nullish_text in Hp. destruct (rs_port s); simpl in *; try (by injection Hp as <-); try congruence.
  - rewrite Ht in Hp. congruence.
  - destruct (map_has _ _); congruence.
Qed.
(** What a minted payload looks like. *)
Lemma request_payload_shape input ttl now jti payload :
  request_payload input ttl now jti = Ok payload ->
  exists target rest rch,
    requireText (ri_targetAgentId (qi_identity input)) "targetAgentId" = Ok target /\
    payload = Obj (("typ", Str "relay-request") :: ("iss", Str "ploinky-router") :: ("aud", Str target) ::
      ("sub", Str target) :: rest) /\
    computeRchRelayRequest (payload_identity payload) (payload_surface payload) = Ok rch /\
    prop "rch" payload = Str rch /\ prop "jti" payload = Str jti /\
    prop "iat" payload = Num (Fin (now / 1000)) /\ prop "exp" payload = js_of_real (real_add (Int (Fin (now / 1000))) ttl).
Proof.
  unfold request_payload.
  intros ([target [instance [generation [container digest]]]] & Hi & E)%result_bind_Ok.
  apply result_bind_Ok in E as (session & _ & E). apply result_bind_Ok in E as (deny & _ & E).
  apply result_bind_Ok in E as (method & _ & E). apply result_bind_Ok in E as (path & _ & E).
  apply result_bind_Ok in E as (mode & _ & E). destruct (negb _); [done|].
  apply result_bind_Ok in E as (rch & Hr%minter_text_Ok & E). apply result_bind_Ok in E as (port & Hp%minter_text_Ok & E).
  apply result_bind_Ok in E as (query & Hq%minter_text_Ok & E).
  apply result_bind_Ok in E as (hash & Hh%minter_text_Ok & [= <-]).
  unfold required_identity in Hi. apply result_bind_Ok in Hi as (t & Ht & Hi).
  do 4 apply result_bind_Ok in Hi as (? & _ & Hi). injection Hi as -> -> -> -> ->.
  eexists target, _, rch. split; [exact Ht|]. split; [reflexivity|]. split; [|by split_and!].
  rewrite <- Hr. unfold payload_identity, payload_surface. apply relay_rch_ext; try reflexivity.
  - symmetry. apply (hashed_port _ _ _ port Hr). cbn [rs_port].
    destruct (to_string (rs_port (qi_surface input))); [|done]. by injection Hp as ->.
  - symmetry. by apply nullish_or.
  - symmetry. by apply nullish_or.
Qed.

Lemma hex_bytes_length s : forallb (fun c => bool_decide (is_Some (hex_value c))) s = true ->
  length (hex_bytes s) = length s / 2.
Proof.
  remember (length s) as n eqn:Hn. revert s Hn. induction n as [n IH] using lt_wf_ind. intros s Hn.
  destruct s as [|a [|b s]]; [by subst|by subst|]. cbn [forallb hex_bytes].
  intros [[x ->]%bool_decide_eq_true [[y ->]%bool_decide_eq_true Hs]%andb_true_iff]%andb_true_iff.
  simpl in Hn. cbn [length]. rewrite (IH (length s)) by (done || lia). subst n.
  change (S (S (length s))) with (2 + length s). rewrite Nat.add_comm.
  replace (length s + 2) with (length s + 1 * 2) by lia. rewrite Nat.div_add by lia. lia.
Qed.

Lemma secret_length v secret : normalizeSecret v = Ok secret -> 32 <= length secret.
Proof.
  assert (forall s, is_hex_key s = true -> length (hex_bytes s) = 32) as Hhex.
  { intros s [Hl%Nat.eqb_eq Hs]%andb_true_iff. by rewrite hex_bytes_length, Hl. }
  destruct v as [b|v]; unfold normalizeSecret.
  - destruct (Nat.leb_spec 32 (length b)); [by intros [= <-]|].
    destruct (is_hex_key _) eqn:E; [|done]. intros [= <-]. by rewrite Hhex.
  - intros (s & _ & E)%result_bind_Ok. destruct (is_hex_key _) eqn:E'; [|done]. injection E as <-. by rewrite Hhex.
Qed.

(** The cache takes an identifier it does not hold while there is room. *)
Lemma replay_fresh payload skew r c jti exp :
  prop "jti" payload = Str jti -> trim jti <> [] -> prop "exp" payload = Num (Fin exp) ->
  cache_ok c -> map_get (trim jti) (rc_entries c) = None ->
  (Z.of_nat (map_size (rc_entries c)) < rc_capacity c)%Z ->
  exists c', assertReplayProtected payload skew None r (Some c) = (Ok tt, Some c').
Proof.
  intros Hj Hne He Hc Hfree Hroom. unfold assertReplayProtected.
  assert (forall k d, prop k payload = d -> d <> Undefined -> optional k payload = d) as Hopt.
  { intros k d <- Hd. by destruct payload. }
  rewrite (Hopt _ _ Hj), (Hopt _ _ He) by done.
  assert (trimmed_text (Str jti) = Ok (trim jti)) as ->.
  { unfold trimmed_text, js_or. simpl. by destruct jti. }
  cbn [of_language]. rewrite (proj2 (truthy_true _) Hne). cbn [negb]. unfold cache_seen.
  assert (forall t c, cache_ok c -> map_get (trim jti) (rc_entries c) = None ->
    map_get (trim jti) (rc_entries (prune t c)) = None) as Hprune.
  { intros t d Hd Hf. simpl. by rewrite map_get_filter, Hf. }
  unfold map_has at 1. rewrite Hprune by done. cbn [number_of of_language]. unfold cache_remember, map_has.
  rewrite Hprune by (try apply prune_ok; auto). cbn [negb andb].
  destruct (Z.leb_spec (rc_capacity (prune (at_prune r) (prune (at_seen r) c)))
    (Z.of_nat (map_size (rc_entries (prune (at_prune r) (prune (at_seen r) c)))))) as [Hle|]; [|by eexists].
  exfalso. simpl in Hle. unfold map_size in *.
  pose proof (length_bfilter (fun e => negb (real_le e.2 (Int (Fin (at_seen r))))) (rc_entries c)) as L1.
  pose proof (length_bfilter (fun e => negb (real_le e.2 (Int (Fin (at_prune r)))))
    (bfilter (fun e => negb (real_le e.2 (Int (Fin (at_seen r))))) (rc_entries c))) as L2. lia.
Qed.

(** The times of a minted token, as long as the two clocks agree up to the skew. *)
Lemma minted_times payload iat ttl t :
  prop "iat" payload = Num (Fin iat) -> prop "exp" payload = Num (Fin (iat + ttl)) -> (ttl <= 30)%Z ->
  (iat - 30 <= t / 1000 <= iat + ttl + 30)%Z -> assertTimeValid payload 30 t = Ok tt.
Proof.
  intros Hi He Httl Ht. unfold assertTimeValid.
  assert (forall k z, prop k payload = Num (Fin z) -> optional k payload = Num (Fin z)) as Hopt.
  { intros k z. by destruct payload. }
  rewrite (Hopt _ _ Hi), (Hopt _ _ He). cbn [number_of of_language mbind result_bind real_finite is_finite negb orb].
  autorewrite with reals. unfold real_lt, jlt, MAX_RELAY_TOKEN_TTL_SECONDS.
  rewrite (proj2 (Z.ltb_ge 30 (iat + ttl - iat))) by lia. rewrite (proj2 (Z.ltb_ge (t / 1000 + 30) iat)) by lia.
  by rewrite (proj2 (Z.ltb_ge (iat + ttl + 30) (t / 1000))) by lia.
Qed.
Lemma check_fields_same payload expected fields :
  (forall f v, map_get f expected = Some v -> same_text (prop f payload) v) ->
  check_fields payload expected fields = Ok tt.
Proof.
  intros Hs. induction fields as [|f fields IH]; [done|]. cbn [check_fields]. rewrite IH.
  destruct (map_get f expected) as [v|] eqn:E; [|done]. change (default Undefined (Some v)) with v.
  by rewrite (require_same _ v) by auto.
Qed.

Lemma audience_same payload target :
  optional "aud" payload = Str target -> truthy target = true ->
  assertAudience payload target = Ok tt.
Proof.
  intros Ha Ht. unfold assertAudience. rewrite Ha, Ht. unfold js_or.
  destruct target as [|a s]; [done|]. change (js_truthy (Str (a :: s))) with true. cbn iota.
  change (to_string (Str (a :: s))) with (Ok (E := js_error) (a :: s)). cbn [mbind result_bind of_language].
  by rewrite jeqb_refl.
Qed.

(** C34. The relay accepts what the router mints.  A request token, signed with a
    secret of at least 32 bytes, is verified by a relay that holds this secret
    and expects the agent it was minted for and any of the minted fields, as
    long as their clocks differ by no more than the skew, its identifier was
    not consumed and the cache has room; the verified payload is the minted
    one.  That the signed token decodes to what was signed is what the JWT
    library promises. *)
Theorem minted_request_accepted agentSecret key ttl input now jti token payload secret header target fields r c :
  mintRequest agentSecret key (Int (Fin ttl)) input now jti = Ok (token, payload) ->
  normalizeSecret (default agentSecret key) = Ok secret ->
  signed_payload (Str token) secret header payload ->
  requireText (ri_targetAgentId (qi_identity input)) "targetAgentId" = Ok target ->
  (forall f v, map_get f fields = Some v -> same_text (prop f payload) v) ->
  (ttl <= 30)%Z -> (now / 1000 - 30 <= at_time r / 1000 <= now / 1000 + ttl + 30)%Z ->
  trim jti <> [] -> cache_ok c -> map_get (trim jti) (rc_entries c) = None ->
  (Z.of_nat (map_size (rc_entries c)) < rc_capacity c)%Z ->
  exists c', verifyRelayRequestToken (Str token)
    (ExpectedRequest (VerifyOptions (Some secret) target None None) fields) r (Some c) = (Ok payload, Some c').
Proof.
  intros Hm Hsec Hsigned Htarget Hfields Httl Ht Hj Hc Hfree Hroom.
  unfold mintRequest in Hm. apply result_bind_Ok in Hm as (p & Hp & Hm).
  apply result_bind_Ok in Hm as (t & _ & [= -> ->]).
  destruct (request_payload_shape _ _ _ _ _ Hp) as (target' & rest & rch & Ht' & Hshape & Hr & Hrch & Hpj & Hpi & Hpe).
  assert (target' = target) as -> by congruence. pose proof (require_text_Ok _ _ _ Htarget) as Hne.
  destruct (replay_fresh payload 30 r c jti (now / 1000 + ttl) Hpj Hj Hpe Hc Hfree Hroom) as (c' & Hreplay).
  assert (Htype : prop "typ" payload = Str "relay-request") by by rewrite Hshape.
  assert (Hiss : prop "iss" payload = Str "ploinky-router") by by rewrite Hshape.
  assert (Haud : optional "aud" payload = Str target) by by rewrite Hshape.
  assert (Hsub : prop "sub" payload = Str target) by by rewrite Hshape.
  assert (Hor : js_or payload (Obj []) = payload) by by rewrite Hshape.
  assert (Hsame : forall s, same_text (Str s) (Str s)) by (intros s; by exists s).
  exists c'. unfold verifyRelayRequestToken, verifyBase.
  assert (verifyRelayJws (Str token) (VerifyOptions (Some secret) target None None) r (Some c) =
    (Ok (header, payload), Some c')) as Hv.
  { apply verify_accepts. exists secret. split_and!; [done|by eapply secret_length|done| | |done].
    - by apply (minted_times _ (now / 1000) ttl).
    - apply audience_same; [by rewrite Haud|by apply truthy_true]. }
  unfold mbind at 1, stateM_bind at 1. cbn [er_options]. rewrite Hv, Hor, bind_lift.
  unfold check_request, check_issued. cbn [er_options vo_expectedAudience er_fields].
  rewrite Htype, Hiss, Hsub. cbn [is_str]. rewrite !jeqb_refl. cbn [negb mbind result_bind].
  rewrite (require_same _ _ _ (Hsame target)). cbn [mbind result_bind].
  rewrite (check_fields_same _ _ _ Hfields), Hr, Hrch. cbn [hashed mbind result_bind].
  by rewrite (require_same _ _ _ (Hsame rch)).
Qed.
End Minted.

(** ** An instance *)

Definition sample_request : request_input :=
  RequestInput
    (RelayIdentity (Str "agent") (Str "main") (Str "7") (Str "box") (Str "sha") (Str "session"))
    (RelaySurface (Str "deny") (Str "get") (Num (Fin 8080)) (Str "/x") (Str []) (Str "none") (Str [])).

Definition relay_secret : bytes := repeat 7%N 32.

(** The digest is the digit [d]; every payload is signed as [h.p.s]. *)
Definition toy_digest : Sha256Url := fun _ => "d"%js.

Definition toy_signer : JwtSigner := fun _ _ => "h.p.s"%js.

Notation sample_mint :=
  (mintRequest (H := toy_digest) (H0 := toy_signer) (SecretBytes relay_secret) None (Int (Fin 30)) sample_request
    100000 "id").

Definition minted_payload : js :=
  match sample_mint with
  | Ok (_, payload) => payload
  | Err _ => Undefined
  end.

Definition minted_host : TokenHost := {|
  base64_bytes s := take 1 s;
  parse_json s :=
    if jeqb s "h" then Some (Obj [("alg", Str "HS256")]) else if jeqb s "p" then Some minted_payload else None;
  hmac_sha256 _ _ := "s"%js
|}.

Theorem minted_request_accepted_witness :
  exists c', verifyRelayRequestToken (H := minted_host) (H0 := toy_digest) (Str "h.p.s")
    (ExpectedRequest (VerifyOptions (Some relay_secret) "agent" None None) [("port", Num (Fin 8080))])
    (at_once 101000) (Some (RelayCache 2048 [])) = (Ok minted_payload, Some c').
Proof.
  apply (minted_request_accepted (H := minted_host) (H0 := toy_digest) (H1 := toy_signer)
    (SecretBytes relay_secret) None 30 sample_request 100000 "id" "h.p.s" minted_payload relay_secret
    (Obj [("alg", Str "HS256")]) "agent"); try (by vm_compute).
  - exists (Jws (Obj [("alg", Str "HS256")]) minted_payload "s" "h.p"). split_and!; by vm_compute.
  - intros f v Hf. cbn [map_get] in Hf. case_bool_decide as Hk; [subst f|discriminate].
    injection Hf as <-. exists "8080"%js. by vm_compute.
  - apply map_wf_nil.
Defined.
