(* ===== verification/RequestTokens.v ===== *)
(** Request tokens on the agent's side: the tokens bound to one request
    ([src/Agent/lib/requestSignedTokens.mjs]), the requests an agent accepts
    with them ([src/Agent/lib/invocationAuth.mjs]), the assertions it signs
    itself ([src/Agent/lib/agentAssertion.mjs]), and what a verified token says
    about its caller ([src/Agent/lib/invocation-auth.mjs]).  Signing and
    verifying are the JWT library's, which is a parameter. *)

From stdpp Require Import prelude.
From Stdlib Require Import NArith.
From S2P Require Import Prelude.
From S2P Require Import JsString.
From S2P Require Import JsNumber.
From S2P Require Import JsMap.
From S2P Require Import JsValue.
From S2P Require Import JsUri.
From S2P Require Import JsBytes.
From S2P Require Import RequestHash.
From S2P Require Import RelayAuth.

Local Open Scope js_scope.

(** What [verifyJws] is called with. *)
Record jws_options : Type := JwsOptions {
  jo_secret : bytes;
  jo_audience : jstr;
  jo_clockSkewSeconds : option Z;
  jo_maxTtlSeconds : Z
}.

(** The error [verifyJws] throws. *)
Record jwt_failure : Type := JwtFailure {
  jf_message : jstr;
  jf_code : option jstr
}.

(** [signHmacJwt] and [verifyJws] of the agent library, over the replay cache [C]
    that a caller passes or not; [JSON.parse], [None] where it throws. *)
Class JwtLibrary (C : Type) : Type := {
  jwt_sign : js -> bytes -> jstr;
  jwt_verify : js -> jws_options -> stateM (option C) jwt_failure js;
  jwt_json : jstr -> option js
}.

Inductive request_error : Type :=
  | JwtRefused (e : jwt_failure)
  | WrongType
  | WrongIssuer
  | MissingIssuer
  | SubjectNotIssuer
  | ClaimMismatch (claim : jstr)
  | MissingBearer
  | EmptyBearer
  | NoAgentSecret
  | NoAgentId
  | NoAuthInfo
  | InvalidAuthInfo
  | NoInvocationToken
  | NoInvocationBody
  | NoMethod
  | NoPath
  | NoSignedPath
  | SurfaceMismatch (part : jstr)
  | TargetMissing
  | InvalidPrivateSecret
  | NoInstance
  | NoGeneration
  | NoAudience
  | RequestHashError (e : hash_error)
  | RequestLanguage (e : js_error).

Definition of_js {A} (r : result js_error A) : result request_error A :=
  match r with
  | Ok a => Ok a
  | Err e => Err (RequestLanguage e)
  end.

Definition of_hash {A} (r : result hash_error A) : result request_error A :=
  match r with
  | Ok a => Ok a
  | Err e => Err (RequestHashError e)
  end.

(** [String(v)], [String(v || '')] *)
Definition text (v : js) : result request_error jstr := of_js (to_string v).
Definition text_or (v : js) : result request_error jstr := of_js (to_string (js_or v (Str []))).

(** ** Tokens bound to a request *)

(** The request a token is compared with, [undefined] where nothing is expected. *)
Record expected_claims : Type := ExpectedClaims {
  ec_method : js;
  ec_path : js;
  ec_tool : js;
  ec_rch : js
}.

Definition check_claim (claim : jstr) (expected payload : js) : result request_error unit :=
  match expected with
  | Undefined => Ok tt
  | _ =>
      actual ← text_or (prop claim payload);
      wanted ← text expected;
      if jeqb actual wanted then Ok tt else Err (ClaimMismatch claim)
  end.

Definition check_claims (e : expected_claims) (payload : js) : result request_error unit :=
  _ ← check_claim "method" (ec_method e) payload;
  _ ← check_claim "path" (ec_path e) payload;
  _ ← check_claim "tool" (ec_tool e) payload;
  check_claim "rch" (ec_rch e) payload.

Definition check_router_request (e : expected_claims) (payload : js) : result request_error unit :=
  if negb (is_str (prop "typ" payload) "router-request") then Err WrongType
  else if negb (is_str (prop "iss" payload) "ploinky-router") then Err WrongIssuer
  else check_claims e payload.

Definition check_agent_assertion (e : expected_claims) (payload : js) : result request_error unit :=
  if negb (is_str (prop "typ" payload) "agent-assertion") then Err WrongType
  else
    iss ← text_or (prop "iss" payload);
    if negb (truthy iss) then Err MissingIssuer
    else
      sub ← text_or (prop "sub" payload);
      if negb (jeqb sub iss) then Err SubjectNotIssuer else check_claims e payload.

Section Verifying.
Context {C : Type} `{JwtLibrary C}.

Notation requestM := (stateM (option C) request_error).

Definition verify_jws (token : js) (o : jws_options) : requestM js := fun c =>
  match jwt_verify token o c with
  | (Ok payload, c) => (Ok payload, c)
  | (Err e, c) => (Err (JwtRefused e), c)
  end.

Definition verifyRouterRequestToken (token : js) (o : jws_options) (e : expected_claims) : requestM js :=
  payload ← verify_jws token o;
  _ ← lift (check_router_request e (js_or payload (Obj [])));
  mret payload.

Definition verifyAgentAssertionToken (token : js) (o : jws_options) (e : expected_claims) : requestM js :=
  payload ← verify_jws token o;
  _ ← lift (check_agent_assertion e (js_or payload (Obj [])));
  mret payload.
End Verifying.

(** ** Headers and environment *)

(** [typeof raw === 'string' && raw.trim() ? raw.trim() : ''] of a header's first value *)
Definition unwrap_header (value : js) : jstr :=
  match match value with Arr l => default Undefined (head l) | _ => value end with
  | Str s => trim s
  | _ => []
  end.

Definition readHeaderValue (headers : js) (headerName : jstr) : jstr :=
  sor (unwrap_header (optional headerName headers)) (unwrap_header (optional (to_lower headerName) headers)).

Definition hasInvocationTokenHeader (headers : js) : bool :=
  starts_with (to_lower (readHeaderValue headers "authorization")) "bearer ".

Definition expectedAudienceForSelf (env : js) : result request_error jstr :=
  id ← of_js (trimmed_text (optional "PLOINKY_AGENT_ID" env));
  if truthy id then Ok id
  else
    principal ← of_js (trimmed_text (optional "PLOINKY_AGENT_PRINCIPAL" env));
    if truthy principal then Ok principal
    else
      agentName ← of_js (trimmed_text (optional "AGENT_NAME" env));
      Ok (if truthy agentName then "agent:" ++ agentName else []).

Definition readAgentSecret (env : js) : result request_error (option bytes) :=
  hex ← of_js (trimmed_text (optional "PLOINKY_AGENT_SECRET" env));
  Ok (if truthy hex then Some (hex_bytes hex) else None).

(** ** Requests an agent accepts *)

Definition OPENAI_CHAT_COMPLETIONS_TOOL : jstr := "__openai_chat_completions__".
Definition OPENAI_CHAT_COMPLETIONS_PATH : jstr := "/v1/chat/completions".
Definition OPENAI_MODELS_TOOL : jstr := "__openai_models__".
Definition OPENAI_MODELS_PATH : jstr := "/v1/models".
Definition HTTP_ROUTE_TOOL : jstr := "__http_route__".

Section Accepting.
Context {C : Type} `{JwtLibrary C} `{Sha256Url}.

Notation requestM := (stateM (option C) request_error).

Definition parseHttpRouteAuthInfo (headers : js) : result request_error js :=
  let raw := readHeaderValue headers "x-ploinky-auth-info" in
  if negb (truthy raw) then Err NoAuthInfo
  else
    match jwt_json raw with
    | Some authInfo => if is_plain authInfo then Ok authInfo else Err InvalidAuthInfo
    | None => Err InvalidAuthInfo
    end.

(** The verified payload and the token. *)
Definition verifyRouterRequestFromHeaders (headers env : js) (e : expected_claims) : requestM (js * jstr) :=
  let auth := readHeaderValue headers "authorization" in
  if negb (starts_with (to_lower auth) "bearer ") then throw MissingBearer
  else
    let rawToken := trim (drop 7 auth) in
    if negb (truthy rawToken) then throw EmptyBearer
    else
      secret ← lift (readAgentSecret env);
      match secret with
      | None => throw NoAgentSecret
      | Some secret =>
          audience ← lift (expectedAudienceForSelf env);
          if negb (truthy audience) then throw NoAgentId
          else
            payload ← verifyRouterRequestToken (Str rawToken) (JwsOptions secret audience None 60) e;
            mret (payload, rawToken)
      end.

(** What is signed for a request over HTTP. *)
Definition http_claims (method path query bodyHash tool : jstr) : result request_error expected_claims :=
  rch ← of_hash (computeRchHttp (Str method) (Str path) (Str query) (Str bodyHash));
  Ok (ExpectedClaims (Str method) (Str path) (Str tool) (Str rch)).

Definition bearer (rawToken : jstr) : js := Obj [("authorization", Str ("Bearer " ++ rawToken))].

(** The token an [authInfo] carries. *)
Definition invocation_token (authInfo : js) : jstr :=
  match prop "invocationToken" authInfo with
  | Str s => trim s
  | _ => []
  end.

(** [bodyHash === undefined || bodyHash === null ? sha256RawBodyHash(body) : String(bodyHash)] *)
Definition body_hash (body : raw_body) (bodyHash : js) : result request_error jstr :=
  match bodyHash with
  | Undefined | Null => Ok (sha256RawBodyHash body)
  | _ => text bodyHash
  end.

(** [authInfo.invocationBody] against the request, in this order. *)
Definition check_invocation_body (invocationBody : js) (method path query bodyHash : jstr) : result request_error unit :=
  m ← text_or (prop "method" invocationBody);
  if negb (jeqb (to_upper m) method) then Err (SurfaceMismatch "method")
  else
    p ← text_or (prop "path" invocationBody);
    if negb (truthy p) then Err NoSignedPath
    else if negb (jeqb p path) then Err (SurfaceMismatch "path")
    else
      q ← of_js (to_string (js_nullish (prop "search" invocationBody) (Str [])));
      if negb (jeqb q query) then Err (SurfaceMismatch "query")
      else
        b ← text_or (prop "bodyHash" invocationBody);
        if negb (jeqb b bodyHash) then Err (SurfaceMismatch "body hash") else Ok tt.

Record accepted_request : Type := AcceptedRequest {
  ar_payload : js;
  ar_rawToken : jstr;
  ar_authInfo : js;
  ar_bodyHash : jstr
}.

Definition verifyHttpRouteAuthInfoFromHeaders (headers env method path query : js) (body : raw_body) (bodyHash : js) :
    requestM accepted_request :=
  authInfo ← lift (parseHttpRouteAuthInfo headers);
  let rawToken := invocation_token authInfo in
  if negb (truthy rawToken) then throw NoInvocationToken
  else
    let invocationBody := prop "invocationBody" authInfo in
    if negb (is_plain invocationBody) then throw NoInvocationBody
    else
      m ← lift (text_or method);
      let expectedMethod := to_upper m in
      if negb (truthy expectedMethod) then throw NoMethod
      else
        expectedPath ← lift (text_or path);
        if negb (truthy expectedPath) then throw NoPath
        else
          expectedQuery ← lift (of_js (to_string (js_nullish query (Str []))));
          expectedBodyHash ← lift (body_hash body bodyHash);
          _ ← lift (check_invocation_body invocationBody expectedMethod expectedPath expectedQuery expectedBodyHash);
          claims ← lift (http_claims expectedMethod expectedPath expectedQuery expectedBodyHash HTTP_ROUTE_TOOL);
          verified ← verifyRouterRequestFromHeaders (bearer rawToken) env claims;
          mret (AcceptedRequest verified.1 verified.2 authInfo expectedBodyHash).

Definition verifyOpenAiServiceAuthInfoFromHeaders (headers env : js) (body : raw_body) (bodyHash : js) :
    requestM accepted_request :=
  authInfo ← lift (parseHttpRouteAuthInfo headers);
  let rawToken := invocation_token authInfo in
  if negb (truthy rawToken) then throw NoInvocationToken
  else
    expectedBodyHash ← lift (body_hash body bodyHash);
    claims ← lift (http_claims "POST" OPENAI_CHAT_COMPLETIONS_PATH [] expectedBodyHash OPENAI_CHAT_COMPLETIONS_TOOL);
    verified ← verifyRouterRequestFromHeaders (bearer rawToken) env claims;
    mret (AcceptedRequest verified.1 verified.2 authInfo expectedBodyHash).

Definition verifyOpenAiModelsAuthInfoFromHeaders (headers env : js) : requestM accepted_request :=
  authInfo ← lift (parseHttpRouteAuthInfo headers);
  let rawToken := invocation_token authInfo in
  if negb (truthy rawToken) then throw NoInvocationToken
  else
    let expectedBodyHash := sha256RawBodyHash (TextBody []) in
    claims ← lift (http_claims "GET" OPENAI_MODELS_PATH [] expectedBodyHash OPENAI_MODELS_TOOL);
    verified ← verifyRouterRequestFromHeaders (bearer rawToken) env claims;
    mret (AcceptedRequest verified.1 verified.2 authInfo expectedBodyHash).
End Accepting.

(** ** Assertions an agent signs *)

Definition ASSERTION_TTL_SECONDS : Z := 60.
Definition PRIVATE_ASSERTION_TTL_SECONDS : Z := 30.
Definition PRIVATE_ROUTER_AUDIENCE : jstr := "ploinky-private-router".

(** A parameter with a default. *)
Definition or_default (v d : js) : js :=
  match v with
  | Undefined => d
  | _ => v
  end.

(** [tool !== undefined && tool !== null && String(tool) !== ''] *)
Definition tool_fields (tool : js) : result request_error (list (jstr * js)) :=
  match tool with
  | Undefined | Null => Ok []
  | _ => t ← text tool; Ok (if truthy t then [("tool"%js, Str t)] else [])
  end.

(** The payload that is signed; [now] is in milliseconds, [jti] random. *)
Definition assertion_payload (secret : option bytes) (self : jstr) (method path targetAgent tool : js) (rch : jstr)
    (now : Z) (jti : jstr) : result request_error (js * bytes) :=
  match secret with
  | None => Err NoAgentSecret
  | Some secret =>
      if negb (truthy self) then Err NoAgentId
      else
        target ← of_js (trimmed_nullish targetAgent);
        if negb (truthy target) then Err TargetMissing
        else
          method ← text method;
          path ← text path;
          tool ← tool_fields tool;
          let iat := (now / 1000)%Z in
          Ok (Obj ([("typ", Str "agent-assertion"); ("iss", Str self); ("sub", Str self); ("aud", Str "ploinky-router");
                ("targetAgent", Str target); ("method", Str method); ("path", Str path); ("rch", Str rch);
                ("iat", Num (Fin iat)); ("exp", Num (Fin (iat + ASSERTION_TTL_SECONDS))); ("jti", Str jti)] ++ tool),
              secret)
  end.

Section Signing.
Context {C : Type} `{JwtLibrary C} `{Sha256Url}.

Definition signAgentAssertionWithRch (secret : option bytes) (self : jstr) (method path targetAgent tool : js)
    (rch : jstr) (now : Z) (jti : jstr) : result request_error jstr :=
  '(payload, secret) ← assertion_payload secret self method path targetAgent tool rch now jti;
  Ok (jwt_sign payload secret).

Definition signAgentAssertion (method path targetAgent tool argumentsObj env : js) (now : Z) (jti : jstr) :
    result request_error jstr :=
  let method := or_default method (Str "POST") in
  let path := or_default path (Str "/mcp") in
  rch ← of_hash (computeRchTool method path tool (or_default argumentsObj (Obj [])));
  secret ← readAgentSecret env;
  self ← expectedAudienceForSelf env;
  signAgentAssertionWithRch secret self method path targetAgent tool rch now jti.

Definition signAgentHttpAssertion (method path query : js) (body : raw_body) (targetAgent tool env : js) (now : Z)
    (jti : jstr) : result request_error jstr :=
  let method := or_default method (Str "POST") in
  rch ← of_hash (computeRchHttp method path query (Str (sha256RawBodyHash body)));
  secret ← readAgentSecret env;
  self ← expectedAudienceForSelf env;
  signAgentAssertionWithRch secret self method path targetAgent tool rch now jti.

Definition signPrivateRouterAssertion (method path query : js) (body : raw_body) (audience env : js) (now : Z)
    (jti : jstr) : result request_error jstr :=
  encodedSecret ← of_js (trimmed_text (optional "PLOINKY_AGENT_PRIVATE_SECRET" env));
  self ← of_js (trimmed_text (optional "PLOINKY_AGENT_ID" env));
  instanceId ← of_js (trimmed_text (optional "PLOINKY_AGENT_INSTANCE_ID" env));
  enableGeneration ← of_js (trimmed_text (optional "PLOINKY_AGENT_ENABLE_GENERATION" env));
  normalizedPath ← of_js (trimmed_text path);
  method ← of_js (trimmed_text (or_default method (Str "POST")));
  let normalizedMethod := to_upper method in
  normalizedAudience ← of_js (trimmed_text (or_default audience (Str PRIVATE_ROUTER_AUDIENCE)));
  if negb (is_hex_key encodedSecret) then Err InvalidPrivateSecret
  else if negb (truthy self) then Err NoAgentId
  else if negb (truthy instanceId) then Err NoInstance
  else if negb (truthy enableGeneration) then Err NoGeneration
  else if negb (starts_with normalizedPath "/") then Err NoPath
  else if negb (truthy normalizedMethod) || negb (truthy normalizedAudience) then Err NoAudience
  else
    rch ← of_hash (computeRchHttp (Str normalizedMethod) (Str normalizedPath) query (Str (sha256RawBodyHash body)));
    let iat := (now / 1000)%Z in
    Ok (jwt_sign
      (Obj [("typ", Str "private-agent-assertion"); ("iss", Str self); ("sub", Str self);
        ("aud", Str normalizedAudience); ("instanceId", Str instanceId); ("enableGeneration", Str enableGeneration);
        ("method", Str normalizedMethod); ("path", Str normalizedPath); ("rch", Str rch); ("iat", Num (Fin iat));
        ("exp", Num (Fin (iat + PRIVATE_ASSERTION_TTL_SECONDS))); ("jti", Str jti)])
      (hex_bytes encodedSecret)).
End Signing.

(** ** The caller of a verified request *)

(** [/^user:/i], [/^agent:/i], [/^local:/i]: a prefix, its ASCII letters in any case. *)
Definition ascii_lower (c : N) : N := if is_upper c then (c + 32)%N else c.
Definition starts_with_any_case (s p : jstr) : bool := jeqb (ascii_lower <$> take (length p) s) p.

(** [.] of a regular expression *)
Definition dot_unit (c : N) : bool := negb (one_of [c] [[10]; [13]; [8232]; [8233]]%N).

Definition normalizeRoles (value : js) : result request_error (list jstr) :=
  match value with
  | Arr l =>
      roles ← mapM_result (fun role => s ← text_or role; Ok (trim s)) l;
      Ok (bfilter truthy roles)
  | _ => Ok []
  end.

Definition normalizeCapabilities (value : js) : list jstr :=
  match value with
  | Arr l => omap (fun entry => match entry with Str s => Some s | _ => None end) l
  | _ => []
  end.

Definition extractCallerPrincipal (grant : js) : result request_error jstr :=
  let caller := optional "caller" grant in
  if is_truthy_object caller then of_js (trimmed_text (prop "id" caller))
  else of_js (trimmed_text (js_or caller (optional "sub" grant))).

Record identity : Type := Identity {
  id_principalId : jstr;
  id_id : jstr;
  id_username : jstr
}.

Definition normalizeUserPrincipal (value : js) : result request_error (option identity) :=
  raw ← of_js (trimmed_text value);
  if negb (truthy raw) then Ok None
  else
    let principalId := if starts_with_any_case raw "user:" then raw else "user:" ++ raw in
    let id := drop 5 principalId in
    let local := drop 6 id in
    let username :=
      if starts_with_any_case id "local:" && truthy local && forallb dot_unit local then local else id in
    Ok (Some (Identity principalId id username)).

Definition deriveUserIdentity (grant actor : js) : result request_error (option identity) :=
  actorKind ← of_js (trimmed_text (optional "kind" actor));
  let actorKind := to_lower actorKind in
  actorId ← of_js (trimmed_text (optional "id" actor));
  if jeqb actorKind "user" && truthy actorId then normalizeUserPrincipal (Str actorId)
  else if truthy actorKind && negb (jeqb actorKind "user") then Ok None
  else
    subject ← of_js (trimmed_text (optional "sub" grant));
    if starts_with_any_case subject "user:" then normalizeUserPrincipal (Str subject) else Ok None.

Record delegation_token : Type := DelegationToken {
  dt_token : jstr;
  dt_expiresAt : jstr;
  dt_targetAgentId : jstr;
  dt_tools : list jstr;
  dt_scope : list jstr
}.

(** The entries that have a key and a token; [out['__proto__'] = ...] adds none. *)
Fixpoint delegation_tokens (entries : list (jstr * js)) (out : jmap jstr delegation_token) :
    result request_error (jmap jstr delegation_token) :=
  match entries with
  | [] => Ok out
  | (key, entry) :: entries =>
      token ← of_js (trimmed_text (optional "token" entry));
      if negb (truthy (trim key)) || negb (truthy token) then delegation_tokens entries out
      else
        expiresAt ← text_or (optional "expiresAt" entry);
        targetAgentId ← text_or (optional "targetAgentId" entry);
        tools ← normalizeRoles (optional "tools" entry);
        scope ← normalizeRoles (optional "scope" entry);
        delegation_tokens entries
          (if jeqb (trim key) "__proto__" then out
           else map_set (trim key) (DelegationToken token expiresAt targetAgentId tools scope) out)
  end.

Definition normalizeDelegationTokens (value : js) : result request_error (option (jmap jstr delegation_token)) :=
  match value with
  | Obj l => out ← delegation_tokens l []; Ok (match out with [] => None | _ => Some out end)
  | _ => Ok None
  end.

Record auth_user : Type := AuthUser {
  au_id : jstr;
  au_username : jstr;
  au_email : jstr;
  au_roles : list jstr;
  au_displayName : jstr
}.

Record auth_party : Type := AuthParty {
  ap_kind : jstr;
  ap_id : jstr;
  ap_roles : list jstr;
  ap_capabilities : list jstr
}.

Record auth_invocation : Type := AuthInvocation {
  ai_issuer : jstr;
  ai_subject : jstr;
  ai_actor : option auth_party;
  ai_scope : list js;
  ai_tool : jstr;
  ai_workspaceId : jstr;
  ai_caller : option auth_party;
  ai_delegation : option (jstr * (list jstr * jstr))
}.

(** [None] where the object has no such property. *)
Record auth_info : Type := AuthInfo {
  inf_agent : option (jstr * jstr);
  inf_user : option auth_user;
  inf_principalId : option jstr;
  inf_invocation : auth_invocation;
  inf_delegations : option (jmap jstr delegation_token);
  inf_invocationToken : jstr
}.

Definition identity_js (i : option identity) (f : identity -> jstr) : js :=
  match i with
  | Some i => Str (f i)
  | None => Undefined
  end.

(** [out.user] and [out.principalId] *)
Definition resolved_user (grant actor : js) : result request_error (option auth_user * option jstr) :=
  let userClaims := js_or (prop "usr" grant) (prop "user" grant) in
  derived ← deriveUserIdentity grant actor;
  if is_truthy_object userClaims then
    let given := js_or (prop "id" userClaims) (prop "sub" userClaims) in
    claimed ← normalizeUserPrincipal (js_or given (identity_js derived id_id));
    givenId ← text_or given;
    username ← text_or (js_or (js_or (prop "username" userClaims) (prop "preferred_username" userClaims))
                          (identity_js claimed id_username));
    email ← text_or (prop "email" userClaims);
    roles ← normalizeRoles (prop "roles" userClaims);
    displayName ← text_or (prop "displayName" userClaims);
    let principal := js_or (prop "principalId" userClaims) (identity_js claimed id_principalId) in
    principalId ← text principal;
    Ok (Some (AuthUser (sor (from_option id_id [] claimed) givenId) username email roles displayName),
        if js_truthy principal then Some principalId else None)
  else
    match derived with
    | None => Ok (None, None)
    | Some i =>
        roles ← normalizeRoles (optional "roles" actor);
        displayName ← text_or (optional "displayName" actor);
        Ok (Some (AuthUser (id_id i) (id_username i) [] roles displayName), Some (id_principalId i))
    end.

Definition party (v : js) (capabilities : list jstr) : result request_error auth_party :=
  kind ← text_or (prop "kind" v);
  id ← text_or (prop "id" v);
  roles ← normalizeRoles (prop "roles" v);
  Ok (AuthParty kind id roles capabilities).

Definition invocation_of (grant actor : js) (callerPrincipal : jstr) : result request_error auth_invocation :=
  issuer ← text_or (prop "iss" grant);
  subject ← text_or (js_or (prop "sub" grant) (optional "id" (prop "actor" grant)));
  who ← (if is_truthy_object actor then p ← party actor (normalizeCapabilities (prop "capabilities" actor)); Ok (Some p)
         else Ok None);
  tool ← text_or (prop "tool" grant);
  workspaceId ← text_or (prop "workspace_id" grant);
  let caller := prop "caller" grant in
  by_whom ← (if is_truthy_object caller then p ← party caller []; Ok (Some p)
             else Ok (if truthy callerPrincipal then Some (AuthParty "agent" callerPrincipal [] []) else None));
  let delegation := prop "delegation" grant in
  delegated ← (if is_truthy_object delegation then
                 jti ← text_or (prop "jti" delegation);
                 scope ← normalizeRoles (prop "scope" delegation);
                 source ← text_or (prop "sourceAgentId" delegation);
                 Ok (Some (jti, (scope, source)))
               else Ok None);
  Ok (AuthInvocation issuer subject who (match prop "scope" grant with Arr l => l | _ => [] end) tool workspaceId
        by_whom delegated).

Definition authInfoFromInvocation (grant invocationToken : js) : result request_error (option auth_info) :=
  if negb (is_truthy_object grant) then Ok None
  else
    callerPrincipal ← extractCallerPrincipal grant;
    let agent :=
      if starts_with_any_case callerPrincipal "agent:" then Some (callerPrincipal, drop 6 callerPrincipal) else None in
    let actor := if is_truthy_object (prop "actor" grant) then prop "actor" grant else Null in
    '(user, principalId) ← resolved_user grant actor;
    invocation ← invocation_of grant actor callerPrincipal;
    delegations ← normalizeDelegationTokens (prop "delegations" grant);
    invocationToken ← text_or invocationToken;
    Ok (Some (AuthInfo agent user principalId invocation delegations invocationToken)).
