(* ===== verification/RouterTokens.v ===== *)
(** Request tokens on the router's side, [src/cli/server/security/tokens/]: the
    tokens it mints for the requests it routes ([RouterRequestTokenService.js]),
    the assertions of agents it verifies ([AgentAssertionService.js]) and the
    grants by which an agent acts for a user ([UserDelegationGrantService.js]). *)

From stdpp Require Import prelude.
From Stdlib Require Import NArith.
From S2P Require Import Prelude.
From S2P Require Import JsString.
From S2P Require Import JsNumber.
From S2P Require Import JsMap.
From S2P Require Import JsValue.
From S2P Require Import JsUri.
From S2P Require Import JsBytes.
From S2P Require Import JsDouble.
From S2P Require Import JsJson.
From S2P Require Import HttpRouteCompiler.
From S2P Require Import RequestHash.
From S2P Require Import RelayAuth.
From S2P Require Import RequestTokens.

Local Open Scope js_scope.

(** ** Claims of a router request *)

Definition ROUTER_REQUEST_TTL_SECONDS : Z := 30.
Definition MAX_ACTOR_CAPABILITIES : nat := 64.
Definition MAX_DISPLAY_NAME_LENGTH : nat := 128.

(** [/^[A-Za-z0-9][A-Za-z0-9._:-]{0,127}$/] *)
Definition REQUIRED_CAPABILITY_PATTERN (s : jstr) : bool :=
  match s with
  | c :: r =>
      is_alnum c && (length r <=? 127) && forallb (fun c => is_alnum c || has_unit c "._:-") r
  | [] => false
  end.

(** [[...new Set(l)]] *)
Definition unique (l : list jstr) : list jstr := fold_left (fun s x => set_add x s) l [].

Definition strings (l : list jstr) : js := Arr (Str <$> l).

(** [v.map((x) => String(x || '')).filter(Boolean)] of an array, [[]] otherwise *)
Definition string_list (v : js) : result request_error (list jstr) :=
  match v with
  | Arr l => ts ← mapM_result text_or l; Ok (bfilter truthy ts)
  | _ => Ok []
  end.

(** [undefined] is [None]. *)
Definition normalizeActorCapabilities (kind : jstr) (roles : list jstr) (capabilities : js) : option (list jstr) :=
  match capabilities with
  | Arr l =>
      if negb (jeqb kind "user") then None
      else if existsb (fun role => jeqb (to_lower (trim role)) "guest") roles then None
      else
        let valid := unique (omap (fun entry =>
          match entry with
          | Str s => if REQUIRED_CAPABILITY_PATTERN s then Some s else None
          | _ => None
          end) l) in
        if (length valid =? 0) || (MAX_ACTOR_CAPABILITIES <? length valid) then None else Some valid
  | _ => None
  end.

Definition normalizeDisplayName (kind : jstr) (value : js) : jstr :=
  match value with
  | Str s => if jeqb kind "user" then trim (take MAX_DISPLAY_NAME_LENGTH (trim s)) else []
  | _ => []
  end.

(** A property that is set when there is a value. *)
Definition optional_field (k : jstr) (v : option js) : list (jstr * js) :=
  match v with
  | Some v => [(k, v)]
  | None => []
  end.

Definition text_field (k s : jstr) : list (jstr * js) := if truthy s then [(k, Str s)] else [].

Definition normalizeActor (actor : js) : result request_error js :=
  if negb (is_truthy_object actor) then Ok (Obj [("kind", Str "user"); ("id", Str []); ("roles", Arr [])])
  else
    let kind : jstr :=
      if is_str (prop "kind" actor) "agent" then "agent"
      else if is_str (prop "kind" actor) "guest" then "guest" else "user" in
    roles ← string_list (prop "roles" actor);
    id ← text_or (prop "id" actor);
    Ok (Obj ([("kind", Str kind); ("id", Str id); ("roles", strings roles)]
      ++ optional_field "capabilities" (strings <$> normalizeActorCapabilities kind roles (prop "capabilities" actor))
      ++ text_field "displayName" (normalizeDisplayName kind (prop "displayName" actor)))).

Definition normalizeCaller (caller : js) : result request_error (option js) :=
  if negb (is_truthy_object caller) then Ok None
  else
    id ← of_js (trimmed_text (prop "id" caller));
    if negb (truthy id) then Ok None
    else
      let kind : jstr :=
        if is_str (prop "kind" caller) "user" then "user"
        else if is_str (prop "kind" caller) "guest" then "guest" else "agent" in
      roles ← string_list (prop "roles" caller);
      Ok (Some (Obj [("kind", Str kind); ("id", Str id); ("roles", strings roles)])).

Definition normalizeUserClaims (usr : js) : result request_error (option js) :=
  if negb (is_truthy_object usr) then Ok None
  else
    id ← of_js (trimmed_text (js_or (prop "id" usr) (prop "sub" usr)));
    if negb (truthy id) then Ok None
    else
      username ← of_js (trimmed_text (js_or (prop "username" usr) (prop "preferred_username" usr)));
      email ← of_js (trimmed_text (prop "email" usr));
      roles ← string_list (prop "roles" usr);
      Ok (Some (Obj ([("id", Str id); ("username", Str username); ("email", Str email); ("roles", strings roles)]
        ++ text_field "displayName" (normalizeDisplayName "user" (prop "displayName" usr))))).

Definition normalizeScope (scope : js) : result request_error (option js) :=
  match scope with
  | Arr l =>
      ts ← mapM_result (fun entry => of_js (trimmed_text entry)) l;
      let normalized := unique (bfilter truthy ts) in
      Ok (match normalized with [] => None | _ => Some (strings normalized) end)
  | _ => Ok None
  end.

Definition normalizeDelegation (delegation : js) : result request_error (option js) :=
  if negb (is_truthy_object delegation) then Ok None
  else
    jti ← of_js (trimmed_text (prop "jti" delegation));
    sourceAgentId ← of_js (trimmed_text (prop "sourceAgentId" delegation));
    if truthy jti then
      scope ← string_list (prop "scope" delegation);
      Ok (Some (Obj [("jti", Str jti); ("scope", strings scope); ("sourceAgentId", Str sourceAgentId)]))
    else
      tool ← of_js (trimmed_text (prop "tool" delegation));
      if negb (truthy sourceAgentId) && negb (truthy tool) then Ok None
      else Ok (Some (Obj [("sourceAgentId", Str sourceAgentId); ("tool", Str tool)])).

(** [/^[A-Za-z0-9_.-]+$/] *)
Definition delegation_key (s : jstr) : bool := truthy s && forallb (fun c => is_alnum c || has_unit c "_.-") s.

(** Entries without a token or target are skipped; [out['__proto__'] = ...] adds none. *)
Fixpoint delegation_entries (entries : list (jstr * js)) (out : jmap jstr js) : result request_error (jmap jstr js) :=
  match entries with
  | [] => Ok out
  | (key, entry) :: entries =>
      if negb (delegation_key (trim key)) then delegation_entries entries out
      else
        token ← of_js (trimmed_text (optional "token" entry));
        targetAgentId ← of_js (trimmed_text (optional "targetAgentId" entry));
        if negb (truthy token) || negb (truthy targetAgentId) then delegation_entries entries out
        else
          expiresAt ← of_js (trimmed_text (optional "expiresAt" entry));
          tools ← normalizeRoles (optional "tools" entry);
          scope ← normalizeRoles (optional "scope" entry);
          delegation_entries entries
            (if jeqb (trim key) "__proto__" then out
             else map_set (trim key)
               (Obj [("token", Str token); ("expiresAt", Str expiresAt); ("targetAgentId", Str targetAgentId);
                     ("tools", strings tools); ("scope", strings scope)]) out)
  end.

Definition normalizeDelegations (delegations : js) : result request_error (option js) :=
  match delegations with
  | Obj l => out ← delegation_entries l []; Ok (match out with [] => None | _ => Some (Obj out) end)
  | _ => Ok None
  end.

(** ** Minting a router request *)

Record mint_input : Type := MintInput {
  mi_targetAgentId : js;
  mi_sub : js;
  mi_actor : js;
  mi_caller : js;
  mi_usr : js;
  mi_scope : js;
  mi_method : js;
  mi_path : js;
  mi_tool : js;
  mi_rch : js;
  mi_delegation : js;
  mi_delegations : js;
  mi_ttlSeconds : js
}.

(** What the services throw. *)
Inductive router_error : Type :=
  | InRequest (e : request_error)
  | InMinter (e : minter_error)
  | Required (label : jstr)
  | NoSecret (id : jstr)
  | AssertionMissing
  | AssertionMalformed
  | IssuerInvalid
  | BindingMismatch (part : jstr)
  | AuthenticatedUserRequired
  | DelegationUserMissing
  | DelegationType
  | DelegationAudience
  | DelegationExpired
  | DelegationSource
  | DelegationTarget
  | DelegationTool
  | SigningSecretRequired.

Definition in_request {A} (r : result request_error A) : result router_error A :=
  match r with
  | Ok a => Ok a
  | Err e => Err (InRequest e)
  end.

Definition in_minter {A} (r : result minter_error A) : result router_error A :=
  match r with
  | Ok a => Ok a
  | Err e => Err (InMinter e)
  end.

Definition provided (v : js) (label : jstr) : result router_error unit :=
  if js_truthy v then Ok tt else Err (Required label).

(** The target and the payload; [now] is in milliseconds, [jti] random. *)
Definition router_payload (i : mint_input) (now : Z) (jti : jstr) : result router_error (jstr * js) :=
  target ← in_request (of_js (trimmed_text (mi_targetAgentId i)));
  if negb (truthy target) then Err (Required "targetAgentId")
  else
    _ ← provided (mi_method i) "method";
    _ ← provided (mi_path i) "path";
    _ ← provided (mi_rch i) "rch";
    ttl ← in_minter (minter_ttl (mi_ttlSeconds i));
    let iat := (now / 1000)%Z in
    sub ← in_request (text_or (mi_sub i));
    actor ← in_request (normalizeActor (mi_actor i));
    method ← in_request (text (mi_method i));
    path ← in_request (text (mi_path i));
    rch ← in_request (text (mi_rch i));
    tool ← in_request (tool_fields (mi_tool i));
    caller ← in_request (normalizeCaller (mi_caller i));
    usr ← in_request (normalizeUserClaims (mi_usr i));
    scope ← in_request (normalizeScope (mi_scope i));
    delegation ← in_request (normalizeDelegation (mi_delegation i));
    delegations ← in_request (normalizeDelegations (mi_delegations i));
    Ok (target,
        Obj ([("typ", Str "router-request"); ("iss", Str "ploinky-router"); ("aud", Str target); ("sub", Str sub);
              ("actor", actor); ("method", Str method); ("path", Str path); ("rch", Str rch); ("jti", Str jti);
              ("iat", Num (Fin iat)); ("exp", js_of_real (real_add (Int (Fin iat)) ttl))]
             ++ tool ++ optional_field "caller" caller ++ optional_field "usr" usr ++ optional_field "scope" scope
             ++ optional_field "delegation" delegation ++ optional_field "delegations" delegations)).

(** [/^agent:[^/\s:]+\/[^/\s:]+$/] *)
Definition principal_part (s : jstr) : bool := truthy s && forallb (fun c => negb (is_space c) && negb (c =? 58)%N) s.

Definition AGENT_PRINCIPAL_RE (s : jstr) : bool :=
  starts_with s "agent:" &&
  match split_on 47 (drop 6 s) with
  | [repo; agent] => principal_part repo && principal_part agent
  | _ => false
  end.

(** [Buffer.from(s, 'base64url')], and the secret the master key gives an agent,
    [None] where deriving it throws. *)
Class SecretHost : Type := {
  base64url_bytes : jstr -> bytes;
  agent_secret : jstr -> option bytes
}.

Section Services.
Context {C : Type} `{JwtLibrary C} `{SecretHost}.

Notation routerM := (stateM (option C) router_error).

Definition resolveAgentSecret (id : jstr) : result router_error bytes :=
  match agent_secret id with
  | Some s => Ok s
  | None => Err (NoSecret id)
  end.

(** [mintWithPayloadSync] *)
Definition mintWithPayload (i : mint_input) (now : Z) (jti : jstr) : result router_error (jstr * js) :=
  '(target, payload) ← router_payload i now jti;
  secret ← resolveAgentSecret target;
  Ok (jwt_sign payload secret, payload).

(** ** Assertions of agents *)

Definition parseIssuer (token : js) : result router_error jstr :=
  if negb (js_truthy token) then Err AssertionMissing
  else
    s ← in_request (text token);
    match split_on 46 s with
    | [_; claims; _] =>
        match jwt_json (utf8_text (base64url_bytes claims)) with
        | None => Err AssertionMalformed
        | Some claims =>
            iss ← in_request (text_or (optional "iss" claims));
            if AGENT_PRINCIPAL_RE iss then Ok iss else Err IssuerInvalid
        end
    | _ => Err AssertionMalformed
    end.

Definition binding (part : jstr) (expected payload : js) : result router_error unit :=
  match in_request (check_claim part expected payload) with
  | Err (InRequest (ClaimMismatch part)) => Err (BindingMismatch part)
  | r => r
  end.

Definition validatePayload (e : expected_claims) (targetAgentId payload : js) : result router_error unit :=
  _ ← binding "method" (ec_method e) payload;
  _ ← binding "path" (ec_path e) payload;
  _ ← binding "tool" (ec_tool e) payload;
  _ ← binding "rch" (ec_rch e) payload;
  if negb (js_truthy (prop "targetAgent" payload)) then Err (BindingMismatch "targetAgent")
  else
    named ← in_request (text (prop "targetAgent" payload));
    wanted ← in_request (text targetAgentId);
    if negb (js_truthy targetAgentId) || negb (jeqb named wanted) then Err (BindingMismatch "targetAgent")
    else if negb (is_str (prop "typ" payload) "agent-assertion") then Err (InRequest WrongType)
    else
      iss ← in_request (text_or (prop "iss" payload));
      if negb (truthy iss) then Err (InRequest MissingIssuer)
      else
        sub ← in_request (text_or (prop "sub" payload));
        if negb (jeqb sub iss) then Err (InRequest SubjectNotIssuer) else Ok tt.

Definition verify_with (token : js) (o : jws_options) : routerM js := fun c =>
  match jwt_verify token o c with
  | (Ok payload, c) => (Ok payload, c)
  | (Err e, c) => (Err (InRequest (JwtRefused e)), c)
  end.

(** [verifySync]: the calling agent and the payload.  The state is the replay cache
    of that issuer, [replayCache.forCaller(iss)]. *)
Definition verifyAgentAssertion (token : js) (e : expected_claims) (targetAgentId : js) : routerM (jstr * js) :=
  iss ← lift (parseIssuer token);
  secret ← lift (resolveAgentSecret iss);
  payload ← verify_with token (JwsOptions secret "ploinky-router" None 60);
  let payload := js_or payload (Obj []) in
  _ ← lift (validatePayload e targetAgentId payload);
  mret (iss, payload).
End Services.

(** ** Grants by which an agent acts for a user *)

Definition DEFAULT_MAX_TTL_SECONDS : Z := 8 * 60 * 60.

Definition resolveMaxTtlSeconds (env : js) : result request_error Z :=
  s ← text_or (optional "PLOINKY_USER_DELEGATION_MAX_TTL_SECONDS" env);
  Ok (match parse_int s with
      | Fin raw => if (30 <=? raw)%Z && (raw <=? 86400)%Z then raw else DEFAULT_MAX_TTL_SECONDS
      | _ => DEFAULT_MAX_TTL_SECONDS
      end).

Definition normalizeStringList (values : js) : result request_error (list jstr) :=
  match values with
  | Arr l =>
      ts ← mapM_result (fun raw => of_js (trimmed_text raw)) l;
      Ok (unique (bfilter truthy ts))
  | _ => Ok []
  end.

(** [s.replace(/^user:/i, '')] *)
Definition without_user (s : jstr) : jstr := if starts_with_any_case s "user:" then drop 5 s else s.

(** The identifier with the claims, [None] for [null]. *)
Definition normalizeUser (user : js) : result request_error (option (jstr * js)) :=
  match user with
  | Undefined => Ok None
  | _ =>
      if negb (is_truthy_object user) then Ok None
      else
        given ← of_js (trimmed_text (js_or (prop "id" user) (prop "sub" user)));
        let id := without_user given in
        if negb (truthy id) then Ok None
        else
          username ← of_js (trimmed_text (js_or (prop "username" user) (prop "preferred_username" user)));
          email ← of_js (trimmed_text (prop "email" user));
          roles ← normalizeStringList (prop "roles" user);
          Ok (Some (id, Obj ([("id", Str id); ("username", Str username); ("email", Str email); ("roles", strings roles)]
            ++ text_field "displayName" (normalizeDisplayName "user" (prop "displayName" user)))))
  end.

Definition buildStableSubject (id : jstr) : jstr :=
  let id := without_user (trim id) in if truthy id then "user:" ++ id else [].

Definition isGuestActor (actor : js) : result request_error bool :=
  kind ← of_js (trimmed_text (optional "kind" actor)); Ok (jeqb (to_lower kind) "guest").

Definition isGuestUser (user : js) : result request_error bool :=
  roles ← normalizeStringList (optional "roles" user);
  id ← text_or (optional "id" user);
  Ok (one_of "guest" (to_lower <$> roles) || starts_with id "guest:").

Record grant_input : Type := GrantInput {
  gi_ttlSeconds : js;
  gi_sourceAgentId : js;
  gi_route : js;
  gi_user : js;
  gi_actor : js;
  gi_targetAgentId : js;
  gi_tools : js;
  gi_scopes : js
}.

(** [Math.max(30, Math.min(Number.parseInt(String(ttlSeconds || ''), 10) || DEFAULT_MAX_TTL_SECONDS, maxTtl))] *)
Definition grant_ttl (ttlSeconds : js) (maxTtl : Z) : result request_error Z :=
  s ← text_or ttlSeconds;
  let wanted :=
    match parse_int s with
    | Fin z => if (z =? 0)%Z then DEFAULT_MAX_TTL_SECONDS else z
    | _ => DEFAULT_MAX_TTL_SECONDS
    end in
  Ok (Z.max 30 (Z.min wanted maxTtl)).

Definition grant_route (route : js) : result request_error js :=
  if negb (is_truthy_object route) then Ok Undefined
  else
    routeKey ← of_js (trimmed_text (prop "routeKey" route));
    pathPrefix ← of_js (trimmed_text (prop "pathPrefix" route));
    requestPath ← of_js (trimmed_text (prop "requestPath" route));
    Ok (Obj [("routeKey", Str routeKey); ("pathPrefix", Str pathPrefix); ("requestPath", Str requestPath)]).

Definition grant_payload (i : grant_input) (env : js) (now : Z) (jti : jstr) : result router_error js :=
  guestActor ← in_request (isGuestActor (gi_actor i));
  guestUser ← (if guestActor : bool then Ok true else in_request (isGuestUser (gi_user i)));
  if guestUser : bool then Err AuthenticatedUserRequired
  else
    user ← in_request (normalizeUser (gi_user i));
    match user with
    | None => Err DelegationUserMissing
    | Some (id, usr) =>
        maxTtl ← in_request (resolveMaxTtlSeconds env);
        ttl ← in_request (grant_ttl (gi_ttlSeconds i) maxTtl);
        let iat := (now / 1000)%Z in
        sourceAgentId ← in_request (of_js (trimmed_text (gi_sourceAgentId i)));
        route ← in_request (grant_route (gi_route i));
        targets ← in_request (normalizeStringList (Arr [gi_targetAgentId i]));
        tools ← in_request (normalizeStringList (gi_tools i));
        scopes ← in_request (normalizeStringList (gi_scopes i));
        Ok (Obj [("typ", Str "user-delegation"); ("iss", Str "ploinky-router"); ("aud", Str "ploinky-router");
          ("sub", Str (buildStableSubject id)); ("jti", Str jti); ("iat", Num (Fin iat));
          ("exp", Num (Fin (iat + ttl))); ("sourceAgentId", Str sourceAgentId); ("route", route); ("usr", usr);
          ("allowedTargets", strings targets); ("allowedTools", strings tools); ("scope", strings scopes)])
    end.

(** What a caller expects of a grant. *)
Record grant_expected : Type := GrantExpected {
  ge_sourceAgentId : js;
  ge_targetAgentId : js;
  ge_tool : js
}.

Record delegation : Type := Delegation {
  dg_jti : jstr;
  dg_scope : list jstr;
  dg_sourceAgentId : jstr;
  dg_targetAgentId : jstr;
  dg_tool : jstr
}.

(** [payload?.exp || 0] is over, at [now] in milliseconds. *)
Definition grant_expired (payload : js) (now : Z) : result request_error bool :=
  match number_of (js_or (optional "exp" payload) (Num (Fin 0))) with
  | Ok exp => Ok (real_le exp (Int (Fin (now / 1000))))
  | Err e => Err (RequestLanguage e)
  end.

(** The user's claims and the delegation. *)
Definition grant_verified (payload : js) (e : grant_expected) (now : Z) : result router_error (js * delegation) :=
  if negb (is_str (optional "typ" payload) "user-delegation") then Err DelegationType
  else
    iss ← in_request (text_or (optional "iss" payload));
    if negb (jeqb iss "ploinky-router") then Err DelegationAudience
    else
      aud ← in_request (text_or (optional "aud" payload));
      if negb (jeqb aud "ploinky-router") then Err DelegationAudience
      else
        expired ← in_request (grant_expired payload now);
        if expired : bool then Err DelegationExpired
        else
          kind ← in_request (of_js (trimmed_text (optional "kind" (optional "actor" payload))));
          user ← in_request (normalizeUser (optional "usr" payload));
          roles ← in_request (normalizeStringList (optional "roles" (optional "usr" payload)));
          match user with
          | Some (_, usr) =>
              if one_of (to_lower kind) ["agent"; "guest"] || one_of "guest" roles then Err DelegationUserMissing
              else
                source ← in_request (of_js (trimmed_text (optional "sourceAgentId" payload)));
                wantedSource ← in_request (of_js (trimmed_text (ge_sourceAgentId e)));
                if truthy wantedSource && negb (jeqb source wantedSource) then Err DelegationSource
                else
                  targets ← in_request (normalizeStringList (optional "allowedTargets" payload));
                  wantedTarget ← in_request (of_js (trimmed_text (ge_targetAgentId e)));
                  if truthy wantedTarget && negb (one_of wantedTarget targets) then Err DelegationTarget
                  else
                    tools ← in_request (normalizeStringList (optional "allowedTools" payload));
                    wantedTool ← in_request (of_js (trimmed_text (ge_tool e)));
                    if truthy wantedTool && negb (one_of wantedTool tools) then Err DelegationTool
                    else
                      jti ← in_request (text_or (optional "jti" payload));
                      scope ← in_request (normalizeStringList (optional "scope" payload));
                      target ← in_request (of_js (trimmed_text
                        (js_or (ge_targetAgentId e) (from_option Str Undefined (head targets)))));
                      Ok (usr, Delegation jti scope source target wantedTool)
          | None => Err DelegationUserMissing
          end.

(** [/p/i.test(s)] *)
Definition mentions (p s : jstr) : bool := includes (ascii_lower <$> s) p.

(** How the library's refusals are reported. *)
Definition grant_refusal (e : jwt_failure) : router_error :=
  let m := jf_message e in
  if mentions "audience mismatch" m || mentions "issuer mismatch" m then DelegationAudience
  else if mentions "expired" m then DelegationExpired
  else InRequest (JwtRefused e).

Section Grants.
Context {C : Type} `{JwtLibrary C}.

(** [mintSync]; an empty secret is none. *)
Definition mintGrant (signingSecret : bytes) (i : grant_input) (env : js) (now : Z) (jti : jstr) :
    result router_error (jstr * js) :=
  payload ← grant_payload i env now jti;
  match signingSecret with
  | [] => Err SigningSecretRequired
  | _ => Ok (jwt_sign payload signingSecret, payload)
  end.

(** [verifySync], which gives [verifyJws] no replay cache. *)
Definition verifyGrant (signingSecret : bytes) (token : js) (e : grant_expected) (env : js) (now : Z) :
    result router_error (js * delegation) :=
  match signingSecret with
  | [] => Err SigningSecretRequired
  | _ =>
      maxTtl ← in_request (resolveMaxTtlSeconds env);
      match (jwt_verify token (JwsOptions signingSecret "ploinky-router" None maxTtl) None).1 with
      | Ok payload => grant_verified payload e now
      | Err e => Err (grant_refusal e)
      end
  end.
End Grants.

(** ** The identity header of a routed request *)

Definition buildPlainAuthInfo (req : js) : list (jstr * js) :=
  let user := prop "user" req in
  [("user"%js, Obj [("id", js_or (prop "id" user) (Str []));
      ("username", js_or (js_or (js_or (prop "username" user) (prop "name" user)) (prop "email" user)) (Str []));
      ("email", js_or (prop "email" user) (Str []));
      ("roles", match prop "roles" user with Arr l => Arr l | _ => Arr [] end)]);
   ("sessionId"%js, js_or (prop "sessionId" req) (Str []))].

(** The roles are those of [authInfo.user]. *)
Definition resolveHttpRouteActorKind (roles : js) : result request_error jstr :=
  match roles with
  | Arr l =>
      ts ← mapM_result (fun role => of_js (trimmed_text role)) l;
      Ok (if one_of "guest" (to_lower <$> ts) then "guest" else "user")
  | _ => Ok "user"
  end.

Definition pathOnly (pathWithQuery : js) : result request_error jstr :=
  value ← text_or pathWithQuery;
  Ok (match index_of 63 value with
      | Some i => take i value
      | None => value
      end).

(** What is signed of a request. *)
Record invocation_body : Type := InvocationBody {
  ib_method : jstr;
  ib_externalPath : js;
  ib_path : jstr;
  ib_search : js;
  ib_routeKey : js;
  ib_bodyHash : jstr
}.

Definition invocation_body_js (b : invocation_body) : js :=
  Obj [("method", Str (ib_method b)); ("externalPath", ib_externalPath b); ("path", Str (ib_path b));
    ("search", ib_search b); ("routeKey", ib_routeKey b); ("bodyHash", Str (ib_bodyHash b))].

(** [deriveAgentPrincipalId(repo, agent)] of the trimmed names, [None] for [null]. *)
Definition resolveHttpRoutePrincipal (definition : js) : result request_error (option jstr) :=
  let route := optional "route" definition in
  repo ← of_js (trimmed_text (optional "repo" route));
  agent ← of_js (trimmed_text (optional "agent" route));
  let segment s := principal_part s && negb (has_unit 47 s) in
  Ok (if segment repo && segment agent then Some ("agent:" ++ repo ++ "/" ++ agent) else None).

Section Header.
Context {C : Type} `{JwtLibrary C} `{SecretHost} `{Sha256Url}.

Definition buildHttpRouteInvocationBody (req parsedUrl definition bodyHash routePath : js) :
    result request_error invocation_body :=
  method ← of_js (to_string (js_or (prop "method" req) (Str "GET")));
  path ← pathOnly (js_or (js_or routePath (optional "pathname" parsedUrl)) (Str []));
  bodyHash ← text (js_or bodyHash (Str (sha256RawBodyHash NoBody)));
  Ok (InvocationBody (to_upper method) (js_or (optional "pathname" parsedUrl) (Str [])) path
        (js_or (optional "search" parsedUrl) (Str [])) (js_or (prop "routeKey" definition) (Str [])) bodyHash).

(** What the token of a routed request is minted from. *)
Definition route_request (req : js) (principal : jstr) (b : invocation_body) : result router_error mint_input :=
  let user := default Undefined (map_get "user"%js (buildPlainAuthInfo req)) in
  let id := prop "id" user in
  sub ← (if js_truthy id then id ← in_request (text id); Ok ("user:" ++ id) else Ok []);
  kind ← in_request (resolveHttpRouteActorKind (prop "roles" user));
  rch ← in_request (of_hash (computeRchHttp (Str (ib_method b)) (Str (ib_path b)) (ib_search b) (Str (ib_bodyHash b))));
  Ok (MintInput (Str principal) (Str sub)
        (Obj [("kind", Str kind); ("id", Str sub); ("roles", prop "roles" user);
              ("capabilities", prop "capabilities" (prop "user" req))])
        Undefined Undefined Undefined (Str (ib_method b)) (Str (ib_path b)) (Str HTTP_ROUTE_TOOL) (Str rch)
        Undefined Undefined Undefined).

(** The [authInfo] that the header writes as JSON, [None] when there is no header;
    [delegations] is what [buildRouteDelegations] gives. *)
Definition buildHttpRouteAuthInfo (req parsedUrl definition bodyHash routePath : js) (delegations : option js)
    (now : Z) (jti : jstr) : result router_error (option (list (jstr * js))) :=
  if negb (js_truthy (optional "includeAuthInfo" definition)) || negb (is_truthy_object (prop "user" req)) then Ok None
  else
    invocation ← (if js_truthy (prop "issueInvocation" definition) then
        b ← in_request (buildHttpRouteInvocationBody req parsedUrl definition bodyHash routePath);
        principal ← in_request (resolveHttpRoutePrincipal definition);
        match principal with
        | None => Err (Required "provider")
        | Some principal =>
            input ← route_request req principal b;
            '(token, _) ← mintWithPayload input now jti;
            Ok [("invocationToken"%js, Str token); ("invocationBody"%js, invocation_body_js b)]
        end
      else Ok []);
    Ok (Some (buildPlainAuthInfo req ++ invocation ++ optional_field "delegations" delegations)).

Definition buildHttpRouteAuthInfoHeader (req parsedUrl definition bodyHash routePath : js) (delegations : option js)
    (now : Z) (jti : jstr) : result router_error js :=
  authInfo ← buildHttpRouteAuthInfo req parsedUrl definition bodyHash routePath delegations now jti;
  Ok (match authInfo with
      | Some l => Obj [("x-ploinky-auth-info", Str (json_stringify (Obj l)))]
      | None => Obj []
      end).
End Header.
