(* ===== verification/TokenTheorems.v ===== *)
(** Request tokens between the router and the agents: an agent accepts what the
    router signs for it and for exactly one request, the router accepts the
    assertion an agent signs for one call, a grant covers its source, targets
    and tools, and an agent sees the caller the router named. *)

From stdpp Require Import prelude.
From Stdlib Require Import NArith.
From S2P Require Import Prelude.
From S2P Require Import JsString.
From S2P Require Import JsNumber.
From S2P Require Import JsMap.
From S2P Require Import JsValue.
From S2P Require Import JsDecimal.
From S2P Require Import JsUri.
From S2P Require Import JsBytes.
From S2P Require Import JsDouble.
From S2P Require Import JsJson.
From S2P Require Import HttpRouteCompiler.
From S2P Require Import NetworkContract.
From S2P Require Import CanonicalHash.
From S2P Require Import RequestHash.
From S2P Require Import RequestHashTheorems.
From S2P Require Import RelayAuth.
From S2P Require Import RequestTokens.
From S2P Require Import RouterTokens.

Local Open Scope js_scope.

(** ** Texts *)

Lemma text_or_str s : text_or (Str s) = Ok s.
Proof. by destruct s. Qed.

Lemma trimmed_text_str s : trimmed_text (Str s) = Ok (trim s).
Proof. by destruct s. Qed.

Lemma of_js_Ok {A} (r : result js_error A) a : of_js r = Ok a <-> r = Ok a.
Proof. unfold of_js. destruct r; [|by split]. split; congruence. Qed.

Lemma of_hash_Ok {A} (r : result hash_error A) a : of_hash r = Ok a <-> r = Ok a.
Proof. unfold of_hash. destruct r; [|by split]. split; congruence. Qed.

Lemma in_request_Ok {A} (r : result request_error A) a : in_request r = Ok a <-> r = Ok a.
Proof. unfold in_request. destruct r; [|by split]. split; congruence. Qed.

Lemma in_minter_Ok {A} (r : result minter_error A) a : in_minter r = Ok a <-> r = Ok a.
Proof. unfold in_minter. destruct r; [|by split]. split; congruence. Qed.

Lemma trim_start_head s : trim_start s = [] \/ exists c r, trim_start s = c :: r /\ is_space c = false.
Proof.
  induction s as [|c s IH]; [by left|]. simpl. destruct (is_space c) eqn:E; [done|]. right. by exists c, s.
Qed.

Lemma trimmed_end s : trim s = s -> s <> [] -> exists r d, s = r ++ [d] /\ is_space d = false.
Proof.
  intros <- Hs. unfold trim, trim_end in *. destruct (trim_start_head (rev (trim_start s))) as [E | (c & r & -> & Hc)].
  - by rewrite E in Hs.
  - by exists (rev r), c.
Qed.

Lemma trim_after c p s : is_space c = false -> trim s = s -> s <> [] -> trim ((c :: p) ++ s) = (c :: p) ++ s.
Proof.
  intros Hc Ht Hs. destruct (trimmed_end s Ht Hs) as (r & d & -> & Hd). cbn [app].
  apply (trim_solid c (p ++ r ++ [d]) d (c :: p ++ r)); [|done..]. cbn [app]. by rewrite <- app_assoc.
Qed.

Lemma trim_json l : trim (json_stringify (Obj l)) = json_stringify (Obj l).
Proof.
  unfold json_stringify. cbn [json_text from_option id]. set (texts := join _ _). clearbody texts.
  change ("{" ++ texts ++ "}") with (123%N :: texts ++ [125%N]).
  by apply (trim_solid 123 _ 125 (123%N :: texts)).
Qed.

(** ** Claims *)

Lemma check_claim_Ok claim expected payload :
  check_claim claim expected payload = Ok tt <->
  expected = Undefined \/ exists t, text_or (prop claim payload) = Ok t /\ text expected = Ok t.
Proof.
  unfold check_claim. split.
  - intros E. destruct expected; [by left|right..]; apply result_bind_Ok in E as (x & Hx & E);
      apply result_bind_Ok in E as (y & Hy & E); destruct (jeqb x y) eqn:Eq; try done;
      apply jeqb_eq in Eq as ->; by exists y.
  - intros [-> | (t & Ha & Hb)]; [done|]. rewrite Ha, Hb. cbn [mbind result_bind]. rewrite jeqb_refl.
    by destruct expected.
Qed.

(** The claims of a payload have the texts that are expected. *)
Definition claims_hold (e : expected_claims) (payload : js) : Prop :=
  forall claim expected,
    (claim, expected) ∈ [("method"%js, ec_method e); ("path"%js, ec_path e); ("tool"%js, ec_tool e); ("rch"%js, ec_rch e)] ->
    expected = Undefined \/ exists t, text_or (prop claim payload) = Ok t /\ text expected = Ok t.

Lemma result_bind_unit {E A} (r : result E unit) (k : unit -> result E A) a :
  (x ← r; k x) = Ok a <-> r = Ok tt /\ k tt = Ok a.
Proof. destruct r as [[]|]; simpl; [|by split; [|intros []]]. by split; [|intros []]. Qed.

Lemma check_claims_Ok e payload : check_claims e payload = Ok tt <-> claims_hold e payload.
Proof.
  unfold check_claims, claims_hold. rewrite !result_bind_unit, !check_claim_Ok. split.
  - intros (H1 & H2 & H3 & H4) claim expected Hin.
    repeat (apply elem_of_cons in Hin as [[= -> ->] | Hin]; [done|]). by apply not_elem_of_nil in Hin.
  - intros Hall. split_and!; apply Hall; set_solver.
Qed.

Lemma check_router_request_Ok e payload :
  check_router_request e payload = Ok tt <->
  prop "typ" payload = Str "router-request" /\ prop "iss" payload = Str "ploinky-router" /\ claims_hold e payload.
Proof.
  unfold check_router_request. rewrite <- check_claims_Ok.
  destruct (is_str (prop "typ" payload) "router-request") eqn:Et.
  - apply is_str_eq in Et as ->. destruct (is_str (prop "iss" payload) "ploinky-router") eqn:Ei; simpl.
    + apply is_str_eq in Ei as ->. by split; [|intros (_ & _ & ?)].
    + split; [done|]. intros (_ & Hi & _). by rewrite Hi in Ei.
  - split; [done|]. intros (Ht & _). by rewrite Ht in Et.
Qed.

(** ** What an agent accepts *)

Section Accepted.
Context {C : Type} `{JwtLibrary C} `{Sha256Url}.

Lemma verify_router_Ok token o e c payload c' :
  verifyRouterRequestToken token o e c = (Ok payload, c') <->
  jwt_verify token o c = (Ok payload, c') /\ check_router_request e (js_or payload (Obj [])) = Ok tt.
Proof.
  unfold verifyRouterRequestToken. split.
  - intros (p & c1 & Hv & (u & c2 & [Hu ->]%lift_Ok & [= -> ->])%bind_Ok)%bind_Ok.
    unfold verify_jws in Hv. destruct (jwt_verify token o c) as [[p'|] c3]; [|done].
    injection Hv as -> ->. by destruct u.
  - intros [Hv Hc]. unfold mbind at 1, stateM_bind at 1, verify_jws. rewrite Hv, bind_lift, Hc. done.
Qed.

(** The token is verified with the agent's own secret and for the agent itself. *)
Definition verified_by (env : js) (e : expected_claims) (c : option C) (payload : js) (tok : jstr) (c' : option C) : Prop :=
  exists secret audience, readAgentSecret env = Ok (Some secret) /\ expectedAudienceForSelf env = Ok audience /\
    truthy audience = true /\ jwt_verify (Str tok) (JwsOptions secret audience None 60) c = (Ok payload, c') /\
    check_router_request e (js_or payload (Obj [])) = Ok tt.

Lemma from_headers_Ok headers env e c payload tok c' :
  verifyRouterRequestFromHeaders headers env e c = (Ok (payload, tok), c') -> verified_by env e c payload tok c'.
Proof.
  unfold verifyRouterRequestFromHeaders. cbv zeta. destruct (negb _); [done|].
  set (raw := trim _). destruct (negb (truthy raw)); [done|].
  intros (secret & c1 & [Hs ->]%lift_Ok & E)%bind_Ok. destruct secret as [secret|]; [|done].
  apply bind_Ok in E as (audience & c2 & [Ha ->]%lift_Ok & E). destruct (truthy audience) eqn:Ht; [|done].
  cbn [negb] in E. apply bind_Ok in E as (p & c3 & [Hv Hc]%verify_router_Ok & [= -> -> ->]).
  by exists secret, audience.
Qed.

(** A request over HTTP as it is signed, with the tool that stands for its kind. *)
Record surface : Type := Surface {
  su_method : jstr;
  su_path : jstr;
  su_query : jstr;
  su_bodyHash : jstr;
  su_tool : jstr
}.

Definition http_object (s : surface) : js :=
  Obj [("method", Str (su_method s)); ("path", Str (su_path s)); ("query", Str (su_query s));
       ("bodyHash", Str (su_bodyHash s))].

(** Strings of 16-bit units. *)
Definition surface_ok (s : surface) : bool := data_ok (http_object s).

Lemma http_rch s : computeRchHttp (Str (su_method s)) (Str (su_path s)) (Str (su_query s)) (Str (su_bodyHash s)) =
  computeRch (http_object s).
Proof. done. Qed.

(** The ways an agent accepts a request, each with the surface it received. *)
Inductive accepts (headers env : js) (c : option C) : surface -> accepted_request -> option C -> Prop :=
  | accepts_route method path query body bodyHash m p q b a c' :
      verifyHttpRouteAuthInfoFromHeaders headers env method path query body bodyHash c = (Ok a, c') ->
      text_or method = Ok m -> text_or path = Ok p -> to_string (js_nullish query (Str [])) = Ok q ->
      body_hash body bodyHash = Ok b ->
      accepts headers env c (Surface (to_upper m) p q b HTTP_ROUTE_TOOL) a c'
  | accepts_service body bodyHash b a c' :
      verifyOpenAiServiceAuthInfoFromHeaders headers env body bodyHash c = (Ok a, c') -> body_hash body bodyHash = Ok b ->
      accepts headers env c (Surface "POST" OPENAI_CHAT_COMPLETIONS_PATH [] b OPENAI_CHAT_COMPLETIONS_TOOL) a c'
  | accepts_models a c' :
      verifyOpenAiModelsAuthInfoFromHeaders headers env c = (Ok a, c') ->
      accepts headers env c (Surface "GET" OPENAI_MODELS_PATH [] (sha256RawBodyHash (TextBody [])) OPENAI_MODELS_TOOL)
        a c'.

(** The claims a surface expects. *)
Definition surface_claims (s : surface) : result request_error expected_claims :=
  http_claims (su_method s) (su_path s) (su_query s) (su_bodyHash s) (su_tool s).

Lemma accepts_verified headers env c s a c' :
  accepts headers env c s a c' ->
  exists claims, surface_claims s = Ok claims /\ verified_by env claims c (ar_payload a) (ar_rawToken a) c'.
Proof.
  unfold surface_claims. intros [method path query body bodyHash m p q b a' c1 E Hm Hp Hq Hb | body bodyHash b a' c1 E Hb | a' c1 E].
  - unfold verifyHttpRouteAuthInfoFromHeaders in E. apply bind_Ok in E as (info & c2 & [_ ->]%lift_Ok & E).
    destruct (negb _); [done|]. destruct (negb _); [done|]. rewrite bind_lift, Hm in E. cbn iota beta in E.
    destruct (negb _); [done|]. rewrite bind_lift, Hp in E. destruct (negb _); [done|].
    rewrite bind_lift, Hq in E. cbn [of_js] in E. rewrite bind_lift, Hb in E.
    apply bind_Ok in E as (u & c3 & [_ ->]%lift_Ok & E). apply bind_Ok in E as (claims & c4 & [Hc ->]%lift_Ok & E).
    apply bind_Ok in E as ([payload tok] & c5 & E & [= <- <-]). exists claims. split; [done|].
    by apply (from_headers_Ok _ _ _ _ _ _ _ E).
  - unfold verifyOpenAiServiceAuthInfoFromHeaders in E. apply bind_Ok in E as (info & c2 & [_ ->]%lift_Ok & E).
    destruct (negb _); [done|]. rewrite bind_lift, Hb in E. apply bind_Ok in E as (claims & c4 & [Hc ->]%lift_Ok & E).
    apply bind_Ok in E as ([payload tok] & c5 & E & [= <- <-]). exists claims. split; [done|].
    by apply (from_headers_Ok _ _ _ _ _ _ _ E).
  - unfold verifyOpenAiModelsAuthInfoFromHeaders in E. apply bind_Ok in E as (info & c2 & [_ ->]%lift_Ok & E).
    destruct (negb _); [done|]. apply bind_Ok in E as (claims & c4 & [Hc ->]%lift_Ok & E).
    apply bind_Ok in E as ([payload tok] & c5 & E & [= <- <-]). exists claims. split; [done|].
    by apply (from_headers_Ok _ _ _ _ _ _ _ E).
Qed.

(** The hash of a surface names it. *)
Lemma http_object_inj s s' : same_data (http_object s) (http_object s') ->
  su_method s = su_method s' /\ su_path s = su_path s' /\ su_query s = su_query s' /\ su_bodyHash s = su_bodyHash s'.
Proof. intros E. vm_compute in E. by injection E. Qed.

(** An MCP call as it is hashed. *)
Definition tool_object (method path tool : jstr) (args : js) : js :=
  Obj [("method", Str method); ("path", Str path); ("tool", Str tool); ("arguments", args)].

Lemma http_is_no_tool s method path tool args : ~ same_data (http_object s) (tool_object method path tool args).
Proof.
  unfold same_data, http_object, tool_object. cbn [canonical fmap list_fmap fst snd].
  set (a := canonical args). clearbody a. intros E. vm_compute in E. by injection E.
Qed.

(** C10. What an agent accepts is what was signed, and nothing else.  Whichever way an
    agent accepts a request, its token was verified with the agent's own
    secret and for the agent itself, it is a token of the router, and its
    method, path, tool and request hash are those of the request that
    arrived: no other request over HTTP and no tool call has this request
    hash, unless its data and those of this request are a collision of SHA-256. *)
Theorem accepted_request_signed headers env c s a c' :
  accepts headers env c s a c' -> surface_ok s = true ->
  let payload := js_or (ar_payload a) (Obj []) in
  exists secret audience rch,
    readAgentSecret env = Ok (Some secret) /\ expectedAudienceForSelf env = Ok audience /\
    jwt_verify (Str (ar_rawToken a)) (JwsOptions secret audience None 60) c = (Ok (ar_payload a), c') /\
    prop "typ" payload = Str "router-request" /\ prop "iss" payload = Str "ploinky-router" /\
    text_or (prop "method" payload) = Ok (su_method s) /\ text_or (prop "path" payload) = Ok (su_path s) /\
    text_or (prop "tool" payload) = Ok (su_tool s) /\ text_or (prop "rch" payload) = Ok rch /\
    computeRch (http_object s) = Ok rch /\
    (forall s', surface_ok s' = true -> computeRch (http_object s') = Ok rch ->
       su_method s' = su_method s /\ su_path s' = su_path s /\ su_query s' = su_query s /\
       su_bodyHash s' = su_bodyHash s \/ data_collide (http_object s') (http_object s)) /\
    (forall method path tool args, data_ok (tool_object method path tool args) = true ->
       computeRch (tool_object method path tool args) = Ok rch ->
       data_collide (http_object s) (tool_object method path tool args)).
Proof.
  intros Ha Hok payload. destruct (accepts_verified _ _ _ _ _ _ Ha) as (claims & Hc & secret & audience & Hs & Hau & _ & Hv & Hchk).
  unfold surface_claims, http_claims in Hc. apply result_bind_Ok in Hc as (rch & Hr%of_hash_Ok & [= <-]).
  rewrite http_rch in Hr. apply check_router_request_Ok in Hchk as (Ht & Hi & Hclaims).
  assert (forall claim s', (claim, Str s') ∈ [("method"%js, Str (su_method s)); ("path"%js, Str (su_path s));
      ("tool"%js, Str (su_tool s)); ("rch"%js, Str rch)] -> text_or (prop claim payload) = Ok s') as Htext.
  { intros claim s' Hin. destruct (Hclaims claim (Str s') Hin) as [|(t & Hp & [= ->])]; done. }
  exists secret, audience, rch. split_and!; [done..| | | | |done| |]; try (apply Htext; set_solver).
  - intros s' Hok' Hr'. destruct (hash_determines (http_object s') (http_object s) rch) as [Hsame | Hcol]; [done..| |by right].
    left. by apply http_object_inj.
  - intros method path tool args Hd Hr'.
    destruct (hash_determines (http_object s) (tool_object method path tool args) rch) as [Hsame | Hcol]; [done..| |done].
    by destruct (http_is_no_tool _ _ _ _ _ Hsame).
Qed.

(** ** What the router sends is accepted *)

Lemma bearer_header tok : trim tok = tok -> tok <> [] -> readHeaderValue (bearer tok) "authorization" = "Bearer " ++ tok.
Proof.
  intros Ht Hne. unfold readHeaderValue.
  change (optional "authorization" (bearer tok)) with (Str ("Bearer " ++ tok)).
  change (unwrap_header (Str ("Bearer " ++ tok))) with (trim ("Bearer " ++ tok)).
  by rewrite (trim_after 66 "earer ") by done.
Qed.

Lemma bearer_accepted env e c tok secret audience payload c' :
  trim tok = tok -> tok <> [] -> readAgentSecret env = Ok (Some secret) -> expectedAudienceForSelf env = Ok audience ->
  audience <> [] -> verifyRouterRequestToken (Str tok) (JwsOptions secret audience None 60) e c = (Ok payload, c') ->
  verifyRouterRequestFromHeaders (bearer tok) env e c = (Ok (payload, tok), c').
Proof.
  intros Ht Hne Hs Ha Haud Hv. unfold verifyRouterRequestFromHeaders. rewrite bearer_header by done. cbv zeta.
  assert (starts_with (to_lower ("Bearer " ++ tok)) "bearer " = true) as ->
    by (unfold to_lower; rewrite bind_app; by apply starts_with_app).
  change (drop 7 ("Bearer " ++ tok)) with tok. rewrite Ht. cbn [negb].
  apply truthy_true in Hne as ->. cbn [negb]. rewrite bind_lift, Hs. rewrite bind_lift, Ha.
  apply truthy_true in Haud as ->. cbn [negb]. unfold mbind at 1, stateM_bind at 1. by rewrite Hv.
Qed.

(** A minted payload. *)
Lemma router_payload_shape i now jti target payload :
  router_payload i now jti = Ok (target, payload) ->
  exists ttl sub actor method path rch tool caller usr scope delegation delegations,
    target <> [] /\ minter_ttl (mi_ttlSeconds i) = Ok ttl /\ text_or (mi_sub i) = Ok sub /\
    normalizeActor (mi_actor i) = Ok actor /\ text (mi_method i) = Ok method /\ text (mi_path i) = Ok path /\
    text (mi_rch i) = Ok rch /\ tool_fields (mi_tool i) = Ok tool /\ normalizeCaller (mi_caller i) = Ok caller /\
    normalizeUserClaims (mi_usr i) = Ok usr /\ normalizeScope (mi_scope i) = Ok scope /\
    normalizeDelegation (mi_delegation i) = Ok delegation /\ normalizeDelegations (mi_delegations i) = Ok delegations /\
    payload = Obj ([("typ", Str "router-request"); ("iss", Str "ploinky-router"); ("aud", Str target); ("sub", Str sub);
              ("actor", actor); ("method", Str method); ("path", Str path); ("rch", Str rch); ("jti", Str jti);
              ("iat", Num (Fin (now / 1000))); ("exp", js_of_real (real_add (Int (Fin (now / 1000))) ttl))]
             ++ tool ++ optional_field "caller" caller ++ optional_field "usr" usr ++ optional_field "scope" scope
             ++ optional_field "delegation" delegation ++ optional_field "delegations" delegations).
Proof.
  unfold router_payload. intros (t & _ & E)%result_bind_Ok. destruct (truthy t) eqn:Ht; [|done]. cbn [negb] in E.
  apply result_bind_Ok in E as (? & _ & E). apply result_bind_Ok in E as (? & _ & E).
  apply result_bind_Ok in E as (? & _ & E). apply result_bind_Ok in E as (ttl & Httl%in_minter_Ok & E).
  do 5 (apply result_bind_Ok in E as (? & ?%in_request_Ok & E)).
  do 6 (apply result_bind_Ok in E as (? & ?%in_request_Ok & E)).
  injection E as -> <-. apply truthy_true in Ht. repeat eexists; [done..|]. done.
Qed.

Lemma router_payload_claims i now jti target payload method path rch tool :
  router_payload i now jti = Ok (target, payload) ->
  text (mi_method i) = Ok method -> text (mi_path i) = Ok path -> text (mi_rch i) = Ok rch ->
  mi_tool i = Str tool -> tool <> [] ->
  js_or payload (Obj []) = payload /\ target <> [] /\
  check_router_request (ExpectedClaims (Str method) (Str path) (Str tool) (Str rch)) payload = Ok tt.
Proof.
  intros E Hm Hp Hr Ht Hne.
  destruct (router_payload_shape _ _ _ _ _ E) as (ttl & sub & actor & m & p & r & ts & caller & usr & scope & dg & dgs &
    Htarget & _ & _ & _ & Hm' & Hp' & Hr' & Hts & _ & _ & _ & _ & _ & ->).
  rewrite Hm in Hm'. rewrite Hp in Hp'. rewrite Hr in Hr'. injection Hm' as <-. injection Hp' as <-. injection Hr' as <-.
  rewrite Ht in Hts. unfold tool_fields in Hts. cbn [text to_string of_js mbind result_bind] in Hts.
  apply truthy_true in Hne. change (text (Str tool)) with (Ok (E := request_error) tool) in Hts.
  cbn [mbind result_bind] in Hts. rewrite Hne in Hts. injection Hts as <-.
  split_and!; [done|done|]. apply check_router_request_Ok. split_and!; [done|done|].
  intros claim expected Hin. right. cbn [ec_method ec_path ec_tool ec_rch] in Hin.
  repeat (apply elem_of_cons in Hin as [[= -> ->] | Hin]; [eexists; split; [apply text_or_str|done]|]).
  by apply not_elem_of_nil in Hin.
Qed.

(** ** Upper case *)

Lemma upper_unit_again c : upper_unit c ≫= upper_unit = upper_unit c.
Proof.
  unfold upper_unit at 2 3.
  destruct (N.leb_spec 97 c), (N.leb_spec c 122); cbn [andb];
    try (destruct (N.leb_spec 224 c), (N.leb_spec c 254); cbn [andb]); try (destruct (N.eqb_spec c 247); cbn [negb]);
    try destruct (N.eqb_spec c 223); try destruct (N.eqb_spec c 255); try destruct (N.eqb_spec c 181);
    try destruct (N.eqb_spec c 305); try destruct (N.eqb_spec c 383); try lia; try done.
  all: unfold mbind, list_bind; rewrite app_nil_r; unfold upper_unit; decide_units; cbn [negb].
  all: repeat match goal with
       | |- context [(?a =? ?b)%N] => first [rewrite (proj2 (N.eqb_neq a b)) by lia | destruct (N.eqb_spec a b); [done|lia]]
       end; try done.
Qed.

Lemma to_upper_again s : to_upper (to_upper s) = to_upper s.
Proof.
  unfold to_upper. induction s as [|c s IH]; [done|]. rewrite bind_cons, bind_app, IH. by rewrite upper_unit_again.
Qed.

(** What is signed of a request is what arrives: the upper-case method, and a query
    that has a text. *)
Lemma built_body req parsedUrl definition bodyHash routePath b :
  buildHttpRouteInvocationBody req parsedUrl definition bodyHash routePath = Ok b ->
  to_upper (ib_method b) = ib_method b /\ js_nullish (ib_search b) (Str []) = ib_search b.
Proof.
  unfold buildHttpRouteInvocationBody. intros (m & _ & (p & _ & (h & _ & [= <-])%result_bind_Ok)%result_bind_Ok)%result_bind_Ok.
  cbn [ib_method ib_search]. split; [apply to_upper_again|].
  unfold js_or. destruct (js_truthy _) eqn:E; [|done]. by destruct (optional "search" parsedUrl).
Qed.

Lemma body_agrees b q :
  to_upper (ib_method b) = ib_method b -> js_nullish (ib_search b) (Str []) = ib_search b ->
  to_string (ib_search b) = Ok q -> truthy (ib_path b) = true ->
  check_invocation_body (invocation_body_js b) (ib_method b) (ib_path b) q (ib_bodyHash b) = Ok tt.
Proof.
  intros Hm Hn Hq Hp. unfold check_invocation_body.
  change (prop "method" (invocation_body_js b)) with (Str (ib_method b)).
  change (prop "path" (invocation_body_js b)) with (Str (ib_path b)).
  change (prop "search" (invocation_body_js b)) with (ib_search b).
  change (prop "bodyHash" (invocation_body_js b)) with (Str (ib_bodyHash b)).
  rewrite !text_or_str. cbn [mbind result_bind]. rewrite Hm, jeqb_refl. cbn [negb].
  rewrite Hp, jeqb_refl. cbn [negb]. rewrite Hn, Hq. cbn [of_js mbind result_bind]. by rewrite !jeqb_refl.
Qed.

(** What the router mints for a route. *)
Lemma route_request_shape req principal b input q :
  route_request req principal b = Ok input -> js_nullish (ib_search b) (Str []) = ib_search b ->
  to_string (ib_search b) = Ok q ->
  exists rch, mi_method input = Str (ib_method b) /\ mi_path input = Str (ib_path b) /\
    mi_tool input = Str HTTP_ROUTE_TOOL /\ mi_rch input = Str rch /\
    http_claims (ib_method b) (ib_path b) q (ib_bodyHash b) HTTP_ROUTE_TOOL =
      Ok (ExpectedClaims (Str (ib_method b)) (Str (ib_path b)) (Str HTTP_ROUTE_TOOL) (Str rch)).
Proof.
  unfold route_request. intros (sub & _ & (kind & _ & (rch & Hr & [= <-])%result_bind_Ok)%result_bind_Ok)%result_bind_Ok Hn Hq.
  exists rch. split_and!; [done..|]. unfold http_claims.
  assert (computeRchHttp (Str (ib_method b)) (Str (ib_path b)) (Str q) (Str (ib_bodyHash b)) =
    computeRchHttp (Str (ib_method b)) (Str (ib_path b)) (ib_search b) (Str (ib_bodyHash b))) as ->
    by (unfold computeRchHttp, nullish_text; by rewrite Hn, Hq).
  apply in_request_Ok, of_hash_Ok in Hr. by rewrite Hr.
Qed.

Lemma router_payload_provided i now jti target payload :
  router_payload i now jti = Ok (target, payload) -> js_truthy (mi_method i) = true /\ js_truthy (mi_path i) = true.
Proof.
  unfold router_payload. intros (t & _ & E)%result_bind_Ok. destruct (negb _); [done|].
  apply result_bind_Ok in E as (u & Hm & E). apply result_bind_Ok in E as (u' & Hp & E). unfold provided in *.
  by destruct (js_truthy (mi_method i)), (js_truthy (mi_path i)).
Qed.

(** The header of a routed request. *)
Lemma built_auth_info `{SecretHost} req parsedUrl definition bodyHash routePath delegations now jti authInfo b principal
    input payload secret :
  buildHttpRouteAuthInfo req parsedUrl definition bodyHash routePath delegations now jti = Ok (Some authInfo) ->
  js_truthy (prop "issueInvocation" definition) = true ->
  buildHttpRouteInvocationBody req parsedUrl definition bodyHash routePath = Ok b ->
  resolveHttpRoutePrincipal definition = Ok (Some principal) -> route_request req principal b = Ok input ->
  router_payload input now jti = Ok (principal, payload) -> agent_secret principal = Some secret ->
  prop "invocationToken" (Obj authInfo) = Str (jwt_sign payload secret) /\
  prop "invocationBody" (Obj authInfo) = invocation_body_js b.
Proof.
  intros E Hissue Hb Hprin Hin Hpay Hsecret. unfold buildHttpRouteAuthInfo in E.
  destruct (negb (js_truthy _) || negb _); [done|].
  rewrite Hissue, Hb, Hprin in E. cbn [in_request mbind result_bind] in E. rewrite Hin in E. cbn [mbind result_bind] in E.
  unfold mintWithPayload, resolveAgentSecret in E. rewrite Hpay in E. cbn [mbind result_bind] in E.
  rewrite Hsecret in E. cbn [mbind result_bind] in E. by injection E as <-.
Qed.

Lemma parsed_header l : jwt_json (json_stringify (Obj l)) = Some (Obj l) ->
  parseHttpRouteAuthInfo (Obj [("x-ploinky-auth-info", Str (json_stringify (Obj l)))]) = Ok (Obj l).
Proof.
  intros Hj. unfold parseHttpRouteAuthInfo, readHeaderValue. cbv zeta.
  set (text := json_stringify (Obj l)) in *.
  change (optional "x-ploinky-auth-info" (Obj [("x-ploinky-auth-info", Str text)])) with (Str text).
  change (unwrap_header (Str text)) with (trim text). unfold text. rewrite trim_json. fold text.
  assert (truthy text = true) as Ht by done. unfold sor. rewrite Ht, Ht. cbn [negb]. by rewrite Hj.
Qed.

(** C29. The agent accepts what the router sends.  When the router builds the identity
    header of a routed request, with the token it mints for the agent of the
    route, the agent that holds the route's secret and receives the request
    with this header and a body of the announced hash accepts it, and takes
    the minted payload from it.  That the token verifies to what was signed
    is what the JWT library promises for the agent's replay cache [c], and that
    the header parses to what was written what JSON does. *)
Theorem routed_request_accepted `{SecretHost} req parsedUrl definition bodyHash routePath delegations now jti authInfo b
    principal input payload secret env body q c c' :
  buildHttpRouteAuthInfo req parsedUrl definition bodyHash routePath delegations now jti = Ok (Some authInfo) ->
  js_truthy (prop "issueInvocation" definition) = true ->
  buildHttpRouteInvocationBody req parsedUrl definition bodyHash routePath = Ok b ->
  resolveHttpRoutePrincipal definition = Ok (Some principal) -> route_request req principal b = Ok input ->
  router_payload input now jti = Ok (principal, payload) -> agent_secret principal = Some secret ->
  readAgentSecret env = Ok (Some secret) -> expectedAudienceForSelf env = Ok principal ->
  jwt_verify (Str (jwt_sign payload secret)) (JwsOptions secret principal None 60) c = (Ok payload, c') ->
  trim (jwt_sign payload secret) = jwt_sign payload secret -> jwt_sign payload secret <> [] ->
  jwt_json (json_stringify (Obj authInfo)) = Some (Obj authInfo) ->
  to_string (ib_search b) = Ok q -> sha256RawBodyHash body = ib_bodyHash b ->
  exists headers, buildHttpRouteAuthInfoHeader req parsedUrl definition bodyHash routePath delegations now jti = Ok headers /\
    verifyHttpRouteAuthInfoFromHeaders headers env (Str (ib_method b)) (Str (ib_path b)) (Str q) body Undefined c =
      (Ok (AcceptedRequest payload (jwt_sign payload secret) (Obj authInfo) (ib_bodyHash b)), c').
Proof.
  intros Hbuild Hissue Hb Hprin Hin Hpay Hsecret Henv Haud Hjwt Htrim Hne Hjson Hq Hbody.
  destruct (built_auth_info _ _ _ _ _ _ _ _ _ _ _ _ _ _ Hbuild Hissue Hb Hprin Hin Hpay Hsecret) as [Htok Hib].
  destruct (built_body _ _ _ _ _ _ Hb) as [Hup Hnull].
  destruct (route_request_shape _ _ _ _ _ Hin Hnull Hq) as (rch & Hm & Hp & Ht & Hr & Hclaims).
  destruct (router_payload_claims input now jti principal payload (ib_method b) (ib_path b) rch HTTP_ROUTE_TOOL)
    as (Hobj & Hprincipal & Hcheck); [done|by rewrite Hm|by rewrite Hp|by rewrite Hr|done|done|].
  destruct (router_payload_provided _ _ _ _ _ Hpay) as [Htm Htp]. rewrite Hm in Htm. rewrite Hp in Htp. cbn [js_truthy] in Htm, Htp.
  eexists. split; [unfold buildHttpRouteAuthInfoHeader; by rewrite Hbuild|].
  unfold verifyHttpRouteAuthInfoFromHeaders. rewrite bind_lift.
  rewrite (parsed_header _ Hjson). cbv zeta. unfold invocation_token at 1. rewrite Htok, Htrim.
  rewrite (proj2 (truthy_true _) Hne). cbn [negb]. rewrite Hib. cbn [is_plain invocation_body_js negb].
  rewrite bind_lift, text_or_str, Hup, Htm. cbn [negb]. rewrite bind_lift, text_or_str, Htp. cbn [negb].
  rewrite bind_lift. cbn [js_nullish to_string of_js]. rewrite bind_lift. cbn [body_hash]. rewrite Hbody.
  change (Obj [("method", Str (ib_method b)); ("externalPath", ib_externalPath b); ("path", Str (ib_path b));
    ("search", ib_search b); ("routeKey", ib_routeKey b); ("bodyHash", Str (ib_bodyHash b))]) with (invocation_body_js b).
  rewrite bind_lift, (body_agrees b q) by done. rewrite bind_lift, Hclaims. unfold mbind at 1, stateM_bind at 1.
  unfold invocation_token. rewrite Htok, Htrim.
  rewrite (bearer_accepted env _ c _ secret principal payload c'); [done..|]. by apply verify_router_Ok; rewrite Hobj.
Qed.

(** ** The caller an agent sees *)

(** What the router mints for a routed request of a user. *)
Definition route_user (req : js) : js := default Undefined (map_get "user"%js (buildPlainAuthInfo req)).

Definition route_payload (target rch jti method path : jstr) (now : Z) (ttl : real) (sub : jstr) (actor : js) : js :=
  Obj [("typ", Str "router-request"); ("iss", Str "ploinky-router"); ("aud", Str target); ("sub", Str sub);
    ("actor", actor); ("method", Str method); ("path", Str path); ("rch", Str rch); ("jti", Str jti);
    ("iat", Num (Fin (now / 1000))); ("exp", js_of_real (real_add (Int (Fin (now / 1000))) ttl));
    ("tool", Str HTTP_ROUTE_TOOL)].

Definition route_actor (kind sub : jstr) (roles : list jstr) (capabilities : option (list jstr)) : js :=
  Obj ([("kind", Str kind); ("id", Str sub); ("roles", strings roles)]
    ++ optional_field "capabilities" (strings <$> capabilities)).

Lemma actor_kind_cases roles kind :
  resolveHttpRouteActorKind roles = Ok kind -> kind = "guest"%js \/ kind = "user"%js.
Proof.
  unfold resolveHttpRouteActorKind. destruct roles; try (intros [= <-]; by right).
  intros (ts & _ & [= <-])%result_bind_Ok. destruct (one_of _ _); auto.
Qed.

Lemma normalize_route_actor kind sub roles capabilities actor :
  kind = "guest"%js \/ kind = "user"%js ->
  normalizeActor (Obj [("kind", Str kind); ("id", Str sub); ("roles", roles); ("capabilities", capabilities)]) = Ok actor ->
  exists rs, string_list roles = Ok rs /\ actor = route_actor kind sub rs (normalizeActorCapabilities kind rs capabilities).
Proof.
  intros Hk E. unfold normalizeActor in E. cbv zeta in E.
  set (o := Obj [("kind", Str kind); ("id", Str sub); ("roles", roles); ("capabilities", capabilities)]) in *.
  change (is_truthy_object o) with true in E. cbn [negb] in E. change (prop "kind" o) with (Str kind) in E.
  match type of E with context [("kind"%js, Str ?k)] =>
    match k with if _ then _ else _ => replace k with kind in E by (by destruct Hk as [-> | ->]) end
  end.
  change (prop "roles" o) with roles in E. change (prop "id" o) with (Str sub) in E.
  apply result_bind_Ok in E as (rs & Hrs & E). rewrite text_or_str in E. cbn [mbind result_bind] in E.
  change (prop "capabilities" o) with capabilities in E. change (prop "displayName" o) with Undefined in E.
  injection E as <-. exists rs. split; [done|]. by rewrite app_nil_r.
Qed.

Lemma route_payload_shape req principal b input now jti target payload id :
  route_request req principal b = Ok input -> router_payload input now jti = Ok (target, payload) ->
  prop "id" (route_user req) = Str id -> id <> [] ->
  exists kind roles capabilities rch ttl,
    resolveHttpRouteActorKind (prop "roles" (route_user req)) = Ok kind /\
    string_list (prop "roles" (route_user req)) = Ok roles /\
    capabilities = normalizeActorCapabilities kind roles (prop "capabilities" (prop "user" req)) /\
    payload = route_payload target rch jti (ib_method b) (ib_path b) now ttl ("user:" ++ id)
      (route_actor kind ("user:" ++ id) roles capabilities).
Proof.
  intros Hin Hpay Hid Hne. unfold route_request in Hin. cbv zeta in Hin. fold (route_user req) in Hin.
  rewrite Hid in Hin. cbn [js_truthy] in Hin. rewrite (proj2 (truthy_true id) Hne) in Hin.
  change (text (Str id)) with (Ok (E := request_error) id) in Hin. cbn [in_request mbind result_bind] in Hin.
  apply result_bind_Ok in Hin as (kind & Hk%in_request_Ok & Hin). apply result_bind_Ok in Hin as (rch & _ & [= <-]).
  destruct (router_payload_shape _ _ _ _ _ Hpay) as (ttl & sub & actor & m & p & r & ts & caller & usr & scope & dg & dgs &
    _ & _ & Hs & Ha & Hm & Hp & Hr & Hts & Hcaller & Husr & Hscope & Hdg & Hdgs & ->).
  cbn [mi_sub mi_actor mi_method mi_path mi_rch mi_tool mi_caller mi_usr mi_scope mi_delegation mi_delegations] in *.
  rewrite text_or_str in Hs. change (text (Str (ib_method b))) with (Ok (E := request_error) (ib_method b)) in Hm.
  change (text (Str (ib_path b))) with (Ok (E := request_error) (ib_path b)) in Hp.
  change (text (Str rch)) with (Ok (E := request_error) rch) in Hr.
  destruct (normalize_route_actor _ _ _ _ _ (actor_kind_cases _ _ Hk) Ha) as (roles & Hroles & ->).
  exists kind, roles, (normalizeActorCapabilities kind roles (prop "capabilities" (prop "user" req))), rch, ttl.
  split_and!; [done|done|done|].
  injection Hs as <-. injection Hm as <-. injection Hp as <-. injection Hr as <-. injection Hts as <-.
  injection Hcaller as <-. injection Husr as <-. injection Hscope as <-. injection Hdg as <-. by injection Hdgs as <-.
Qed.

Lemma strings_roles l : normalizeRoles (strings l) = Ok (bfilter truthy (trim <$> l)).
Proof.
  unfold normalizeRoles, strings.
  assert (mapM_result (fun role => s ← text_or role; Ok (trim s)) (Str <$> l) = Ok (trim <$> l)) as ->; [|done].
  induction l as [|s l IH]; [done|]. rewrite !fmap_cons. cbn [mapM_result]. rewrite text_or_str. cbn [mbind result_bind].
  by rewrite IH.
Qed.

Lemma strings_capabilities l : normalizeCapabilities (strings l) = l.
Proof. unfold normalizeCapabilities, strings. induction l as [|s l IH]; [done|]. csimpl. by f_equal. Qed.

Section Identity.
Context (id : jstr) (Hid : trim id = id) (Hne : id <> []).

Lemma user_id_trimmed : trim ("user:" ++ id) = "user:" ++ id.
Proof. by apply (trim_after 117 "ser:"). Qed.

Lemma user_id_prefix : starts_with_any_case ("user:" ++ id) "user:" = true.
Proof. done. Qed.

Lemma user_id_no_agent : starts_with_any_case ("user:" ++ id) "agent:" = false.
Proof. unfold starts_with_any_case. by apply jeqb_neq. Qed.

Lemma user_principal : exists username,
  normalizeUserPrincipal (Str ("user:" ++ id)) = Ok (Some (Identity ("user:" ++ id) id username)).
Proof.
  unfold normalizeUserPrincipal. rewrite trimmed_text_str, user_id_trimmed. cbn [of_js mbind result_bind].
  change (truthy ("user:" ++ id)) with true. cbn [negb]. rewrite user_id_prefix. eexists. done.
Qed.

Lemma derived_user grant roles capabilities : exists username,
  deriveUserIdentity grant (route_actor "user" ("user:" ++ id) roles capabilities) =
    Ok (Some (Identity ("user:" ++ id) id username)).
Proof.
  destruct user_principal as (username & E). exists username. unfold deriveUserIdentity.
  change (optional "kind" (route_actor "user" ("user:" ++ id) roles capabilities)) with (Str "user").
  change (optional "id" (route_actor "user" ("user:" ++ id) roles capabilities)) with (Str ("user:" ++ id)).
  rewrite trimmed_text_str, trimmed_text_str, user_id_trimmed. cbn [of_js mbind result_bind].
  change (jeqb (to_lower (trim "user")) "user" && truthy ("user:" ++ id)) with true. by rewrite E.
Qed.

Lemma derived_guest grant roles capabilities :
  deriveUserIdentity grant (route_actor "guest" ("user:" ++ id) roles capabilities) = Ok None.
Proof.
  unfold deriveUserIdentity.
  change (optional "kind" (route_actor "guest" ("user:" ++ id) roles capabilities)) with (Str "guest").
  change (optional "id" (route_actor "guest" ("user:" ++ id) roles capabilities)) with (Str ("user:" ++ id)).
  rewrite trimmed_text_str, trimmed_text_str, user_id_trimmed. by cbn [of_js mbind result_bind].
Qed.

Lemma route_actor_party kind roles capabilities :
  party (route_actor kind ("user:" ++ id) roles capabilities)
    (normalizeCapabilities (prop "capabilities" (route_actor kind ("user:" ++ id) roles capabilities))) =
  Ok (AuthParty kind ("user:" ++ id) (bfilter truthy (trim <$> roles)) (default [] capabilities)).
Proof.
  set (a := route_actor kind ("user:" ++ id) roles capabilities). unfold party.
  change (prop "kind" a) with (Str kind). change (prop "id" a) with (Str ("user:" ++ id)).
  change (prop "roles" a) with (strings roles). rewrite !text_or_str, strings_roles. cbn [mbind result_bind].
  do 2 f_equal. destruct capabilities as [l|]; [|done]. apply strings_capabilities.
Qed.

(** The user an agent sees: nobody for a guest. *)
Lemma route_resolved grant kind roles capabilities :
  kind = "guest"%js \/ kind = "user"%js ->
  js_truthy (js_or (prop "usr" grant) (prop "user" grant)) = false ->
  exists username,
    resolved_user grant (route_actor kind ("user:" ++ id) roles capabilities) =
      Ok (if jeqb kind "guest" then (None, None)
          else (Some (AuthUser id username [] (bfilter truthy (trim <$> roles)) []), Some ("user:" ++ id))).
Proof.
  intros Hk Hc. set (a := route_actor kind ("user:" ++ id) roles capabilities).
  unfold resolved_user. cbv zeta. unfold is_truthy_object at 1. rewrite Hc. cbn [andb].
  destruct Hk as [-> | ->].
  - exists []. unfold a. rewrite derived_guest. done.
  - destruct (derived_user grant roles capabilities) as (username & E). exists username. unfold a. rewrite E.
    cbn [mbind result_bind].
    change (optional "roles" (route_actor "user" ("user:" ++ id) roles capabilities)) with (strings roles).
    rewrite strings_roles. cbn [mbind result_bind]. by destruct capabilities.
Qed.

Lemma route_invocation target rch jti method path now ttl kind roles capabilities :
  let a := route_actor kind ("user:" ++ id) roles capabilities in
  invocation_of (route_payload target rch jti method path now ttl ("user:" ++ id) a) a ("user:" ++ id) =
    Ok (AuthInvocation "ploinky-router" ("user:" ++ id)
          (Some (AuthParty kind ("user:" ++ id) (bfilter truthy (trim <$> roles)) (default [] capabilities)))
          [] HTTP_ROUTE_TOOL [] (Some (AuthParty "agent" ("user:" ++ id) [] [])) None).
Proof.
  intros a. set (p := route_payload _ _ _ _ _ _ _ _ _). unfold invocation_of.
  change (prop "iss" p) with (Str "ploinky-router"). change (prop "tool" p) with (Str HTTP_ROUTE_TOOL).
  change (js_or (prop "sub" p) (optional "id" (prop "actor" p))) with (Str ("user:" ++ id)).
  rewrite !text_or_str. cbn [mbind result_bind]. change (is_truthy_object a) with true. cbn iota.
  unfold a. rewrite route_actor_party. done.
Qed.
End Identity.

(** C38. The agent sees the caller the router authenticated.  From the token of a
    request that the router routes for a user, the agent derives this user
    with the roles of the session and the capabilities that may be signed; for
    a guest it derives no user at all, no principal and no capability.  No agent is
    named, and the caller of the invocation carries the user's name. *)
Theorem routed_identity req principal b input now jti target payload id tok :
  route_request req principal b = Ok input -> router_payload input now jti = Ok (target, payload) ->
  prop "id" (route_user req) = Str id -> trim id = id -> id <> [] ->
  exists kind roles username,
    resolveHttpRouteActorKind (prop "roles" (route_user req)) = Ok kind /\
    string_list (prop "roles" (route_user req)) = Ok roles /\
    let seen := bfilter truthy (trim <$> roles) in
    let capabilities := default [] (normalizeActorCapabilities kind roles (prop "capabilities" (prop "user" req))) in
    authInfoFromInvocation payload (Str tok) = Ok (Some (AuthInfo None
      (if jeqb kind "guest" then None else Some (AuthUser id username [] seen []))
      (if jeqb kind "guest" then None else Some ("user:" ++ id))
      (AuthInvocation "ploinky-router" ("user:" ++ id) (Some (AuthParty kind ("user:" ++ id) seen capabilities))
        [] HTTP_ROUTE_TOOL [] (Some (AuthParty "agent" ("user:" ++ id) [] [])) None)
      None tok)) /\
    (kind = "guest"%js -> capabilities = []).
Proof.
  intros Hin Hpay Huser Hid Hne.
  destruct (route_payload_shape _ _ _ _ _ _ _ _ _ Hin Hpay Huser Hne) as (kind & roles & cs & rch & ttl & Hk & Hr & Hcs & ->).
  set (a := route_actor kind ("user:" ++ id) roles cs).
  set (p := route_payload target rch jti (ib_method b) (ib_path b) now ttl ("user:" ++ id) a).
  destruct (route_resolved id Hid Hne p kind roles cs (actor_kind_cases _ _ Hk)) as (username & Hresolved); [done|].
  exists kind, roles, username. split; [done|]. split; [done|]. cbv zeta. split.
  - unfold authInfoFromInvocation. change (is_truthy_object p) with true. cbn [negb].
    unfold extractCallerPrincipal. change (optional "caller" p) with Undefined.
    change (is_truthy_object Undefined) with false. cbn iota.
    change (js_or Undefined (optional "sub" p)) with (Str ("user:" ++ id)).
    rewrite trimmed_text_str, (user_id_trimmed id) by done. cbn [of_js mbind result_bind].
    rewrite user_id_no_agent. change (prop "actor" p) with a. change (is_truthy_object a) with true. cbn iota.
    fold a in Hresolved. rewrite Hresolved. cbn [mbind result_bind]. rewrite <- Hcs.
    pose proof (route_invocation id target rch jti (ib_method b) (ib_path b) now ttl kind roles cs) as Hinv.
    cbv zeta in Hinv. fold a in Hinv. fold p in Hinv. destruct (jeqb kind "guest"); rewrite Hinv; cbn [mbind result_bind];
      change (prop "delegations" p) with Undefined; cbn [normalizeDelegationTokens mbind result_bind]; by rewrite text_or_str.
  - intros ->. unfold normalizeActorCapabilities. by destruct (prop "capabilities" (prop "user" req)).
Qed.

(** ** Assertions *)

Lemma is_str_refl s : is_str (Str s) s = true.
Proof. by apply is_str_eq. Qed.

Section Assertions.
Context `{SecretHost}.

(** A claim the router expects, [undefined] for none. *)
Definition matches (expected : js) (s : jstr) : Prop := expected = Undefined \/ text expected = Ok s.

Lemma claim_matches claim expected payload s :
  text_or (prop claim payload) = Ok s -> check_claim claim expected payload = Ok tt <-> matches expected s.
Proof.
  intros Hs. rewrite check_claim_Ok. unfold matches. rewrite Hs. split.
  - intros [-> | (t & [= <-] & Ht)]; auto.
  - intros [-> | Ht]; eauto.
Qed.

Lemma binding_Ok part expected payload :
  binding part expected payload = Ok tt <-> check_claim part expected payload = Ok tt.
Proof.
  unfold binding. destruct (check_claim part expected payload) as [[]|[]]; simpl; by split.
Qed.

(** The texts an assertion names: those of a payload that the agent signs. *)
Lemma assertion_payload_shape secret self method path targetAgent tool rch now jti payload key :
  assertion_payload secret self method path targetAgent tool rch now jti = Ok (payload, key) ->
  exists target m p ts, secret = Some key /\ self <> [] /\ trimmed_nullish targetAgent = Ok target /\ target <> [] /\
    text method = Ok m /\ text path = Ok p /\ tool_fields tool = Ok ts /\
    payload = Obj ([("typ", Str "agent-assertion"); ("iss", Str self); ("sub", Str self); ("aud", Str "ploinky-router");
                ("targetAgent", Str target); ("method", Str m); ("path", Str p); ("rch", Str rch);
                ("iat", Num (Fin (now / 1000))); ("exp", Num (Fin (now / 1000 + ASSERTION_TTL_SECONDS)));
                ("jti", Str jti)] ++ ts).
Proof.
  unfold assertion_payload. destruct secret as [s|]; [|done]. destruct (truthy self) eqn:Hself; [|done]. cbn [negb].
  intros (target & Ht%of_js_Ok & E)%result_bind_Ok. destruct (truthy target) eqn:Htr; [|done]. cbn [negb] in E.
  apply result_bind_Ok in E as (m & Hm & E). apply result_bind_Ok in E as (p & Hp & E).
  apply result_bind_Ok in E as (ts & Hts & [= <- <-]). exists target, m, p, ts.
  apply truthy_true in Hself. apply truthy_true in Htr. by split_and!.
Qed.

(** The text of an optional tool: none for [undefined] and [null]. *)
Definition tool_text (tool : js) (t : jstr) : Prop :=
  t = [] /\ (tool = Undefined \/ tool = Null) \/ text tool = Ok t.

Lemma tool_fields_text tool ts :
  tool_fields tool = Ok ts -> exists t, tool_text tool t /\ ts = (if truthy t then [("tool"%js, Str t)] else []).
Proof.
  unfold tool_fields, tool_text. intros E.
  destruct tool; [exists []; injection E as <-; auto|exists []; injection E as <-; auto|..];
    apply result_bind_Ok in E as (t & Ht & [= <-]); exists t; auto.
Qed.

(** What the router compares of a payload with the fixed claims. *)
Lemma validatePayload_Ok e targetAgentId payload self target m p t rch :
  prop "typ" payload = Str "agent-assertion" -> prop "iss" payload = Str self -> prop "sub" payload = Str self ->
  self <> [] -> prop "targetAgent" payload = Str target -> target <> [] -> text_or (prop "method" payload) = Ok m ->
  text_or (prop "path" payload) = Ok p -> text_or (prop "tool" payload) = Ok t -> text_or (prop "rch" payload) = Ok rch ->
  validatePayload e targetAgentId payload = Ok tt <->
  matches (ec_method e) m /\ matches (ec_path e) p /\ matches (ec_tool e) t /\ matches (ec_rch e) rch /\
    js_truthy targetAgentId = true /\ text targetAgentId = Ok target.
Proof.
  intros Htyp Hiss Hsub Hself Htarget Htne Hm Hp Ht Hr. unfold validatePayload. rewrite !result_bind_unit, !binding_Ok.
  rewrite (claim_matches _ _ _ _ Hm), (claim_matches _ _ _ _ Hp), (claim_matches _ _ _ _ Ht), (claim_matches _ _ _ _ Hr).
  rewrite Htarget, Htyp, Hiss, Hsub, text_or_str. cbn [js_truthy]. rewrite (proj2 (truthy_true target) Htne). cbn [negb].
  change (text (Str target)) with (Ok (E := request_error) target). cbn [in_request mbind result_bind].
  destruct (text targetAgentId) as [wanted|] eqn:Hw; cbn [in_request mbind result_bind]; [|naive_solver].
  destruct (jeqb target wanted) eqn:Eq.
  - apply jeqb_eq in Eq as <-. destruct (js_truthy targetAgentId); cbn [negb orb]; [|naive_solver].
    rewrite is_str_refl. cbn [negb]. rewrite (proj2 (truthy_true self) Hself), jeqb_refl. cbn [negb]. naive_solver.
  - assert (target <> wanted) by (by apply jeqb_neq). rewrite orb_true_r. naive_solver.
Qed.

Lemma verify_assertion_run token e targetAgentId iss key c payload c' :
  parseIssuer token = Ok iss -> agent_secret iss = Some key ->
  jwt_verify token (JwsOptions key "ploinky-router" None 60) c = (Ok payload, c') ->
  js_or payload (Obj []) = payload ->
  verifyAgentAssertion token e targetAgentId c =
    match validatePayload e targetAgentId payload with
    | Ok _ => (Ok (iss, payload), c')
    | Err err => (Err err, c')
    end.
Proof.
  intros Hi Hk Hv Hp. unfold verifyAgentAssertion. rewrite bind_lift, Hi, bind_lift. unfold resolveAgentSecret. rewrite Hk.
  unfold mbind at 1, stateM_bind at 1, verify_with. rewrite Hv. cbv zeta. rewrite Hp, bind_lift.
  by destruct (validatePayload _ _ _).
Qed.

(** A token in compact form: header, claims and signature in base64url, which has no
    dots, around two dots; the claims are [text]. *)
Definition compact (token text : jstr) : Prop :=
  exists header claims signature, token = join [46%N] [header; claims; signature] /\
    Forall (fun part => 46%N ∉ part) [header; claims; signature] /\ utf8_text (base64url_bytes claims) = text.

(** The issuer is read from the claims, before the signature is verified. *)
Lemma parseIssuer_compact token payload self :
  compact token (json_stringify payload) -> jwt_json (json_stringify payload) = Some payload ->
  (exists l, payload = Obj l) -> prop "iss" payload = Str self -> AGENT_PRINCIPAL_RE self = true ->
  parseIssuer (Str token) = Ok self.
Proof.
  intros (header & claims & signature & -> & Hparts & Htext) Hjson [l ->] Hiss Hself. unfold parseIssuer.
  assert (js_truthy (Str (join [46%N] [header; claims; signature])) = true) as ->
    by (apply truthy_true; by destruct header).
  change (text (Str ?s)) with (Ok (E := request_error) s). cbn [negb in_request mbind result_bind].
  rewrite split_join, Htext, Hjson by done. change (optional "iss" (Obj l)) with (prop "iss" (Obj l)). rewrite Hiss, text_or_str.
  cbn [in_request mbind result_bind]. by rewrite Hself.
Qed.

(** C33. An assertion is good for one call.  The router accepts the assertion that an
    agent signs, in the compact form of its library and with the identity of an agent,
    exactly for the method, path, tool and request hash it was signed for and for the
    target it names, as far as the router expects them: what its expectations leave
    undefined is not compared, the target always is.  It takes the agent for the one
    that signed. *)
Theorem assertion_exact secret self method path targetAgent tool rch now jti payload key c c' :
  assertion_payload secret self method path targetAgent tool rch now jti = Ok (payload, key) ->
  AGENT_PRINCIPAL_RE self = true -> agent_secret self = Some key ->
  compact (jwt_sign payload key) (json_stringify payload) -> jwt_json (json_stringify payload) = Some payload ->
  jwt_verify (Str (jwt_sign payload key)) (JwsOptions key "ploinky-router" None 60) c = (Ok payload, c') ->
  exists m p t target, text method = Ok m /\ text path = Ok p /\ tool_text tool t /\
    trimmed_nullish targetAgent = Ok target /\
    forall e targetAgentId,
      (matches (ec_method e) m /\ matches (ec_path e) p /\ matches (ec_tool e) t /\ matches (ec_rch e) rch /\
         js_truthy targetAgentId = true /\ text targetAgentId = Ok target ->
       verifyAgentAssertion (Str (jwt_sign payload key)) e targetAgentId c = (Ok (self, payload), c')) /\
      (forall r c'', verifyAgentAssertion (Str (jwt_sign payload key)) e targetAgentId c = (Ok r, c'') ->
       matches (ec_method e) m /\ matches (ec_path e) p /\ matches (ec_tool e) t /\ matches (ec_rch e) rch /\
         js_truthy targetAgentId = true /\ text targetAgentId = Ok target).
Proof.
  intros Hsign Hagent Hkey Hcompact Hjson Hjwt.
  destruct (assertion_payload_shape _ _ _ _ _ _ _ _ _ _ _ Hsign)
    as (target & m & p & ts & -> & Hself & Htarget & Htne & Hm & Hp & Hts & Hpay).
  destruct (tool_fields_text _ _ Hts) as (t & Ht & Hts').
  exists m, p, t, target. split_and!; [done..|]. intros e targetAgentId.
  assert (validatePayload e targetAgentId payload = Ok tt <->
    matches (ec_method e) m /\ matches (ec_path e) p /\ matches (ec_tool e) t /\ matches (ec_rch e) rch /\
      js_truthy targetAgentId = true /\ text targetAgentId = Ok target) as Hvalid.
  { subst payload ts. apply (validatePayload_Ok _ _ _ self); try done; try apply text_or_str.
    by destruct t. }
  assert (parseIssuer (Str (jwt_sign payload key)) = Ok self) as Hiss.
  { apply (parseIssuer_compact _ payload); try done; subst payload; [by eexists|done]. }
  pose proof (verify_assertion_run _ e targetAgentId _ _ _ _ _ Hiss Hkey Hjwt) as Hrun.
  rewrite Hrun by (by subst payload). split.
  - intros Hall%Hvalid. by rewrite Hall.
  - intros r c'' E. apply Hvalid. by destruct (validatePayload e targetAgentId payload) as [[]|].
Qed.
End Assertions.

(** ** Grants *)

Lemma trim_start_suffix s : exists p, s = p ++ trim_start s.
Proof.
  induction s as [|c s [p IH]]; [by exists []|]. simpl. destruct (is_space c); [|by exists []].
  exists (c :: p). simpl. by f_equal.
Qed.

Lemma trim_again s : trim (trim s) = trim s.
Proof.
  unfold trim at 2 3. destruct (trim_start_head s) as [-> | (c & r & -> & Hc)]; [done|].
  unfold trim_end. destruct (trim_start_head (rev (c :: r))) as [-> | (d & q & E & Hd)]; [done|].
  destruct (trim_start_suffix (rev (c :: r))) as [p Hp]. rewrite E in *.
  assert (c :: r = rev q ++ [d] ++ rev p) as Hcr.
  { rewrite <- (rev_involutive (c :: r)), Hp, rev_app_distr. simpl. by rewrite <- app_assoc. }
  cbn [rev]. destruct (rev q ++ [d]) as [|c' r'] eqn:Eq; [by destruct (rev q)|].
  apply (trim_solid c' r' d (rev q)); [done| |done].
  rewrite app_assoc, Eq in Hcr. by injection Hcr as <- _.
Qed.

Lemma unique_from l acc : NoDup (acc ++ l) -> fold_left (fun s x => set_add x s) l acc = acc ++ l.
Proof.
  revert acc. induction l as [|x l IH]; intros acc Hn; [by rewrite app_nil_r|]. cbn [fold_left]. unfold set_add.
  destruct (one_of x acc) eqn:E.
  - apply one_of_elem in E. apply NoDup_app in Hn as (_ & Hn & _). destruct (Hn x E). apply list_elem_of_here.
  - rewrite IH, <- app_assoc; [done|]. by rewrite <- app_assoc.
Qed.

Lemma set_add_in x s y : y ∈ set_add x s <-> y ∈ s \/ y = x.
Proof.
  unfold set_add. destruct (one_of x s) eqn:E; [|set_solver]. apply one_of_elem in E. set_solver.
Qed.

Lemma unique_elements l acc : NoDup acc ->
  NoDup (fold_left (fun s x => set_add x s) l acc) /\
  forall x, x ∈ fold_left (fun s x => set_add x s) l acc <-> x ∈ acc \/ x ∈ l.
Proof.
  revert acc. induction l as [|y l IH]; intros acc Hn; cbn [fold_left]; [set_solver|].
  destruct (IH (set_add y acc)) as [H1 H2].
  { unfold set_add. destruct (one_of y acc) eqn:E; [done|]. apply NoDup_app. split_and!; [done| |apply NoDup_singleton].
    intros x Hx ->%list_elem_of_singleton. by apply one_of_elem in Hx; rewrite Hx in E. }
  split; [done|]. intros x. rewrite H2, set_add_in. set_solver.
Qed.

(** Lists of texts as they are written: trimmed, not empty, each once. *)
Definition tidy (l : list jstr) : Prop := NoDup l /\ forall s, s ∈ l -> trim s = s /\ s <> [].

Lemma tidy_again l : tidy l -> normalizeStringList (strings l) = Ok l.
Proof.
  intros [Hn Hl]. unfold normalizeStringList, strings.
  assert (mapM_result (fun raw => of_js (trimmed_text raw)) (Str <$> l) = Ok l) as ->.
  { clear Hn. induction l as [|s l IH]; [done|]. rewrite fmap_cons. cbn [mapM_result]. rewrite trimmed_text_str.
    destruct (Hl s) as [-> _]; [apply list_elem_of_here|]. cbn [of_js mbind result_bind].
    rewrite IH; [done|]. intros t Ht. apply Hl. by apply list_elem_of_further. }
  cbn [mbind result_bind]. f_equal. rewrite bfilter_all; [by apply unique_from|].
  intros s Hs. apply truthy_true. by apply Hl.
Qed.

Lemma normalizeStringList_tidy v l : normalizeStringList v = Ok l -> tidy l.
Proof.
  unfold normalizeStringList. destruct v; try (intros [= <-]; split; [constructor|set_solver]).
  intros (ts & Hts & [= <-])%result_bind_Ok. destruct (unique_elements (bfilter truthy ts) [] (NoDup_nil_2)) as [Hn Hin].
  split; [done|]. intros s [Hs|[Hs Ht%truthy_true]%elem_of_bfilter]%Hin; [by apply not_elem_of_nil in Hs|]. split; [|done].
  apply mapM_result_Forall2 in Hts. apply list_elem_of_lookup in Hs as [i Hi].
  destruct (Forall2_lookup_r _ _ _ _ _ Hts Hi) as (raw & _ & E%of_js_Ok). unfold trimmed_text in E. apply result_bind_Ok in E as (t & _ & [= <-]). apply trim_again.
Qed.

Lemma length_trim_start s : length (trim_start s) <= length s.
Proof. destruct (trim_start_suffix s) as [p Hp]. rewrite Hp at 2. rewrite length_app. lia. Qed.

Lemma length_trim s : length (trim s) <= length s.
Proof.
  unfold trim, trim_end. rewrite length_rev. pose proof (length_trim_start (rev (trim_start s))) as H1.
  rewrite length_rev in H1. pose proof (length_trim_start s). lia.
Qed.

Lemma display_name_again v :
  normalizeDisplayName "user" (Str (normalizeDisplayName "user" v)) = normalizeDisplayName "user" v.
Proof.
  destruct v; try done. cbn [normalizeDisplayName]. rewrite jeqb_refl. cbn iota. rewrite trim_again.
  rewrite (take_ge (trim _)); [apply trim_again|]. pose proof (length_trim (take MAX_DISPLAY_NAME_LENGTH (trim s))).
  rewrite length_take in *. lia.
Qed.

(** The claims of a user that a grant writes. *)
Definition user_claims (id username email : jstr) (roles : list jstr) (displayName : jstr) : js :=
  Obj ([("id", Str id); ("username", Str username); ("email", Str email); ("roles", strings roles)]
    ++ text_field "displayName" displayName).

Lemma normalizeUser_shape user id usr :
  normalizeUser user = Ok (Some (id, usr)) ->
  exists username email roles displayName,
    usr = user_claims id username email roles displayName /\ id <> [] /\ trim username = username /\ trim email = email /\
    normalizeStringList (optional "roles" user) = Ok roles /\
    normalizeDisplayName "user" (Str displayName) = displayName.
Proof.
  unfold normalizeUser. intros E. destruct (is_truthy_object user) eqn:Ho; [|by destruct user].
  unfold is_truthy_object in Ho. cbn [negb] in E.
  destruct user as [| |x|x|x|x|l|l]; cbn [is_object] in Ho; rewrite ?andb_false_r in Ho; try done;
    apply result_bind_Ok in E as (given & _ & E); destruct (truthy (without_user given)) eqn:Hid; try done;
    cbn [negb] in E; apply result_bind_Ok in E as (username & Hu%of_js_Ok & E);
    apply result_bind_Ok in E as (email & Hm%of_js_Ok & E); apply result_bind_Ok in E as (roles & Hroles & [= <- <-]);
    unfold trimmed_text in Hu, Hm; apply result_bind_Ok in Hu as (? & _ & [= <-]);
    apply result_bind_Ok in Hm as (? & _ & [= <-]); apply truthy_true in Hid;
    (eexists _, _, _, _; split_and!; [done|done|apply trim_again|apply trim_again|done|apply display_name_again]).
Qed.

Lemma user_claims_again id username email roles displayName :
  id <> [] -> trim id = id -> without_user id = id -> trim username = username -> trim email = email -> tidy roles ->
  normalizeDisplayName "user" (Str displayName) = displayName ->
  normalizeUser (user_claims id username email roles displayName) =
    Ok (Some (id, user_claims id username email roles displayName)).
Proof.
  intros Hne Ht Hw Hu Hm Hr Hd. unfold normalizeUser. set (u := user_claims id username email roles displayName).
  change (match u with Undefined => _ | _ => ?x end) with x.
  change (is_truthy_object u) with true. cbn [negb].
  assert (js_or (prop "id" u) (prop "sub" u) = Str id) as ->.
  { change (prop "id" u) with (Str id). unfold js_or. cbn [js_truthy]. by rewrite (proj2 (truthy_true id) Hne). }
  rewrite trimmed_text_str, Ht. cbn [of_js mbind result_bind]. rewrite Hw, (proj2 (truthy_true id) Hne). cbn [negb].
  assert (trimmed_text (js_or (prop "username" u) (prop "preferred_username" u)) = Ok username) as ->.
  { change (prop "username" u) with (Str username). unfold js_or. cbn [js_truthy].
    destruct (truthy username) eqn:E; [by rewrite trimmed_text_str, Hu|]. apply truthy_false in E as ->.
    unfold u, user_claims. by destruct displayName. }
  change (prop "email" u) with (Str email). rewrite trimmed_text_str, Hm. cbn [of_js mbind result_bind].
  change (prop "roles" u) with (strings roles). rewrite tidy_again by done. cbn [mbind result_bind].
  assert (normalizeDisplayName "user" (prop "displayName" u) = displayName) as ->; [|done].
  assert (prop "displayName" u = if truthy displayName then Str displayName else Undefined) as ->
    by (unfold u, user_claims; by destruct displayName).
  by destruct displayName as [|c d].
Qed.

(** The grant that is signed. *)
Definition grant_object (id jti source : jstr) (route usr : js) (iat ttl : Z) (targets tools scopes : list jstr) : js :=
  Obj [("typ", Str "user-delegation"); ("iss", Str "ploinky-router"); ("aud", Str "ploinky-router");
    ("sub", Str (buildStableSubject id)); ("jti", Str jti); ("iat", Num (Fin iat)); ("exp", Num (Fin (iat + ttl)));
    ("sourceAgentId", Str source); ("route", route); ("usr", usr); ("allowedTargets", strings targets);
    ("allowedTools", strings tools); ("scope", strings scopes)].

Lemma grant_payload_shape i env now jti payload :
  grant_payload i env now jti = Ok payload ->
  exists id usr roles maxTtl ttl source route targets tools scopes,
    normalizeUser (gi_user i) = Ok (Some (id, usr)) /\ normalizeStringList (optional "roles" (gi_user i)) = Ok roles /\
    one_of "guest" (to_lower <$> roles) = false /\ resolveMaxTtlSeconds env = Ok maxTtl /\
    grant_ttl (gi_ttlSeconds i) maxTtl = Ok ttl /\ trimmed_text (gi_sourceAgentId i) = Ok source /\
    normalizeStringList (Arr [gi_targetAgentId i]) = Ok targets /\ normalizeStringList (gi_tools i) = Ok tools /\
    normalizeStringList (gi_scopes i) = Ok scopes /\
    payload = grant_object id jti source route usr (now / 1000) ttl targets tools scopes.
Proof.
  unfold grant_payload. intros (g & _ & E)%result_bind_Ok. apply result_bind_Ok in E as (guest & Hg & E).
  destruct guest; [done|]. destruct g; [done|]. apply in_request_Ok in Hg. unfold isGuestUser in Hg.
  apply result_bind_Ok in Hg as (roles & Hroles & Hg). apply result_bind_Ok in Hg as (gid & _ & [= Hg]).
  apply orb_false_iff in Hg as [Hg _].
  apply result_bind_Ok in E as ([[id usr]|] & Hu%in_request_Ok & E); [|done].
  apply result_bind_Ok in E as (maxTtl & Hmax%in_request_Ok & E). apply result_bind_Ok in E as (ttl & Httl%in_request_Ok & E).
  apply result_bind_Ok in E as (source & Hs%in_request_Ok%of_js_Ok & E).
  apply result_bind_Ok in E as (route & _ & E). apply result_bind_Ok in E as (targets & Ht%in_request_Ok & E).
  apply result_bind_Ok in E as (tools & Hl%in_request_Ok & E). apply result_bind_Ok in E as (scopes & Hc%in_request_Ok & [= <-]).
  by exists id, usr, roles, maxTtl, ttl, source, route, targets, tools, scopes.
Qed.

Lemma guest_free l : one_of "guest" (to_lower <$> l) = false -> one_of "guest" l = false.
Proof.
  intros Hg. apply not_true_iff_false. intros Hin%one_of_elem. apply not_true_iff_false in Hg. apply Hg, one_of_elem.
  apply list_elem_of_fmap. by exists "guest"%js.
Qed.

(** What a grant covers: before its end, for its source, one of its targets and one
    of its tools; an expectation that is not given is met. *)
Definition covers (exp : Z) (source : jstr) (targets tools : list jstr) (t : Z) (ws wt wl : jstr) : Prop :=
  (t / 1000 < exp)%Z /\ (ws = [] \/ ws = source) /\ (wt = [] \/ wt ∈ targets) /\ (wl = [] \/ wl ∈ tools).

Definition chosen_target (e : grant_expected) (wt : jstr) (targets : list jstr) : jstr :=
  if js_truthy (ge_targetAgentId e) then wt else default [] (head targets).

Lemma chosen_target_text e wt targets :
  trimmed_text (ge_targetAgentId e) = Ok wt -> tidy targets ->
  trimmed_text (js_or (ge_targetAgentId e) (from_option Str Undefined (head targets))) = Ok (chosen_target e wt targets).
Proof.
  intros Hw [_ Ht]. unfold chosen_target, js_or. destruct (js_truthy (ge_targetAgentId e)); [done|].
  destruct targets as [|t targets]; [done|]. cbn [head from_option]. rewrite trimmed_text_str.
  by destruct (Ht t) as [-> _]; [apply list_elem_of_here|].
Qed.

Lemma unmet (w : jstr) (b : bool) (P : Prop) :
  (b = true <-> P) -> (truthy w && negb b = false <-> w = [] \/ P).
Proof. intros <-. destruct w, b; simpl; naive_solver. Qed.

Lemma grant_verified_exact id jti source route usr iat ttl targets tools scopes roles e t ws wt wl :
  id <> [] -> normalizeUser usr = Ok (Some (id, usr)) -> normalizeStringList (optional "roles" usr) = Ok roles ->
  one_of "guest" roles = false -> trim source = source -> tidy targets -> tidy tools -> tidy scopes ->
  trimmed_text (ge_sourceAgentId e) = Ok ws -> trimmed_text (ge_targetAgentId e) = Ok wt -> trimmed_text (ge_tool e) = Ok wl ->
  let payload := grant_object id jti source route usr iat ttl targets tools scopes in
  (covers (iat + ttl) source targets tools t ws wt wl ->
     grant_verified payload e t = Ok (usr, Delegation jti scopes source (chosen_target e wt targets) wl)) /\
  (forall r, grant_verified payload e t = Ok r -> covers (iat + ttl) source targets tools t ws wt wl).
Proof.
  intros Hid Hu Hroles Hguest Hsource Htargets Htools Hscopes Hws Hwt Hwl payload. unfold grant_verified, grant_expired, covers.
  change (optional "typ" payload) with (Str "user-delegation"). change (optional "iss" payload) with (Str "ploinky-router").
  change (optional "aud" payload) with (Str "ploinky-router"). change (optional "usr" payload) with usr.
  change (optional "kind" (optional "actor" payload)) with Undefined. change (optional "sourceAgentId" payload) with (Str source).
  change (optional "allowedTargets" payload) with (strings targets). change (optional "allowedTools" payload) with (strings tools).
  change (optional "scope" payload) with (strings scopes). change (optional "jti" payload) with (Str jti).
  change (optional "exp" payload) with (Num (Fin (iat + ttl))).
  assert (number_of (js_or (Num (Fin (iat + ttl))) (Num (Fin 0))) = Ok (Int (Fin (iat + ttl)))) as ->
    by (unfold js_or; cbn [js_truthy]; by destruct (iat + ttl)%Z).
  rewrite !text_or_str, !trimmed_text_str, Hu, Hroles, Hws, Hwt, Hwl, Hsource, !tidy_again by done.
  rewrite is_str_refl. cbn [in_request of_js mbind result_bind negb]. rewrite !jeqb_refl. cbn [negb].
  rewrite (chosen_target_text e wt targets) by done. cbn [in_request of_js mbind result_bind].
  change (real_le (Int (Fin (iat + ttl))) (Int (Fin (t / 1000)))) with (iat + ttl <=? t / 1000)%Z.
  destruct (Z.leb_spec (iat + ttl) (t / 1000)); [split; [lia|done]|].
  change (trimmed_text Undefined) with (Ok (E := js_error) (@nil N)). cbn [in_request of_js mbind result_bind].
  rewrite Hguest. change (one_of (to_lower []) ["agent"; "guest"]%js || false) with false. cbn iota.
  pose proof (unmet ws (jeqb source ws) (ws = source)) as Hs. pose proof (unmet wt (one_of wt targets) _ (one_of_elem _ _)) as Ht.
  pose proof (unmet wl (one_of wl tools) _ (one_of_elem _ _)) as Hl.
  assert (jeqb source ws = true <-> ws = source) as Hjs by (rewrite jeqb_eq; naive_solver). specialize (Hs Hjs).
  destruct (truthy ws && negb (jeqb source ws)); [split; [naive_solver|done]|].
  destruct (truthy wt && negb (one_of wt targets)); [split; [naive_solver|done]|].
  destruct (truthy wl && negb (one_of wl tools)); [split; [naive_solver|done]|].
  split; [done|]. intros _ _. split_and!; [lia|by apply Hs|by apply Ht|by apply Hl].
Qed.

Lemma ttl_of_env env maxTtl : resolveMaxTtlSeconds env = Ok maxTtl -> (30 <= maxTtl <= 86400)%Z.
Proof.
  unfold resolveMaxTtlSeconds. intros (s & _ & [= <-])%result_bind_Ok. destruct (parse_int s) as [z| | |]; try done.
  destruct (Z.leb_spec 30 z), (Z.leb_spec z 86400); cbn [andb]; unfold DEFAULT_MAX_TTL_SECONDS; lia.
Qed.

Lemma ttl_of_grant v maxTtl ttl : grant_ttl v maxTtl = Ok ttl -> (30 <= maxTtl)%Z -> (30 <= ttl <= maxTtl)%Z.
Proof. unfold grant_ttl. intros (s & _ & [= <-])%result_bind_Ok Hm. lia. Qed.

Lemma mintGrant_Ok secret i env now jti token payload :
  mintGrant secret i env now jti = Ok (token, payload) ->
  grant_payload i env now jti = Ok payload /\ token = jwt_sign payload secret /\ secret <> [].
Proof.
  unfold mintGrant. intros (p & Hp & E)%result_bind_Ok. by destruct secret; [done|]; injection E as <- <-.
Qed.

Lemma verifyGrant_run secret token e env t maxTtl payload :
  secret <> [] -> resolveMaxTtlSeconds env = Ok maxTtl ->
  (jwt_verify token (JwsOptions secret "ploinky-router" None maxTtl) None).1 = Ok payload ->
  verifyGrant secret token e env t = grant_verified payload e t.
Proof. intros Hs Hm Hv. unfold verifyGrant. rewrite Hm. destruct secret; [done|]. cbn [in_request mbind result_bind]. by rewrite Hv. Qed.

(** The user of a grant that was minted, as it is read again. *)
Lemma minted_user user id usr roles :
  normalizeUser user = Ok (Some (id, usr)) -> normalizeStringList (optional "roles" user) = Ok roles ->
  trim id = id -> without_user id = id ->
  id <> [] /\ normalizeUser usr = Ok (Some (id, usr)) /\ normalizeStringList (optional "roles" usr) = Ok roles.
Proof.
  intros Hu Hr Ht Hw. destruct (normalizeUser_shape _ _ _ Hu) as (username & email & rs & name & -> & Hne & Hn & Hm & Hrs & Hd).
  rewrite Hr in Hrs. injection Hrs as <-. pose proof (normalizeStringList_tidy _ _ Hr) as Htidy. split_and!; [done| |].
  - by apply user_claims_again.
  - by apply tidy_again.
Qed.

(** C25. A grant covers what it was minted for, no longer than allowed.  A grant that
    the router mints for a user, who is no guest, lives between 30 seconds and
    the configured maximum.  Verified as the JWT library verifies what was signed, and
    when the identifier of the user is unchanged by trimming and by dropping the
    prefix [user:] (see [user_prefix_dropped_twice] and [grant_of_nobody]), it
    stands for this user exactly while it has not ended, for its source agent,
    one of its targets and one of its tools; an expectation that is not given
    is met. *)
Theorem grant_exact secret i env now jti token payload id usr :
  mintGrant secret i env now jti = Ok (token, payload) ->
  normalizeUser (gi_user i) = Ok (Some (id, usr)) -> trim id = id -> without_user id = id ->
  exists maxTtl ttl source targets tools scopes,
    resolveMaxTtlSeconds env = Ok maxTtl /\ grant_ttl (gi_ttlSeconds i) maxTtl = Ok ttl /\ (30 <= ttl <= maxTtl)%Z /\ (maxTtl <= 86400)%Z /\
    trimmed_text (gi_sourceAgentId i) = Ok source /\ normalizeStringList (Arr [gi_targetAgentId i]) = Ok targets /\
    normalizeStringList (gi_tools i) = Ok tools /\ normalizeStringList (gi_scopes i) = Ok scopes /\
    forall e t ws wt wl,
      trimmed_text (ge_sourceAgentId e) = Ok ws -> trimmed_text (ge_targetAgentId e) = Ok wt ->
      trimmed_text (ge_tool e) = Ok wl ->
      (jwt_verify (Str token) (JwsOptions secret "ploinky-router" None maxTtl) None).1 = Ok payload ->
      (covers (now / 1000 + ttl) source targets tools t ws wt wl ->
         verifyGrant secret (Str token) e env t =
           Ok (usr, Delegation jti scopes source (chosen_target e wt targets) wl)) /\
      (forall r, verifyGrant secret (Str token) e env t = Ok r ->
         covers (now / 1000 + ttl) source targets tools t ws wt wl).
Proof.
  intros (Hp & -> & Hs)%mintGrant_Ok Hu Ht Hw.
  destruct (grant_payload_shape _ _ _ _ _ Hp) as (id' & usr' & roles & maxTtl & ttl & source & route & targets & tools &
    scopes & Hu' & Hroles & Hguest & Hmax & Httl & Hsource & Htargets & Htools & Hscopes & Hpay).
  rewrite Hu in Hu'. injection Hu' as <- <-. destruct (minted_user _ _ _ _ Hu Hroles Ht Hw) as (Hne & Hagain & Hragain).
  destruct (ttl_of_env _ _ Hmax) as [Hmin Htop].
  pose proof (ttl_of_grant _ _ _ Httl Hmin) as Hrange.
  exists maxTtl, ttl, source, targets, tools, scopes. do 8 (split; [done|]).
  intros e t ws wt wl Hws Hwt Hwl Hv. rewrite (verifyGrant_run _ _ _ _ _ _ _ Hs Hmax Hv). subst payload.
  assert (trim source = source) by (unfold trimmed_text in Hsource; apply result_bind_Ok in Hsource as (? & _ & [= <-]); apply trim_again).
  apply (grant_verified_exact _ _ _ _ _ _ _ _ _ _ roles); try done;
    [by apply guest_free|by eapply normalizeStringList_tidy..].
Qed.
End Accepted.

(** ** An instance *)

(** Everything is signed as [h.p.s], the digest is the digit [d]. *)
Definition digest_d : Sha256Url := fun _ => "d"%js.

Definition signing_library : JwtLibrary unit := {|
  jwt_sign _ _ := "h.p.s"%js;
  jwt_verify _ _ c := (Err (JwtFailure "unread" None), c);
  jwt_json _ := None
|}.

(** What was signed is [payload], what was written is [written]. *)
Definition reading_library (payload written : js) : JwtLibrary unit := {|
  jwt_sign _ _ := "h.p.s"%js;
  jwt_verify token o c := (Ok payload, c);
  jwt_json _ := Some written
|}.

Definition secret_host : SecretHost := {|
  base64url_bytes s := take 1 s;
  agent_secret id := if jeqb id "agent:repo/bob" then Some [7; 7]%N else None
|}.

Definition sample_req : js :=
  Obj [("method", Str "get"); ("sessionId", Str "session");
    ("user", Obj [("id", Str "alice"); ("roles", Arr [Str "admin"]); ("capabilities", Arr [Str "chat"])])].

Definition sample_url : js := Obj [("pathname", Str "/svc/items"); ("search", Str "?n=1")].

Definition sample_definition : js :=
  Obj [("includeAuthInfo", Bool true); ("issueInvocation", Bool true); ("routeKey", Str "svc");
    ("route", Obj [("repo", Str "repo"); ("agent", Str "bob")])].

Definition sample_env : js :=
  Obj [("PLOINKY_AGENT_ID", Str "agent:repo/bob"); ("PLOINKY_AGENT_SECRET", Str "0707")].

Definition sample_body : invocation_body :=
  InvocationBody "GET" (Str "/svc/items") "/items" (Str "?n=1") (Str "svc") "d".

Definition sample_input : mint_input :=
  match route_request (H1 := digest_d) sample_req "agent:repo/bob" sample_body with
  | Ok i => i
  | Err _ => MintInput Undefined Undefined Undefined Undefined Undefined Undefined Undefined Undefined Undefined
               Undefined Undefined Undefined Undefined
  end.

Definition sample_payload : js :=
  match router_payload sample_input 100000 "jti" with
  | Ok (_, payload) => payload
  | Err _ => Undefined
  end.

Definition sample_auth_info : list (jstr * js) :=
  match buildHttpRouteAuthInfo (H := signing_library) (H0 := secret_host) (H1 := digest_d) sample_req sample_url
          sample_definition Undefined (Str "/items") None 100000 "jti" with
  | Ok (Some l) => l
  | _ => []
  end.

Definition sample_library : JwtLibrary unit := reading_library sample_payload (Obj sample_auth_info).

Definition sample_headers : js :=
  Obj [("x-ploinky-auth-info", Str (json_stringify (Obj sample_auth_info)))].

Definition sample_accepted : accepted_request :=
  AcceptedRequest sample_payload "h.p.s" (Obj sample_auth_info) "d".

Lemma sample_accepts : accepts (H := sample_library) (H0 := digest_d) sample_headers sample_env None
  (Surface "GET" "/items" "?n=1" "d" HTTP_ROUTE_TOOL) sample_accepted None.
Proof.
  apply (accepts_route (H := sample_library) (H0 := digest_d) sample_headers sample_env None (Str "get") (Str "/items")
    (Str "?n=1") NoBody Undefined "get" "/items" "?n=1" "d"); by vm_compute.
Qed.

Theorem accepted_request_signed_witness : exists rch,
  text_or (prop "rch" sample_payload) = Ok rch /\
  computeRch (H := digest_d) (http_object (Surface "GET" "/items" "?n=1" "d" HTTP_ROUTE_TOOL)) = Ok rch.
Proof.
  destruct (accepted_request_signed (H := sample_library) (H0 := digest_d) sample_headers sample_env None
    (Surface "GET" "/items" "?n=1" "d" HTTP_ROUTE_TOOL) sample_accepted None sample_accepts)
    as (secret & audience & rch & _ & _ & _ & _ & _ & _ & _ & _ & Hr & Hc & _); [by vm_compute|].
  exists rch. by split.
Defined.

Theorem routed_request_accepted_witness : exists headers,
  buildHttpRouteAuthInfoHeader (H := sample_library) (H0 := secret_host) (H1 := digest_d) sample_req sample_url
    sample_definition Undefined (Str "/items") None 100000 "jti" = Ok headers /\
  verifyHttpRouteAuthInfoFromHeaders (H := sample_library) (H0 := digest_d) headers sample_env (Str "GET") (Str "/items")
    (Str "?n=1") NoBody Undefined None = (Ok sample_accepted, None).
Proof.
  apply (routed_request_accepted (H := sample_library) (H0 := digest_d) (H1 := secret_host) sample_req sample_url
    sample_definition Undefined (Str "/items") None 100000 "jti" sample_auth_info sample_body "agent:repo/bob" sample_input
    sample_payload [7; 7]%N sample_env NoBody "?n=1" None None); by vm_compute.
Defined.

Theorem routed_identity_witness : exists kind roles username,
  kind = "user"%js /\ roles = ["admin"]%js /\
  authInfoFromInvocation sample_payload (Str "h.p.s") = Ok (Some (AuthInfo None
    (Some (AuthUser "alice" username [] roles [])) (Some "user:alice"%js)
    (AuthInvocation "ploinky-router" "user:alice" (Some (AuthParty "user" "user:alice" roles ["chat"]%js))
      [] HTTP_ROUTE_TOOL [] (Some (AuthParty "agent" "user:alice" [] [])) None) None "h.p.s")).
Proof.
  destruct (routed_identity (H0 := digest_d) sample_req "agent:repo/bob" sample_body sample_input 100000 "jti"
    "agent:repo/bob" sample_payload "alice" "h.p.s") as (kind & roles & username & Hk & Hr & Hi & _); [by vm_compute..|].
  vm_compute in Hk. injection Hk as <-. vm_compute in Hr. injection Hr as <-.
  exists "user"%js, ["admin"]%js, username. split; [done|]. split; [done|]. exact Hi.
Defined.

(** An assertion of the agent [agent:repo/bob] for a tool of [alice]. *)
Definition sample_assertion : js :=
  match assertion_payload (Some [7; 7]%N) "agent:repo/bob" (Str "POST") (Str "/mcp") (Str "alice") (Str "list") "d"
          100000 "jti" with
  | Ok (payload, _) => payload
  | Err _ => Undefined
  end.

Definition assertion_library : JwtLibrary unit := reading_library sample_assertion sample_assertion.

(** The claims [p] are those of the assertion. *)
Definition assertion_host : SecretHost := {|
  base64url_bytes _ := utf8_bytes (json_stringify sample_assertion);
  agent_secret id := if jeqb id "agent:repo/bob" then Some [7; 7]%N else None
|}.

Lemma assertion_compact :
  compact (H1 := assertion_host) "h.p.s" (json_stringify sample_assertion).
Proof.
  exists "h", "p", "s". split; [done|]. split; [|by vm_compute].
  repeat constructor; apply has_unit_false; by vm_compute.
Qed.

Theorem assertion_exact_witness :
  verifyAgentAssertion (H := assertion_library) (H0 := assertion_host) (Str "h.p.s")
    (ExpectedClaims (Str "POST") Undefined (Str "list") (Str "d")) (Str "alice") None =
    (Ok ("agent:repo/bob"%js, sample_assertion), None).
Proof.
  destruct (assertion_exact (H := assertion_library) (H1 := assertion_host) (Some [7; 7]%N) "agent:repo/bob" (Str "POST")
    (Str "/mcp") (Str "alice") (Str "list") "d" 100000 "jti" sample_assertion [7; 7]%N None None)
    as (m & p & t & target & Hm & Hp & Ht & Htarget & Hall);
    [by vm_compute|by vm_compute|by vm_compute|exact assertion_compact|by vm_compute|by vm_compute|].
  injection Hm as <-. injection Hp as <-. injection Htarget as <-.
  assert (t = "list"%js) as -> by (destruct Ht as [(_ & [?|?]) | [= <-]]; done).
  apply Hall. unfold matches. split_and!; auto.
Defined.

(** A grant by which [agent:repo/bob] calls [list] of [carol] for [alice]. *)
Definition sample_grant_input : grant_input :=
  GrantInput (Num (Fin 60)) (Str "agent:repo/bob") Undefined (Obj [("id", Str "alice"); ("roles", Arr [Str "admin"])])
    Undefined (Str "carol") (Arr [Str "list"]) (Arr []).

Definition sample_grant : js :=
  match grant_payload sample_grant_input (Obj []) 100000 "jti" with
  | Ok payload => payload
  | Err _ => Undefined
  end.

Definition sample_user : js := user_claims "alice" [] [] ["admin"]%js [].

Definition sample_expected : grant_expected := GrantExpected (Str "agent:repo/bob") Undefined (Str "list").

Theorem grant_exact_witness :
  verifyGrant (H := reading_library sample_grant Undefined) [7]%N (Str "h.p.s")
    sample_expected (Obj []) 159999 =
    Ok (sample_user, Delegation "jti" [] "agent:repo/bob" "carol" "list") /\
  (forall r, verifyGrant (H := reading_library sample_grant Undefined) [7]%N (Str "h.p.s")
    sample_expected (Obj []) 160000 = Ok r -> False).
Proof.
  destruct (grant_exact (H := reading_library sample_grant Undefined) [7]%N sample_grant_input (Obj []) 100000 "jti" "h.p.s"
    sample_grant "alice" sample_user) as (maxTtl & ttl & source & targets & tools & scopes & Hmax & Hlife & _ & _ & Hs & Ht & Hl &
    Hc & Hall); [by vm_compute..|].
  vm_compute in Hmax, Hlife, Hs, Ht, Hl, Hc. injection Hmax as <-. vm_compute in Hlife. injection Hlife as <-.
  injection Hs as <-. injection Ht as <-. injection Hl as <-. injection Hc as <-. split.
  - refine (proj1 (Hall sample_expected 159999%Z "agent:repo/bob"%js [] "list"%js eq_refl eq_refl eq_refl eq_refl) _).
    split_and!; [done|by right|by left|right; by apply list_elem_of_singleton].
  - intros r E. destruct (proj2 (Hall sample_expected 160000%Z "agent:repo/bob"%js [] "list"%js eq_refl eq_refl eq_refl eq_refl) r E)
      as [Hend _]. by vm_compute in Hend.
Defined.

(** ** Names that look like a user *)

(** What is left of [user:user:bob] is a name with a prefix, which the next reading drops. *)
Example user_prefix_dropped_twice :
  normalizeUser (Obj [("id", Str "user:user:bob")]) = Ok (Some ("user:bob"%js, user_claims "user:bob" [] [] [] [])) /\
  normalizeUser (user_claims "user:bob" [] [] [] []) = Ok (Some ("bob"%js, user_claims "bob" [] [] [] [])).
Proof. by vm_compute. Qed.

(** A grant that is minted for [user:user:] and can never be used. *)
Definition nobody_input : grant_input :=
  GrantInput Undefined (Str "agent:repo/bob") Undefined (Obj [("id", Str "user:user:")]) Undefined (Str "carol") (Arr [])
    (Arr []).

Definition nobody_grant : js :=
  match grant_payload nobody_input (Obj []) 100000 "jti" with
  | Ok payload => payload
  | Err _ => Undefined
  end.

Example grant_of_nobody :
  grant_payload nobody_input (Obj []) 100000 "jti" = Ok nobody_grant /\
  grant_verified nobody_grant (GrantExpected Undefined Undefined Undefined) 100000 = Err DelegationUserMissing.
Proof. by vm_compute. Qed.
