(* ===== verification/RelayWorker.v ===== *)
(** The relay worker in an agent's container: the [stdio] mode of
    [src/Agent/server/RuntimeHttpRelay.mjs].  The router speaks to it in frames:
    HELLO opens the session, OPEN connects a request to a port of the container,
    DATA, HALF_CLOSE and CANCEL drive it; the worker answers with frames of its
    own.  Handlers are actions on the worker; what the connections do are steps
    of [worker_step]. *)

From stdpp Require Import prelude.
From Stdlib Require Import NArith.
From S2P Require Import Prelude.
From S2P Require Import JsString.
From S2P Require Import JsNumber.
From S2P Require Import JsMap.
From S2P Require Import JsValue.
From S2P Require Import JsBytes.
From S2P Require Import JsDouble.
From S2P Require Import AgentPort.
From S2P Require Import RequestHash.
From S2P Require Import RelayToken.
From S2P Require Import RelayFrames.
From S2P Require Import RelayAuth.

Local Open Scope js_scope.

(** ** What the worker throws and sends *)

(** What the handlers throw. *)
Inductive worker_error : Type :=
  | HelloFirst
  | DuplicateHello
  | NoAgentIdentity
  | AgentMismatch
  | NoVerificationKey
  | BadRequestId
  | DenySetAltered
  | BadPort
  | PortReserved
  | BadMode
  | BadPath
  | BadBodyMode
  | BadLimit (name : jstr)
  | UnknownRequest
  | UnexpectedFrame
  | InRelay (e : relay_error)
  | InLanguage (e : js_error).

(** A frame the worker sends.  [SentRejected] is the ERROR frame of a request that
    was refused, its identifier as the router wrote it, or of the whole session. *)
Inductive sent : Type :=
  | SentSession
  | SentReady (id : jstr)
  | SentData (id : jstr) (bytes : nat)
  | SentEnd (id : jstr) (cancelled : bool)
  | SentFailure (id : jstr)
  | SentRejected (id : option js).

(** ** State *)

Record session : Type := Session {
  ss_targetAgentId : jstr;
  ss_effectiveInstanceId : jstr;
  ss_enableGeneration : jstr;
  ss_containerId : jstr;
  ss_generationDigest : jstr;
  ss_relaySessionId : jstr;
  ss_deniedPorts : list Z;
  ss_denySetDigest : jstr;
  ss_verificationKey : bytes
}.

(** The state of a request with its socket.  [sk_open] is the OPEN frame, which the
    listeners hold; [sk_written] counts the bytes written to the target;
    [sk_connected], [sk_ended] and [sk_closed] are the events that happened,
    [sk_destroyed] whether [destroy] was called, [sk_error] whether an [error]
    event is due. *)
Record stream : Type := Stream {
  sk_id : jstr;
  sk_open : frame;
  sk_port : Z;
  sk_terminal : bool;
  sk_requestBytes : Z;
  sk_responseBytes : Z;
  sk_requestMaxBytes : Z;
  sk_responseMaxBytes : Z;
  sk_written : Z;
  sk_connected : bool;
  sk_ended : bool;
  sk_destroyed : bool;
  sk_error : bool;
  sk_closed : bool
}.

(** [w_sockets] holds the state of every request there was, [w_streams] the places
    of those in the map [streams]; [w_sent] are the frames written to standard
    output, the last one first. *)
Record worker : Type := Worker {
  w_session : option session;
  w_terminating : bool;
  w_stdin : bool;
  w_streams : jmap jstr nat;
  w_sockets : list stream;
  w_sessionCache : relay_cache;
  w_requestCache : relay_cache;
  w_sent : list sent
}.

Definition set_session s (w : worker) : worker :=
  Worker s (w_terminating w) (w_stdin w) (w_streams w) (w_sockets w) (w_sessionCache w) (w_requestCache w) (w_sent w).
Definition set_terminating b (w : worker) : worker :=
  Worker (w_session w) b (w_stdin w) (w_streams w) (w_sockets w) (w_sessionCache w) (w_requestCache w) (w_sent w).
Definition set_stdin b (w : worker) : worker :=
  Worker (w_session w) (w_terminating w) b (w_streams w) (w_sockets w) (w_sessionCache w) (w_requestCache w) (w_sent w).
Definition set_streams m (w : worker) : worker :=
  Worker (w_session w) (w_terminating w) (w_stdin w) m (w_sockets w) (w_sessionCache w) (w_requestCache w) (w_sent w).
Definition set_sockets l (w : worker) : worker :=
  Worker (w_session w) (w_terminating w) (w_stdin w) (w_streams w) l (w_sessionCache w) (w_requestCache w) (w_sent w).
Definition set_sessionCache c (w : worker) : worker :=
  Worker (w_session w) (w_terminating w) (w_stdin w) (w_streams w) (w_sockets w) c (w_requestCache w) (w_sent w).
Definition set_requestCache c (w : worker) : worker :=
  Worker (w_session w) (w_terminating w) (w_stdin w) (w_streams w) (w_sockets w) (w_sessionCache w) c (w_sent w).

Notation workerM := (stateM worker worker_error).

(** [createRelayReplayCache()], twice *)
Definition initial_worker : worker :=
  Worker None false true [] [] (RelayCache 2048 []) (RelayCache 2048 []) [].

(** Change the state of one request. *)
Definition update (i : nat) (f : stream -> stream) (w : worker) : worker :=
  set_sockets (alter f i (w_sockets w)) w.

(** [socket.destroy(error)]: an [error] event follows when there is an error. *)
Definition destroy (error : bool) (s : stream) : stream :=
  if sk_destroyed s then s
  else
    Stream (sk_id s) (sk_open s) (sk_port s) (sk_terminal s) (sk_requestBytes s) (sk_responseBytes s)
      (sk_requestMaxBytes s) (sk_responseMaxBytes s) (sk_written s) (sk_connected s) (sk_ended s) true error
      (sk_closed s).

Definition set_terminal (s : stream) : stream :=
  Stream (sk_id s) (sk_open s) (sk_port s) true (sk_requestBytes s) (sk_responseBytes s) (sk_requestMaxBytes s)
    (sk_responseMaxBytes s) (sk_written s) (sk_connected s) (sk_ended s) (sk_destroyed s) (sk_error s) (sk_closed s).

(** Count bytes of the request, those of the response, those written. *)
Definition count_request (n : Z) (s : stream) : stream :=
  Stream (sk_id s) (sk_open s) (sk_port s) (sk_terminal s) (sk_requestBytes s + n) (sk_responseBytes s)
    (sk_requestMaxBytes s) (sk_responseMaxBytes s) (sk_written s) (sk_connected s) (sk_ended s) (sk_destroyed s)
    (sk_error s) (sk_closed s).
Definition count_response (n : Z) (s : stream) : stream :=
  Stream (sk_id s) (sk_open s) (sk_port s) (sk_terminal s) (sk_requestBytes s) (sk_responseBytes s + n)
    (sk_requestMaxBytes s) (sk_responseMaxBytes s) (sk_written s) (sk_connected s) (sk_ended s) (sk_destroyed s)
    (sk_error s) (sk_closed s).
Definition count_written (n : Z) (s : stream) : stream :=
  Stream (sk_id s) (sk_open s) (sk_port s) (sk_terminal s) (sk_requestBytes s) (sk_responseBytes s)
    (sk_requestMaxBytes s) (sk_responseMaxBytes s) (sk_written s + n) (sk_connected s) (sk_ended s) (sk_destroyed s)
    (sk_error s) (sk_closed s).

(** The events of a socket. *)
Definition set_connected (s : stream) : stream :=
  Stream (sk_id s) (sk_open s) (sk_port s) (sk_terminal s) (sk_requestBytes s) (sk_responseBytes s)
    (sk_requestMaxBytes s) (sk_responseMaxBytes s) (sk_written s) true (sk_ended s) (sk_destroyed s) (sk_error s)
    (sk_closed s).
Definition set_ended (s : stream) : stream :=
  Stream (sk_id s) (sk_open s) (sk_port s) (sk_terminal s) (sk_requestBytes s) (sk_responseBytes s)
    (sk_requestMaxBytes s) (sk_responseMaxBytes s) (sk_written s) (sk_connected s) true (sk_destroyed s) (sk_error s)
    (sk_closed s).
Definition set_errored (s : stream) : stream :=
  Stream (sk_id s) (sk_open s) (sk_port s) (sk_terminal s) (sk_requestBytes s) (sk_responseBytes s)
    (sk_requestMaxBytes s) (sk_responseMaxBytes s) (sk_written s) (sk_connected s) (sk_ended s) true false (sk_closed s).
Definition set_closed (s : stream) : stream :=
  Stream (sk_id s) (sk_open s) (sk_port s) (sk_terminal s) (sk_requestBytes s) (sk_responseBytes s)
    (sk_requestMaxBytes s) (sk_responseMaxBytes s) (sk_written s) (sk_connected s) (sk_ended s) (sk_destroyed s)
    (sk_error s) true.

(** ** Sending *)

Definition send (f : sent) (w : worker) : worker :=
  if w_terminating w then w
  else
    Worker (w_session w) false (w_stdin w) (w_streams w) (w_sockets w) (w_sessionCache w) (w_requestCache w)
      (f :: w_sent w).

(** [fail(message, requestId)] *)
Definition fail_frame (requestId : js) (w : worker) : worker :=
  send (SentRejected (if js_truthy requestId then Some requestId else None)) w.

(** [verificationKey.fill(0)] *)
Definition wipe_key (s : session) : session :=
  Session (ss_targetAgentId s) (ss_effectiveInstanceId s) (ss_enableGeneration s) (ss_containerId s)
    (ss_generationDigest s) (ss_relaySessionId s) (ss_deniedPorts s) (ss_denySetDigest s)
    ((fun _ => 0%N) <$> ss_verificationKey s).

(** Destroy the sockets in the map. *)
Definition destroy_streams (w : worker) : worker :=
  fold_left (fun w e => update e.2 (destroy false) w) (w_streams w) w.

Definition terminate (w : worker) : worker :=
  if w_terminating w then w
  else
    let w := set_terminating true (fail_frame Undefined w) in
    let w := set_session (wipe_key <$> w_session w) w in
    set_stdin false (set_streams [] (destroy_streams w)).

(** [finishStream(requestId, state, frame)] for the state at [i]. *)
Definition finishStream (i : nat) (f : sent) (w : worker) : worker :=
  match w_sockets w !! i with
  | Some s =>
      if sk_terminal s then w
      else
        let w := update i set_terminal w in
        send f (set_streams (map_delete (sk_id s) (w_streams w)) w)
  | None => w
  end.

(** ** Handlers *)

(** The identity of the agent and [Buffer.from(v)] for a value that is neither a
    string nor falsy. *)
Class RelayHost : Type := {
  effective_agent_id : jstr;
  buffer_from : js -> result js_error bytes
}.

Section Handlers.
Context `{TokenHost} `{Sha256Url} `{RelayHost}.

Definition text_of (v : js) : result worker_error jstr :=
  match to_string v with
  | Ok s => Ok s
  | Err e => Err (InLanguage e)
  end.

(** [String(v || '')] *)
Definition text_or (v : js) : result worker_error jstr := text_of (js_or v (Str [])).

(** A verification with one of the two caches. *)
Definition with_sessionCache {A} (m : stateM (option relay_cache) relay_error A) : workerM A := fun w =>
  match m (Some (w_sessionCache w)) with
  | (Ok a, c) => (Ok a, set_sessionCache (default (w_sessionCache w) c) w)
  | (Err e, c) => (Err (InRelay e), set_sessionCache (default (w_sessionCache w) c) w)
  end.

Definition with_requestCache {A} (m : stateM (option relay_cache) relay_error A) : workerM A := fun w =>
  match m (Some (w_requestCache w)) with
  | (Ok a, c) => (Ok a, set_requestCache (default (w_requestCache w) c) w)
  | (Err e, c) => (Err (InRelay e), set_requestCache (default (w_requestCache w) c) w)
  end.

Definition require (b : bool) (e : worker_error) : workerM unit := if b then skip else throw e.

Definition session_options (key : bytes) (audience : jstr) : verify_options :=
  VerifyOptions (Some key) audience None None.

Definition handleHello (f : frame) (r : readings) : workerM unit :=
  session ← gets w_session;
  _ ← require (bool_decide (session = None)) DuplicateHello;
  _ ← require (truthy effective_agent_id) NoAgentIdentity;
  target ← lift (text_or (field "targetAgentId" f));
  _ ← require (jeqb target effective_agent_id) AgentMismatch;
  key ← lift (text_or (field "verificationKey" f));
  _ ← require (is_hex_key (trim key)) NoVerificationKey;
  let verificationKey := hex_bytes (trim key) in
  verified ← with_sessionCache (verifyRelaySessionToken (field "token" f)
    (ExpectedSession (session_options verificationKey effective_agent_id) (field "effectiveInstanceId" f)
      (field "enableGeneration" f) (field "containerId" f) (field "generationDigest" f) (field "relaySessionId" f)
      (field "deniedPorts" f)) r);
  effectiveInstanceId ← lift (text_of (field "effectiveInstanceId" f));
  enableGeneration ← lift (text_of (field "enableGeneration" f));
  containerId ← lift (text_of (field "containerId" f));
  generationDigest ← lift (text_of (field "generationDigest" f));
  relaySessionId ← lift (text_of (field "relaySessionId" f));
  modify (fun w => send SentSession (set_session
    (Some (Session effective_agent_id effectiveInstanceId enableGeneration containerId generationDigest relaySessionId
      verified.2.1 verified.2.2 verificationKey)) w)).

(** [Number(frame.limits?.name || 0)], a positive safe integer. *)
Definition limit_value (f : frame) (name : jstr) : result worker_error real :=
  match number_of (js_or (optional name (field "limits" f)) (Num (Fin 0))) with
  | Ok n => Ok n
  | Err e => Err (InLanguage e)
  end.

Definition checked_limit (limit : jstr * real) : result worker_error (jstr * Z) :=
  match limit.2 with
  | Int (Fin z) =>
      if is_safe_integer (Fin z) && (0 <? z)%Z then Ok (limit.1, z) else Err (BadLimit limit.1)
  | _ => Err (BadLimit limit.1)
  end.

Definition LIMITS : list jstr :=
  ["streamedBodyBytes"; "bufferedBodyBytes"; "requestHeaderBytes"; "responseHeaderBytes"; "connectTimeoutMs";
   "headerTimeoutMs"; "idleTimeoutMs"; "webSocketHandshakeTimeoutMs"].

(** All limits are read before the first one is checked. *)
Definition read_limits (f : frame) : result worker_error (jmap jstr Z) :=
  values ← mapM_result (fun name => n ← limit_value f name; Ok (name, n)) LIMITS;
  mapM_result checked_limit values.

Definition limit_of (name : jstr) (limits : jmap jstr Z) : Z := default 0%Z (map_get name limits).

(** The line [METHOD path?query HTTP/1.1], with its end. *)
Definition request_line (f : frame) : result worker_error jstr :=
  method ← text_of (field "method" f);
  path ← text_of (field "path" f);
  query ← (if js_truthy (field "query" f) then q ← text_of (field "query" f); Ok ("?" ++ q) else Ok []);
  Ok (method ++ " " ++ path ++ query ++ " HTTP/1.1" ++ [13%N; 10%N]).

(** [session.x] of the session [handleOpen] found. *)
Definition expected_of (s : session) (method port path query bodyMode bodyHash : jstr) : expected_request :=
  ExpectedRequest (session_options (ss_verificationKey s) (ss_targetAgentId s))
    [("effectiveInstanceId", Str (ss_effectiveInstanceId s)); ("enableGeneration", Str (ss_enableGeneration s));
     ("containerId", Str (ss_containerId s)); ("generationDigest", Str (ss_generationDigest s));
     ("relaySessionId", Str (ss_relaySessionId s)); ("denySetDigest", Str (ss_denySetDigest s));
     ("method", Str method); ("port", Str port); ("path", Str path); ("query", Str query);
     ("bodyMode", Str bodyMode); ("bodyHash", Str bodyHash)].

Definition requireSession : workerM session :=
  s ← gets w_session;
  match s with
  | Some s => mret s
  | None => throw HelloFirst
  end.

(** The request as it begins: nothing counted, nothing happened. *)
Definition new_stream (id : jstr) (f : frame) (port requestMaxBytes responseMaxBytes : Z) : stream :=
  Stream id f port false 0 0 requestMaxBytes responseMaxBytes 0 false false false false false.

Definition handleOpen (f : frame) (r : readings) : workerM unit :=
  session ← requireSession;
  id ← lift (text_or (field "requestId" f));
  streams ← gets w_streams;
  _ ← require (truthy id && negb (map_has id streams)) BadRequestId;
  _ ← require (negb (has_own "deniedPorts" (fr_fields f) || has_own "denySetDigest" (fr_fields f)
        || has_own "verificationKey" (fr_fields f))) DenySetAltered;
  portText ← lift (text_or (field "port" f));
  let port := decimal_value portText in
  _ ← require (PORT_PATTERN portText && (port <=? 65535)%Z) BadPort;
  _ ← require (negb (existsb (Z.eqb port) (ss_deniedPorts session))) PortReserved;
  _ ← require (is_str (field "mode" f) "http1" || is_str (field "mode" f) "websocket") BadMode;
  path ← lift (text_or (field "path" f));
  _ ← require (starts_with path "/") BadPath;
  _ ← require (is_str (field "bodyMode" f) "buffered" || is_str (field "bodyMode" f) "stream"
        || is_str (field "bodyMode" f) "none") BadBodyMode;
  method ← lift (text_or (field "method" f));
  query ← lift (text_or (field "query" f));
  bodyMode ← lift (text_or (field "bodyMode" f));
  bodyHash ← lift (text_or (field "bodyHash" f));
  _ ← with_requestCache (verifyRelayRequestToken (field "token" f)
    (expected_of session (to_upper method) portText path query bodyMode bodyHash) r);
  limits ← lift (read_limits f);
  line ← lift (request_line f);
  let streamedBodyBytes := limit_of "streamedBodyBytes" limits in
  let requestBodyBytes :=
    if is_str (field "bodyMode" f) "stream" then streamedBodyBytes else limit_of "bufferedBodyBytes" limits in
  let requestMaxBytes := (requestBodyBytes + limit_of "requestHeaderBytes" limits + Z.of_nat (byte_length line))%Z in
  let responseMaxBytes := (streamedBodyBytes + limit_of "responseHeaderBytes" limits + 64)%Z in
  modify (fun w =>
    set_streams (map_set id (length (w_sockets w)) (w_streams w))
      (set_sockets (w_sockets w ++ [new_stream id f port requestMaxBytes responseMaxBytes]) w)).

(** The bytes of a DATA frame. *)
Definition frame_data (f : frame) : result worker_error bytes :=
  match fr_data f with
  | Some b => Ok b
  | None =>
      match js_or (field "data" f) (Str []) with
      | Str s => Ok (utf8_bytes s)
      | v =>
          match buffer_from v with
          | Ok b => Ok b
          | Err e => Err (InLanguage e)
          end
      end
  end.

(** DATA for the request at [i]: over its limit the connection is destroyed. *)
Definition write_request (i : nat) (n : Z) (w : worker) : worker :=
  let w := update i (count_request n) w in
  match w_sockets w !! i with
  | Some s =>
      if (sk_requestMaxBytes s <? sk_requestBytes s)%Z then update i (destroy true) w
      else update i (count_written n) w
  | None => w
  end.

Definition handleStreamFrame (f : frame) : workerM unit :=
  _ ← requireSession;
  id ← lift (text_or (field "requestId" f));
  w ← gets (fun w => w);
  match i ← map_get id (w_streams w); s ← w_sockets w !! i; Some (i, s) with
  | None => throw UnknownRequest
  | Some (i, s) =>
      if sk_terminal s then throw UnknownRequest
      else if is_str (field "type" f) "DATA" then
        data ← lift (frame_data f);
        modify (write_request i (Z.of_nat (length data)))
      else if is_str (field "type" f) "HALF_CLOSE" then skip
      else if is_str (field "type" f) "CANCEL" then
        modify (fun w => finishStream i (SentEnd id true) (update i (destroy false) w))
      else throw UnexpectedFrame
  end.

Definition handleFrame (f : frame) (r : readings) : workerM unit :=
  let type := field "type" f in
  if is_str type "HELLO" then handleHello f r
  else if is_str type "OPEN" then handleOpen f r
  else if is_str type "DATA" || is_str type "HALF_CLOSE" || is_str type "CANCEL" then handleStreamFrame f
  else throw UnexpectedFrame.

(** The listener of the decoder's [frame] event. *)
Definition on_frame (f : frame) (r : readings) (w : worker) : worker :=
  match handleFrame f r w with
  | (Ok _, w) => w
  | (Err _, w) =>
      if js_truthy (field "requestId" f) then fail_frame (field "requestId" f) w else terminate w
  end.

(** A chunk of standard input: its frames one after the other, then the error of
    the decoder if the chunk holds one. *)
Definition on_chunk (frames : list (frame * readings)) (failed : bool) (w : worker) : worker :=
  let w := fold_left (fun w f => on_frame f.1 f.2 w) frames w in
  if failed then terminate w else w.

(** The [end] of standard input, within a frame or between two. *)
Definition on_end (truncated : bool) (w : worker) : worker :=
  let w := if truncated then terminate w else w in
  set_stdin false (destroy_streams (set_session (wipe_key <$> w_session w) w)).

(** ** The events of a connection *)

Definition on_connect (i : nat) (s : stream) (w : worker) : worker :=
  send (SentReady (sk_id s)) (update i set_connected w).

Definition on_data (i : nat) (s : stream) (n : nat) (w : worker) : worker :=
  let w := update i (count_response (Z.of_nat n)) w in
  if (sk_responseMaxBytes s <? sk_responseBytes s + Z.of_nat n)%Z then update i (destroy true) w
  else send (SentData (sk_id s) n) w.

Definition on_socket_end (i : nat) (s : stream) (w : worker) : worker :=
  finishStream i (SentEnd (sk_id s) false) (update i set_ended w).

Definition on_error (i : nat) (s : stream) (w : worker) : worker :=
  finishStream i (SentFailure (sk_id s)) (update i set_errored w).

Definition on_close (i : nat) (s : stream) (w : worker) : worker :=
  finishStream i (SentEnd (sk_id s) false) (update i set_closed w).

(** One step: input, or an event of a socket when Node emits it.  A socket that was
    destroyed neither connects nor delivers; its [error], if it has one, comes
    before its [close], which is the last event.  A running timer may destroy the
    socket: before it connects, or when it is idle. *)
Inductive worker_step : worker -> worker -> Prop :=
  | step_chunk frames failed w :
      w_stdin w = true -> worker_step w (on_chunk frames failed w)
  | step_end truncated w :
      w_stdin w = true -> worker_step w (on_end truncated w)
  | step_input_error w :
      w_stdin w = true -> worker_step w (terminate w)
  | step_connect i s w :
      w_sockets w !! i = Some s -> sk_connected s = false -> sk_destroyed s = false ->
      worker_step w (on_connect i s w)
  | step_data i s n w :
      w_sockets w !! i = Some s -> sk_connected s = true -> sk_ended s = false -> sk_destroyed s = false ->
      worker_step w (on_data i s n w)
  | step_socket_end i s w :
      w_sockets w !! i = Some s -> sk_connected s = true -> sk_ended s = false -> sk_destroyed s = false ->
      worker_step w (on_socket_end i s w)
  | step_timeout i s w :
      w_sockets w !! i = Some s -> sk_closed s = false -> worker_step w (update i (destroy true) w)
  | step_error i s w :
      w_sockets w !! i = Some s -> sk_error s || negb (sk_destroyed s) = true -> sk_closed s = false ->
      worker_step w (on_error i s w)
  | step_close i s w :
      w_sockets w !! i = Some s -> sk_error s = false -> sk_destroyed s || sk_ended s = true -> sk_closed s = false ->
      worker_step w (on_close i s w).

Definition worker_reachable : worker -> Prop := rtc worker_step initial_worker.
End Handlers.

(** ** The worker on bytes *)

Section Bytes.
Context `{TokenHost} `{Sha256Url} `{RelayHost} `{FrameParser}.

(** The listener of standard input's [data] event: the decoder emits the frames of
    the chunk, the clock readings of the [i]-th are [times i]. *)
Definition on_stdin_data (chunk : bytes) (times : nat -> readings) (d : decoder) (w : worker) : decoder * worker :=
  let '(frames, error, d) := push chunk d in
  (d, on_chunk (imap (fun i f => (f, times i)) frames) (bool_decide (is_Some error)) w).

(** The listener of its [end] event. *)
Definition on_stdin_end (d : decoder) (w : worker) : decoder * worker :=
  let '(error, d) := decoder_end d in (d, on_end (bool_decide (is_Some error)) w).

(** What arrives are steps of the worker. *)
Lemma stdin_data_step chunk times d w : w_stdin w = true -> worker_step w (on_stdin_data chunk times d w).2.
Proof. intros Hw. unfold on_stdin_data. destruct (push chunk d) as [[frames error] d']. by apply step_chunk. Qed.

Lemma stdin_end_step d w : w_stdin w = true -> worker_step w (on_stdin_end d w).2.
Proof. intros Hw. unfold on_stdin_end. destruct (decoder_end d) as [error d']. by apply step_end. Qed.
End Bytes.
