(* ===== verification/RelayWorkerFacts.v ===== *)
(** The invariant of a relay worker: its requests and the frames it sent agree, by
    induction on reachability. *)

From stdpp Require Import prelude.
From Stdlib Require Import NArith.
From S2P Require Import Prelude.
From S2P Require Import JsString.
From S2P Require Import JsNumber.
From S2P Require Import JsMap.
From S2P Require Import JsValue.
From S2P Require Import JsBytes.
From S2P Require Import JsDouble.
From S2P Require Import AgentPort.
From S2P Require Import RequestHash.
From S2P Require Import RelayToken.
From S2P Require Import RelayAuth.
From S2P Require Import RelayFrames.
From S2P Require Import RelayWorker.

Local Open Scope Z_scope.

(** ** What is said about a request *)

(** The request a frame is about.  Frames about the session and refusals are about
    none: a refusal answers a frame that came in, not a request. *)
Definition about (f : sent) : option jstr :=
  match f with
  | SentReady id | SentData id _ | SentEnd id _ | SentFailure id => Some id
  | SentSession | SentRejected _ => None
  end.

(** The frames sent about [id], the first one first. *)
Definition sent_about (id : jstr) (w : worker) : list sent := rev (filter (fun f => about f = Some id) (w_sent w)).

(** A last word about a request. *)
Definition ends (s : stream) (f : sent) : Prop := f = SentFailure (sk_id s) \/ exists b, f = SentEnd (sk_id s) b.

(** What the protocol lets a relay say about one request: READY, so many pieces of
    data within the limit of the response, and one last word; no data without READY.
    Unless the worker was cut off, READY was said exactly when the target
    connected, the last word exactly when the request is over, and all data that
    came was sent, unless the connection was destroyed. *)
Definition exchange (cut : bool) (s : stream) (l : list sent) : Prop :=
  exists (ready : bool) sizes last,
    l = (if ready then [SentReady (sk_id s)] else []) ++ (SentData (sk_id s) <$> sizes) ++ option_list last /\
    (ready = false -> sizes = []) /\ (forall f, last = Some f -> ends s f) /\
    Z.of_nat (sum_list sizes) <= sk_responseMaxBytes s /\
    (cut = false ->
       ready = sk_connected s /\ (is_Some last <-> sk_terminal s = true) /\
       (sk_destroyed s = false -> Z.of_nat (sum_list sizes) = sk_responseBytes s)).

(** The exchanges about the requests that were called [id], one after the other. *)
Definition frames_of (id : jstr) (sockets : list stream) (h : list (list sent)) : list sent :=
  concat (zip_with (fun s l => if jeqb (sk_id s) id then l else []) sockets h).

(** Every request has its exchange, and what was sent about an identifier is the
    exchanges of its requests in the order they were opened. *)
Definition conversations (w : worker) : Prop :=
  exists h, Forall2 (exchange (w_terminating w)) (w_sockets w) h /\
    forall id, sent_about id w = frames_of id (w_sockets w) h.

Lemma exchange_cut b s l : exchange b s l -> exchange true s l.
Proof. intros (ready & sizes & last & ? & ? & ? & ? & _). exists ready, sizes, last. by split_and!. Qed.

(** A worker that was cut off only keeps what it said. *)
Lemma exchange_kept s s' l : sk_id s' = sk_id s -> sk_responseMaxBytes s' = sk_responseMaxBytes s ->
  exchange true s l -> exchange true s' l.
Proof.
  intros Hid Hmax (ready & sizes & last & ? & ? & Hl & ? & _). exists ready, sizes, last. unfold ends in *.
  rewrite Hid, Hmax. by split_and!.
Qed.

Lemma frames_of_cons id s l x h :
  frames_of id (s :: l) (x :: h) = (if jeqb (sk_id s) id then x else []) ++ frames_of id l h.
Proof. done. Qed.

Lemma frames_of_app id l l' h h' : length l = length h ->
  frames_of id (l ++ l') (h ++ h') = frames_of id l h ++ frames_of id l' h'.
Proof. intros Hl. unfold frames_of. by rewrite zip_with_app, concat_app. Qed.

Lemma frames_of_ext id l l' h : sk_id <$> l = sk_id <$> l' -> frames_of id l h = frames_of id l' h.
Proof.
  revert l' h. induction l as [|s l IH]; intros [|s' l'] h; try done. intros [= Hs Hl].
  destruct h as [|x h]; [done|]. by rewrite !frames_of_cons, Hs, (IH l' h Hl).
Qed.

Lemma frames_of_silent id l h : Forall (fun s => sk_id s <> id) l -> frames_of id l h = [].
Proof.
  intros Hl. revert h. induction Hl as [|s l Hs _ IH]; intros [|x h]; try done. rewrite frames_of_cons, IH.
  destruct (jeqb (sk_id s) id) eqn:E; [|done]. by apply jeqb_eq in E.
Qed.

(** One more frame about the last request of its identifier. *)
Lemma frames_of_say id i s f l h :
  l !! i = Some s -> length h = length l -> (forall j t, (i < j)%nat -> l !! j = Some t -> sk_id t <> sk_id s) ->
  frames_of id l (alter (fun x => x ++ [f]) i h) = frames_of id l h ++ (if jeqb (sk_id s) id then [f] else []).
Proof.
  revert i h. induction l as [|t l IH]; intros [|i] [|x h] Hi Hlen Hlast; try done.
  - injection Hi as ->. change (alter _ 0%nat (x :: h)) with ((x ++ [f]) :: h). rewrite !frames_of_cons.
    destruct (jeqb (sk_id s) id) eqn:E; [|by rewrite !app_nil_r].
    apply jeqb_eq in E. subst id. rewrite (frames_of_silent (sk_id s) l h), !app_nil_r; [done|].
    apply Forall_lookup. intros j t Hj. apply (Hlast (S j) t); [lia|done].
  - change (alter _ (S i) (x :: h)) with (x :: alter (fun x => x ++ [f]) i h). rewrite !frames_of_cons, IH.
    + by rewrite app_assoc.
    + done.
    + by injection Hlen.
    + intros j u Hj. apply (Hlast (S j)). lia.
Qed.

(** A frame about the request at [i], which no later request shares its identifier
    with. *)
Lemma conversations_say i g f s w w' :
  conversations w -> w_terminating w = false -> w_sockets w !! i = Some s ->
  (forall j t, (i < j)%nat -> w_sockets w !! j = Some t -> sk_id t <> sk_id s) ->
  sk_id (g s) = sk_id s -> about f = Some (sk_id s) ->
  (forall l, exchange false s l -> exchange false (g s) (l ++ [f])) ->
  w_sockets w' = alter g i (w_sockets w) -> w_terminating w' = false -> w_sent w' = f :: w_sent w ->
  conversations w'.
Proof.
  intros (h & Hh & Hs) Ht Hi Hlast Hid Hf Hx E1 E2 E3. rewrite Ht in Hh.
  exists (alter (fun x => x ++ [f]) i h). rewrite E1, E2. split.
  - apply Forall2_alter; [done|]. intros t x Hti _ Htx. assert (t = s) as -> by congruence. auto.
  - intros id. rewrite (frames_of_ext id _ (w_sockets w)).
    2: { apply list_eq. intros j. rewrite !list_lookup_fmap, list_lookup_alter. case_decide as E; [|done].
         subst j. rewrite Hi. simpl. by rewrite Hid. }
    rewrite (frames_of_say id i s) by (try done; symmetry; by eapply Forall2_length).
    rewrite <- Hs. unfold sent_about. rewrite E3, filter_cons. destruct (jeqb (sk_id s) id) eqn:E.
    + apply jeqb_eq in E. subst id. by rewrite decide_True.
    + rewrite decide_False; [by rewrite app_nil_r|]. intros E'. rewrite Hf in E'. injection E' as <-.
      by rewrite jeqb_refl in E.
Qed.

(** ** The invariant *)

(** A request and its socket. *)
Record stream_ok (s : stream) : Prop := StreamOk {
  ok_written : 0 <= sk_written s <= sk_requestBytes s;
  ok_written_max : sk_written s <= sk_requestMaxBytes s;
  ok_response : 0 <= sk_responseBytes s;
  ok_silent : sk_connected s = false -> sk_responseBytes s = 0;
  ok_response_max : 0 <= sk_responseMaxBytes s;
  ok_ended : sk_ended s = true -> sk_connected s = true;
  ok_terminal : sk_terminal s = true -> sk_destroyed s || sk_ended s = true
}.

Record worker_ok (w : worker) : Prop := WorkerOk {
  wo_wf : map_wf (w_streams w);
  wo_listed : forall id i, map_get id (w_streams w) = Some i ->
    exists s, w_sockets w !! i = Some s /\ sk_id s = id /\ sk_terminal s = false;
  wo_open : w_terminating w = false -> forall i s, w_sockets w !! i = Some s -> sk_terminal s = false ->
    map_get (sk_id s) (w_streams w) = Some i;
  wo_streams : forall i s, w_sockets w !! i = Some s -> stream_ok s;
  wo_last : w_terminating w = false -> forall i j s t, (i < j)%nat -> w_sockets w !! i = Some s ->
    w_sockets w !! j = Some t -> sk_id t = sk_id s -> sk_terminal s = true;
  wo_conv : conversations w
}.

(** ** Changes that say nothing *)

(** [f] keeps what the invariant reads, or destroys the socket. *)
Record quiet (f : stream -> stream) : Prop := Quiet {
  q_id s : sk_id (f s) = sk_id s;
  q_terminal s : sk_terminal (f s) = sk_terminal s;
  q_connected s : sk_connected (f s) = sk_connected s;
  q_response s : sk_responseMaxBytes (f s) = sk_responseMaxBytes s;
  q_counted s : sk_destroyed (f s) = false -> sk_destroyed s = false /\ sk_responseBytes (f s) = sk_responseBytes s
}.

Lemma lookup_update i f w j :
  w_sockets (update i f w) !! j = if decide (i = j) then f <$> w_sockets w !! j else w_sockets w !! j.
Proof. simpl. rewrite list_lookup_alter. case_decide; by subst. Qed.

Lemma exchange_quiet f cut s l : quiet f -> exchange cut s l -> exchange cut (f s) l.
Proof.
  intros Hq (ready & sizes & last & Hl & Hr & He & Hn & Hc). exists ready, sizes, last. unfold ends in *.
  rewrite (q_id _ Hq), (q_response _ Hq), (q_connected _ Hq), (q_terminal _ Hq). split_and!; try done.
  intros Hcut. destruct (Hc Hcut) as (? & ? & Hb). split_and!; try done.
  intros Hd. destruct (q_counted _ Hq s Hd) as [H1 ->]. auto.
Qed.

Lemma conversations_update i f w : (forall s, sk_id (f s) = sk_id s) ->
  (forall s l, w_sockets w !! i = Some s -> exchange (w_terminating w) s l -> exchange (w_terminating w) (f s) l) ->
  conversations w -> conversations (update i f w).
Proof.
  intros Hid Hf (h & Hh & Hs). exists h. split.
  - apply Forall2_alter_l; [done|]. eauto.
  - intros id. rewrite (frames_of_ext id _ (w_sockets w)); [exact (Hs id)|].
    apply list_eq. intros j. rewrite !list_lookup_fmap, lookup_update. case_decide as E; [|done].
    subst j. destruct (w_sockets w !! i); [|done]. simpl. by rewrite Hid.
Qed.

Lemma update_ok i f w :
  quiet f -> (forall s, w_sockets w !! i = Some s -> stream_ok s -> stream_ok (f s)) ->
  worker_ok w -> worker_ok (update i f w).
Proof.
  intros Hq Hf [Hwf Hl Ho Hs Hlast Hc].
  assert (forall j s, w_sockets (update i f w) !! j = Some s -> exists t, w_sockets w !! j = Some t /\
    sk_id s = sk_id t /\ sk_terminal s = sk_terminal t) as Hlook.
  { intros j s. rewrite lookup_update. case_decide; [|by exists s]. intros (t & Ht & ->)%fmap_Some.
    exists t. by rewrite (q_id _ Hq), (q_terminal _ Hq). }
  constructor.
  - done.
  - intros id j Hj. destruct (Hl id j Hj) as (s & Hsj & Hid & Ht). rewrite lookup_update. case_decide; [|eauto].
    subst. rewrite Hsj. exists (f s). by rewrite (q_id _ Hq), (q_terminal _ Hq).
  - intros Hterm j s (t & Ht & -> & ->)%Hlook. by apply Ho.
  - intros j s. rewrite lookup_update. case_decide; [|apply Hs]. subst.
    intros (s0 & Hs0 & ->)%fmap_Some. eauto.
  - intros Hterm j k s t Hjk (s0 & Hs0 & -> & ->)%Hlook (t0 & Ht0 & -> & _)%Hlook. by apply (Hlast Hterm j k).
  - apply conversations_update; [apply (q_id _ Hq)| |done]. intros s l _. by apply exchange_quiet.
Qed.

Lemma quiet_destroy e : quiet (destroy e).
Proof. unfold destroy. constructor; intros s; destruct (sk_destroyed s) eqn:E; simpl; congruence || done. Qed.

Lemma quiet_count_request n : quiet (count_request n).
Proof. by constructor. Qed.

Lemma quiet_count_written n : quiet (count_written n).
Proof. by constructor. Qed.

Lemma quiet_ended : quiet set_ended.
Proof. by constructor. Qed.

Lemma quiet_errored : quiet set_errored.
Proof. by constructor. Qed.

Lemma quiet_closed : quiet set_closed.
Proof. by constructor. Qed.

Lemma destroy_ok i e w : worker_ok w -> worker_ok (update i (destroy e) w).
Proof.
  apply update_ok; [apply quiet_destroy|]. intros s _ Hs. unfold destroy. destruct (sk_destroyed s); [done|].
  destruct Hs. constructor; simpl; auto.
Qed.

(** ** Sending *)

Lemma conversations_silent f w w' : about f = None -> w_sockets w' = w_sockets w ->
  w_terminating w' = w_terminating w -> w_sent w' = f :: w_sent w -> conversations w -> conversations w'.
Proof.
  intros Hf E1 E2 E3 (h & Hh & Hs). exists h. rewrite E1, E2. split; [done|]. intros id. rewrite <- Hs.
  unfold sent_about. rewrite E3, filter_cons, decide_False; [done|]. by rewrite Hf.
Qed.

Lemma send_silent_ok f w : about f = None -> worker_ok w -> worker_ok (send f w).
Proof.
  intros Hf Hw. unfold send. destruct (w_terminating w) eqn:Ht; [done|].
  destruct Hw as [Hwf Hl Ho Hs Hlast Hc].
  constructor; [done|done|by intros _; apply Ho|done|intros _; by apply Hlast|by apply (conversations_silent f w)].
Qed.

Lemma fail_frame_ok v w : worker_ok w -> worker_ok (fail_frame v w).
Proof. by apply send_silent_ok. Qed.

(** The last request of its identifier, when it goes on. *)
Lemma later_others i s w : worker_ok w -> w_terminating w = false -> w_sockets w !! i = Some s ->
  sk_terminal s = false -> forall j t, (i < j)%nat -> w_sockets w !! j = Some t -> sk_id t <> sk_id s.
Proof.
  intros Hw Ht Hi Hs j t Hj Htj E. pose proof (wo_last _ Hw Ht i j s t Hj Hi Htj E). congruence.
Qed.

(** READY and DATA, for the state [s] at [i] that is in the map. *)
Lemma say_ok i g f w s :
  worker_ok w -> w_sockets w !! i = Some s -> sk_terminal s = false -> about f = Some (sk_id s) ->
  (forall t, sk_id (g t) = sk_id t) -> (forall t, sk_terminal (g t) = sk_terminal t) ->
  (forall t, sk_responseMaxBytes (g t) = sk_responseMaxBytes t) -> stream_ok (g s) ->
  (forall l, exchange false s l -> exchange false (g s) (l ++ [f])) ->
  worker_ok (send f (update i g w)).
Proof.
  intros Hw Hi Ht Hf Hid Hgt Hmax Hg Hsay. pose proof (later_others i s w Hw) as Hlater.
  destruct Hw as [Hwf Hl Ho Hs Hlast Hc].
  assert (Hlook : forall j t, w_sockets (update i g w) !! j = Some t -> exists u, w_sockets w !! j = Some u /\
    sk_id t = sk_id u /\ sk_terminal t = sk_terminal u /\ stream_ok t).
  { intros j t. rewrite lookup_update. case_decide as E; [subst|intros; exists t; eauto].
    rewrite Hi. intros [= <-]. by exists s. }
  assert (Hlisted : forall id j, map_get id (w_streams w) = Some j ->
    exists t, w_sockets (update i g w) !! j = Some t /\ sk_id t = id /\ sk_terminal t = false).
  { intros id j Hj. destruct (Hl id j Hj) as (t & Htj & Hidt & Htt). rewrite lookup_update. case_decide; [|eauto].
    subst. rewrite Htj. exists (g t). by rewrite Hid, Hgt. }
  assert (Hopen : w_terminating w = false -> forall j t, w_sockets (update i g w) !! j = Some t ->
    sk_terminal t = false -> map_get (sk_id t) (w_streams w) = Some j).
  { intros Hterm j t (u & Hu & -> & -> & _)%Hlook. by apply Ho. }
  assert (Hends : w_terminating w = false -> forall j k t u, (j < k)%nat -> w_sockets (update i g w) !! j = Some t ->
    w_sockets (update i g w) !! k = Some u -> sk_id u = sk_id t -> sk_terminal t = true).
  { intros Hterm j k t u Hjk (t' & Ht' & -> & -> & _)%Hlook (u' & Hu' & -> & _)%Hlook. by apply (Hlast Hterm j k). }
  assert (Hoks : forall j t, w_sockets (update i g w) !! j = Some t -> stream_ok t)
    by (intros j t (_ & _ & _ & _ & H)%Hlook; done).
  unfold send. change (w_terminating (update i g w)) with (w_terminating w).
  destruct (w_terminating w) eqn:Hterm.
  - constructor; [exact Hwf|exact Hlisted| |exact Hoks| |]; [intros E; cbn in E; congruence..|].
    apply conversations_update; [done| |done]. rewrite Hterm. intros t l _. by apply exchange_kept.
  - constructor; [exact Hwf|exact Hlisted|intros _; by apply Hopen|exact Hoks|intros _; by apply Hends|].
    by apply (conversations_say i g f s w _ Hc Hterm Hi (Hlater eq_refl Hi Ht)).
Qed.

(** ** Ending a request *)

Lemma terminal_lookup i w s j t :
  w_sockets w !! i = Some s -> w_sockets (update i set_terminal w) !! j = Some t ->
  (j = i /\ t = set_terminal s) \/ (j <> i /\ w_sockets w !! j = Some t).
Proof.
  intros Hi. rewrite lookup_update. case_decide as E; [|by right]. subst. rewrite Hi. intros [= <-]. by left.
Qed.

Lemma terminal_stream_ok s : stream_ok s -> sk_destroyed s || sk_ended s = true -> stream_ok (set_terminal s).
Proof. intros [] ?. by constructor. Qed.

(** The state before the last frame is sent. *)
Definition finished (i : nat) (s : stream) (w : worker) : worker :=
  set_streams (map_delete (sk_id s) (w_streams w)) (update i set_terminal w).

Lemma finishStream_open i f w s :
  w_sockets w !! i = Some s -> sk_terminal s = false -> finishStream i f w = send f (finished i s w).
Proof. unfold finishStream. by intros -> ->. Qed.

Lemma exchange_finish s f l : sk_terminal s = false -> ends s f -> exchange false s l ->
  exchange false (set_terminal s) (l ++ [f]).
Proof.
  intros Ht Hf (ready & sizes & last & -> & Hr & _ & Hn & Hc). destruct (Hc eq_refl) as (H1 & H2 & H3).
  exists ready, sizes, (Some f). split_and!; [|done| |done|].
  - destruct last as [g|]; [|by rewrite app_nil_r, <- app_assoc].
    assert (sk_terminal s = true) by (apply H2; by eexists). congruence.
  - by intros g [= <-].
  - intros _. split_and!; [done|by split; [|eexists]|done].
Qed.

Lemma ends_about s f : ends s f -> about f = Some (sk_id s).
Proof. by intros [-> | [b ->]]. Qed.

Lemma finish_ok i f w s :
  worker_ok w -> w_sockets w !! i = Some s -> sk_destroyed s || sk_ended s = true -> ends s f ->
  worker_ok (finishStream i f w).
Proof.
  intros Hw Hi Hd Hf. destruct (sk_terminal s) eqn:Ht; [by unfold finishStream; rewrite Hi, Ht|].
  rewrite (finishStream_open i f w s Hi Ht). pose proof (later_others i s w Hw) as Hlater.
  destruct Hw as [Hwf Hl Ho Hs Hlast Hc].
  assert (Hdel : map_wf (map_delete (sk_id s) (w_streams w))) by by apply map_wf_delete.
  assert (Hlisted : forall id j, map_get id (map_delete (sk_id s) (w_streams w)) = Some j ->
    exists t, w_sockets (finished i s w) !! j = Some t /\ sk_id t = id /\ sk_terminal t = false).
  { intros id j. rewrite map_get_delete. case_decide as Hne; [done|]. intros Hj.
    destruct (Hl id j Hj) as (t & Htj & Hidt & Htt). exists t. split; [|done].
    pose proof (lookup_update i set_terminal w j) as E. simpl in E |- *. rewrite E, decide_False; [done|]. intros ->.
    assert (t = s) as -> by congruence. by destruct Hne. }
  assert (Hok : forall j t, w_sockets (finished i s w) !! j = Some t -> stream_ok t).
  { intros j t [[-> ->] | [_ H]]%(terminal_lookup i w s); [apply terminal_stream_ok|..|done]; eauto. }
  unfold send. destruct (w_terminating (finished i s w)) eqn:Hterm; cbn in Hterm.
  - constructor; [exact Hdel|exact Hlisted| |exact Hok| |]; [intros E; cbn in E; congruence..|].
    apply (conversations_update i set_terminal w); [done| |done]. rewrite Hterm. intros t l _. by apply exchange_kept.
  - constructor; [exact Hdel|exact Hlisted| |exact Hok| |].
    + intros _ j t [[-> ->] | [Hne H]]%(terminal_lookup i w s) Htt; [done| |done].
      simpl. rewrite map_get_delete, decide_False; [by apply Ho|]. intros E. apply Hne.
      pose proof (Ho Hterm j t H Htt). pose proof (Ho Hterm i s Hi Ht). congruence.
    + intros _ j k t u Hjk [[-> ->] | [_ H]]%(terminal_lookup i w s) Hk E; [done| |done].
      apply (terminal_lookup i w s) in Hk as [[-> ->] | [_ Hk]]; [|by apply (Hlast Hterm j k t u)|done].
      by apply (Hlast Hterm j i t s).
    + apply (conversations_say i set_terminal f s w _ Hc Hterm Hi (Hlater Hterm Hi Ht)); try done.
      * by apply ends_about.
      * intros l. by apply exchange_finish.
Qed.

(** ** Opening a request *)

Lemma new_stream_ok id f port a b : 0 <= a -> 0 <= b -> stream_ok (new_stream id f port a b).
Proof. intros Ha Hb. by constructor; simpl. Qed.

(** A request that begins: nothing was said about it. *)
Lemma exchange_new cut id f port a b : 0 <= b -> exchange cut (new_stream id f port a b) [].
Proof.
  intros Hb. exists false, [], None. by split_and!.
Qed.

Lemma open_ok id s w :
  worker_ok w -> map_get id (w_streams w) = None -> sk_id s = id -> sk_terminal s = false ->
  (forall cut, exchange cut s []) -> stream_ok s ->
  worker_ok (set_streams (map_set id (length (w_sockets w)) (w_streams w))
    (set_sockets (w_sockets w ++ [s]) w)).
Proof.
  intros [Hwf Hl Ho Hs Hlast Hc] Hid Hsid Ht Hnothing Hok.
  assert (Hnew : (w_sockets w ++ [s]) !! length (w_sockets w) = Some s) by by apply list_lookup_middle.
  assert (Hlook : forall j t, (w_sockets w ++ [s]) !! j = Some t -> (j = length (w_sockets w) /\ t = s) \/
    w_sockets w !! j = Some t).
  { intros j t [H | [Hj [Hz <-]%list_lookup_singleton_Some]]%lookup_app_Some; [by right|left]. split; [lia|done]. }
  constructor; simpl.
  - by apply map_wf_set.
  - intros id' j. rewrite map_get_set. case_decide as E.
    + intros [= <-]. exists s. by subst.
    + intros Hj. destruct (Hl id' j Hj) as (t & Htj & ?). exists t. split; [|done]. by apply lookup_app_l_Some.
  - intros Hterm j t [[-> ->] | H]%Hlook Htt.
    + by rewrite Hsid, map_get_set_eq.
    + rewrite map_get_set_ne; [by apply Ho|]. intros E. pose proof (Ho Hterm j t H Htt). congruence.
  - intros j t [[-> ->] | H]%Hlook; [done|eauto].
  - intros Hterm j k t u Hjk [[-> ->] | H]%Hlook Hk E.
    { apply lookup_lt_Some in Hk. rewrite length_app in Hk. simpl in Hk. lia. }
    apply Hlook in Hk as [[-> ->] | Hk]; [|by apply (Hlast Hterm j k t u)].
    destruct (sk_terminal t) eqn:Htt; [done|]. pose proof (Ho Hterm j t H Htt). congruence.
  - destruct Hc as (h & Hh & Hsent). exists (h ++ [[]]). split.
    + apply Forall2_app; [done|]. constructor; [|done]. apply Hnothing.
    + intros id'. change (sent_about id' w = frames_of id' (w_sockets w ++ [s]) (h ++ [[]])).
      rewrite (frames_of_app id' _ _ _ _ (Forall2_length _ _ _ Hh)). unfold frames_of at 2. simpl.
      assert ((if jeqb (sk_id s) id' then [] else []) = @nil sent) as -> by by destruct (jeqb _ _).
      rewrite !app_nil_r. exact (Hsent id').
Qed.

(** ** Ending the session *)

Lemma set_session_ok s w : worker_ok w -> worker_ok (set_session s w).
Proof. intros []. by constructor. Qed.

Lemma set_stdin_ok b w : worker_ok w -> worker_ok (set_stdin b w).
Proof. intros []. by constructor. Qed.

Lemma set_sessionCache_ok c w : worker_ok w -> worker_ok (set_sessionCache c w).
Proof. intros []. by constructor. Qed.

Lemma set_requestCache_ok c w : worker_ok w -> worker_ok (set_requestCache c w).
Proof. intros []. by constructor. Qed.

Lemma set_terminating_ok w : worker_ok w -> worker_ok (set_terminating true w).
Proof.
  intros [Hwf Hl Ho Hs Hlast (h & Hh & Hc)]. constructor; try done. exists h. split; [|exact Hc].
  cbn. eapply Forall2_impl; [exact Hh|]. intros s l. apply exchange_cut.
Qed.

Lemma clear_streams_ok w : w_terminating w = true -> worker_ok w -> worker_ok (set_streams [] w).
Proof.
  intros Ht [Hwf Hl Ho Hs Hlast Hc]. constructor; simpl; try done; [apply map_wf_nil|congruence].
Qed.

Lemma destroy_all_ok l w : worker_ok w -> worker_ok (fold_left (fun w (e : jstr * nat) => update e.2 (destroy false) w) l w).
Proof. revert w. induction l as [|e l IH]; intros w Hw; [done|]. by apply IH, destroy_ok. Qed.

Lemma destroy_streams_ok w : worker_ok w -> worker_ok (destroy_streams w).
Proof. apply destroy_all_ok. Qed.

Lemma destroy_all_terminating l w :
  w_terminating (fold_left (fun w (e : jstr * nat) => update e.2 (destroy false) w) l w) = w_terminating w.
Proof. revert w. induction l as [|e l IH]; intros w; [done|]. simpl. by rewrite IH. Qed.

Lemma terminate_ok w : worker_ok w -> worker_ok (terminate w).
Proof.
  intros Hw. unfold terminate. destruct (w_terminating w); [done|].
  apply set_stdin_ok, clear_streams_ok.
  - unfold destroy_streams. by rewrite destroy_all_terminating.
  - by apply destroy_streams_ok, set_session_ok, set_terminating_ok, fail_frame_ok.
Qed.

Lemma on_end_ok b w : worker_ok w -> worker_ok (on_end b w).
Proof.
  intros Hw. unfold on_end. apply set_stdin_ok, destroy_streams_ok, set_session_ok.
  destruct b; [by apply terminate_ok|done].
Qed.

(** ** What the handlers do *)

Lemma bind_require {B} b e (k : unit -> workerM B) w :
  mbind k (require b e) w = if b then k tt w else (Err e, w).
Proof. by destruct b. Qed.

Section Handlers.
Context `{TokenHost} `{Sha256Url} `{RelayHost}.

(** A message that is refused changes no more than a cache. *)
Lemma session_step {A B} (m : stateM (option relay_cache) relay_error A) (k : A -> workerM B) w res w' :
  mbind k (with_sessionCache m) w = (res, w') ->
  (exists c e, res = Err e /\ w' = set_sessionCache c w) \/
  (exists a c, m (Some (w_sessionCache w)) = (Ok a, c) /\
     k a (set_sessionCache (default (w_sessionCache w) c) w) = (res, w')).
Proof.
  unfold with_sessionCache, mbind, stateM_bind. destruct (m _) as [[a|e] c]; intros E; [right|left]; eauto.
  injection E as <- <-. eauto.
Qed.

Lemma request_step {A B} (m : stateM (option relay_cache) relay_error A) (k : A -> workerM B) w res w' :
  mbind k (with_requestCache m) w = (res, w') ->
  (exists c e, res = Err e /\ w' = set_requestCache c w) \/
  (exists a c, m (Some (w_requestCache w)) = (Ok a, c) /\
     k a (set_requestCache (default (w_requestCache w) c) w) = (res, w')).
Proof.
  unfold with_requestCache, mbind, stateM_bind. destruct (m _) as [[a|e] c]; intros E; [right|left]; eauto.
  injection E as <- <-. eauto.
Qed.

Lemma same_sessionCache w : w = set_sessionCache (w_sessionCache w) w.
Proof. by destruct w. Qed.

Lemma same_requestCache w : w = set_requestCache (w_requestCache w) w.
Proof. by destruct w. Qed.

(** The session a HELLO opens. *)
Definition hello_session (f : frame) (r : readings) (w : worker) (s : session) : Prop :=
  exists key payload c, is_hex_key (trim key) = true /\ ss_verificationKey s = hex_bytes (trim key) /\
    ss_targetAgentId s = effective_agent_id /\ effective_agent_id <> [] /\
    verifyRelaySessionToken (field "token" f)
      (ExpectedSession (session_options (ss_verificationKey s) effective_agent_id) (field "effectiveInstanceId" f)
        (field "enableGeneration" f) (field "containerId" f) (field "generationDigest" f) (field "relaySessionId" f)
        (field "deniedPorts" f)) r (Some (w_sessionCache w)) =
      (Ok (payload, (ss_deniedPorts s, ss_denySetDigest s)), c).

Lemma handleHello_cases f r w res w' :
  handleHello f r w = (res, w') ->
  (exists c e, res = Err e /\ w' = set_sessionCache c w) \/
  (exists s c, res = Ok tt /\ w_session w = None /\ hello_session f r w s /\
    w' = send SentSession (set_session (Some s) (set_sessionCache c w))).
Proof.
  unfold handleHello. rewrite bind_gets, bind_require.
  assert (forall e, (Err e, w) = (res, w') -> exists c e, res = Err e /\ w' = set_sessionCache c w) as Hsame.
  { intros e [= <- <-]. exists (w_sessionCache w), e. split; [done|apply same_sessionCache]. }
  case_bool_decide as Hnone; [|by intros E%Hsame; left]. rewrite bind_require.
  destruct (truthy effective_agent_id) eqn:Hid; [|by intros E%Hsame; left]. rewrite bind_lift.
  destruct (text_or (field "targetAgentId" f)); [|by intros E%Hsame; left]. rewrite bind_require.
  destruct (jeqb _ _); [|by intros E%Hsame; left]. rewrite bind_lift.
  destruct (text_or (field "verificationKey" f)) as [key|]; [|by intros E%Hsame; left]. rewrite bind_require.
  destruct (is_hex_key (trim key)) eqn:Hkey; [|by intros E%Hsame; left].
  intros [(c & e & -> & ->) | ([payload [ports digest]] & c & Hv & E)]%session_step; [left; by exists c, e|].
  repeat match type of E with
  | mbind _ (lift ?t) _ = _ =>
      rewrite bind_lift in E; destruct t as [?|?]; [|injection E as <- <-; left; eexists _, _; split; reflexivity]
  end.
  right. injection E as <- <-. do 2 eexists. split; [done|]. split; [done|]. split; [|reflexivity].
  exists key, payload, c. cbn. split_and!; try done. by apply truthy_true.
Qed.
(** Limits are positive. *)
Lemma read_limits_nonneg f limits name : read_limits f = Ok limits -> 0 <= limit_of name limits.
Proof.
  unfold read_limits. intros (values & _ & Hm)%result_bind_Ok. unfold limit_of.
  destruct (map_get name limits) as [z|] eqn:E; [|done]. simpl. apply map_get_Some_in in E.
  apply mapM_result_Forall2 in Hm. apply list_elem_of_lookup in E as (i & Hi).
  destruct (Forall2_lookup_r _ _ _ _ _ Hm Hi) as ([k v] & _ & Hv). unfold checked_limit in Hv.
  destruct v as [[| |y|]|]; try done. simpl in Hv. destruct (_ && _) eqn:Hy; [|done].
  injection Hv as -> ->. apply andb_true_iff in Hy as [_ ?%Z.ltb_lt]. lia.
Qed.

(** The request an OPEN opens, as the worker verified it. *)
Record opened (f : frame) (r : readings) (w : worker) (ss : session) (s : stream) : Prop := Opened {
  op_frame : sk_open s = f;
  op_id : text_or (field "requestId" f) = Ok (sk_id s) /\ sk_id s <> [] /\ map_get (sk_id s) (w_streams w) = None;
  op_new : exists a b, 0 <= a /\ 0 <= b /\ s = new_stream (sk_id s) f (sk_port s) a b;
  op_token : exists portText method path query bodyMode bodyHash payload c,
    PORT_PATTERN portText = true /\ sk_port s = decimal_value portText /\ sk_port s <= 65535 /\
    sk_port s ∉ ss_deniedPorts ss /\ text_or (field "path" f) = Ok path /\ starts_with path "/" = true /\
    verifyRelayRequestToken (field "token" f)
      (expected_of ss (to_upper method) portText path query bodyMode bodyHash) r (Some (w_requestCache w)) =
      (Ok payload, c)
}.

Lemma bind_requireSession {B} (k : session -> workerM B) w :
  mbind k requireSession w =
  match w_session w with
  | Some s => k s w
  | None => (Err HelloFirst, w)
  end.
Proof. unfold requireSession, mbind, stateM_bind. cbn. by destruct (w_session w). Qed.

(** The test a hypothesis about a handler has come to. *)
Ltac case_test E H :=
  match type of E with
  | (if ?b then _ else _) = _ => destruct b eqn:H
  end.

Lemma handleOpen_cases f r w res w' :
  handleOpen f r w = (res, w') ->
  (exists c e, res = Err e /\ w' = set_requestCache c w) \/
  (exists ss s c, res = Ok tt /\ w_session w = Some ss /\ opened f r w ss s /\
    w' = (fun w => set_streams (map_set (sk_id s) (length (w_sockets w)) (w_streams w))
            (set_sockets (w_sockets w ++ [s]) w)) (set_requestCache c w)).
Proof.
  unfold handleOpen. rewrite bind_requireSession.
  assert (forall e, (Err e, w) = (res, w') -> exists c e, res = Err e /\ w' = set_requestCache c w) as Hsame.
  { intros e [= <- <-]. exists (w_requestCache w), e. split; [done|apply same_requestCache]. }
  intros E. destruct (w_session w) as [ss|] eqn:Hss; [|left; by eapply Hsame].
  rewrite bind_lift in E. destruct (text_or (field "requestId" f)) as [id|] eqn:Htext; [|left; by eapply Hsame].
  rewrite bind_gets, bind_require in E.
  case_test E Hid; [|left; by eapply Hsame].
  rewrite bind_require in E. case_test E Haltered; [|left; by eapply Hsame].
  rewrite bind_lift in E. destruct (text_or (field "port" f)) as [portText|]; [|left; by eapply Hsame].
  rewrite bind_require in E. case_test E Hport; [|left; by eapply Hsame].
  rewrite bind_require in E. case_test E Hdenied; [|left; by eapply Hsame].
  rewrite bind_require in E. case_test E Hmode; [|left; by eapply Hsame].
  rewrite bind_lift in E. destruct (text_or (field "path" f)) as [path|] eqn:Hpath; [|left; by eapply Hsame].
  rewrite bind_require in E. case_test E Hstart; [|left; by eapply Hsame].
  rewrite bind_require in E. case_test E Hbody; [|left; by eapply Hsame].
  rewrite bind_lift in E. destruct (text_or (field "method" f)) as [method|]; [|left; by eapply Hsame].
  rewrite bind_lift in E. destruct (text_or (field "query" f)) as [query|]; [|left; by eapply Hsame].
  rewrite bind_lift in E. destruct (text_or (field "bodyMode" f)) as [bodyMode|]; [|left; by eapply Hsame].
  rewrite bind_lift in E. destruct (text_or (field "bodyHash" f)) as [bodyHash|]; [|left; by eapply Hsame].
  apply request_step in E as [(c & e & -> & ->) | (payload & c & Hv & E)]; [left; by exists c, e|].
  rewrite bind_lift in E. destruct (read_limits f) as [limits|] eqn:Hl; [|injection E as <- <-; left; by eexists _, _].
  rewrite bind_lift in E. destruct (request_line f) as [line|]; [|injection E as <- <-; left; by eexists _, _].
  right. injection E as <- <-.
  apply andb_true_iff in Hid as [Hid%truthy_true Hfree%negb_true_iff].
  apply andb_true_iff in Hport as [Hpat Hmax%Z.leb_le].
  exists ss. match goal with |- context [w_sockets w ++ [?s]] => exists s end.
  eexists. split; [done|]. split; [done|]. split; [|reflexivity]. pose proof (read_limits_nonneg f limits) as Hpos.
  clear Hsame. constructor; cbn [new_stream sk_open sk_id sk_port].
  - done.
  - split; [done|]. split; [done|]. unfold map_has in Hfree. by destruct (map_get id (w_streams w)).
  - do 2 eexists. split; [|split; [|reflexivity]]; [case_match|]; repeat apply Z.add_nonneg_nonneg; auto; lia.
  - exists portText, method, path, query, bodyMode, bodyHash, payload, c. split_and!; try done.
    intros Hin. apply negb_true_iff, not_true_iff_false in Hdenied. apply Hdenied, existsb_exists.
    exists (decimal_value portText). split; [by apply list_elem_of_In|apply Z.eqb_refl].
Qed.
(** ** The steps keep the invariant *)

Lemma update_twice i f g w : update i f (update i g w) = update i (fun s => f (g s)) w.
Proof.
  unfold update, set_sockets. simpl. f_equal. apply list_eq. intros j. rewrite !list_lookup_alter.
  case_decide; [|done]. rewrite decide_True by done. by destruct (w_sockets w !! i).
Qed.

Lemma write_request_ok i n w : 0 <= n -> worker_ok w -> worker_ok (write_request i n w).
Proof.
  intros Hn Hw. unfold write_request. pose proof (lookup_update i (count_request n) w i) as E.
  rewrite decide_True in E by done. rewrite E.
  assert (worker_ok (update i (count_request n) w)) as Hw'.
  { apply update_ok; [apply quiet_count_request| |done]. intros t _ []. constructor; simpl; auto; lia. }
  destruct (w_sockets w !! i) as [s|] eqn:Hi; [|done]. cbn [fmap option_fmap option_map].
  destruct (Z.ltb_spec (sk_requestMaxBytes (count_request n s)) (sk_requestBytes (count_request n s))) as [|Hmax].
  - by apply destroy_ok.
  - rewrite update_twice. apply update_ok; [by constructor| |done]. intros t Ht []. assert (t = s) as -> by congruence.
    simpl in Hmax. constructor; simpl; auto; lia.
Qed.

(** The socket is destroyed and the request ends, unless it had. *)
Lemma finish_destroyed_ok i b w s :
  worker_ok w -> w_sockets w !! i = Some s ->
  worker_ok (finishStream i (SentEnd (sk_id s) b) (update i (destroy false) w)).
Proof.
  intros Hw Hi. apply (finish_ok _ _ _ (destroy false s)).
  - by apply destroy_ok.
  - rewrite lookup_update, decide_True, Hi by done. done.
  - unfold destroy. destruct (sk_destroyed s) eqn:E; simpl; by rewrite ?E.
  - right. exists b. by rewrite (q_id _ (quiet_destroy false)).
Qed.

Lemma handleStreamFrame_ok f w : worker_ok w -> worker_ok (handleStreamFrame f w).2.
Proof.
  intros Hw. unfold handleStreamFrame. rewrite bind_requireSession. destruct (w_session w) as [ss|]; [|done].
  rewrite bind_lift. destruct (text_or _) as [id|]; [|done]. rewrite bind_gets.
  destruct (map_get id (w_streams w)) as [i|] eqn:Hid; [|done]. cbn [mbind option_bind].
  destruct (wo_listed _ Hw id i Hid) as (s & Hi & <- & Ht). rewrite Hi. cbn [mbind option_bind]. rewrite Ht.
  destruct (is_str _ _).
  { rewrite bind_lift. destruct (frame_data f) as [data|]; [|done]. apply write_request_ok; [lia|done]. }
  destruct (is_str _ _); [done|]. destruct (is_str _ _); [|done]. by apply finish_destroyed_ok.
Qed.

Lemma handleFrame_ok f r w : worker_ok w -> worker_ok (handleFrame f r w).2.
Proof.
  intros Hw. unfold handleFrame. destruct (is_str _ _); [|destruct (is_str _ _)].
  - destruct (handleHello f r w) as [res w'] eqn:E. simpl.
    destruct (handleHello_cases _ _ _ _ _ E) as [(c & e & _ & ->) | (s & c & _ & _ & _ & ->)].
    + by apply set_sessionCache_ok.
    + by apply send_silent_ok, set_session_ok, set_sessionCache_ok.
  - destruct (handleOpen f r w) as [res w'] eqn:E. simpl.
    destruct (handleOpen_cases _ _ _ _ _ E) as [(c & e & _ & ->) | (ss & s & c & _ & _ & Hs & ->)].
    + by apply set_requestCache_ok.
    + destruct Hs as [_ (_ & _ & Hfree) (a & b & Ha & Hb & Hnew) _].
      assert (stream_ok s) as Hok by (rewrite Hnew; by apply new_stream_ok).
      apply (open_ok (sk_id s) s (set_requestCache c w)); try assumption; try reflexivity.
      * by apply set_requestCache_ok.
      * by rewrite Hnew.
      * intros cut. rewrite Hnew. by apply exchange_new.
  - destruct (_ || _); [by apply handleStreamFrame_ok|done].
Qed.

Lemma on_frame_ok f r w : worker_ok w -> worker_ok (on_frame f r w).
Proof.
  intros Hw. unfold on_frame. pose proof (handleFrame_ok f r w Hw) as Hf.
  destruct (handleFrame f r w) as [[|e] w']; [done|]. simpl in Hf.
  destruct (js_truthy _); [by apply fail_frame_ok|by apply terminate_ok].
Qed.

Lemma on_chunk_ok frames b w : worker_ok w -> worker_ok (on_chunk frames b w).
Proof.
  intros Hw. unfold on_chunk.
  assert (worker_ok (fold_left (fun w f => on_frame f.1 f.2 w) frames w)) as Hw'.
  { revert w Hw. induction frames as [|f frames IH]; intros w Hw; [done|]. by apply IH, on_frame_ok. }
  destruct b; [by apply terminate_ok|done].
Qed.

(** A connection that can speak belongs to a request that goes on. *)
Lemma speaking i s w : worker_ok w -> w_sockets w !! i = Some s -> sk_destroyed s = false -> sk_ended s = false ->
  sk_terminal s = false.
Proof.
  intros Hw Hi Hd He. destruct (sk_terminal s) eqn:Ht; [|done].
  pose proof (ok_terminal _ (wo_streams _ Hw i s Hi) Ht) as H2. by rewrite Hd, He in H2.
Qed.

(** The target connects: READY is the first word. *)
Lemma exchange_ready s l : stream_ok s -> sk_connected s = false -> sk_terminal s = false ->
  exchange false s l -> exchange false (set_connected s) (l ++ [SentReady (sk_id s)]).
Proof.
  intros Hs Hcon Ht (ready & sizes & last & -> & Hr & _ & _ & Hc). destruct (Hc eq_refl) as (He1 & He2 & _).
  assert (last = None) as -> by (destruct last; [|done]; enough (sk_terminal s = true) by congruence; apply He2; by eexists).
  rewrite Hcon in He1. subst ready. rewrite (Hr eq_refl). exists true, [], None.
  split_and!; try done; simpl; [apply (ok_response_max _ Hs)|]. intros _. split_and!; [done| |].
  - rewrite Ht. by split; [intros [? ?]|].
  - intros _. symmetry. by apply (ok_silent _ Hs).
Qed.

(** Data within the limit. *)
Lemma exchange_data s l n : sk_connected s = true -> sk_terminal s = false -> sk_destroyed s = false ->
  sk_responseBytes s + Z.of_nat n <= sk_responseMaxBytes s ->
  exchange false s l -> exchange false (count_response (Z.of_nat n) s) (l ++ [SentData (sk_id s) n]).
Proof.
  intros Hcon Ht Hd Hmax (ready & sizes & last & -> & _ & _ & _ & Hc). destruct (Hc eq_refl) as (He1 & He2 & He3).
  assert (last = None) as -> by (destruct last; [|done]; enough (sk_terminal s = true) by congruence; apply He2; by eexists).
  rewrite Hcon in He1. subst ready. specialize (He3 Hd). exists true, (sizes ++ [n]), None.
  assert (Z.of_nat (sum_list (sizes ++ [n])) = sk_responseBytes s + Z.of_nat n) as Hsum.
  { rewrite <- He3. clear. induction sizes as [|m sizes IH]; simpl in *; lia. }
  split_and!; try done; simpl.
  - by rewrite fmap_app, !app_nil_r.
  - by rewrite Hsum.
Qed.

Lemma on_connect_ok i s w :
  worker_ok w -> w_sockets w !! i = Some s -> sk_connected s = false -> sk_destroyed s = false ->
  worker_ok (on_connect i s w).
Proof.
  intros Hw Hi Hc Hd. pose proof (wo_streams _ Hw i s Hi) as Hs.
  assert (sk_ended s = false) as He.
  { destruct (sk_ended s) eqn:E; [|done]. pose proof (ok_ended _ Hs E). congruence. }
  pose proof (speaking i s w Hw Hi Hd He) as Ht. unfold on_connect.
  apply (say_ok i set_connected _ w s); try done.
  - destruct Hs. by constructor.
  - intros l. by apply exchange_ready.
Qed.

Lemma on_data_ok i s n w :
  worker_ok w -> w_sockets w !! i = Some s -> sk_connected s = true -> sk_ended s = false ->
  sk_destroyed s = false -> worker_ok (on_data i s n w).
Proof.
  intros Hw Hi Hc He Hd. pose proof (wo_streams _ Hw i s Hi) as Hs.
  pose proof (speaking i s w Hw Hi Hd He) as Ht. unfold on_data.
  destruct (Z.ltb_spec (sk_responseMaxBytes s) (sk_responseBytes s + Z.of_nat n)) as [|Hmax].
  - rewrite update_twice. apply update_ok; [| |done].
    + constructor; intros t; unfold destroy; simpl; destruct (sk_destroyed t) eqn:E; simpl; try done; congruence.
    + intros t Htt _. assert (t = s) as -> by congruence. unfold destroy. simpl. rewrite Hd.
      destruct Hs. constructor; simpl; auto; try lia. congruence.
  - apply (say_ok i _ _ w s); try done.
    + destruct Hs. constructor; simpl; auto; try lia. congruence.
    + intros l. by apply exchange_data.
Qed.

Lemma on_socket_end_ok i s w :
  worker_ok w -> w_sockets w !! i = Some s -> sk_connected s = true -> worker_ok (on_socket_end i s w).
Proof.
  intros Hw Hi Hc. unfold on_socket_end. apply (finish_ok _ _ _ (set_ended s)).
  - apply update_ok; [by constructor| |done]. intros t Ht []. assert (t = s) as -> by congruence.
    constructor; simpl; auto. by rewrite orb_true_r.
  - rewrite lookup_update, decide_True, Hi by done. done.
  - simpl. by rewrite orb_true_r.
  - right. by exists false.
Qed.

Lemma on_error_ok i s w : worker_ok w -> w_sockets w !! i = Some s -> worker_ok (on_error i s w).
Proof.
  intros Hw Hi. unfold on_error. apply (finish_ok _ _ _ (set_errored s)).
  - apply update_ok; [by constructor| |done]. intros t _ []. by constructor.
  - rewrite lookup_update, decide_True, Hi by done. done.
  - done.
  - by left.
Qed.

Lemma on_close_ok i s w :
  worker_ok w -> w_sockets w !! i = Some s -> sk_destroyed s || sk_ended s = true -> worker_ok (on_close i s w).
Proof.
  intros Hw Hi Hd. unfold on_close. apply (finish_ok _ _ _ (set_closed s)).
  - apply update_ok; [by constructor| |done]. intros t _ []. by constructor.
  - rewrite lookup_update, decide_True, Hi by done. done.
  - done.
  - right. by exists false.
Qed.

Lemma step_ok w w' : worker_step w w' -> worker_ok w -> worker_ok w'.
Proof.
  intros Hstep Hw. destruct Hstep.
  - by apply on_chunk_ok.
  - by apply on_end_ok.
  - by apply terminate_ok.
  - by apply on_connect_ok.
  - by apply on_data_ok.
  - by apply on_socket_end_ok.
  - by apply destroy_ok.
  - by apply on_error_ok.
  - by apply on_close_ok.
Qed.

Lemma initial_ok : worker_ok initial_worker.
Proof. constructor; try done; [apply map_wf_nil|]. by exists []. Qed.

Lemma reachable_ok w : worker_reachable w -> worker_ok w.
Proof.
  apply (rtc_ind_r (fun w => worker_ok w)); [apply initial_ok|].
  intros w1 w2 _ Hs Hw. by apply (step_ok w1).
Qed.
End Handlers.
