(* ===== verification/RelayWorkerTheorems.v ===== *)
(** What a relay worker promises: it connects only where the router's tokens let
    it, within their limits, and says of every request what the protocol
    allows. *)

From stdpp Require Import prelude.
From Stdlib Require Import NArith.
From S2P Require Import Prelude.
From S2P Require Import JsString.
From S2P Require Import JsNumber.
From S2P Require Import JsMap.
From S2P Require Import JsValue.
From S2P Require Import JsBytes.
From S2P Require Import JsDouble.
From S2P Require Import JsDecimal.
From S2P Require Import AgentPort.
From S2P Require Import AgentPortTheorems.
From S2P Require Import RequestHash.
From S2P Require Import RelayToken.
From S2P Require Import RelayTokenTheorems.
From S2P Require Import RelayAuth.
From S2P Require Import RelayAuthTheorems.
From S2P Require Import RelayFrames.
From S2P Require Import RelayWorker.
From S2P Require Import RelayWorkerFacts.

Local Open Scope Z_scope.

(** ** How requests evolve *)

Record evolves (s s' : stream) : Prop := Evolves {
  ev_open : sk_open s' = sk_open s;
  ev_port : sk_port s' = sk_port s;
  ev_terminal : sk_terminal s = true -> sk_terminal s' = true;
  ev_closed : sk_closed s' = true -> sk_closed s = true \/ sk_terminal s' = true
}.

#[export] Instance evolves_preorder : PreOrder evolves.
Proof.
  split; [intros s; constructor; auto|]. intros s t u [H1 H2 H3 H4] [G1 G2 G3 G4].
  constructor; [congruence..|auto|]. intros Hu. destruct (G4 Hu) as [Ht|]; [|by right].
  destruct (H4 Ht); auto.
Qed.

(** No request is new; each has evolved. *)
Definition advances (w w' : worker) : Prop :=
  forall i s', w_sockets w' !! i = Some s' -> exists s, w_sockets w !! i = Some s /\ evolves s s'.

#[export] Instance advances_preorder : PreOrder advances.
Proof.
  split; [intros w i s; by exists s|]. intros w1 w2 w3 H1 H2 i s (t & Ht & Hts)%H2.
  destruct (H1 i t Ht) as (u & Hu & Hut). exists u. split; [done|by etrans].
Qed.

Lemma advances_same w w' : w_sockets w' = w_sockets w -> advances w w'.
Proof. intros E i s. rewrite E. by exists s. Qed.

Lemma advances_update i f w : (forall s, w_sockets w !! i = Some s -> evolves s (f s)) -> advances w (update i f w).
Proof.
  intros Hf j s. rewrite lookup_update. case_decide; [|by exists s]. subst.
  intros (t & Ht & ->)%fmap_Some. exists t. auto.
Qed.

Lemma evolves_destroy e s : evolves s (destroy e s).
Proof. unfold destroy. destruct (sk_destroyed s); constructor; auto. Qed.

Lemma send_sockets f w : w_sockets (send f w) = w_sockets w.
Proof. unfold send. by destruct (w_terminating w). Qed.

Lemma destroy_streams_advances w : advances w (destroy_streams w).
Proof.
  unfold destroy_streams. generalize (w_streams w). intros l. revert w. induction l as [|e l IH]; intros w; [done|].
  simpl. etrans; [|apply IH]. apply advances_update. intros s _. apply evolves_destroy.
Qed.

Lemma terminate_advances w : advances w (terminate w).
Proof.
  unfold terminate. destruct (w_terminating w); [done|].
  etrans; [|apply advances_same; simpl; reflexivity].
  etrans; [|apply destroy_streams_advances]. apply advances_same. simpl. unfold fail_frame. apply send_sockets.
Qed.

Lemma finish_advances i f w : advances w (finishStream i f w).
Proof.
  unfold finishStream. destruct (w_sockets w !! i) as [s|]; [|done]. destruct (sk_terminal s); [done|].
  etrans; [|apply advances_same, send_sockets]. apply (advances_update i set_terminal w).
  intros t _. constructor; simpl; auto.
Qed.

(** A change of the counters or the events of a socket, its closing apart. *)
Ltac evolve := intros; constructor; simpl; auto.

Lemma write_request_advances i n w : advances w (write_request i n w).
Proof.
  unfold write_request. etrans; [apply (advances_update i (count_request n)); evolve|].
  destruct (w_sockets _ !! i) as [s|]; [|done]. destruct (_ <? _).
  - apply advances_update. intros t _. apply evolves_destroy.
  - apply advances_update. evolve.
Qed.

Section Steps.
Context `{TokenHost} `{Sha256Url} `{RelayHost}.

Lemma handleStreamFrame_advances f w : advances w (handleStreamFrame f w).2.
Proof.
  unfold handleStreamFrame. rewrite bind_requireSession. destruct (w_session w) as [ss|]; [|done].
  rewrite bind_lift. destruct (text_or _) as [id|]; [|done]. rewrite bind_gets.
  destruct (i ← map_get id (w_streams w); _) as [[i s]|]; [|done]. destruct (sk_terminal s); [done|].
  destruct (is_str _ _).
  { rewrite bind_lift. destruct (frame_data f); [|done]. apply write_request_advances. }
  destruct (is_str _ _); [done|]. destruct (is_str _ _); [|done].
  etrans; [|apply finish_advances]. apply advances_update. intros t _. apply evolves_destroy.
Qed.

Lemma on_close_advances i s w : w_sockets w !! i = Some s -> advances w (on_close i s w).
Proof.
  intros Hi. unfold on_close, finishStream. rewrite lookup_update, decide_True, Hi by done.
  cbn [fmap option_fmap option_map]. destruct (sk_terminal (set_closed s)) eqn:Ht; simpl in Ht.
  - apply advances_update. intros t Htt. assert (t = s) as -> by congruence. constructor; simpl; auto.
  - etrans; [|apply advances_same, send_sockets]. rewrite update_twice.
    apply (advances_update i (fun t => set_terminal (set_closed t)) w). evolve.
Qed.

(** The events of connections open nothing. *)
Lemma event_advances w w' : worker_step w w' ->
  (exists frames b, w_stdin w = true /\ w' = on_chunk frames b w) \/ advances w w'.
Proof.
  intros Hs. destruct Hs as [frames b w Hin|b w Hin|w Hin|i s w Hi Hc Hd|i s n w Hi Hc He Hd|i s w Hi Hc He Hd|i s w Hi Hc|i s w Hi He Hc|i s w Hi He Hd Hc]; [left; by eexists _, _|right..].
  - unfold on_end. etrans; [|apply advances_same; simpl; reflexivity].
    etrans; [|apply destroy_streams_advances]. etrans; [|apply advances_same; simpl; reflexivity].
    destruct b; [apply terminate_advances|done].
  - apply terminate_advances.
  - etrans; [|apply advances_same, send_sockets]. apply advances_update. evolve.
  - unfold on_data. etrans; [apply (advances_update i (count_response (Z.of_nat n))); evolve|].
    destruct (_ <? _); [apply advances_update; intros t _; apply evolves_destroy|].
    apply advances_same, send_sockets.
  - etrans; [|apply finish_advances]. apply advances_update. evolve.
  - apply advances_update. intros t _. apply evolves_destroy.
  - etrans; [|apply finish_advances]. apply advances_update. evolve.
  - by apply on_close_advances.
Qed.

(** A frame opens at most one request. *)
Lemma on_frame_requests f r w :
  advances w (on_frame f r w) \/
  exists ss s, w_session w = Some ss /\ opened f r w ss s /\
    w_sockets (on_frame f r w) = w_sockets w ++ [s] /\ w_session (on_frame f r w) = Some ss /\
    w_terminating (on_frame f r w) = w_terminating w /\ w_stdin (on_frame f r w) = w_stdin w.
Proof.
  unfold on_frame. destruct (handleFrame f r w) as [res w'] eqn:E.
  assert (advances w w' \/ exists ss s c, res = Ok tt /\ w_session w = Some ss /\ opened f r w ss s /\
    w' = set_streams (map_set (sk_id s) (length (w_sockets w)) (w_streams w))
           (set_sockets (w_sockets w ++ [s]) (set_requestCache c w))) as [Ha | Hopen].
  - unfold handleFrame in E. destruct (is_str _ "HELLO"); [|destruct (is_str _ "OPEN")].
    + left. destruct (handleHello_cases _ _ _ _ _ E) as [(c & e & _ & ->) | (s & c & _ & _ & _ & ->)];
        apply advances_same; [done|by rewrite send_sockets].
    + destruct (handleOpen_cases _ _ _ _ _ E) as [(c & e & _ & ->) | (ss & s & c & -> & Hss & Hs & ->)];
        [left; by apply advances_same|right]. by exists ss, s, c.
    + left. destruct (_ || _); [|injection E as _ <-; done].
      pose proof (handleStreamFrame_advances f w) as Ha. by rewrite E in Ha.
  - left. destruct res as [|e]; [done|]. etrans; [exact Ha|].
    destruct (js_truthy _); [apply advances_same, send_sockets|apply terminate_advances].
  - right. destruct Hopen as (ss & s & c & -> & Hss & Hs & ->). by exists ss, s.
Qed.
(** ** Sessions and flags *)

(** A key overwritten with zeros. *)
Definition wiped (key : bytes) : bytes := (fun _ => 0%N) <$> key.

(** A worker that reads, or that terminated within the chunk it reads. *)
Definition alive (w : worker) : Prop := w_stdin w = true \/ w_terminating w = true.

(** The session stays, or loses its key when the worker terminates. *)
Record flows (w w' : worker) : Prop := Flows {
  fl_session : w_session w' = w_session w \/
    w_session w' = wipe_key <$> w_session w /\ w_terminating w' = true;
  fl_terminating : w_terminating w = true -> w_terminating w' = true;
  fl_stdin : w_stdin w = false -> w_stdin w' = false;
  fl_alive : alive w -> alive w'
}.

Lemma wipe_twice s : wipe_key (wipe_key s) = wipe_key s.
Proof. unfold wipe_key. destruct s. simpl. f_equal. rewrite <- list_fmap_compose. by apply list_fmap_ext. Qed.

#[export] Instance flows_preorder : PreOrder flows.
Proof.
  split; [intros w; constructor; auto|]. intros w1 w2 w3 [F1 F2 F3 F4] [G1 G2 G3 G4]. constructor; [|auto..].
  destruct G1 as [-> | [-> Hf]], F1 as [-> | [-> Hf']]; auto.
  right. split; [|done]. destruct (w_session w1) as [s|]; [|done]. simpl. by rewrite wipe_twice.
Qed.

Lemma flows_same w w' : w_session w' = w_session w -> w_terminating w' = w_terminating w ->
  w_stdin w' = w_stdin w -> flows w w'.
Proof. intros E1 E2 E3. constructor; [by left|congruence..|]. unfold alive. by rewrite E2, E3. Qed.

Lemma flows_send f w : flows w (send f w).
Proof. unfold send. destruct (w_terminating w) eqn:E; [done|]. by apply flows_same. Qed.

Lemma flows_finish i f w : flows w (finishStream i f w).
Proof.
  unfold finishStream. destruct (w_sockets w !! i) as [s|]; [|done]. destruct (sk_terminal s); [done|].
  etrans; [|apply flows_send]. by apply flows_same.
Qed.

Lemma flows_destroy_streams w : flows w (destroy_streams w).
Proof.
  unfold destroy_streams. generalize (w_streams w). intros l. revert w. induction l as [|e l IH]; intros w; [done|].
  simpl. etrans; [|apply IH]. by apply flows_same.
Qed.

Lemma terminate_done w : w_terminating (terminate w) = true.
Proof.
  unfold terminate. destruct (w_terminating w) eqn:E; [done|]. simpl. unfold destroy_streams.
  by rewrite destroy_all_terminating.
Qed.

Lemma flows_terminate w : flows w (terminate w).
Proof.
  pose proof (terminate_done w) as Hd. constructor; [|done| |by right].
  2: { unfold terminate. by destruct (w_terminating w). }
  unfold terminate in *. destruct (w_terminating w) eqn:E; [by left|]. right. split; [|done].
  set (w1 := fail_frame Undefined w). assert (w_session w1 = w_session w) as E1 by (unfold w1, fail_frame, send; by rewrite E).
  destruct (flows_destroy_streams (set_session (wipe_key <$> w_session w1) (set_terminating true w1))) as [G1 _ _ _].
  simpl in *. destruct G1 as [-> | [-> _]]; rewrite E1; [done|]. destruct (w_session w); [|done].
  simpl. by rewrite wipe_twice.
Qed.

Lemma flows_stream_frame f w : flows w (handleStreamFrame f w).2.
Proof.
  unfold handleStreamFrame. rewrite bind_requireSession. destruct (w_session w) as [ss|] eqn:E; [|done].
  rewrite bind_lift. destruct (text_or _) as [id|]; [|done]. rewrite bind_gets.
  destruct (i ← map_get id (w_streams w); _) as [[i s]|]; [|done]. destruct (sk_terminal s); [done|].
  destruct (is_str _ _).
  { rewrite bind_lift. destruct (frame_data f); [|done]. simpl. unfold write_request.
    destruct (w_sockets _ !! i); [|by apply flows_same]. destruct (_ <? _); by apply flows_same. }
  destruct (is_str _ _); [done|]. destruct (is_str _ _); [|done].
  simpl. etrans; [|apply flows_finish]. by apply flows_same.
Qed.

(** A frame keeps the session, or opens it. *)
Lemma on_frame_flows f r w :
  flows w (on_frame f r w) \/
  w_session w = None /\ (alive w -> alive (on_frame f r w)) /\
    exists s, hello_session f r w s /\ w_session (on_frame f r w) = Some s.
Proof.
  unfold on_frame. destruct (handleFrame f r w) as [res w'] eqn:E.
  assert (flows w w' \/ w_session w = None /\ (alive w -> alive w') /\
    exists s, hello_session f r w s /\ w_session w' = Some s /\ res = Ok tt)
    as [Hf | (Hn & Ha & s & Hs & Hs' & ->)]; [| |right; split_and!; [done..|by exists s]].
  - unfold handleFrame in E. destruct (is_str _ "HELLO"); [|destruct (is_str _ "OPEN")].
    + destruct (handleHello_cases _ _ _ _ _ E) as [(c & e & _ & ->) | (s & c & -> & Hn & Hs & ->)].
      * left. by apply flows_same.
      * right. unfold send, alive. simpl. destruct (w_terminating w) eqn:Ht.
        -- split_and!; [done|by right|by exists s].
        -- split_and!; [done|intros [?|?]; [by left|congruence]|by exists s].
    + left. destruct (handleOpen_cases _ _ _ _ _ E) as [(c & e & _ & ->) | (ss & s & c & _ & _ & _ & ->)]; by apply flows_same.
    + left. destruct (_ || _); [|injection E as _ <-; done].
      pose proof (flows_stream_frame f w) as Ha. by rewrite E in Ha.
  - left. destruct res as [|e]; [done|]. etrans; [exact Hf|].
    destruct (js_truthy _); [apply flows_send|apply flows_terminate].
Qed.


(** ** Authorization *)

(** The port of a request was granted by a token of the session, signed with [key]:
    the router issued it for this agent, this session and this port. *)
Definition granted (key : bytes) (ss : session) (s : stream) : Prop :=
  exists payload portText,
    issued (field "token" (sk_open s)) (session_options key (ss_targetAgentId ss)) "relay-request" payload /\
    same_text (prop "port" payload) (Str portText) /\ sk_port s = decimal_value portText /\
    1 <= sk_port s <= 65535 /\ sk_port s ∉ ss_deniedPorts ss /\
    same_text (prop "relaySessionId" payload) (Str (ss_relaySessionId ss)) /\
    same_text (prop "generationDigest" payload) (Str (ss_generationDigest ss)) /\
    same_text (prop "containerId" payload) (Str (ss_containerId ss)) /\
    same_text (prop "denySetDigest" payload) (Str (ss_denySetDigest ss)).

(** The session was opened with [key] by a token of the router, which names the
    denied ports. *)
Definition established (key : bytes) (ss : session) : Prop :=
  exists hello payload,
    issued (field "token" hello) (session_options key effective_agent_id) "relay-session" payload /\
    ss_targetAgentId ss = effective_agent_id /\
    normalizeCanonicalPortSet (js_or (prop "deniedPorts" payload) (Arr [])) = Ok (ss_deniedPorts ss) /\
    computeRelayDenySetDigest (port_values (ss_deniedPorts ss)) = Ok (ss_denySetDigest ss).

Definition auth_ok (w : worker) : Prop :=
  match w_session w with
  | None => w_sockets w = []
  | Some ss => exists key, established key ss /\
      (ss_verificationKey ss = key \/ ss_verificationKey ss = wiped key /\ (w_terminating w = true \/ w_stdin w = false)) /\
      forall i s, w_sockets w !! i = Some s ->
        granted key ss s \/ w_terminating w = true /\ granted (wiped key) ss s
  end.

Lemma port_positive s : PORT_PATTERN s = true -> 1 <= decimal_value s.
Proof.
  intros H'%port_pattern_canonical. pose proof (canonical_decimal_value s H').
  assert (1 <= 10 ^ (Z.of_nat (length s) - 1)); [|lia]. destruct s as [|c s]; [done|].
  pose proof (Z.pow_pos_nonneg 10 (Z.of_nat (length (c :: s)) - 1)). simpl length in *. lia.
Qed.

Lemma opened_granted f r w ss s :
  opened f r w ss s -> granted (ss_verificationKey ss) ss s.
Proof.
  intros [Hf _ _ (portText & method & path & query & bodyMode & bodyHash & payload & c & Hp & Hport & Hmax & Hd & _ & _ & Hv)].
  destruct (request_verified _ _ _ _ _ _ Hv) as (Hi & Hm & _). exists payload, portText. rewrite Hf.
  assert (forall k t, k ∈ REQUEST_FIELDS ->
    map_get k (er_fields (expected_of ss (to_upper method) portText path query bodyMode bodyHash)) = Some (Str t) ->
    same_text (prop k payload) (Str t)) as Hfield by (intros k t Hk Ht; by apply (Hm k (Str t))).
  pose proof (port_positive _ Hp). split_and!; try done; try lia;
    (apply Hfield; [apply list_elem_of_In; vm_compute; tauto|reflexivity]).
Qed.

Lemma granted_evolves key ss s s' : evolves s s' -> granted key ss s -> granted key ss s'.
Proof. intros [Ho Hp _ _]. unfold granted. by rewrite Ho, Hp. Qed.

Lemma granted_wipe key ss s : granted key (wipe_key ss) s <-> granted key ss s.
Proof. done. Qed.

Lemma hello_established f r w s : hello_session f r w s -> established (ss_verificationKey s) s.
Proof.
  intros (key & payload & c & _ & _ & Ht & _ & Hv).
  destruct (session_verified _ _ _ _ _ _ _ _ Hv) as (Hi & Hp & Hd & _). by exists f, payload.
Qed.

(** The session and its requests after a change that opens nothing. *)
Lemma auth_kept w w' : auth_ok w -> advances w w' ->
  (w_session w' = w_session w \/
   w_session w' = wipe_key <$> w_session w /\ (w_terminating w' = true \/ w_stdin w' = false)) ->
  (w_terminating w = true -> w_terminating w' = true) -> (w_stdin w = false -> w_stdin w' = false) -> auth_ok w'.
Proof.
  intros Ha Hadv Hs Ht Hin. unfold auth_ok in *. destruct (w_session w) as [ss|] eqn:Ess.
  - destruct Ha as (key & He & Hk & Hall).
    assert (forall i s, w_sockets w' !! i = Some s ->
      granted key ss s \/ w_terminating w' = true /\ granted (wiped key) ss s) as Hall'.
    { intros i s (t & Htt & Hev)%Hadv. destruct (Hall i t Htt) as [Hg | [Hterm Hg]]; [left|right; split; [auto|]];
        by apply (granted_evolves _ _ t). }
    destruct Hs as [-> | [-> Hterm]]; simpl; exists key.
    + split_and!; [done| |done]. destruct Hk as [| [? [?|?]]]; auto.
    + split_and!; [done| |done]. right. split; [|auto]. destruct Hk as [-> | [-> _]]; [done|].
      unfold wiped. rewrite <- list_fmap_compose. by apply list_fmap_ext.
  - assert (w_session w' = None) as -> by (by destruct Hs as [-> | [-> _]]).
    destruct (w_sockets w') as [|s l] eqn:E'; [done|]. destruct (Hadv 0%nat s) as (t & Htt & _); [by rewrite E'|].
    by rewrite Ha in Htt.
Qed.

Lemma auth_flows w w' : auth_ok w -> advances w w' -> flows w w' -> auth_ok w'.
Proof. intros Ha Hadv [Hs Ht Hin _]. apply (auth_kept w); auto. destruct Hs as [? | [? ?]]; auto. Qed.

Lemma auth_frame f r w : alive w -> auth_ok w -> auth_ok (on_frame f r w).
Proof.
  intros Hal Ha. destruct (on_frame_requests f r w) as [Hadv | (ss & s & Hss & Hop & Hsock & Hss' & Hterm & Hin)].
  - destruct (on_frame_flows f r w) as [Hfl | (Hn & _ & s & Hs & Hs')]; [by apply (auth_flows w)|].
    unfold auth_ok. rewrite Hs'. exists (ss_verificationKey s). split_and!; [by eapply hello_established|by left|].
    unfold auth_ok in Ha. rewrite Hn in Ha. intros i t (u & Hu & _)%Hadv. by rewrite Ha in Hu.
  - unfold auth_ok in *. rewrite Hss in Ha. rewrite Hss', Hterm, Hin, Hsock.
    destruct Ha as (key & He & Hk & Hall). exists key. split_and!; [done..|].
    intros i t [Hi | [_ [_ <-]%list_lookup_singleton_Some]]%lookup_app_Some; [by apply (Hall i)|].
    pose proof (opened_granted _ _ _ _ _ Hop) as Hg. destruct Hk as [<- | [Hk Hf]]; [by left|right].
    rewrite Hk in Hg. split; [|done]. unfold alive in Hal. destruct Hf, Hal; congruence.
Qed.

Lemma frame_alive f r w : alive w -> alive (on_frame f r w).
Proof. intros Ha. destruct (on_frame_flows f r w) as [Hfl | (_ & H2 & _)]; [by apply (fl_alive _ _ Hfl)|auto]. Qed.

Lemma auth_chunk frames b w : w_stdin w = true -> auth_ok w -> auth_ok (on_chunk frames b w).
Proof.
  intros Hin Ha. unfold on_chunk. assert (alive w) as Hal by (by left). clear Hin.
  assert (auth_ok (fold_left (fun w f => on_frame f.1 f.2 w) frames w)) as Hf.
  { revert w Ha Hal. induction frames as [|f frames IH]; intros w Ha Hal; [done|].
    apply IH; [by apply auth_frame|by apply frame_alive]. }
  destruct b; [|done]. eapply auth_flows; [exact Hf|apply terminate_advances|apply flows_terminate].
Qed.

Lemma auth_end b w : auth_ok w -> auth_ok (on_end b w).
Proof.
  intros Ha. unfold on_end. set (w1 := if b then terminate w else w).
  assert (auth_ok w1) as Ha1.
  { unfold w1. destruct b; [|done]. by apply (auth_flows w); [|apply terminate_advances|apply flows_terminate]. }
  clearbody w1. pose proof (flows_destroy_streams (set_session (wipe_key <$> w_session w1) w1)) as [G1 G2 _ _].
  apply (auth_kept w1); [done| | |done|done].
  - etrans; [|apply (destroy_streams_advances (set_session (wipe_key <$> w_session w1) w1))]. by apply advances_same.
  - right. split; [|by right]. simpl in *. destruct G1 as [-> | [-> _]]; [done|].
    destruct (w_session w1); [|done]. simpl. by rewrite wipe_twice.
Qed.

Lemma step_flows w w' : worker_step w w' ->
  (exists frames b, w_stdin w = true /\ w' = on_chunk frames b w) \/ (exists b, w' = on_end b w) \/ flows w w'.
Proof.
  intros Hs. destruct Hs as [frames b w Hin|b w Hin|w Hin|i s w Hi Hc Hd|i s n w Hi Hc He Hd|i s w Hi Hc He Hd|i s w Hi Hc|i s w Hi He Hc|i s w Hi He Hd Hc].
  - left. by eexists _, _.
  - right; left. by exists b.
  - right; right. apply flows_terminate.
  - right; right. etrans; [|apply flows_send]. by apply flows_same.
  - right; right. unfold on_data. destruct (_ <? _); [by apply flows_same|].
    etrans; [|apply flows_send]. by apply flows_same.
  - right; right. etrans; [|apply flows_finish]. by apply flows_same.
  - right; right. by apply flows_same.
  - right; right. etrans; [|apply flows_finish]. by apply flows_same.
  - right; right. etrans; [|apply flows_finish]. by apply flows_same.
Qed.

Lemma reachable_auth w : worker_reachable w -> auth_ok w.
Proof.
  apply (rtc_ind_r (fun w => auth_ok w)); [done|]. intros w1 w2 _ Hs Ha.
  destruct (event_advances _ _ Hs) as [(frames & b & Hin & ->) | Hadv]; [by apply auth_chunk|].
  destruct (step_flows _ _ Hs) as [(frames & b & Hin & ->) | [(b & ->) | Hfl]].
  - by apply auth_chunk.
  - by apply auth_end.
  - by apply (auth_flows w1).
Qed.

(** C17. A relay connects only where the router lets it.  Whatever frames arrive, in
    whatever chunks, and however its connections behave: every request has the
    session the router opened for this agent, goes to a port from 1 to
    65535 that is not among those the session's token denies, and was granted
    by a token of the router that names this port and session.  The key of
    the tokens is the one the session was opened with; only once the
    worker is terminating it may be the overwritten one. *)
Theorem relay_connections_granted w i s :
  worker_reachable w -> w_sockets w !! i = Some s ->
  exists ss key, w_session w = Some ss /\ established key ss /\
    (granted key ss s \/ w_terminating w = true /\ granted (wiped key) ss s).
Proof.
  intros Hw Hi. pose proof (reachable_auth w Hw) as Ha. unfold auth_ok in Ha.
  destruct (w_session w) as [ss|]; [|by rewrite Ha in Hi].
  destruct Ha as (key & He & _ & Hall). exists ss, key. split_and!; [done..|by apply (Hall i)].
Qed.

(** ** Closed connections *)




(** ** Refusals *)












(** ** Conversations *)

End Steps.

(** ** An instance *)

Local Open Scope js_scope.

Definition relay_fields : list (jstr * js) :=
  [("effectiveInstanceId", Str "i"); ("enableGeneration", Str "g"); ("containerId", Str "c");
   ("generationDigest", Str "d"); ("relaySessionId", Str "r"); ("denySetDigest", Str "d"); ("rch", Str "d");
   ("iss", Str "ploinky-router"); ("aud", Str "agent"); ("sub", Str "agent"); ("iat", Num (Fin 100));
   ("exp", Num (Fin 130))].

Definition relay_session_payload : js :=
  Obj (relay_fields ++ [("typ", Str "relay-session"); ("deniedPorts", Arr [Num (Fin 9000)]); ("jti", Str "1")]).

Definition relay_request_payload : js :=
  Obj (relay_fields ++ [("typ", Str "relay-request"); ("method", Str "GET"); ("port", Str "80"); ("path", Str "/");
    ("query", Str []); ("bodyMode", Str "none"); ("bodyHash", Str []); ("jti", Str "2")]).

(** Tokens [h.s.x] and [h.q.x], signed with the first byte [x] of the key; all
    digests are [d]. *)
Definition relay_token_host : TokenHost := {|
  base64_bytes s := take 1 s;
  parse_json s :=
    if jeqb s "h" then Some (Obj [("alg", Str "HS256")])
    else if jeqb s "s" then Some relay_session_payload
    else if jeqb s "q" then Some relay_request_payload else None;
  hmac_sha256 key _ := take 1 key
|}.

Definition relay_digest : Sha256Url := fun _ => "d"%js.

Definition relay_agent : RelayHost := {| effective_agent_id := "agent"; buffer_from _ := Err TypeError |}.

Definition hello_frame : frame :=
  Frame (Obj ([("type", Str "HELLO"); ("targetAgentId", Str "agent");
    ("verificationKey", Str (concat (repeat ("61" : jstr) 32))); ("token", Str "h.s.a")] ++ relay_fields)) None.

Definition open_frame (token : jstr) : frame :=
  Frame (Obj [("type", Str "OPEN"); ("requestId", Str "x"); ("port", Str "80"); ("mode", Str "http1");
    ("method", Str "GET"); ("path", Str "/"); ("bodyMode", Str "none"); ("token", Str token);
    ("limits", Obj ((fun name => (name, Num (Fin 10))) <$> LIMITS))]) None.

Notation sample_chunk frames :=
  (on_chunk (H := relay_token_host) (H0 := relay_digest) (H1 := relay_agent)
    ((fun f => (f, at_once 101000)) <$> frames) false initial_worker).

Notation sample_reachable := (worker_reachable (H := relay_token_host) (H0 := relay_digest) (H1 := relay_agent)).

Lemma sample_chunk_reachable frames : sample_reachable (sample_chunk frames).
Proof. apply rtc_once. by apply step_chunk. Qed.

Definition sample_relay : worker := sample_chunk [hello_frame; open_frame "h.q.a"].

(** After a frame that ends the session, the frames of the same chunk are still
    handled, and the overwritten key signs for them: the worker connects. *)
Theorem relay_opens_after_termination :
  let w := sample_chunk [hello_frame; hello_frame; open_frame ("h.q." ++ [0%N])] in
  sample_reachable w /\ w_terminating w = true /\ sk_port <$> w_sockets w = [80%Z].
Proof. split; [apply sample_chunk_reachable|]. by vm_compute. Qed.

Theorem relay_connections_granted_witness :
  exists s ss key, w_sockets sample_relay !! 0%nat = Some s /\ w_session sample_relay = Some ss /\
    established (H := relay_token_host) (H0 := relay_digest) (H1 := relay_agent) key ss /\
    (granted (H := relay_token_host) key ss s \/
     w_terminating sample_relay = true /\ granted (H := relay_token_host) (wiped key) ss s).
Proof.
  assert (exists s, w_sockets sample_relay !! 0%nat = Some s) as [s Hs] by (vm_compute; by eexists).
  destruct (relay_connections_granted sample_relay 0 s (sample_chunk_reachable _) Hs) as (ss & key & H).
  exists s, ss, key. split; [exact Hs|exact H].
Defined.

(** The target connects and sends five bytes. *)
Definition sample_stream (connected : bool) : stream :=
  Stream "x" (open_frame "h.q.a") 80 false 0 0 36 84 0 connected false false false false.

Definition connected_relay : worker := on_connect 0 (sample_stream false) sample_relay.






(** A second OPEN for a request that goes on is answered by ERROR with the identifier
    of the request, which the router takes as its end; the relay carries on, and later
    says more of it. *)
Theorem relay_refusal_names_live_request :
  let w := on_frame (H := relay_token_host) (H0 := relay_digest) (H1 := relay_agent)
    (open_frame "h.q.a") (at_once 101000) connected_relay in
  w_sent w = [SentRejected (Some (Str "x")); SentReady "x"; SentSession] /\
  w_sockets w = w_sockets connected_relay /\ w_streams w = [("x" : jstr, 0%nat)] /\
  w_sent (on_data 0 (sample_stream true) 5 w) =
    [SentData "x" 5; SentRejected (Some (Str "x")); SentReady "x"; SentSession].
Proof. by vm_compute. Qed.
